(* ===== verification/_CoqProject ===== *)
-Q . S2P
Prelude.v
GoStrings.v
Frame.v
Stream.v
Window.v
Wire.v
RelayStream.v
FrameQueue.v
FairWriter.v
GoNet.v
GoCrypto.v
GoFloat.v
Routing.v
ProxyEntry.v
VpnPool.v
VpnPolicy.v
VpnWire.v
VpnFlows.v
VpnRate.v
VpnDenials.v
VpnPeers.v
VpnGateway.v
AuthzCache.v
Socks5.v
SessionManager.v
GoJson.v
TokenScope.v
Credentials.v
GoHmac.v
SecondFactor.v
IdentityStore.v
Login.v
LoginSafety.v
LoginRaces.v
LoginFlow.v
SelfUpdate.v
ReleaseFetch.v
Supervisor.v
