(* ===== verification/Prelude.v ===== *)
(** * TunnelMesh: a Rocq development beside the Go sources

    TunnelMesh connects Clients to services behind Agents through a Server.  An
    Agent keeps WebSocket connections to a Server node; streams are multiplexed
    over them as frames.  A Client or an entry of the Server (HTTP routes, the
    managed proxy, SOCKS5, the WireGuard gateway) asks for a stream to a target
    behind an Agent; the Server authorizes it from a service token, its scope and
    the Agent's policies, picks the Agent's session, and relays bytes under
    flow-control credit.  Operators log in to the Server's console with a password
    and, by policy, a second factor.  Clients and Agents run under a supervisor
    that restarts and upgrades them.

    Every definition is translated from the Go code under [src/internal], named
    after it where possible; definitions are executable.  A 64-bit or shorter Go
    integer is a [Z], its wrap-around or bound written out where the code can
    reach it; a Go string is a list of bytes; [(T, error)] is [result]; a panic is
    [None]; a map is a [gmap], and where Go leaves the iteration order open the
    order is an argument.  Time is an argument in nanoseconds, and so are random
    draws and the answers of the operating system and of services.

    ** Files

    - This file: results and their monad, byte and list lemmas, big-endian
      integers, stable sorting, tactics and hint databases.
    - Go's library as the code uses it: [GoStrings] (strings, strconv), [GoNet]
      (net, netip), [GoCrypto] (base64, SHA-256), [GoHmac] (SHA-1, HMAC, base32),
      [GoFloat] (float64), [GoJson] (UTF-8, encoding/json).
    - The frame protocol, [src/internal/protocol]: [Frame] (frame.go, codec.go),
      [Stream] (stream.go), [Window] (window.go), [Wire] (prefaces, records,
      capabilities).  [RelayStream]: one relayed stream between Server and Agent
      (server/agent_relay_transport.go, agent/session.go).
    - Connections: [FrameQueue] and [FairWriter] (session/), [SessionManager]
      (server/session_manager.go).
    - Routing and entries: [Routing] (routing/), [ProxyEntry] (proxyentry/),
      [Socks5] (proxy/handshake.go, client/socks5_forward.go).
    - The VPN gateway: [VpnPool], [VpnPolicy] (vpn/), [VpnWire], [VpnFlows],
      [VpnRate], [VpnDenials], [VpnPeers] and, composing them, [VpnGateway]
      (server/vpn_*.go).
    - Service tokens: [TokenScope], [Credentials] (auth/credential_service.go,
      storage/repository.go), [AuthzCache] (server/authorization_cache.go).
    - Console logins: [SecondFactor] (auth/password.go, totp.go, recovery_code.go),
      [IdentityStore] (storage/identity_repository.go), [Login] (auth/login_service.go,
      challenge.go, mfa_service.go, device_service.go, policy.go, service.go), with
      their theorems in [LoginSafety], [LoginRaces] and [LoginFlow].
    - Upgrades: [SelfUpdate] (semver/, selfupdate/planner.go, store.go,
      upgrader.go), [ReleaseFetch] (selfupdate/sums.go, fetch.go, extract.go),
      [Supervisor] (supervisor/, reconnect/backoff.go).

    ** State and interleaving

    A component's state is a record and an operation a function on it.  Code that
    locks is modelled at the granularity of its critical sections: the flow table
    with teardowns pending outside its lock, the authorization cache with threads
    inside [Authorize], the session manager with the closing of replaced sessions,
    and identity requests as sequences of transactions ([prog]) that interleave
    freely ([pool_step]).  Objects that are shared by pointer (flows, sessions) live
    in a heap.  The supervisor is proved against the class [Upgrades], of which the
    upgrader is an instance.

    ** What the theorems show

    - Protocol: frames round-trip and the decoder reads exactly one; writing always
      returns and leaves a prefix; the stream machine refines two half-streams; a
      relayed stream conserves credit and never stalls; the writer keeps each lane
      in order; queues are bounded and first-in first-out.
    - Sessions: a frame reaches only the connection generation it was addressed to,
      a stale connection never comes back, and the table is sound in every
      interleaving.
    - Routing and entries: route precedence and host round trips; source lists;
      throttling of failed authentication; a SOCKS5 stream is opened only after a
      complete authenticated handshake, and the two parsers agree.
    - VPN: the parser never panics and reads the headers as they are; what is
      forwarded satisfies the peer's policy and rate; revocation is immediate;
      every datagram is forwarded or counted and audited once; flows are closed
      exactly once; addresses are allocated lowest first.
    - Authorization: the stream decision is exactly a declarative specification;
      revocation is final; the revision guards cached decisions; a cached answer is
      a decision that was made.
    - Logins: under every interleaving a session was earned by a password and, where
      policy asks, a second factor; challenges, one-time codes and recovery codes
      are spent once and guesses are bounded; a login that nothing disturbs
      completes; the throttle engages.  One theorem shows that enrolling again
      drops a confirmed second factor.
    - Upgrades: versions are totally ordered and their names safe as paths; what is
      downloaded is what the checksum file vouches for; a version is confirmed only
      after a healthy trial; a failed one is undone, also across a crash, and stays
      down while its mark holds; the supervisor gives up exactly when it should,
      except in a state in which the update directory cannot be written.

    ** Bounds and fuel

    Recursion that is not structural carries fuel, set to a bound of the loop:
    [Itoa] has a binary digit per decimal one, [writeFull] the length of its
    buffer, the JSON scanner and encoder and the address and record readers a
    multiple of the length of their text, the one's-complement sums of [VpnWire]
    the three folds a sum of a datagram needs.  [AuthorizeStream] reads policies
    page by page and takes its fuel as an argument; its theorem says that a page
    per row of the table, and one more, is enough.  A blocking call is one pass over
    the locked region; a loop that never ends ([Run], a read loop) is a function on
    the finite sequence of events it meets, with theorems for every such sequence.

    ** Parameters

    Argon2id, the secret provider, the Unicode tables beyond ASCII, the WireGuard
    device, the archive readers, the stream opener and the remote validator of a
    SOCKS5 listener are arguments or classes; where a theorem assumes something of
    them it is a named hypothesis, met by a concrete function in its witness.

    ** Not modelled

    - Sockets, WebSocket and gRPC plumbing, goroutine start-up and shutdown, the
      accept and read loops around the modelled handlers, and the gVisor stack
      under the VPN relays: input and output around libraries, with no decision of
      their own that the modelled parts do not take.
    - The HTTP handlers of the management API, the sweepers and the services behind
      them (accounts, OIDC providers, bootstrap): translations between JSON and
      repository calls of the kind modelled in [Credentials] and [IdentityStore].
    - SQL itself: a repository method is its effect on tables; migrations and the
      repositories no modelled decision reads are left out.
    - The registries (etcd, database), the node relay and its selection of nodes:
      they depend on the consistency of external stores.
    - Configuration reading, host inventory, metrics, tracing, the command line and
      the tray; the web console.
    - Operating system processes and the HTTP clients of the release sources; their
      outcomes are arguments of [Supervisor], [SelfUpdate] and [ReleaseFetch]. *)

From stdpp Require Import base list gmap strings sorting relations.
From Stdlib Require Import Ascii.
Local Open Scope Z_scope.

(** ** Notations and scopes *)

Declare Scope tm_scope.
Delimit Scope tm_scope with tm.

(** A Go [byte] is an 8-bit value; [ascii] is intrinsically bounded, so wire
    data and Go strings (immutable byte sequences) need no well-formedness
    side condition. *)
Notation byte := ascii (only parsing).
Notation bytes := (list ascii) (only parsing).

(** A Go string literal. *)
Notation "# s" := (String.list_ascii_of_string s%string)
  (at level 1, s at level 0, format "# s") : tm_scope.
Open Scope tm_scope.

(** ** Results of fallible Go functions: [(T, error)] *)

Inductive result (A E : Type) : Type :=
| Ok (a : A)
| Err (e : E).
Arguments Ok {A E} a.
Arguments Err {A E} e.

Definition rbind {A B E} (m : result A E) (k : A -> result B E) : result B E :=
  match m with
  | Ok a => k a
  | Err e => Err e
  end.

Definition is_ok {A E} (m : result A E) : bool :=
  match m with Ok _ => true | Err _ => false end.

Notation "'let!' x := m 'in' k" := (rbind m (fun x => k))
  (at level 200, x pattern, m at level 100, k at level 200, right associativity)
  : tm_scope.

#[global] Instance result_eq_dec {A E} `{EqDecision A, EqDecision E} :
  EqDecision (result A E).
Proof. solve_decision. Defined.

(** Injectivity without the simplification [injection] performs. *)
Lemma Ok_inj {A E} (a b : A) : @Ok A E a = Ok b -> a = b.
Proof. intros H. exact (f_equal (fun r => match r with Ok x => x | Err _ => a end) H). Qed.

(** ** Tactics of the development *)

(** Split every boolean test and every [match] the goal or a hypothesis is
    stuck on, then solve the arithmetic or contradictory leaves. *)
Ltac split_bools :=
  repeat match goal with
  | H : andb _ _ = true |- _ => apply andb_prop in H as [? ?]
  | H : orb _ _ = false |- _ => apply orb_false_elim in H as [? ?]
  | H : negb _ = true |- _ => apply negb_true_iff in H
  | H : negb _ = false |- _ => apply negb_false_iff in H
  | H : (_ <? _) = true |- _ => apply Z.ltb_lt in H
  | H : (_ <? _) = false |- _ => apply Z.ltb_ge in H
  | H : (_ <=? _) = true |- _ => apply Z.leb_le in H
  | H : (_ <=? _) = false |- _ => apply Z.leb_gt in H
  | H : (_ >? _) = true |- _ => rewrite Z.gtb_ltb in H
  | H : (_ >? _) = false |- _ => rewrite Z.gtb_ltb in H
  | H : (_ >=? _) = true |- _ => rewrite Z.geb_leb in H
  | H : (_ >=? _) = false |- _ => rewrite Z.geb_leb in H
  | H : (_ =? _) = true |- _ => apply Z.eqb_eq in H
  | H : (_ =? _) = false |- _ => apply Z.eqb_neq in H
  | H : bool_decide _ = true |- _ => apply bool_decide_eq_true_1 in H
  | H : bool_decide _ = false |- _ => apply bool_decide_eq_false_1 in H
  end.

(** Case split on the outermost [if]/[match] of the goal, remembering it. *)
Ltac case_goal :=
  match goal with
  | |- context [ match ?x with _ => _ end ] =>
      lazymatch x with
      | context [ match _ with _ => _ end ] => fail
      | _ => destruct x eqn:?
      end
  end.

Ltac case_hyp H :=
  match type of H with
  | context [ match ?x with _ => _ end ] =>
      lazymatch x with
      | context [ match _ with _ => _ end ] => fail
      | _ => destruct x eqn:?
      end
  end.

(** Replace the boolean comparisons of the goal by the value [lia] finds. *)
Ltac zbool :=
  repeat match goal with
  | |- context [?a >? ?b] =>
      first [replace (a >? b) with false by lia | replace (a >? b) with true by lia]
  | |- context [?a <? ?b] =>
      first [replace (a <? b) with false by lia | replace (a <? b) with true by lia]
  | |- context [?a <=? ?b] =>
      first [replace (a <=? b) with false by lia | replace (a <=? b) with true by lia]
  | |- context [?a >=? ?b] =>
      first [replace (a >=? b) with false by lia | replace (a >=? b) with true by lia]
  | |- context [?a =? ?b] =>
      first [replace (a =? b) with false by lia | replace (a =? b) with true by lia]
  end.

(** Closed decidable facts, by computation. *)
Ltac ground :=
  repeat (hnf; match goal with |- _ /\ _ => split end);
  vm_compute; first [reflexivity | discriminate | tauto].

Create HintDb tm.

(** ** Time

    Instants and durations are nanoseconds. *)

Definition Second : Z := 1000000000.

(** [Time.Sub] saturates at the bounds of int64. *)
Definition Sub (t u : Z) : Z := Z.max (- 2 ^ 63) (Z.min (2 ^ 63 - 1) (t - u)).

(** ** Machine integers *)

Definition max_uint8 : Z := 255.
Definition max_uint16 : Z := 65535.
Definition max_uint32 : Z := 4294967295.

(** Conversion to an unsigned [w]-bit integer: Go truncates. *)
Definition uint (w : Z) (z : Z) : Z := z mod 2 ^ w.

Lemma uint_small w z : 0 <= z < 2 ^ w -> uint w z = z.
Proof. apply Z.mod_small. Qed.

Lemma uint_range w z : 0 <= w -> 0 <= uint w z < 2 ^ w.
Proof. intros. apply Z.mod_pos_bound. apply Z.pow_pos_nonneg; lia. Qed.

(** ** Bytes *)

Definition byte_val (b : byte) : Z := Z.of_N (N_of_ascii b).
Definition byte_of (z : Z) : byte := ascii_of_N (Z.to_N (z mod 256)).

Lemma byte_val_range b : 0 <= byte_val b < 256.
Proof. unfold byte_val. pose proof (N_ascii_bounded b). lia. Qed.

Lemma byte_val_of z : byte_val (byte_of z) = z mod 256.
Proof.
  unfold byte_val, byte_of.
  pose proof (Z.mod_pos_bound z 256 ltac:(lia)).
  rewrite N_ascii_embedding by lia. lia.
Qed.

Lemma byte_of_val b : byte_of (byte_val b) = b.
Proof.
  unfold byte_of, byte_val. pose proof (N_ascii_bounded b).
  rewrite Z.mod_small by lia. rewrite N2Z.id. apply ascii_N_embedding.
Qed.

Lemma byte_val_inj a b : byte_val a = byte_val b -> a = b.
Proof. intros H. rewrite <- (byte_of_val a), H. apply byte_of_val. Qed.

#[export] Hint Resolve byte_val_range : tm.
#[export] Hint Rewrite byte_val_of byte_of_val : tm.

(** ** Big-endian integers ([encoding/binary]'s [BigEndian]) *)

Definition be_get (l : bytes) : Z :=
  foldl (fun acc b => acc * 256 + byte_val b) 0 l.

Fixpoint be_put (n : nat) (v : Z) : bytes :=
  match n with
  | O => []
  | S n' => be_put n' (v / 256) ++ [byte_of v]
  end.

Lemma length_be_put n v : length (be_put n v) = n.
Proof.
  revert v; induction n as [|n IH]; intros v; simpl; [done|].
  rewrite length_app, IH. simpl. lia.
Qed.

Lemma be_get_snoc l b : be_get (l ++ [b]) = be_get l * 256 + byte_val b.
Proof. unfold be_get. by rewrite foldl_app. Qed.

Lemma be_get_put n v : be_get (be_put n v) = v mod 256 ^ Z.of_nat n.
Proof.
  revert v; induction n as [|n IH]; intros v.
  { cbn -[Z.modulo]. by rewrite Z.mod_1_r. }
  cbn [be_put]. rewrite be_get_snoc, IH, byte_val_of.
  rewrite Nat2Z.inj_succ, Z.pow_succ_r by lia.
  rewrite Z.rem_mul_r by (try apply Z.pow_nonzero; lia). lia.
Qed.

Lemma be_get_put_small n v :
  0 <= v < 256 ^ Z.of_nat n -> be_get (be_put n v) = v.
Proof. intros. rewrite be_get_put. by apply Z.mod_small. Qed.

Lemma be_get_range l : 0 <= be_get l < 256 ^ Z.of_nat (length l).
Proof.
  induction l as [|b l IH] using rev_ind; [cbn; lia|].
  rewrite be_get_snoc, length_app. cbn [length].
  replace (Z.of_nat (length l + 1)) with (Z.succ (Z.of_nat (length l))) by lia.
  rewrite Z.pow_succ_r by lia. pose proof (byte_val_range b). nia.
Qed.

Lemma be_put_get l : be_put (length l) (be_get l) = l.
Proof.
  induction l as [|b l IH] using rev_ind; [done|].
  rewrite be_get_snoc, length_app. cbn [length].
  rewrite Nat.add_1_r. cbn [be_put].
  pose proof (byte_val_range b).
  rewrite Z.div_add_l, (Z.div_small (byte_val b)), Z.add_0_r, IH by lia.
  f_equal. f_equal. unfold byte_of.
  rewrite Z.add_comm, Z.mod_add by lia.
  apply (byte_of_val b).
Qed.

Lemma be_put_get' n l : length l = n -> be_put n (be_get l) = l.
Proof. intros <-. apply be_put_get. Qed.

#[export] Hint Rewrite length_be_put : tm.

(** ** Lists *)

(** [l[i:j]] of an in-range slice expression. *)
Definition slice {A} (i j : nat) (l : list A) : list A := take (j - i) (drop i l).

Lemma length_slice {A} i j (l : list A) :
  (i <= j)%nat -> (j <= length l)%nat -> length (slice i j l) = (j - i)%nat.
Proof. intros. unfold slice. rewrite length_take, length_drop. lia. Qed.

Lemma slice_app_l {A} i j (l k : list A) :
  (i <= j)%nat -> (j <= length l)%nat -> slice i j (l ++ k) = slice i j l.
Proof.
  intros. unfold slice. rewrite drop_app_le by lia.
  apply take_app_le. rewrite length_drop. lia.
Qed.

Lemma slice_app_r {A} i j (l k : list A) :
  (length l <= i)%nat ->
  slice i j (l ++ k) = slice (i - length l) (j - length l) k.
Proof.
  intros. unfold slice. rewrite drop_app_ge by lia.
  f_equal. lia.
Qed.

Lemma slice_full {A} (l : list A) : slice 0 (length l) l = l.
Proof. unfold slice. rewrite drop_0, Nat.sub_0_r. apply firstn_all. Qed.

Lemma slice_full' {A} n (l : list A) : length l = n -> slice 0 n l = l.
Proof. intros <-. apply slice_full. Qed.

(** Sum of an integer measure over a list. *)
Definition zsum {A} (f : A -> Z) (l : list A) : Z := foldr (fun x acc => f x + acc) 0 l.

Lemma zsum_cons {A} (f : A -> Z) x l : zsum f (x :: l) = f x + zsum f l.
Proof. done. Qed.

Lemma zsum_app {A} (f : A -> Z) l k : zsum f (l ++ k) = zsum f l + zsum f k.
Proof. induction l as [|x l IH]; simpl; lia. Qed.

Lemma zsum_nonneg {A} (f : A -> Z) l : (forall x, 0 <= f x) -> 0 <= zsum f l.
Proof. intros Hf. induction l as [|x l IH]; simpl; [lia|]. specialize (Hf x). lia. Qed.

Lemma zsum_ext {A} (f g : A -> Z) l :
  (forall x, x ∈ l -> f x = g x) -> zsum f l = zsum g l.
Proof.
  induction l as [|x l IH]; intros H; simpl; [done|].
  rewrite (H x), IH; [done| |]; set_solver.
Qed.

Lemma zsum_perm {A} (f : A -> Z) l k : l ≡ₚ k -> zsum f l = zsum f k.
Proof. induction 1; simpl; lia. Qed.

Lemma zsum_elem_le {A} (f : A -> Z) l x :
  (forall y, 0 <= f y) -> x ∈ l -> f x <= zsum f l.
Proof.
  intros Hf. induction l as [|y l IH]; [set_solver|].
  rewrite elem_of_cons. intros [->|Hx]; simpl.
  - pose proof (zsum_nonneg f l Hf). lia.
  - specialize (IH Hx). specialize (Hf y). lia.
Qed.
#[global] Arguments zsum {A} f l : simpl never.

Lemma zsum_nil {A} (f : A -> Z) : zsum f [] = 0.
Proof. done. Qed.

(** ** Reachable states *)

Lemma rtc_preserve {A} (R : relation A) (P : A -> Prop) x y :
  (forall x y, P x -> R x y -> P y) -> P x -> rtc R x y -> P y.
Proof. intros Hs Hx Hr. induction Hr as [|x y z Hxy _ IH]; [done|]. apply IH. by eapply Hs. Qed.

(** ** Sums over the values of a map *)

Definition msum {K A} `{Countable K} (f : A -> Z) (m : gmap K A) : Z := zsum (fun kv => f kv.2) (map_to_list m).

Section msum.
Context {K A : Type} `{Countable K}.
Implicit Types (f g : A -> Z) (m : gmap K A).

Lemma msum_empty f : msum f (∅ : gmap K A) = 0.
Proof. unfold msum. by rewrite map_to_list_empty. Qed.

Lemma msum_fresh f m k x : m !! k = None -> msum f (<[k := x]> m) = f x + msum f m.
Proof. intros Hk. unfold msum. by rewrite (zsum_perm _ _ _ (map_to_list_insert m k x Hk)), zsum_cons. Qed.

Lemma msum_delete f m k x : m !! k = Some x -> msum f m = f x + msum f (delete k m).
Proof.
  intros Hk. rewrite <- (insert_delete_id m k x Hk) at 1. by rewrite msum_fresh by apply lookup_delete_eq.
Qed.

Lemma msum_insert f m k x y : m !! k = Some x -> msum f (<[k := y]> m) = msum f m - f x + f y.
Proof.
  intros Hk. rewrite <- insert_delete_eq, msum_fresh by apply lookup_delete_eq. rewrite (msum_delete f m k x Hk). lia.
Qed.

Lemma msum_opp f m : msum (fun x => - f x) m = - msum f m.
Proof. unfold msum. induction (map_to_list m) as [|p l IH]; [done|]. rewrite !zsum_cons, IH. lia. Qed.

(** A bound per entry bounds the sum. *)
Lemma msum_shift f g m c : (forall k x, m !! k = Some x -> f x <= g x + c) -> msum f m <= msum g m + c * Z.of_nat (size m).
Proof.
  intros Hfg. induction m as [|k x m Hk IH] using map_ind; [rewrite !msum_empty, map_size_empty; lia|].
  rewrite !msum_fresh, map_size_insert_None by done. specialize (Hfg k x (lookup_insert_eq _ _ _)) as Hx.
  assert (msum f m <= msum g m + c * Z.of_nat (size m)); [|lia].
  apply IH. intros k' x' Hk'. apply (Hfg k'). rewrite lookup_insert_ne; [done|]. intros ->. congruence.
Qed.

Lemma msum_nonneg f m : (forall k x, m !! k = Some x -> 0 <= f x) -> 0 <= msum f m.
Proof.
  intros Hf. induction m as [|k x m Hk IH] using map_ind; [by rewrite msum_empty|].
  rewrite msum_fresh by done. specialize (Hf k x (lookup_insert_eq _ _ _)) as Hx.
  assert (0 <= msum f m); [|lia]. apply IH. intros k' x' Hk'. apply (Hf k'). rewrite lookup_insert_ne; [done|]. intros ->. congruence.
Qed.
End msum.
#[global] Arguments msum {K A _ _} f m : simpl never.

(** ** Stable sorting

    Go's [sort.SliceStable] is determined by its result: the stable insertion
    sort below.  [sort.Strings], [sort.Ints] and [sort.Slice] are used by the
    program on total orders, where every sort returns the same list. *)
Section sorting.
Context {A : Type} (less : A -> A -> bool).

Fixpoint insert_by (x : A) (l : list A) : list A :=
  match l with
  | [] => [x]
  | y :: l' => if less y x then y :: insert_by x l' else x :: y :: l'
  end.

Fixpoint sort_by (l : list A) : list A :=
  match l with
  | [] => []
  | x :: l' => insert_by x (sort_by l')
  end.

Lemma insert_by_perm x l : insert_by x l ≡ₚ x :: l.
Proof.
  induction l as [|y l IH]; simpl; [done|].
  destruct (less y x); [|done]. rewrite IH. constructor.
Qed.

Lemma sort_by_perm l : sort_by l ≡ₚ l.
Proof. induction l as [|x l IH]; simpl; [done|]. by rewrite insert_by_perm, IH. Qed.

(** [ge a b]: [b] is not strictly below [a]. *)
Definition not_less (a b : A) : Prop := less b a = false.

Hypothesis less_asym : forall a b, less a b = true -> less b a = false.
Hypothesis less_trans_false :
  forall a b c, less b a = false -> less c b = false -> less c a = false.

Lemma insert_by_sorted x l :
  StronglySorted not_less l -> StronglySorted not_less (insert_by x l).
Proof.
  induction l as [|y l IH]; intros Hs; simpl; [repeat constructor|].
  inversion_clear Hs as [|? ? Hs' Hall].
  destruct (less y x) eqn:E.
  - constructor; [by apply IH|].
    rewrite insert_by_perm. constructor; [|done].
    unfold not_less. by apply less_asym.
  - constructor; [by constructor|].
    constructor; [done|].
    eapply Forall_impl; [exact Hall|].
    unfold not_less. intros z Hz. by eapply less_trans_false.
Qed.

Lemma sort_by_sorted l : StronglySorted not_less (sort_by l).
Proof. induction l as [|x l IH]; simpl; [constructor|]. by apply insert_by_sorted. Qed.

(** The head of the sorted list is a minimum of the input. *)
Lemma sort_by_head_min l x k :
  sort_by l = x :: k -> x ∈ l /\ forall y, y ∈ l -> less y x = false.
Proof.
  intros E. pose proof (sort_by_sorted l) as Hs.
  pose proof (sort_by_perm l) as Hp. rewrite E in Hs, Hp.
  split.
  { rewrite <- Hp. set_solver. }
  intros y Hy. rewrite <- Hp in Hy.
  inversion_clear Hs as [|? ? Hs' Hall].
  apply elem_of_cons in Hy as [->|Hy].
  - destruct (less x x) eqn:Exx; [|done].
    by rewrite (less_asym _ _ Exx) in Exx.
  - rewrite Forall_forall in Hall. by apply Hall.
Qed.

Lemma sort_by_nil_inv l : sort_by l = [] -> l = [].
Proof. intros E. pose proof (sort_by_perm l) as Hp. rewrite E in Hp. by apply Permutation_nil_l in Hp. Qed.

(** On a list whose order is antisymmetric the result does not depend on the
    order of the input. *)
Lemma sort_by_unique l k :
  (forall a b, a ∈ l -> b ∈ l -> less a b = false -> less b a = false -> a = b) ->
  l ≡ₚ k -> sort_by l = sort_by k.
Proof.
  intros Hanti Hp.
  apply (StronglySorted_unique_strong not_less).
  - intros a b Ha Hb. rewrite sort_by_perm in Ha. rewrite sort_by_perm, <- Hp in Hb.
    unfold not_less. intros. by apply Hanti.
  - apply sort_by_sorted.
  - apply sort_by_sorted.
  - by rewrite !sort_by_perm.
Qed.
End sorting.

(** ** Readers ([io.Reader] with [io.ReadFull])

    An input is the byte sequence the peer will deliver before it closes. *)

Inductive io_error := EOF | ErrUnexpectedEOF | ErrShortWrite | ErrClosedPipe.

#[global] Instance io_error_eq_dec : EqDecision io_error.
Proof. solve_decision. Defined.

(** [io.ReadFull]: exactly [n] bytes or an error; a short input is consumed. *)
Definition ReadFull (n : nat) (input : bytes) : result bytes io_error * bytes :=
  if decide (n <= length input)%nat then (Ok (take n input), drop n input)
  else (Err (match input with [] => EOF | _ => ErrUnexpectedEOF end), []).

Lemma ReadFull_app n l rest : length l = n -> ReadFull n (l ++ rest) = (Ok l, rest).
Proof.
  intros <-. unfold ReadFull. rewrite decide_True by (rewrite length_app; lia).
  by rewrite take_app_length, drop_app_length.
Qed.

Lemma ReadFull_Ok n input l rest :
  ReadFull n input = (Ok l, rest) -> input = l ++ rest /\ length l = n.
Proof.
  unfold ReadFull. case_decide as Hn; [|done].
  intros [= <- <-]. split; [by rewrite take_drop|]. rewrite length_take. lia.
Qed.

(** What a read leaves is a suffix of what it was given. *)
Lemma ReadFull_rest n input r rest :
  ReadFull n input = (r, rest) ->
  exists used, input = used ++ rest /\ (length used <= n)%nat.
Proof.
  unfold ReadFull. case_decide as Hn; intros [= <- <-].
  - exists (take n input). rewrite take_drop. split; [done|]. rewrite length_take. lia.
  - exists input. rewrite app_nil_r. split; [done|lia].
Qed.
