(* ===== verification/GoStrings.v ===== *)
(** * Go's [strings] and [strconv], as far as the program uses them

    Strings are byte sequences.  The functions below follow the standard
    library's byte-level code; where that code leaves the ASCII fast path for
    the Unicode tables, the table-driven function is a member of the class
    [GoUnicode], so every theorem that mentions it holds for all tables. *)

From stdpp Require Import base list sets strings.
From Stdlib Require Import Ascii.
From S2P Require Import Prelude.
Local Open Scope Z_scope.

(** ** Characters *)

Definition is_digit (c : byte) : bool := (48 <=? byte_val c) && (byte_val c <=? 57).
Definition is_lower (c : byte) : bool := (97 <=? byte_val c) && (byte_val c <=? 122).
Definition is_upper (c : byte) : bool := (65 <=? byte_val c) && (byte_val c <=? 90).
Definition is_ascii_byte (c : byte) : bool := byte_val c <? 128.

(** [asciiSpace]: tab, LF, VT, FF, CR and space. *)
Definition is_space (c : byte) : bool :=
  ((9 <=? byte_val c) && (byte_val c <=? 13)) || (byte_val c =? 32).

Definition beq (a b : byte) : bool := bool_decide (a = b).
Definition seq_eqb (a b : bytes) : bool := bool_decide (a = b).

Definition dot : byte := "."%char.
Definition dash : byte := "-"%char.
Definition comma : byte := ","%char.
Definition colon : byte := ":"%char.
Definition slash : byte := "/"%char.

Definition lower_byte (c : byte) : byte :=
  if is_upper c then byte_of (byte_val c + 32) else c.

Definition upper_byte (c : byte) : byte :=
  if is_lower c then byte_of (byte_val c - 32) else c.

Definition isASCII (s : bytes) : bool := forallb is_ascii_byte s.

(** ** Unicode-table functions *)

Class GoUnicode := {
  (** [strings.Map(unicode.ToLower, s)] *)
  map_to_lower : bytes -> bytes;
  (** [strings.Map(unicode.ToUpper, s)] *)
  map_to_upper : bytes -> bytes;
  (** [strings.TrimFunc(s, unicode.IsSpace)] *)
  trim_func_space : bytes -> bytes;
  (** [strings.TrimRightFunc(s, unicode.IsSpace)] *)
  trim_right_func_space : bytes -> bytes;
  (** The rune loop of [strings.EqualFold] *)
  equal_fold_runes : bytes -> bytes -> bool;
}.

(** Tables restricted to ASCII, to evaluate definitions on concrete inputs. *)
Definition ascii_unicode : GoUnicode :=
  {| map_to_lower s := lower_byte <$> s; map_to_upper s := upper_byte <$> s; trim_func_space s := s; trim_right_func_space s := s;
     equal_fold_runes s t := bool_decide (lower_byte <$> s = lower_byte <$> t) |}.

Section strings.
Context `{GoUnicode}.

Definition ToLower (s : bytes) : bytes :=
  if isASCII s then lower_byte <$> s else map_to_lower s.

Definition ToUpper (s : bytes) : bytes :=
  if isASCII s then upper_byte <$> s else map_to_upper s.

(** The trailing scan of [TrimSpace]; it runs on the reversed string. *)
Fixpoint trim_right_rev (r : bytes) : bytes :=
  match r with
  | [] => []
  | c :: r' =>
      if negb (is_ascii_byte c) then trim_right_func_space (reverse r)
      else if is_space c then trim_right_rev r' else reverse r
  end.

Fixpoint TrimSpace (s : bytes) : bytes :=
  match s with
  | [] => []
  | c :: s' =>
      if negb (is_ascii_byte c) then trim_func_space s
      else if is_space c then TrimSpace s' else trim_right_rev (reverse s)
  end.

(** [strings.EqualFold]: bytes are compared up to ASCII case until one of them
    is not ASCII. *)
Fixpoint EqualFold (s t : bytes) : bool :=
  match s, t with
  | [], [] => true
  | a :: s', b :: t' =>
      if negb (is_ascii_byte a && is_ascii_byte b) then equal_fold_runes s t
      else bool_decide (lower_byte a = lower_byte b) && EqualFold s' t'
  | _, _ => false
  end.
End strings.

(** ** Prefixes, suffixes, searching *)

Fixpoint HasPrefix (s p : bytes) {struct p} : bool :=
  match p, s with
  | [], _ => true
  | c :: p', d :: s' => beq c d && HasPrefix s' p'
  | _ :: _, [] => false
  end.

Definition HasSuffix (s p : bytes) : bool := HasPrefix (reverse s) (reverse p).

Definition TrimPrefix (s p : bytes) : bytes :=
  if HasPrefix s p then drop (length p) s else s.

Definition TrimSuffix (s p : bytes) : bytes :=
  if HasSuffix s p then take (length s - length p) s else s.

(** [strings.Contains(s, string(c))] for a one-byte needle. *)
Definition ContainsByte (s : bytes) (c : byte) : bool := existsb (beq c) s.

(** [strings.Contains(s, p)]. *)
Fixpoint Contains (s p : bytes) : bool :=
  HasPrefix s p || match s with [] => false | _ :: s' => Contains s' p end.

(** [strings.Count(s, string(c))]. *)
Definition CountByte (s : bytes) (c : byte) : nat := length (filter (fun x => x = c) s).

(** [strings.IndexByte], [None] for -1. *)
Fixpoint IndexByte (s : bytes) (c : byte) : option nat :=
  match s with
  | [] => None
  | d :: s' => if beq c d then Some O else S <$> IndexByte s' c
  end.

(** [strings.Cut] at a one-byte separator. *)
Fixpoint Cut (s : bytes) (c : byte) : bytes * bytes * bool :=
  match s with
  | [] => ([], [], false)
  | d :: s' =>
      if beq c d then ([], s', true)
      else let '(a, b, f) := Cut s' c in (d :: a, b, f)
  end.

(** [strings.Split] at a one-byte separator. *)
Fixpoint Split (s : bytes) (c : byte) : list bytes :=
  match s with
  | [] => [[]]
  | d :: s' =>
      if beq c d then [] :: Split s' c
      else match Split s' c with
           | [] => [[d]]
           | x :: xs => (d :: x) :: xs
           end
  end.

(** [strings.Join] with a one-byte separator. *)
Fixpoint Join (l : list bytes) (c : byte) : bytes :=
  match l with
  | [] => []
  | [x] => x
  | x :: l' => x ++ c :: Join l' c
  end.

(** [strings.EqualFold] on operands of which one is ASCII without the letters
    [k] and [s] (the only ASCII letters with a non-ASCII fold), or which have
    equal byte lengths: ASCII case folding. *)
Definition ascii_EqualFold (a b : bytes) : bool :=
  seq_eqb (lower_byte <$> a) (lower_byte <$> b).

(** Byte-wise lexicographic order: Go's [<] on strings. *)
Fixpoint str_ltb (a b : bytes) : bool :=
  match a, b with
  | _, [] => false
  | [], _ :: _ => true
  | x :: a', y :: b' =>
      if byte_val x <? byte_val y then true
      else if byte_val y <? byte_val x then false
      else str_ltb a' b'
  end.

(** ** [strconv] *)

Fixpoint parse_digits (acc : Z) (s : bytes) : option Z :=
  match s with
  | [] => Some acc
  | c :: s' => if is_digit c then parse_digits (acc * 10 + (byte_val c - 48)) s' else None
  end.

Definition max_int64 : Z := 9223372036854775807.
Definition min_int64 : Z := -9223372036854775808.

(** [strconv.Atoi] on a 64-bit platform; [None] for any error. *)
Definition Atoi (s : bytes) : option Z :=
  let '(neg, ds) :=
    match s with
    | c :: s' => if beq c "-"%char then (true, s')
                 else if beq c "+"%char then (false, s') else (false, s)
    | [] => (false, s)
    end in
  match ds with
  | [] => None
  | _ =>
      match parse_digits 0 ds with
      | Some n =>
          let v := if neg then - n else n in
          if (min_int64 <=? v) && (v <=? max_int64) then Some v else None
      | None => None
      end
  end.

Fixpoint digits_of (fuel : nat) (n : Z) : bytes :=
  match fuel with
  | O => []
  | S f => (if n <? 10 then [] else digits_of f (n / 10)) ++ [byte_of (48 + n mod 10)]
  end.

(** [strconv.Itoa]; the fuel is the number of binary digits, at least the
    number of decimal ones. *)
Definition Itoa (n : Z) : bytes :=
  if n <? 0 then "-"%char :: digits_of (S (Z.to_nat (Z.log2 (- n)))) (- n)
  else digits_of (S (Z.to_nat (Z.log2 n))) n.

(** [hex.EncodeToString] *)
Definition lower_hex (v : Z) : byte := if v <? 10 then byte_of (48 + v) else byte_of (87 + v).
Definition hex_bytes (s : bytes) : bytes := s ≫= fun b => [lower_hex (byte_val b / 16); lower_hex (byte_val b mod 16)].

(** ** Lemmas *)

Lemma beq_refl c : beq c c = true.
Proof. unfold beq. by rewrite bool_decide_eq_true_2. Qed.

Lemma beq_eq a b : beq a b = true <-> a = b.
Proof. unfold beq. apply bool_decide_eq_true. Qed.

Lemma beq_neq a b : beq a b = false <-> a <> b.
Proof. unfold beq. apply bool_decide_eq_false. Qed.

Lemma seq_eqb_eq a b : seq_eqb a b = true <-> a = b.
Proof. unfold seq_eqb. apply bool_decide_eq_true. Qed.

Lemma seq_eqb_neq a b : seq_eqb a b = false <-> a <> b.
Proof. unfold seq_eqb. apply bool_decide_eq_false. Qed.

Lemma seq_eqb_refl a : seq_eqb a a = true.
Proof. by apply seq_eqb_eq. Qed.

Lemma HasPrefix_spec s p : HasPrefix s p = true <-> exists k, s = p ++ k.
Proof.
  revert s; induction p as [|c p IH]; intros s; simpl.
  - split; [intros _; by exists s|done].
  - destruct s as [|d s]; [split; [done|intros [? [=]]]|].
    rewrite andb_true_iff, beq_eq, IH. split.
    + intros [-> [k ->]]. by exists k.
    + intros [k [= -> ->]]. eauto.
Qed.

Lemma HasSuffix_spec s p : HasSuffix s p = true <-> exists k, s = k ++ p.
Proof.
  unfold HasSuffix. rewrite HasPrefix_spec. split; intros [k E].
  - exists (reverse k). rewrite <- (reverse_involutive s), E, reverse_app.
    by rewrite reverse_involutive.
  - exists (reverse k). by rewrite E, reverse_app.
Qed.

Lemma HasPrefix_app s k : HasPrefix (s ++ k) s = true.
Proof. apply HasPrefix_spec. eauto. Qed.

Lemma HasSuffix_app s k : HasSuffix (k ++ s) s = true.
Proof. apply HasSuffix_spec. eauto. Qed.

Lemma TrimPrefix_app p s : TrimPrefix (p ++ s) p = s.
Proof. unfold TrimPrefix. by rewrite HasPrefix_app, drop_app_length. Qed.

Lemma TrimSuffix_app s p : TrimSuffix (s ++ p) p = s.
Proof.
  unfold TrimSuffix. rewrite HasSuffix_app, length_app.
  apply take_app_length'. lia.
Qed.

Lemma TrimSuffix_inv s p :
  TrimSuffix s p = s \/ s = TrimSuffix s p ++ p.
Proof.
  unfold TrimSuffix. destruct (HasSuffix s p) eqn:E; [right|by left].
  apply HasSuffix_spec in E as [k ->].
  rewrite length_app, take_app_length' by lia. done.
Qed.

Lemma ContainsByte_spec s c : ContainsByte s c = true <-> c ∈ s.
Proof.
  unfold ContainsByte. rewrite existsb_exists. split.
  - intros [x [Hx Hc]]. apply beq_eq in Hc as ->. by apply list_elem_of_In.
  - intros Hc. exists c. split; [by apply list_elem_of_In|apply beq_refl].
Qed.

Lemma ContainsByte_false s c : ContainsByte s c = false <-> c ∉ s.
Proof. rewrite <- ContainsByte_spec. by destruct (ContainsByte s c). Qed.

Lemma Split_not_nil s c : Split s c <> [].
Proof. destruct s as [|d s]; simpl; [done|]. destruct (beq c d); [done|]. by destruct (Split s c). Qed.

Lemma Join_cons x l c : l <> [] -> Join (x :: l) c = x ++ c :: Join l c.
Proof. by destruct l. Qed.

Lemma Join_snoc l x c : l <> [] -> Join (l ++ [x]) c = Join l c ++ c :: x.
Proof.
  induction l as [|y l IH]; [done|]. intros _. destruct l as [|z l]; [done|].
  change ((y :: z :: l) ++ [x]) with (y :: (z :: l) ++ [x]).
  rewrite (Join_cons y ((z :: l) ++ [x])), (Join_cons y (z :: l)), IH by done.
  by rewrite <- (assoc_L (++)).
Qed.

Lemma Join_bytes (P : byte -> Prop) ls c :
  P c -> Forall (fun l => Forall P l) ls -> Forall P (Join ls c).
Proof.
  intros Hc Hls. induction Hls as [|l ls Hl Hls IH]; [constructor|].
  destruct ls; [done|]. rewrite Join_cons by done. apply Forall_app. split; [done|by constructor].
Qed.

Lemma Join_Split s c : Join (Split s c) c = s.
Proof.
  induction s as [|d s IH]; [done|]. simpl.
  destruct (beq c d) eqn:E.
  - apply beq_eq in E as ->. rewrite Join_cons by apply Split_not_nil. by rewrite IH.
  - pose proof (Split_not_nil s c). destruct (Split s c) as [|x xs]; [done|].
    destruct xs; simpl in *; by rewrite IH.
Qed.

Lemma Split_no_sep s c : c ∉ s -> Split s c = [s].
Proof.
  induction s as [|d s IH]; [done|]. rewrite not_elem_of_cons. intros [Hd Hs].
  simpl. rewrite (proj2 (beq_neq c d) Hd), IH by done. done.
Qed.

Lemma Split_app s c t : c ∉ s -> Split (s ++ c :: t) c = s :: Split t c.
Proof.
  induction s as [|d s IH]; simpl; [by rewrite beq_refl|].
  rewrite not_elem_of_cons. intros [Hd Hs].
  rewrite (proj2 (beq_neq c d) Hd), IH by done. done.
Qed.

Lemma Split_app_gen s c t : Split (s ++ c :: t) c = Split s c ++ Split t c.
Proof.
  induction s as [|d s IH]; simpl; [by rewrite beq_refl|].
  rewrite IH. destruct (beq c d); [done|].
  pose proof (Split_not_nil s c). by destruct (Split s c).
Qed.

Lemma Split_Join l c :
  l <> [] -> Forall (fun x => c ∉ x) l -> Split (Join l c) c = l.
Proof.
  induction l as [|x l IH]; [done|]. intros _ Hall.
  apply Forall_cons in Hall as [Hx Hl].
  destruct l as [|y l']; [by apply Split_no_sep|].
  rewrite Join_cons, Split_app, IH by done. done.
Qed.

Lemma Split_parts_no_sep s c : Forall (fun x => c ∉ x) (Split s c).
Proof.
  induction s as [|d s IH]; simpl; [repeat constructor; set_solver|].
  destruct (beq c d) eqn:E; [constructor; [set_solver|done]|].
  apply beq_neq in E. pose proof (Split_not_nil s c).
  destruct (Split s c) as [|x xs]; [done|].
  apply Forall_cons in IH as [Hx Hxs]. constructor; [|done]. set_solver.
Qed.

Lemma Split_length_1 s c : length (Split s c) = 1%nat -> c ∉ s.
Proof.
  intros Hl. destruct (decide (c ∈ s)) as [(a & b & ->)%list_elem_of_split|]; [|done].
  rewrite Split_app_gen, length_app in Hl. pose proof (Split_not_nil a c). pose proof (Split_not_nil b c).
  destruct (Split a c), (Split b c); simpl in *; (done || lia).
Qed.

(** A joined list has at least as many fields as parts, and exactly as many
    only when no part contains the separator. *)
Lemma Split_Join_length l c :
  l <> [] -> (length l <= length (Split (Join l c) c))%nat /\
             (length (Split (Join l c) c) = length l -> Forall (fun x => c ∉ x) l).
Proof.
  induction l as [|x l IH]; [done|]. intros _. pose proof (Split_not_nil x c) as Hx.
  destruct l as [|y l]; [cbn [Join length]; split; [by destruct (Split x c); simpl; [|lia]|intros E; by apply Forall_singleton, Split_length_1]|].
  destruct (IH ltac:(done)) as [Hle Heq]. rewrite Join_cons, Split_app_gen, length_app by done.
  destruct (Split x c) as [|x0 xs] eqn:Es; [done|]. cbn [length] in *. split; [lia|]. intros E.
  apply Forall_cons. split; [apply Split_length_1; rewrite Es; simpl; lia|apply Heq; lia].
Qed.

(** Joining is injective as soon as one side's parts avoid the separator. *)
Lemma Join_inj_one l k c :
  l <> [] -> length l = length k -> Forall (fun x => c ∉ x) l -> Join l c = Join k c -> l = k.
Proof.
  intros Hne Hlen Hl E. assert (k <> []) as Hk by (by destruct l, k).
  assert (Split (Join l c) c = l) as El by (by apply Split_Join).
  destruct (Split_Join_length k c Hk) as [_ Hf]. rewrite <- E, El in Hf.
  by rewrite <- El, E, Split_Join by auto.
Qed.

Lemma Cut_true s c a b : Cut s c = (a, b, true) -> s = a ++ c :: b /\ c ∉ a.
Proof.
  revert a b; induction s as [|d s IH]; intros a b; simpl; [done|].
  destruct (beq c d) eqn:E.
  - apply beq_eq in E as ->. intros [= <- <-]. split; [done|set_solver].
  - apply beq_neq in E. destruct (Cut s c) as [[a' b'] f] eqn:Ec.
    intros [= <- <- ->]. destruct (IH a' b' eq_refl) as [-> Ha].
    split; [done|set_solver].
Qed.

Lemma Cut_false s c a b : Cut s c = (a, b, false) -> b = [] /\ c ∉ s.
Proof.
  revert a b; induction s as [|d s IH]; intros a b; simpl; [intros [= <- <-]; split; [done|set_solver]|]. destruct (beq c d) eqn:E; [done|]. apply beq_neq in E.
  destruct (Cut s c) as [[a' b'] f] eqn:Ec. intros [= <- <- ->]. destruct (IH a' b' eq_refl) as [-> Ha]. split; [done|set_solver].
Qed.

Lemma Cut_app a b c : c ∉ a -> Cut (a ++ c :: b) c = (a, b, true).
Proof.
  induction a as [|d a IH]; simpl; [by rewrite beq_refl|].
  rewrite not_elem_of_cons. intros [Hd Ha].
  rewrite (proj2 (beq_neq c d) Hd), IH by done. done.
Qed.

Lemma Cut_no_sep s c : c ∉ s -> Cut s c = (s, [], false).
Proof.
  induction s as [|d s IH]; simpl; [done|].
  rewrite not_elem_of_cons. intros [Hd Hs].
  rewrite (proj2 (beq_neq c d) Hd), IH by done. done.
Qed.

(** *** Case folding and trimming *)

Lemma lower_byte_id c : is_upper c = false -> lower_byte c = c.
Proof. unfold lower_byte. by intros ->. Qed.

Lemma lower_byte_not_upper c : is_upper (lower_byte c) = false.
Proof.
  unfold lower_byte. destruct (is_upper c) eqn:E; [|done].
  unfold is_upper in *. pose proof (byte_val_range c). split_bools.
  rewrite byte_val_of, Z.mod_small by lia.
  apply andb_false_iff. right. apply Z.leb_gt. lia.
Qed.

Lemma lower_byte_idemp c : lower_byte (lower_byte c) = lower_byte c.
Proof. apply lower_byte_id, lower_byte_not_upper. Qed.

(** A string of ASCII bytes none of which is an upper-case letter. *)
Definition lower_ascii (s : bytes) : Prop :=
  Forall (fun c => is_ascii_byte c = true /\ is_upper c = false) s.

Lemma isASCII_Forall s : isASCII s = true <-> Forall (fun c => is_ascii_byte c = true) s.
Proof.
  unfold isASCII. rewrite forallb_forall, Forall_forall.
  split; intros Hs x Hx; apply Hs; by apply list_elem_of_In.
Qed.

Lemma map_lower_id s : Forall (fun c => is_upper c = false) s -> lower_byte <$> s = s.
Proof.
  induction 1 as [|c s Hc _ IH]; [done|]. cbn. fold (lower_byte <$> s).
  rewrite lower_byte_id by done. f_equal. exact IH.
Qed.

Section string_lemmas.
Context `{GoUnicode}.

Lemma ToLower_id s : lower_ascii s -> ToLower s = s.
Proof.
  intros Hs. unfold ToLower.
  rewrite (proj2 (isASCII_Forall s)) by (eapply Forall_impl; [exact Hs|by intros ? []]).
  apply map_lower_id. eapply Forall_impl; [exact Hs|by intros ? []].
Qed.

(** Trimming leaves a string alone whose ends are ASCII non-spaces. *)
Lemma TrimSpace_id s a m b :
  (s = a :: m ++ [b] \/ (s = [a] /\ a = b)) ->
  is_ascii_byte a = true -> is_space a = false ->
  is_ascii_byte b = true -> is_space b = false ->
  TrimSpace s = s.
Proof.
  intros Hs Ha Ha' Hb Hb'.
  assert (exists k, s = k ++ [b]) as [k Hk].
  { destruct Hs as [->|[-> ->]]; [by exists (a :: m)|by exists []]. }
  assert (exists k', s = a :: k') as [k' Hk'].
  { destruct Hs as [->|[-> ->]]; eauto. }
  rewrite Hk' at 1. simpl. rewrite Ha, Ha'. simpl. rewrite <- Hk'.
  rewrite Hk, reverse_snoc. simpl. rewrite Hb, Hb'. simpl.
  by rewrite reverse_cons, reverse_involutive.
Qed.

Lemma TrimSpace_Forall s :
  Forall (fun c => is_ascii_byte c = true /\ is_space c = false) s -> TrimSpace s = s.
Proof.
  intros Hs. destruct s as [|a m]; [done|].
  apply Forall_cons in Hs as [[Ha Ha'] Hm].
  destruct m as [|b m _] using rev_ind.
  - apply (TrimSpace_id _ a [] a); auto.
  - apply Forall_app in Hm as [_ Hb]. apply Forall_singleton in Hb as [Hb Hb'].
    apply (TrimSpace_id _ a m b); auto.
Qed.
End string_lemmas.

(** *** Decimal numbers *)

Lemma digit_val d : 0 <= d < 10 -> byte_val (byte_of (48 + d)) = 48 + d.
Proof. intros. rewrite byte_val_of. apply Z.mod_small. lia. Qed.

Lemma digit_is_digit d : 0 <= d < 10 -> is_digit (byte_of (48 + d)) = true.
Proof. intros. unfold is_digit. rewrite digit_val by done. apply andb_true_iff; split; apply Z.leb_le; lia. Qed.

Lemma parse_digits_app acc s t :
  parse_digits acc (s ++ t) =
  match parse_digits acc s with Some a => parse_digits a t | None => None end.
Proof.
  revert acc; induction s as [|c s IH]; intros acc; simpl; [done|].
  by destruct (is_digit c).
Qed.

Lemma digits_of_digits fuel n :
  0 <= n -> Forall (fun c => is_digit c = true) (digits_of fuel n).
Proof.
  revert n; induction fuel as [|f IH]; intros n Hn; simpl; [constructor|].
  apply Forall_app; split.
  - destruct (n <? 10); [constructor|]. apply IH. apply Z.div_pos; lia.
  - apply Forall_singleton, digit_is_digit. apply Z.mod_pos_bound. lia.
Qed.

Lemma digits_of_not_nil fuel n : digits_of (S fuel) n <> [].
Proof. simpl. intros E%app_nil. by destruct E. Qed.

Lemma parse_digits_of fuel n :
  0 <= n < 2 ^ Z.of_nat fuel -> parse_digits 0 (digits_of fuel n) = Some n.
Proof.
  revert n; induction fuel as [|f IH]; intros n Hn.
  { simpl in *. f_equal. lia. }
  cbn [digits_of]. rewrite parse_digits_app.
  assert (parse_digits 0 (if n <? 10 then [] else digits_of f (n / 10)) = Some (n / 10)) as ->.
  { destruct (Z.ltb_spec n 10); [simpl; f_equal; symmetry; apply Z.div_small; lia|].
    apply IH. split; [apply Z.div_pos; lia|].
    rewrite Nat2Z.inj_succ, Z.pow_succ_r in Hn by lia.
    apply Z.div_lt_upper_bound; lia. }
  cbn [parse_digits]. pose proof (Z.mod_pos_bound n 10 ltac:(lia)).
  rewrite digit_is_digit, digit_val by lia. f_equal.
  pose proof (Z.div_mod n 10 ltac:(lia)). lia.
Qed.

Lemma Itoa_fuel n : 0 <= n -> n < 2 ^ Z.of_nat (S (Z.to_nat (Z.log2 n))).
Proof.
  intros. rewrite Nat2Z.inj_succ, Z2Nat.id by apply Z.log2_nonneg.
  destruct (Z.eq_dec n 0) as [->|]; [reflexivity|].
  apply Z.log2_spec. lia.
Qed.

Lemma Itoa_digits n : 0 <= n -> Forall (fun c => is_digit c = true) (Itoa n).
Proof.
  intros. unfold Itoa. rewrite (proj2 (Z.ltb_ge n 0)) by lia.
  by apply digits_of_digits.
Qed.

Lemma Itoa_not_nil n : 0 <= n -> Itoa n <> [].
Proof. intros. unfold Itoa. rewrite (proj2 (Z.ltb_ge n 0)) by lia. apply digits_of_not_nil. Qed.

Lemma is_digit_not c : is_digit c = true ->
  c <> "-"%char /\ c <> "+"%char /\ c <> dot /\ c <> comma /\ c <> slash /\ c <> colon.
Proof.
  intros Hc. repeat split; intros ->; vm_compute in Hc; discriminate.
Qed.

Lemma parse_digits_nonneg s acc n : 0 <= acc -> parse_digits acc s = Some n -> 0 <= n.
Proof.
  revert acc. induction s as [|c s IH]; intros acc Ha; cbn [parse_digits]; [by intros [= <-]|].
  destruct (is_digit c) eqn:Ec; [|done]. apply IH. unfold is_digit in Ec. split_bools. lia.
Qed.

Lemma Atoi_digits s n :
  s <> [] -> Forall (fun c => is_digit c = true) s ->
  parse_digits 0 s = Some n -> 0 <= n <= max_int64 -> Atoi s = Some n.
Proof.
  intros Hs Hd Hp Hn. unfold Atoi. destruct s as [|c s]; [done|].
  apply Forall_cons in Hd as [Hc _].
  destruct (is_digit_not c Hc) as (H1 & H2 & _).
  rewrite (proj2 (beq_neq _ _) H1), (proj2 (beq_neq _ _) H2), Hp.
  unfold min_int64, max_int64 in *.
  rewrite (proj2 (Z.leb_le _ _)), (proj2 (Z.leb_le _ _)) by lia. done.
Qed.

Lemma Atoi_Itoa n : 0 <= n <= max_int64 -> Atoi (Itoa n) = Some n.
Proof.
  intros Hn. apply Atoi_digits; [apply Itoa_not_nil; lia|apply Itoa_digits; lia| |done].
  unfold Itoa. rewrite (proj2 (Z.ltb_ge n 0)) by lia.
  apply parse_digits_of. split; [lia|]. apply Itoa_fuel. lia.
Qed.

Lemma Itoa_not_elem n c : 0 <= n -> is_digit c = false -> c ∉ Itoa n.
Proof.
  intros Hn Hc Hin. pose proof (Itoa_digits n Hn) as Hd.
  rewrite Forall_forall in Hd. by rewrite (Hd _ Hin) in Hc.
Qed.

Lemma Itoa_inj a b : 0 <= a <= max_int64 -> 0 <= b <= max_int64 -> Itoa a = Itoa b -> a = b.
Proof. intros Ha Hb E. apply Atoi_Itoa in Ha, Hb. congruence. Qed.

(** *** Lexicographic order *)

#[global] Instance Itoa_injective : Inj (=) (=) Itoa.
Proof.
  assert (forall n, 0 <= n -> parse_digits 0 (digits_of (S (Z.to_nat (Z.log2 n))) n) = Some n) as Hp.
  { intros n Hn. apply parse_digits_of. split; [done|by apply Itoa_fuel]. }
  assert (forall m n, 0 <= n -> digits_of (S (Z.to_nat (Z.log2 n))) n <> "-"%char :: m) as Hd.
  { intros m n Hn E. pose proof (digits_of_digits (S (Z.to_nat (Z.log2 n))) n Hn) as Hf. rewrite E in Hf.
    by apply Forall_cons in Hf as [Hf _]. }
  intros a b. unfold Itoa. destruct (Z.ltb_spec a 0), (Z.ltb_spec b 0); intros E.
  - apply (f_equal (fun l => parse_digits 0 (tail l))) in E. cbn [tail] in E. rewrite !Hp in E by lia. injection E. lia.
  - symmetry in E. by apply Hd in E.
  - by apply Hd in E.
  - apply (f_equal (parse_digits 0)) in E. rewrite !Hp in E by lia. by injection E.
Qed.

Lemma str_ltb_irrefl a : str_ltb a a = false.
Proof. induction a as [|x a IH]; simpl; [done|]. by rewrite Z.ltb_irrefl. Qed.

Lemma str_ltb_trichotomy a b : str_ltb a b = false -> str_ltb b a = false -> a = b.
Proof.
  revert b; induction a as [|x a IH]; intros [|y b]; simpl; try done.
  destruct (byte_val x <? byte_val y) eqn:E1; [done|].
  destruct (byte_val y <? byte_val x) eqn:E2; [done|].
  intros. split_bools. f_equal; [apply byte_val_inj; lia|by apply IH].
Qed.

Lemma str_ltb_trans a b c : str_ltb a b = true -> str_ltb b c = true -> str_ltb a c = true.
Proof.
  revert b c; induction a as [|x a IH]; intros [|y b] [|z c]; simpl; try done.
  destruct (byte_val x <? byte_val y) eqn:E1, (byte_val y <? byte_val x) eqn:E2,
    (byte_val y <? byte_val z) eqn:E3, (byte_val z <? byte_val y) eqn:E4; try done;
  split_bools; intros H1 H2;
  destruct (byte_val x <? byte_val z) eqn:E5, (byte_val z <? byte_val x) eqn:E6;
  split_bools; try lia; eauto.
Qed.

Lemma str_ltb_asym a b : str_ltb a b = true -> str_ltb b a = false.
Proof.
  intros Hab. destruct (str_ltb b a) eqn:Hba; [|done].
  pose proof (str_ltb_trans _ _ _ Hab Hba) as Haa. by rewrite str_ltb_irrefl in Haa.
Qed.

Lemma str_ltb_trans_false a b c :
  str_ltb b a = false -> str_ltb c b = false -> str_ltb c a = false.
Proof.
  intros Hba Hcb. destruct (str_ltb c a) eqn:Hca; [|done].
  destruct (str_ltb a b) eqn:Hab.
  - by rewrite (str_ltb_trans _ _ _ Hca Hab) in Hcb.
  - rewrite (str_ltb_trichotomy a b Hab Hba) in Hca. by rewrite Hca in Hcb.
Qed.
