(* ===== verification/Frame.v ===== *)
(** * Frames and their codec

    internal/protocol/frame.go (the frame type and [Validate]) and
    internal/protocol/codec.go (the encoder, [writeFull] and the decoder). *)

From stdpp Require Import base list strings.
From Stdlib Require Import Ascii.
From S2P Require Import Prelude.
Local Open Scope Z_scope.

(** ** Errors of the protocol package *)

Inductive proto_error :=
| ErrUnsupportedVersion
| ErrUnknownFrameType
| ErrPayloadTooLarge
| ErrInvalidFrame
| ErrStreamClosed
| ErrStreamReset
| ErrWindowExhausted
| ErrInvalidTransition
| ErrDatagramTooLarge
| ErrSendWindowOverflow      (* errors.New("protocol: send window overflow") *)
| ErrReceiveWindowOverflow   (* errors.New("protocol: receive window overflow") *)
| ErrIO (e : io_error).

#[global] Instance proto_error_eq_dec : EqDecision proto_error.
Proof. solve_decision. Defined.

(** ** Constants *)

Definition CurrentVersion : Z := 1.
Definition MaxPayload : Z := 1048576.
Definition MaxMetadataPayload : Z := 32768.
Definition MaxOpenResultPayload : Z := 1024.

Definition FrameOpenStream : Z := 1.
Definition FrameData : Z := 2.
Definition FrameHalfClose : Z := 3.
Definition FrameReset : Z := 4.
Definition FrameWindowUpdate : Z := 5.
Definition FrameGoAway : Z := 6.
Definition FramePing : Z := 7.
Definition FramePong : Z := 8.
Definition FrameAgentHello : Z := 9.
Definition FrameAgentMetadataUpdate : Z := 10.
Definition FrameAgentMetadataAck : Z := 11.
Definition FrameTraceStart : Z := 12.
Definition FrameTraceHop : Z := 13.
Definition FrameTraceEnd : Z := 14.
Definition FrameOpenResult : Z := 15.
Definition FrameClientHello : Z := 16.
Definition FrameClientMetadataUpdate : Z := 17.
Definition FrameClientMetadataAck : Z := 18.

(** ** The frame *)

Record Frame := mkFrame {
  Version : Z;
  FType : Z;
  Flags : Z;
  StreamID : Z;
  Window : Z;
  Payload : bytes;
}.

#[global] Instance Frame_eq_dec : EqDecision Frame.
Proof. solve_decision. Defined.

Definition payload_len (f : Frame) : Z := Z.of_nat (length (Payload f)).

(** The field widths of the Go struct. *)
Definition frame_typed (f : Frame) : Prop :=
  0 <= Version f <= max_uint8 /\ 0 <= FType f <= max_uint8 /\
  0 <= Flags f <= max_uint16 /\ 0 <= StreamID f <= max_uint32 /\
  0 <= Window f <= max_uint32.

Definition knownFrameType (t : Z) : bool :=
  (FrameOpenStream <=? t) && (t <=? FrameClientMetadataAck).

Definition isMetadataFrame (t : Z) : bool :=
  ((FrameAgentHello <=? t) && (t <=? FrameAgentMetadataAck)) ||
  ((FrameClientHello <=? t) && (t <=? FrameClientMetadataAck)).

Definition isTraceFrame (t : Z) : bool :=
  (FrameTraceStart <=? t) && (t <=? FrameTraceEnd).

Definition Validate (f : Frame) : result unit proto_error :=
  if negb (Version f =? CurrentVersion) then Err ErrUnsupportedVersion
  else if negb (knownFrameType (FType f)) then Err ErrUnknownFrameType
  else if payload_len f >? MaxPayload then Err ErrPayloadTooLarge
  else if isMetadataFrame (FType f) && (payload_len f >? MaxMetadataPayload)
  then Err ErrPayloadTooLarge
  else if (FType f =? FrameOpenResult) && (payload_len f >? MaxOpenResultPayload)
  then Err ErrPayloadTooLarge
  else if (StreamID f =? 0) && negb (FType f =? FrameGoAway) &&
          negb (FType f =? FramePing) && negb (FType f =? FramePong) &&
          negb (isMetadataFrame (FType f)) && negb (isTraceFrame (FType f))
  then Err ErrInvalidFrame
  else if (FType f =? FrameWindowUpdate) && (Window f =? 0) then Err ErrInvalidFrame
  else Ok tt.

(** ** Writers

    An [io.Writer] is a state with a [Write] that reports how many bytes it took
    and an error; [written] observes what it has taken so far. *)
Class Writer (W : Type) := {
  Write : W -> bytes -> nat * option io_error * W;
  written : W -> bytes;
}.

(** The documented contract of [io.Writer]: it takes a prefix of its argument. *)
Class WriterOk (W : Type) `{Writer W} := {
  Write_le : forall w p n e w', Write w p = (n, e, w') -> (n <= length p)%nat;
  Write_written : forall w p n e w',
    Write w p = (n, e, w') -> written w' = written w ++ take n p;
}.

Section encoder.
Context {W : Type} `{Writer W}.

(** [writeFull]; [None] is running out of fuel, which [writeFull_spec]
    excludes for the fuel [WriteFrame] uses. *)
Fixpoint writeFull_fuel (fuel : nat) (w : W) (p : bytes) : option (option io_error * W) :=
  match p with
  | [] => Some (None, w)
  | _ =>
      match fuel with
      | O => None
      | S fuel' =>
          let '(n, err, w') := Write w p in
          let p' := if decide (0 < n)%nat then drop n p else p in
          match err with
          | Some e => Some (Some e, w')
          | None => if decide (n = 0%nat) then Some (Some ErrShortWrite, w')
                    else writeFull_fuel fuel' w' p'
          end
      end
  end.

Definition writeFull (w : W) (p : bytes) : option (option io_error * W) :=
  writeFull_fuel (length p) w p.

Definition headerSize : nat := 16.

(** The 16-byte network-order header. *)
Definition frame_header (f : Frame) : bytes :=
  be_put 1 (Version f) ++ be_put 1 (FType f) ++ be_put 2 (Flags f) ++
  be_put 4 (StreamID f) ++ be_put 4 (uint 32 (payload_len f)) ++ be_put 4 (Window f).

Record Encoder := mkEncoder { enc_w : W; enc_MaxPayload : Z }.

Definition NewEncoder (w : W) : Encoder := mkEncoder w MaxPayload.

Definition WriteFrame (e : Encoder) (f : Frame) : option (result unit proto_error * Encoder) :=
  let maxp := if enc_MaxPayload e <=? 0 then MaxPayload else enc_MaxPayload e in
  let e := mkEncoder (enc_w e) maxp in
  if payload_len f >? maxp then Some (Err ErrPayloadTooLarge, e)
  else match Validate f with
  | Err err => Some (Err err, e)
  | Ok _ =>
      match writeFull (enc_w e) (frame_header f) with
      | None => None
      | Some (Some err, w') => Some (Err (ErrIO err), mkEncoder w' maxp)
      | Some (None, w') =>
          if 0 <? payload_len f then
            match writeFull w' (Payload f) with
            | None => None
            | Some (Some err, w'') => Some (Err (ErrIO err), mkEncoder w'' maxp)
            | Some (None, w'') => Some (Ok tt, mkEncoder w'' maxp)
            end
          else Some (Ok tt, mkEncoder w' maxp)
      end
  end.
End encoder.

Arguments mkEncoder {W}.
Arguments enc_w {W}.
Arguments enc_MaxPayload {W}.

(** The in-memory writer of [bytes.Buffer]: it takes everything. *)
#[global] Instance buffer_writer : Writer bytes := {
  Write w p := (length p, None, w ++ p);
  written w := w;
}.

#[global] Instance buffer_writer_ok : WriterOk bytes.
Proof.
  split; cbn; intros ? ? ? ? ? [= <- <- <-]; [lia|]. by rewrite firstn_all.
Qed.

(** ** Decoder *)

Definition effectiveMaxPayload (maxp : Z) : Z :=
  if (maxp <=? 0) || (maxp >? MaxPayload) then MaxPayload else maxp.

(** [Decoder.ReadFrame] on the decoder's [MaxPayload] and the remaining input;
    the second component is the input it leaves. *)
Definition ReadFrame (maxp : Z) (input : bytes) : result Frame proto_error * bytes :=
  match ReadFull 16 input with
  | (Err e, rest) => (Err (ErrIO e), rest)
  | (Ok h, rest) =>
      let f := mkFrame (be_get (slice 0 1 h)) (be_get (slice 1 2 h)) (be_get (slice 2 4 h))
                 (be_get (slice 4 8 h)) (be_get (slice 12 16 h)) [] in
      let n := be_get (slice 8 12 h) in
      if negb (Version f =? CurrentVersion) then (Err ErrUnsupportedVersion, rest)
      else if negb (knownFrameType (FType f)) then (Err ErrUnknownFrameType, rest)
      else if n >? uint 32 (effectiveMaxPayload maxp) then (Err ErrPayloadTooLarge, rest)
      else if isMetadataFrame (FType f) && (n >? MaxMetadataPayload)
      then (Err ErrPayloadTooLarge, rest)
      else
        let check (f : Frame) (rest : bytes) :=
          match Validate f with
          | Err e => (Err e, rest)
          | Ok _ => (Ok f, rest)
          end in
        if 0 <? n then
          match ReadFull (Z.to_nat n) rest with
          | (Err e, rest') => (Err (ErrIO e), rest')
          | (Ok p, rest') =>
              check (mkFrame (Version f) (FType f) (Flags f) (StreamID f) (Window f) p) rest'
          end
        else check f rest
  end.

(** The reader loop of a connection: frames until the first error. *)
Fixpoint ReadFrames (fuel : nat) (maxp : Z) (input : bytes) : list Frame * bytes :=
  match fuel with
  | O => ([], input)
  | S fuel' =>
      match ReadFrame maxp input with
      | (Ok f, rest) => let '(fs, rest') := ReadFrames fuel' maxp rest in (f :: fs, rest')
      | (Err _, rest) => ([], rest)
      end
  end.

(** ** Lemmas *)

Definition encode_frame (f : Frame) : bytes := frame_header f ++ Payload f.

Lemma length_frame_header f : length (frame_header f) = 16%nat.
Proof. unfold frame_header. by rewrite !length_app, !length_be_put. Qed.

Lemma Validate_Ok f :
  Validate f = Ok tt ->
  Version f = CurrentVersion /\ knownFrameType (FType f) = true /\
  payload_len f <= MaxPayload /\
  (isMetadataFrame (FType f) = true -> payload_len f <= MaxMetadataPayload).
Proof.
  unfold Validate.
  destruct (Version f =? CurrentVersion) eqn:E1; [|done].
  destruct (knownFrameType (FType f)) eqn:E2; [|done].
  destruct (payload_len f >? MaxPayload) eqn:E3; [done|].
  destruct (isMetadataFrame (FType f) && (payload_len f >? MaxMetadataPayload)) eqn:E4; [done|].
  intros _. cbn in *. split_bools. split_and!; try done; try lia.
  intros Hm. rewrite Hm in E4. cbn in E4. split_bools. lia.
Qed.

Lemma effectiveMaxPayload_range maxp : 0 < effectiveMaxPayload maxp <= MaxPayload.
Proof.
  unfold effectiveMaxPayload, MaxPayload.
  destruct (maxp <=? 0) eqn:E1, (maxp >? 1048576) eqn:E2; cbn; split_bools; lia.
Qed.

Lemma uint_effective maxp : uint 32 (effectiveMaxPayload maxp) = effectiveMaxPayload maxp.
Proof.
  apply uint_small. pose proof (effectiveMaxPayload_range maxp). unfold MaxPayload in *. lia.
Qed.

(** The header fields, read back. *)
Lemma header_fields f rest :
  frame_typed f -> payload_len f <= MaxPayload ->
  let h := frame_header f in
  be_get (slice 0 1 h) = Version f /\ be_get (slice 1 2 h) = FType f /\
  be_get (slice 2 4 h) = Flags f /\ be_get (slice 4 8 h) = StreamID f /\
  be_get (slice 8 12 h) = payload_len f /\ be_get (slice 12 16 h) = Window f /\
  ReadFull 16 (h ++ rest) = (Ok h, rest).
Proof.
  intros (H1 & H2 & H3 & H4 & H5) Hp h. unfold h, frame_header.
  assert (0 <= payload_len f) by (unfold payload_len; lia).
  unfold max_uint8, max_uint16, max_uint32, MaxPayload in *.
  split_and!; [..|apply ReadFull_app; apply length_frame_header];
    repeat (rewrite slice_app_r by (rewrite length_be_put; lia); rewrite length_be_put);
    cbn [Nat.sub];
    try (rewrite slice_app_l by (rewrite ?length_be_put; lia));
    rewrite slice_full' by apply length_be_put;
    rewrite ?uint_small by lia; apply be_get_put_small; cbn; lia.
Qed.

(** Slicing a 16-byte header into its fields and putting them back. *)
Lemma header_split (h : bytes) :
  length h = 16%nat ->
  slice 0 1 h ++ slice 1 2 h ++ slice 2 4 h ++ slice 4 8 h ++ slice 8 12 h ++ slice 12 16 h = h.
Proof.
  intros Hh. do 16 (destruct h as [|? h]; [done|]). destruct h; [done|done].
Qed.

Lemma length_header_slice (h : bytes) i j :
  length h = 16%nat -> (i <= j)%nat -> (j <= 16)%nat -> length (slice i j h) = (j - i)%nat.
Proof. intros. apply length_slice; lia. Qed.

(** A decoded frame is within the widths of the Go struct, and its header bytes
    are the encoder's. *)
Lemma decoded_header (h : bytes) (p : bytes) :
  length h = 16%nat ->
  be_get (slice 8 12 h) = Z.of_nat (length p) ->
  let f := mkFrame (be_get (slice 0 1 h)) (be_get (slice 1 2 h)) (be_get (slice 2 4 h))
             (be_get (slice 4 8 h)) (be_get (slice 12 16 h)) p in
  frame_typed f /\ frame_header f = h.
Proof.
  intros Hh Hn f.
  assert (forall i j, (i <= j)%nat -> (j <= 16)%nat ->
    0 <= be_get (slice i j h) < 256 ^ Z.of_nat (j - i)) as Hr.
  { intros i j Hij Hj. rewrite <- (length_header_slice h i j) by done. apply be_get_range. }
  assert (forall i j, (i <= j)%nat -> (j <= 16)%nat ->
    be_put (j - i) (be_get (slice i j h)) = slice i j h) as Hp.
  { intros. apply be_put_get'. by apply length_header_slice. }
  split.
  - unfold frame_typed, f; cbn [Version FType Flags StreamID Window].
    pose proof (Hr 0 1 ltac:(lia) ltac:(lia))%nat. pose proof (Hr 1 2 ltac:(lia) ltac:(lia))%nat.
    pose proof (Hr 2 4 ltac:(lia) ltac:(lia))%nat. pose proof (Hr 4 8 ltac:(lia) ltac:(lia))%nat.
    pose proof (Hr 12 16 ltac:(lia) ltac:(lia))%nat.
    unfold max_uint8, max_uint16, max_uint32. cbn in *. lia.
  - unfold frame_header, f, payload_len; cbn [Version FType Flags StreamID Window Payload].
    rewrite <- Hn. pose proof (Hr 8 12 ltac:(lia) ltac:(lia))%nat as H8. cbn in H8.
    rewrite uint_small by (cbn; lia).
    pose proof (Hp 0 1 ltac:(lia) ltac:(lia))%nat as E1. pose proof (Hp 1 2 ltac:(lia) ltac:(lia))%nat as E2.
    pose proof (Hp 2 4 ltac:(lia) ltac:(lia))%nat as E3. pose proof (Hp 4 8 ltac:(lia) ltac:(lia))%nat as E4.
    pose proof (Hp 8 12 ltac:(lia) ltac:(lia))%nat as E5. pose proof (Hp 12 16 ltac:(lia) ltac:(lia))%nat as E6.
    cbn [Nat.sub] in *. rewrite E1, E2, E3, E4, E5, E6. by apply header_split.
Qed.

Lemma ReadFrame_encode maxp f rest :
  frame_typed f -> Validate f = Ok tt -> payload_len f <= effectiveMaxPayload maxp ->
  ReadFrame maxp (encode_frame f ++ rest) = (Ok f, rest).
Proof.
  intros Ht Hv Hm. pose proof (Validate_Ok f Hv) as (Hver & Hk & Hmax & Hmeta).
  unfold ReadFrame, encode_frame. rewrite <- app_assoc.
  destruct (header_fields f (Payload f ++ rest) Ht Hmax) as (E1 & E2 & E3 & E4 & E5 & E6 & ->).
  rewrite E1, E2, E3, E4, E5, E6, uint_effective. cbn [Version FType Flags StreamID Window].
  rewrite Hver, Z.eqb_refl, Hk. cbn [negb].
  replace (payload_len f >? effectiveMaxPayload maxp) with false by lia.
  assert (isMetadataFrame (FType f) && (payload_len f >? MaxMetadataPayload) = false) as ->.
  { destruct (isMetadataFrame (FType f)) eqn:Em; [|done]. cbn.
    specialize (Hmeta eq_refl). rewrite Z.gtb_ltb. apply Z.ltb_ge. lia. }
  assert (mkFrame CurrentVersion (FType f) (Flags f) (StreamID f) (Window f) (Payload f) = f)
    as Ef by (rewrite <- Hver; by destruct f).
  destruct (0 <? payload_len f) eqn:En; split_bools; unfold payload_len in *.
  - rewrite ReadFull_app by lia. by rewrite Ef, Hv.
  - assert (Payload f = []) as Hnil by (destruct (Payload f); [done|cbn in *; lia]).
    rewrite Hnil in Ef |- *. by rewrite Ef, Hv.
Qed.

Lemma ReadFrame_Ok maxp input f rest :
  ReadFrame maxp input = (Ok f, rest) ->
  frame_typed f /\ Validate f = Ok tt /\ payload_len f <= effectiveMaxPayload maxp /\
  input = encode_frame f ++ rest.
Proof.
  unfold ReadFrame. destruct (ReadFull 16 input) as [[h|e] r] eqn:Eh; [|done].
  apply ReadFull_Ok in Eh as [-> Hh]. rewrite uint_effective.
  set (n := be_get (slice 8 12 h)). cbn [Version FType Flags StreamID Window].
  destruct (negb (be_get (slice 0 1 h) =? CurrentVersion)); [done|].
  destruct (negb (knownFrameType (be_get (slice 1 2 h)))); [done|].
  destruct (n >? effectiveMaxPayload maxp) eqn:En; [done|].
  destruct (isMetadataFrame (be_get (slice 1 2 h)) && (n >? MaxMetadataPayload)); [done|].
  assert (0 <= n) by (subst n; pose proof (be_get_range (slice 8 12 h)); lia).
  assert (be_get (slice 8 12 h) = n) as Hn by done. clearbody n.
  split_bools.
  destruct (0 <? n) eqn:E0; split_bools.
  - destruct (ReadFull (Z.to_nat n) r) as [[p|e] r'] eqn:Ep; [|done].
    apply ReadFull_Ok in Ep as [-> Hp].
    destruct (Validate _) eqn:Ev; [|done]. intros [= <- <-].
    destruct (decoded_header h p Hh ltac:(lia)) as [Ht Hd]. destruct a.
    split_and!; try done; [unfold payload_len; cbn; lia|].
    unfold encode_frame. by rewrite Hd, <- app_assoc.
  - destruct (Validate _) eqn:Ev; [|done]. intros [= <- <-].
    destruct (decoded_header h [] Hh ltac:(rewrite Hn; cbn; lia)) as [Ht Hd]. destruct a.
    split_and!; try done; [unfold payload_len; cbn; lia|].
    unfold encode_frame. by rewrite Hd, app_nil_r.
Qed.

Lemma writeFull_fuel_spec {W} `{WriterOk W} fuel (w : W) p :
  (length p <= fuel)%nat ->
  exists e w', writeFull_fuel fuel w p = Some (e, w') /\
    exists q, q `prefix_of` p /\ written w' = written w ++ q /\ (e = None -> q = p).
Proof.
  revert w p; induction fuel as [|fuel IH]; intros w p Hf.
  { destruct p; [|cbn in Hf; lia]. exists None, w. split; [done|].
    exists []. rewrite app_nil_r. by split_and!. }
  destruct p as [|c p'].
  { exists None, w. split; [done|]. exists []. rewrite app_nil_r. by split_and!. }
  cbn [writeFull_fuel]. set (p := c :: p') in *.
  destruct (Write w p) as [[n err] w1] eqn:Ew.
  pose proof (Write_le _ _ _ _ _ Ew) as Hle.
  pose proof (Write_written _ _ _ _ _ Ew) as Hwr.
  assert (take n p `prefix_of` p) as Hpre by (exists (drop n p); by rewrite take_drop).
  destruct err as [e|].
  { exists (Some e), w1. split; [done|]. exists (take n p). by split_and!. }
  destruct (decide (n = 0%nat)) as [->|Hn].
  { exists (Some ErrShortWrite), w1. split; [done|]. exists (take 0 p). by split_and!. }
  rewrite decide_True by lia.
  destruct (IH w1 (drop n p)) as (e & w' & Er & q & Hq & Hw' & He).
  { rewrite length_drop. lia. }
  exists e, w'. split; [done|]. exists (take n p ++ q). split_and!.
  - rewrite <- (take_drop n p) at 2. by apply prefix_app.
  - by rewrite Hw', Hwr, app_assoc.
  - intros ->. rewrite He by done. apply take_drop.
Qed.

Lemma writeFull_spec {W} `{WriterOk W} (w : W) p :
  exists e w', writeFull w p = Some (e, w') /\
    exists q, q `prefix_of` p /\ written w' = written w ++ q /\ (e = None -> q = p).
Proof. by apply writeFull_fuel_spec. Qed.

(** A writer that takes at least one byte per call finishes the loop. *)
Lemma writeFull_progress {W} `{WriterOk W} :
  (forall w p, p <> [] -> exists n w', Write w p = (S n, None, w')) ->
  forall (w : W) p, exists w', writeFull w p = Some (None, w').
Proof.
  intros Hprog w p. unfold writeFull.
  assert (forall fuel w p, (length p <= fuel)%nat ->
    exists w', writeFull_fuel fuel w p = Some (None, w')) as Hf; [|by apply Hf].
  clear w p. induction fuel as [|fuel IH]; intros w [|c p] Hle; cbn in Hle; try lia;
    [by eexists|by eexists|].
  destruct (Hprog w (c :: p)) as (n & w' & E); [done|].
  cbn [writeFull_fuel]. rewrite E.
  rewrite (decide_False (P := S n = 0%nat)) by lia. rewrite decide_True by lia. apply IH.
  rewrite length_drop. cbn. lia.
Qed.

Lemma WriteFrame_spec {W} `{WriterOk W} (e : Encoder) (f : Frame) :
  exists r e', WriteFrame e f = Some (r, e') /\
    exists q, q `prefix_of` encode_frame f /\
      written (enc_w (W := W) e') = written (enc_w e) ++ q /\
      match r with
      | Ok _ => Validate f = Ok tt /\ q = encode_frame f
      | Err (ErrIO _) => True
      | Err _ => q = []
      end.
Proof.
  unfold WriteFrame. cbn [enc_w].
  set (maxp := if enc_MaxPayload e <=? 0 then MaxPayload else enc_MaxPayload e).
  assert (forall err, exists r e', Some (Err (A := unit) err, mkEncoder (enc_w e) maxp) = Some (r, e') /\
    exists q, q `prefix_of` encode_frame f /\ written (enc_w e') = written (enc_w e) ++ q /\
      match r with
      | Ok _ => Validate f = Ok tt /\ q = encode_frame f
      | Err (ErrIO _) => True
      | Err _ => q = []
      end) as Hfail.
  { intros err. eexists _, _. split; [done|]. exists []. cbn [enc_w]. rewrite app_nil_r.
    split_and!; [apply prefix_nil|done|by destruct err]. }
  destruct (payload_len f >? maxp); [apply Hfail|].
  destruct (Validate f) as [[]|err] eqn:Ev; [|apply Hfail].
  destruct (writeFull_spec (enc_w e) (frame_header f)) as (e1 & w1 & -> & q1 & Hq1 & Hw1 & He1).
  assert (q1 `prefix_of` encode_frame f) as Hq1' by (unfold encode_frame; by apply prefix_app_r).
  destruct e1 as [err|]; [eexists _, _; split; [done|]; by exists q1|].
  rewrite He1 in * by done.
  destruct (0 <? payload_len f) eqn:En.
  2:{ eexists _, _; split; [done|]. exists (frame_header f). cbn [enc_w]. split_and!; try done.
      split_bools. unfold encode_frame, payload_len in *.
      destruct (Payload f); [by rewrite app_nil_r|cbn in *; lia]. }
  destruct (writeFull_spec w1 (Payload f)) as (e2 & w2 & -> & q2 & Hq2 & Hw2 & He2).
  assert (frame_header f ++ q2 `prefix_of` encode_frame f) as Hq2' by (unfold encode_frame; by apply prefix_app).
  exists (match e2 with Some err => Err (ErrIO err) | None => Ok tt end), (mkEncoder w2 maxp).
  split; [by destruct e2|]. exists (frame_header f ++ q2). cbn [enc_w].
  split_and!; [done|by rewrite Hw2, Hw1, app_assoc|].
  destruct e2; [done|]. split; [done|]. by rewrite He2.
Qed.

Lemma ReadFrame_consumes maxp input r rest :
  ReadFrame maxp input = (r, rest) ->
  exists used, input = used ++ rest /\
    Z.of_nat (length used) <= 16 + effectiveMaxPayload maxp.
Proof.
  unfold ReadFrame. pose proof (effectiveMaxPayload_range maxp).
  destruct (ReadFull 16 input) as [r1 rest1] eqn:Eh.
  destruct (ReadFull_rest _ _ _ _ Eh) as (h' & -> & Hh').
  assert (exists used, h' ++ rest1 = used ++ rest1 /\
    Z.of_nat (length used) <= 16 + effectiveMaxPayload maxp) as Hused by (exists h'; split; [done|lia]).
  destruct r1 as [h|e]; [|by intros [= <- <-]].
  rewrite uint_effective. set (n := be_get (slice 8 12 h)).
  cbn [Version FType Flags StreamID Window].
  do 2 (case_goal; [by intros [= <- <-]|]).
  destruct (n >? effectiveMaxPayload maxp) eqn:En; [by intros [= <- <-]|].
  case_goal; [by intros [= <- <-]|].
  destruct (0 <? n) eqn:E0.
  - destruct (ReadFull (Z.to_nat n) rest1) as [r2 rest2] eqn:Ep.
    destruct (ReadFull_rest _ _ _ _ Ep) as (p' & -> & Hp').
    assert (exists used, h' ++ p' ++ rest2 = used ++ rest2 /\
      Z.of_nat (length used) <= 16 + effectiveMaxPayload maxp) as Hused'.
    { exists (h' ++ p'). rewrite <- app_assoc, length_app. split; [done|].
      split_bools. lia. }
    destruct r2; [|by intros [= <- <-]].
    case_goal; by intros [= <- <-].
  - case_goal; by intros [= <- <-].
Qed.

(** ** Properties *)

(** C1. A frame written by [Encoder.WriteFrame] into any writer that honours
    the [io.Writer] contract is read back by [Decoder.ReadFrame] unchanged, and
    the bytes that follow it on the connection are left untouched. *)
Theorem frame_roundtrip {W} `{WriterOk W} (e e' : Encoder) (f : Frame) (maxp : Z) (rest : bytes)
  (Htyped : frame_typed f)
  (Hfits : payload_len f <= effectiveMaxPayload maxp)
  (Hwrite : WriteFrame e f = Some (Ok tt, e')) :
  exists b, written (enc_w (W := W) e') = written (enc_w e) ++ b /\
    ReadFrame maxp (b ++ rest) = (Ok f, rest).
Proof.
  destruct (WriteFrame_spec e f) as (r & e2 & E & q & _ & Hw & Hr).
  rewrite Hwrite in E. injection E as <- <-. destruct Hr as [Hv ->].
  exists (encode_frame f). split; [done|]. by apply ReadFrame_encode.
Qed.

Definition sample_frame : Frame :=
  mkFrame 1 FrameData 1 7 0 (#"hello").

Lemma frame_roundtrip_witness :
  exists b, written (enc_w (mkEncoder (#"old" ++ encode_frame sample_frame) MaxPayload)) =
            written (enc_w (NewEncoder (#"old"))) ++ b /\
    ReadFrame 0 (b ++ #"next") = (Ok sample_frame, #"next").
Proof.
  apply (frame_roundtrip (NewEncoder (#"old")) (mkEncoder (#"old" ++ encode_frame sample_frame) MaxPayload)
           sample_frame 0 (#"next")).
  - ground.
  - ground.
  - ground.
Defined.

(** [ReadFrame] accepts exactly the encodings of valid frames that fit the
    decoder's limit: what it returns is valid, within the field widths, at most
    the effective maximum, and the consumed bytes are the frame's one canonical
    encoding. *)
Theorem ReadFrame_accepts_iff (maxp : Z) (input rest : bytes) (f : Frame) :
  ReadFrame maxp input = (Ok f, rest) <->
  frame_typed f /\ Validate f = Ok tt /\ payload_len f <= effectiveMaxPayload maxp /\
  input = encode_frame f ++ rest.
Proof.
  split; [apply ReadFrame_Ok|]. intros (Ht & Hv & Hm & ->). by apply ReadFrame_encode.
Qed.

(** Whatever the peer sends, one call of [ReadFrame] takes at most the
    16-byte header and the effective maximum payload from the connection, and a
    header that announces more than the limit is refused with nothing read
    beyond it. *)
Theorem ReadFrame_bounded (maxp : Z) (input : bytes) :
  (exists used, input = used ++ snd (ReadFrame maxp input) /\
     Z.of_nat (length used) <= 16 + effectiveMaxPayload maxp) /\
  (forall h rest, input = h ++ rest -> length h = 16%nat ->
     be_get (slice 8 12 h) > effectiveMaxPayload maxp ->
     is_ok (fst (ReadFrame maxp input)) = false /\ snd (ReadFrame maxp input) = rest).
Proof.
  split.
  - destruct (ReadFrame maxp input) as [r rest] eqn:E. by eapply ReadFrame_consumes.
  - intros h rest -> Hh Hbig. unfold ReadFrame. rewrite ReadFull_app by done.
    cbn [Version FType Flags StreamID Window].
    do 2 (case_goal; [done|]). rewrite uint_effective.
    by replace (be_get (slice 8 12 h) >? effectiveMaxPayload maxp) with true by lia.
Qed.

(** C33. [WriteFrame] always returns: [writeFull]'s loop needs at most one
    iteration per byte.  On success exactly the frame's encoding was written, on
    a validation error nothing, on an I/O error a prefix of the encoding; and a
    writer that always makes progress gets a valid frame through. *)
Theorem WriteFrame_outcome {W} `{WriterOk W} (e : Encoder) (f : Frame) :
  (exists r e', WriteFrame e f = Some (r, e') /\
    exists q, q `prefix_of` encode_frame f /\
      written (enc_w (W := W) e') = written (enc_w e) ++ q /\
      match r with
      | Ok _ => Validate f = Ok tt /\ q = encode_frame f
      | Err (ErrIO _) => True
      | Err _ => q = []
      end) /\
  ((forall w p, p <> [] -> exists n w', Write w p = (S n, None, w')) ->
   Validate f = Ok tt -> enc_MaxPayload e = MaxPayload ->
   exists e', WriteFrame e f = Some (Ok tt, e')).
Proof.
  split; [apply WriteFrame_spec|]. intros Hprog Hv Hmax.
  destruct (Validate_Ok f Hv) as (_ & _ & Hlen & _).
  unfold WriteFrame. rewrite Hmax, Hv. cbn [enc_w].
  replace (MaxPayload <=? 0) with false by done.
  replace (payload_len f >? MaxPayload) with false by lia.
  destruct (writeFull_progress Hprog (enc_w e) (frame_header f)) as [w1 ->].
  destruct (0 <? payload_len f); [|eexists; reflexivity].
  destruct (writeFull_progress Hprog w1 (Payload f)) as [w2 ->]. eexists; reflexivity.
Qed.

Lemma WriteFrame_outcome_witness :
  exists e', WriteFrame (NewEncoder (#"old")) sample_frame = Some (Ok tt, e').
Proof.
  apply (WriteFrame_outcome (NewEncoder (#"old")) sample_frame).
  - intros w p Hp. destruct p as [|c p]; [done|]. exists (length p), (w ++ c :: p). done.
  - ground.
  - ground.
Defined.

(** Back-to-back frames keep their boundaries: the reader loop recovers the
    exact sequence of frames a peer encoded, whatever bytes follow. *)
Theorem ReadFrames_stream (maxp : Z) (fs : list Frame) (rest : bytes)
  (Hfs : Forall (fun f => frame_typed f /\ Validate f = Ok tt /\
                          payload_len f <= effectiveMaxPayload maxp) fs) :
  ReadFrames (length fs) maxp (concat (encode_frame <$> fs) ++ rest) = (fs, rest).
Proof.
  induction Hfs as [|f fs (Ht & Hv & Hm) _ IH]; [done|].
  cbn [length ReadFrames fmap list_fmap concat]. rewrite <- app_assoc.
  by rewrite ReadFrame_encode, IH by done.
Qed.

Lemma ReadFrames_stream_witness :
  ReadFrames 2 0 (concat (encode_frame <$> [sample_frame; sample_frame]) ++ #"x") =
    ([sample_frame; sample_frame], #"x").
Proof.
  apply (ReadFrames_stream 0 [sample_frame; sample_frame] (#"x")).
  repeat constructor; ground.
Defined.
