(* ===== verification/Stream.v ===== *)
(** * Stream state machine and flow-control windows

    internal/protocol/stream.go: [StreamState] and its operations, refined to an
    abstract pair of half-streams with integer credit. *)

From stdpp Require Import base list strings.
From Stdlib Require Import Ascii.
From S2P Require Import Prelude Frame.
Local Open Scope Z_scope.

Inductive StreamStatus :=
| StreamIdle
| StreamOpen
| StreamHalfClosedLocal
| StreamHalfClosedRemote
| StreamClosed
| StreamReset.

#[global] Instance StreamStatus_eq_dec : EqDecision StreamStatus.
Proof. solve_decision. Defined.

Record StreamState := mkStream {
  st_id : Z;
  st_status : StreamStatus;
  st_send : Z;
  st_recv : Z;
}.

#[global] Instance StreamState_eq_dec : EqDecision StreamState.
Proof. solve_decision. Defined.

Definition set_status (s : StreamState) (x : StreamStatus) : StreamState :=
  mkStream (st_id s) x (st_send s) (st_recv s).
Definition set_send (s : StreamState) (w : Z) : StreamState :=
  mkStream (st_id s) (st_status s) w (st_recv s).
Definition set_recv (s : StreamState) (w : Z) : StreamState :=
  mkStream (st_id s) (st_status s) (st_send s) w.

Definition NewStreamState (id initialWindow : Z) : result StreamState proto_error :=
  if id =? 0 then Err ErrInvalidFrame
  else
    let w := if initialWindow =? 0 then 65535 else initialWindow in
    Ok (mkStream id StreamIdle w w).

Definition OpenLocal (s : StreamState) : result StreamState proto_error :=
  match st_status s with
  | StreamIdle => Ok (set_status s StreamOpen)
  | _ => Err ErrInvalidTransition
  end.

Definition HalfCloseLocal (s : StreamState) : result StreamState proto_error :=
  match st_status s with
  | StreamOpen => Ok (set_status s StreamHalfClosedLocal)
  | StreamHalfClosedRemote => Ok (set_status s StreamClosed)
  | StreamHalfClosedLocal => Ok s
  | StreamClosed => Err ErrStreamClosed
  | StreamReset => Err ErrStreamReset
  | StreamIdle => Err ErrInvalidTransition
  end.

Definition HalfCloseRemote (s : StreamState) : result StreamState proto_error :=
  match st_status s with
  | StreamOpen => Ok (set_status s StreamHalfClosedRemote)
  | StreamHalfClosedLocal => Ok (set_status s StreamClosed)
  | StreamHalfClosedRemote => Ok s
  | StreamClosed => Err ErrStreamClosed
  | StreamReset => Err ErrStreamReset
  | StreamIdle => Err ErrInvalidTransition
  end.

Definition Reset (s : StreamState) : result StreamState proto_error :=
  match st_status s with
  | StreamReset => Err ErrStreamReset
  | StreamClosed => Err ErrStreamClosed
  | _ => Ok (set_status s StreamReset)
  end.

(** [uint64(s.sendWindow)+uint64(n) > math.MaxUint32] cannot wrap; the uint32
    addition that follows is written with its truncation. *)
Definition AddSendWindow (s : StreamState) (n : Z) : result StreamState proto_error :=
  match st_status s with
  | StreamReset => Err ErrStreamReset
  | StreamClosed => Err ErrStreamClosed
  | _ =>
      if st_send s + n >? max_uint32 then Err ErrSendWindowOverflow
      else Ok (set_send s (uint 32 (st_send s + n)))
  end.

Definition ConsumeSend (s : StreamState) (n : Z) : result StreamState proto_error :=
  match st_status s with
  | StreamReset => Err ErrStreamReset
  | StreamClosed | StreamHalfClosedLocal => Err ErrStreamClosed
  | _ =>
      if n >? st_send s then Err ErrWindowExhausted
      else Ok (set_send s (uint 32 (st_send s - n)))
  end.

Definition AddReceiveWindow (s : StreamState) (n : Z) : result StreamState proto_error :=
  match st_status s with
  | StreamReset => Err ErrStreamReset
  | StreamClosed => Err ErrStreamClosed
  | _ =>
      if st_recv s + n >? max_uint32 then Err ErrReceiveWindowOverflow
      else Ok (set_recv s (uint 32 (st_recv s + n)))
  end.

Definition consumeReceive (s : StreamState) (n : Z) : result StreamState proto_error :=
  if n >? st_recv s then Err ErrWindowExhausted
  else Ok (set_recv s (uint 32 (st_recv s - n))).

Definition Handle (s : StreamState) (f : Frame) : result StreamState proto_error :=
  match Validate f with
  | Err e => Err e
  | Ok _ =>
      if negb (StreamID f =? st_id s) then Err ErrInvalidFrame
      else if FType f =? FrameOpenStream then
        match st_status s with
        | StreamIdle =>
            let s := set_status s StreamOpen in
            Ok (if negb (Window f =? 0) then set_send s (Window f) else s)
        | _ => Err ErrInvalidTransition
        end
      else if FType f =? FrameData then
        match st_status s with
        | StreamReset => Err ErrStreamReset
        | StreamClosed | StreamHalfClosedRemote | StreamIdle => Err ErrStreamClosed
        | _ => consumeReceive s (uint 32 (payload_len f))
        end
      else if FType f =? FrameHalfClose then
        match st_status s with
        | StreamOpen => Ok (set_status s StreamHalfClosedRemote)
        | StreamHalfClosedLocal => Ok (set_status s StreamClosed)
        | StreamHalfClosedRemote => Ok s
        | StreamClosed => Err ErrStreamClosed
        | StreamReset => Err ErrStreamReset
        | StreamIdle => Err ErrInvalidTransition
        end
      else if FType f =? FrameReset then
        match st_status s with
        | StreamReset => Err ErrStreamReset
        | StreamClosed => Err ErrStreamClosed
        | _ => Ok (set_status s StreamReset)
        end
      else if FType f =? FrameWindowUpdate then
        match st_status s with
        | StreamReset => Err ErrStreamReset
        | StreamClosed => Err ErrStreamClosed
        | _ =>
            if (Window f =? 0) || (st_send s + Window f >? max_uint32)
            then Err ErrInvalidFrame
            else Ok (set_send s (uint 32 (st_send s + Window f)))
        end
      else Err ErrInvalidFrame
  end.

(** ** Operations as events *)

Inductive stream_event :=
| EvOpenLocal
| EvHalfCloseLocal
| EvHalfCloseRemote
| EvReset
| EvAddSend (n : Z)
| EvConsumeSend (n : Z)
| EvAddReceive (n : Z)
| EvFrame (f : Frame).

Definition stream_step (s : StreamState) (ev : stream_event) : result StreamState proto_error :=
  match ev with
  | EvOpenLocal => OpenLocal s
  | EvHalfCloseLocal => HalfCloseLocal s
  | EvHalfCloseRemote => HalfCloseRemote s
  | EvReset => Reset s
  | EvAddSend n => AddSendWindow s n
  | EvConsumeSend n => ConsumeSend s n
  | EvAddReceive n => AddReceiveWindow s n
  | EvFrame f => Handle s f
  end.

(** A rejected operation leaves the state as it was. *)
Definition stream_next (s : StreamState) (ev : stream_event) : StreamState :=
  match stream_step s ev with Ok s' => s' | Err _ => s end.

(** The arguments are Go [uint32] values and frames of the Go struct. *)
Definition event_typed (ev : stream_event) : Prop :=
  match ev with
  | EvAddSend n | EvConsumeSend n | EvAddReceive n => 0 <= n <= max_uint32
  | EvFrame f => frame_typed f
  | _ => True
  end.

Definition stream_wf (s : StreamState) : Prop :=
  0 < st_id s <= max_uint32 /\ 0 <= st_send s <= max_uint32 /\ 0 <= st_recv s <= max_uint32.

(** ** Abstract specification: two half-streams with integer credit *)

Inductive halves :=
| NotOpened
| Halves (local_open remote_open : bool)
| Aborted.

Record aflow := mkFlow { a_id : Z; a_halves : halves; a_send : Z; a_recv : Z }.

Definition status_halves (x : StreamStatus) : halves :=
  match x with
  | StreamIdle => NotOpened
  | StreamOpen => Halves true true
  | StreamHalfClosedLocal => Halves false true
  | StreamHalfClosedRemote => Halves true false
  | StreamClosed => Halves false false
  | StreamReset => Aborted
  end.

Definition abstract_stream (s : StreamState) : aflow :=
  mkFlow (st_id s) (status_halves (st_status s)) (st_send s) (st_recv s).

(** Some half is still open, or the stream has not been opened yet. *)
Definition alive (h : halves) : bool :=
  match h with NotOpened => true | Halves l r => l || r | Aborted => false end.

Definition may_send (h : halves) : bool :=
  match h with NotOpened => true | Halves l _ => l | Aborted => false end.

Definition may_receive (h : halves) : bool :=
  match h with Halves _ r => r | _ => false end.

Definition spec_guard (b : bool) (x : aflow) : option aflow := if b then Some x else None.

Definition spec_open (x : aflow) (w : Z) : option aflow :=
  match a_halves x with
  | NotOpened => Some (mkFlow (a_id x) (Halves true true) w (a_recv x))
  | _ => None
  end.

Definition spec_close_local (x : aflow) : option aflow :=
  match a_halves x with
  | Halves l r =>
      spec_guard (l || r) (mkFlow (a_id x) (Halves false r) (a_send x) (a_recv x))
  | _ => None
  end.

Definition spec_close_remote (x : aflow) : option aflow :=
  match a_halves x with
  | Halves l r =>
      spec_guard (l || r) (mkFlow (a_id x) (Halves l false) (a_send x) (a_recv x))
  | _ => None
  end.

Definition spec_abort (x : aflow) : option aflow :=
  spec_guard (alive (a_halves x)) (mkFlow (a_id x) Aborted (a_send x) (a_recv x)).

Definition spec_credit (x : aflow) (n : Z) : option aflow :=
  spec_guard (alive (a_halves x) && (a_send x + n <=? max_uint32))
    (mkFlow (a_id x) (a_halves x) (a_send x + n) (a_recv x)).

Definition spec_step (x : aflow) (ev : stream_event) : option aflow :=
  match ev with
  | EvOpenLocal => spec_open x (a_send x)
  | EvHalfCloseLocal => spec_close_local x
  | EvHalfCloseRemote => spec_close_remote x
  | EvReset => spec_abort x
  | EvAddSend n => spec_credit x n
  | EvConsumeSend n =>
      spec_guard (may_send (a_halves x) && (n <=? a_send x))
        (mkFlow (a_id x) (a_halves x) (a_send x - n) (a_recv x))
  | EvAddReceive n =>
      spec_guard (alive (a_halves x) && (a_recv x + n <=? max_uint32))
        (mkFlow (a_id x) (a_halves x) (a_send x) (a_recv x + n))
  | EvFrame f =>
      if negb (is_ok (Validate f)) || negb (StreamID f =? a_id x) then None
      else if FType f =? FrameOpenStream then
        spec_open x (if Window f =? 0 then a_send x else Window f)
      else if FType f =? FrameData then
        spec_guard (may_receive (a_halves x) && (payload_len f <=? a_recv x))
          (mkFlow (a_id x) (a_halves x) (a_send x) (a_recv x - payload_len f))
      else if FType f =? FrameHalfClose then spec_close_remote x
      else if FType f =? FrameReset then spec_abort x
      else if FType f =? FrameWindowUpdate then spec_credit x (Window f)
      else None
  end.

Definition to_option {A E} (r : result A E) : option A :=
  match r with Ok a => Some a | Err _ => None end.

(** Bytes of credit a trace granted and spent, counting only accepted events. *)
Fixpoint granted (s : StreamState) (evs : list stream_event) : Z :=
  match evs with
  | [] => 0
  | ev :: evs' =>
      (match ev, stream_step s ev with
       | EvAddSend n, Ok _ => n
       | EvFrame f, Ok _ => if FType f =? FrameWindowUpdate then Window f else 0
       | _, _ => 0
       end) + granted (stream_next s ev) evs'
  end.

Fixpoint spent (s : StreamState) (evs : list stream_event) : Z :=
  match evs with
  | [] => 0
  | ev :: evs' =>
      (match ev, stream_step s ev with
       | EvConsumeSend n, Ok _ => n
       | _, _ => 0
       end) + spent (stream_next s ev) evs'
  end.

Definition is_open_frame (ev : stream_event) : bool :=
  match ev with EvFrame f => FType f =? FrameOpenStream | _ => false end.

(** ** Lemmas *)

Lemma Validate_window f :
  Validate f = Ok tt -> FType f = FrameWindowUpdate -> (Window f =? 0) = false.
Proof.
  intros Hv Ht. unfold Validate in Hv. rewrite Ht in Hv. cbn in Hv.
  destruct (Window f =? 0); [|done]. repeat case_hyp Hv; done.
Qed.

Lemma uint32_id z : 0 <= z <= max_uint32 -> uint 32 z = z.
Proof. intros. apply uint_small. unfold max_uint32 in *. lia. Qed.

Lemma payload_len_uint f : payload_len f <= MaxPayload -> uint 32 (payload_len f) = payload_len f.
Proof. intros. apply uint32_id. unfold payload_len, MaxPayload, max_uint32 in *. lia. Qed.

(** One status of a window operation: decide the window test, drop the uint32
    truncation, compare. *)
Ltac window_case :=
  cbn; try done; zbool; cbn; try done;
  unfold abstract_stream; cbn; rewrite ?uint32_id by lia; done.

Lemma stream_refines_frame s f :
  stream_wf s -> frame_typed f ->
  abstract_stream <$> to_option (Handle s f) = spec_step (abstract_stream s) (EvFrame f).
Proof.
  intros (Hid & Hs & Hr) (_ & _ & _ & _ & Hw).
  unfold Handle, spec_step. destruct (Validate f) as [[]|e] eqn:Ev; [|done].
  destruct (Validate_Ok f Ev) as (_ & _ & Hlen & _).
  assert (0 <= payload_len f) by (unfold payload_len; lia).
  cbn [is_ok negb orb a_id abstract_stream].
  destruct (StreamID f =? st_id s); [|done]. cbn [negb].
  rewrite payload_len_uint by done.
  destruct (FType f =? FrameOpenStream) eqn:E1.
  { unfold spec_open. destruct (st_status s) eqn:Es; cbn; rewrite ?Es; try done.
    by destruct (Window f =? 0). }
  destruct (FType f =? FrameData) eqn:E2.
  { unfold consumeReceive, spec_guard, may_receive. destruct s as [id st sw rw]; cbn in *.
    destruct (Z.leb_spec (payload_len f) rw); destruct st; window_case. }
  destruct (FType f =? FrameHalfClose) eqn:E3.
  { unfold spec_close_remote. destruct (st_status s) eqn:Es; cbn; rewrite ?Es; try done.
    by unfold abstract_stream; rewrite Es. }
  destruct (FType f =? FrameReset) eqn:E4.
  { unfold spec_abort. destruct (st_status s) eqn:Es; cbn; rewrite ?Es; done. }
  destruct (FType f =? FrameWindowUpdate) eqn:E5; [|done].
  apply Z.eqb_eq in E5. rewrite (Validate_window f Ev E5). cbn [orb].
  unfold spec_credit, spec_guard. destruct s as [id st sw rw]; cbn in *.
  destruct (Z.leb_spec (sw + Window f) max_uint32); destruct st; window_case.
Qed.

Lemma stream_refines_op s ev :
  stream_wf s -> event_typed ev ->
  abstract_stream <$> to_option (stream_step s ev) = spec_step (abstract_stream s) ev.
Proof.
  intros Hwf Ht. destruct ev; [| | | | | | |by apply stream_refines_frame].
  all: destruct Hwf as (Hid & Hs & Hr); destruct s as [id st sw rw]; cbn in *.
  1-4: by destruct st.
  all: unfold AddSendWindow, ConsumeSend, AddReceiveWindow, spec_credit, spec_guard; cbn.
  - destruct (Z.leb_spec (sw + n) max_uint32); destruct st; window_case.
  - destruct (Z.leb_spec n sw); destruct st; window_case.
  - destruct (Z.leb_spec (rw + n) max_uint32); destruct st; window_case.
Qed.

(** The window an accepted step leaves, read off the specification. *)
Lemma spec_step_bounds x ev x' :
  0 <= a_send x <= max_uint32 -> 0 <= a_recv x <= max_uint32 -> event_typed ev ->
  spec_step x ev = Some x' ->
  a_id x' = a_id x /\ 0 <= a_send x' <= max_uint32 /\ 0 <= a_recv x' <= max_uint32.
Proof.
  intros Hs Hr Ht. destruct x as [id h sw rw]; cbn in *.
  unfold spec_step, spec_open, spec_close_local, spec_close_remote, spec_abort,
    spec_credit, spec_guard.
  destruct ev; cbn in *; intros E;
    repeat (case_hyp E; try discriminate); simplify_eq; cbn; split_bools;
    unfold frame_typed in *; split_and!; try done; try lia.
  all: unfold payload_len in *; lia.
Qed.

Lemma stream_next_wf s ev : stream_wf s -> event_typed ev -> stream_wf (stream_next s ev).
Proof.
  intros Hwf Ht. unfold stream_next.
  pose proof (stream_refines_op s ev Hwf Ht) as R.
  destruct (stream_step s ev) as [s'|e] eqn:E; [|done]. cbn in R. symmetry in R.
  destruct Hwf as (Hid & Hs & Hr).
  apply spec_step_bounds in R as (Hid' & Hs' & Hr'); [|done..].
  cbn in *. split_and!; try lia.
Qed.

Definition stream_run (s : StreamState) (evs : list stream_event) : StreamState :=
  foldl stream_next s evs.

Lemma stream_run_wf s evs : stream_wf s -> Forall event_typed evs -> stream_wf (stream_run s evs).
Proof.
  intros Hwf Hall. revert s Hwf. induction Hall as [|ev evs Ht _ IH]; intros s Hwf; [done|].
  cbn. apply IH. by apply stream_next_wf.
Qed.

Lemma spec_step_halves x ev x' :
  spec_step x ev = Some x' ->
  (may_send (a_halves x) = false -> may_send (a_halves x') = false) /\
  (a_halves x <> NotOpened -> may_receive (a_halves x) = false ->
   may_receive (a_halves x') = false) /\
  (a_halves x <> NotOpened -> a_halves x' <> NotOpened) /\
  alive (a_halves x) = true.
Proof.
  destruct x as [id h sw rw]; cbn in *.
  unfold spec_step, spec_open, spec_close_local, spec_close_remote, spec_abort,
    spec_credit, spec_guard.
  destruct ev; cbn in *; intros E;
    repeat (case_hyp E; try discriminate); simplify_eq; cbn in *; split_bools; try done;
    split_and!; try done; intros; by destruct h as [|[] []|].
Qed.

Lemma stream_next_send s ev :
  stream_wf s -> event_typed ev -> is_open_frame ev = false ->
  st_send (stream_next s ev) =
    st_send s +
    (match ev, stream_step s ev with
     | EvAddSend n, Ok _ => n
     | EvFrame f, Ok _ => if FType f =? FrameWindowUpdate then Window f else 0
     | _, _ => 0
     end) -
    (match ev, stream_step s ev with EvConsumeSend n, Ok _ => n | _, _ => 0 end).
Proof.
  intros Hwf Ht Ho. unfold stream_next.
  pose proof (stream_refines_op s ev Hwf Ht) as R.
  destruct (stream_step s ev) as [s'|e] eqn:E; cbn in R; symmetry in R.
  2:{ destruct ev; cbn in E |- *; rewrite ?E; lia. }
  assert (a_send (abstract_stream s') = st_send s') as <- by done.
  revert R. generalize (abstract_stream s'). intros x R.
  unfold spec_step, spec_open, spec_close_local, spec_close_remote, spec_abort,
    spec_credit, spec_guard in R.
  destruct s as [id st sw rw], ev; cbn in E |- *; rewrite ?E; cbn in Ho, R;
    repeat (case_hyp R; try discriminate); simplify_eq; cbn; try lia.
  all: split_bools; match goal with H : FType _ = _ |- _ => rewrite H end; cbn; lia.
Qed.

(** ** Properties *)


Definition sample_stream : StreamState := mkStream 7 StreamOpen 100 50.


(** Send credit is conserved over every run: what remains is the initial
    window plus the accepted grants minus the accepted sends, so a sender can
    never have sent more than it was credited. *)
Theorem send_credit_conserved (s : StreamState) (evs : list stream_event)
  (Hwf : stream_wf s) (Htyped : Forall event_typed evs)
  (Hnoopen : Forall (fun ev => is_open_frame ev = false) evs) :
  st_send (stream_run s evs) = st_send s + granted s evs - spent s evs /\
  spent s evs <= st_send s + granted s evs.
Proof.
  assert (st_send (stream_run s evs) = st_send s + granted s evs - spent s evs) as E.
  { revert s Hwf Hnoopen. induction Htyped as [|ev evs Ht _ IH]; intros s Hwf Ho; [cbn; lia|].
    apply Forall_cons in Ho as [Ho1 Ho2].
    change (stream_run s (ev :: evs)) with (stream_run (stream_next s ev) evs).
    cbn [granted spent].
    rewrite IH by (try done; by apply stream_next_wf).
    rewrite stream_next_send by done. lia. }
  split; [done|]. destruct (stream_run_wf s evs Hwf Htyped) as (_ & Hs & _). lia.
Qed.

Lemma send_credit_conserved_witness :
  st_send (stream_run sample_stream [EvConsumeSend 60; EvConsumeSend 60; EvAddSend 30; EvConsumeSend 60]) =
    st_send sample_stream +
    granted sample_stream [EvConsumeSend 60; EvConsumeSend 60; EvAddSend 30; EvConsumeSend 60] -
    spent sample_stream [EvConsumeSend 60; EvConsumeSend 60; EvAddSend 30; EvConsumeSend 60] /\
  spent sample_stream [EvConsumeSend 60; EvConsumeSend 60; EvAddSend 30; EvConsumeSend 60] <=
    st_send sample_stream +
    granted sample_stream [EvConsumeSend 60; EvConsumeSend 60; EvAddSend 30; EvConsumeSend 60].
Proof.
  apply send_credit_conserved; [ground|repeat constructor; ground|repeat constructor].
Defined.

(** Closing is final: over any run a closed sending half stays closed, a
    closed receiving half stays closed, and a stream that is closed both ways or
    reset refuses every operation and every frame. *)
Theorem closed_halves_stay_closed (s : StreamState) (evs : list stream_event)
  (Hwf : stream_wf s) (Htyped : Forall event_typed evs) (Hopened : st_status s <> StreamIdle) :
  let h := status_halves (st_status s) in
  let h' := status_halves (st_status (stream_run s evs)) in
  (may_send h = false -> may_send h' = false) /\
  (may_receive h = false -> may_receive h' = false) /\
  (alive h = false -> stream_run s evs = s /\
     forall ev, event_typed ev -> is_ok (stream_step s ev) = false).
Proof.
  assert (forall s ev, stream_wf s -> event_typed ev -> alive (status_halves (st_status s)) = false ->
    is_ok (stream_step s ev) = false) as Hdead.
  { intros s0 ev Hwf0 Ht Hd. pose proof (stream_refines_op s0 ev Hwf0 Ht) as R.
    destruct (stream_step s0 ev); [|done]. cbn in R. symmetry in R.
    apply spec_step_halves in R as (_ & _ & _ & Ha). cbn in Ha. congruence. }
  assert (status_halves (st_status s) <> NotOpened) as Hno by (by destruct (st_status s)).
  clear Hopened. revert s Hwf Hno. induction Htyped as [|ev evs Ht _ IH]; intros s Hwf Hno.
  { cbn. split_and!; auto. }
  pose proof (stream_refines_op s ev Hwf Ht) as R.
  destruct (stream_step s ev) as [s'|e] eqn:E.
  - assert (stream_next s ev = s') as En by (unfold stream_next; by rewrite E).
    cbn in R. symmetry in R. apply spec_step_halves in R as (H1 & H2 & H3 & H4). cbn in *.
    rewrite En. destruct (IH s') as (I1 & I2 & I3); [rewrite <- En; by apply stream_next_wf|auto|].
    split_and!; auto. congruence.
  - assert (stream_next s ev = s) as En by (unfold stream_next; by rewrite E).
    cbn. rewrite En. by apply IH.
Qed.

Lemma closed_halves_stay_closed_witness :
  let s := mkStream 7 StreamHalfClosedLocal 100 50 in
  let evs := [EvFrame sample_frame; EvConsumeSend 1; EvHalfCloseRemote] in
  let h := status_halves (st_status s) in
  let h' := status_halves (st_status (stream_run s evs)) in
  (may_send h = false -> may_send h' = false) /\
  (may_receive h = false -> may_receive h' = false) /\
  (alive h = false -> stream_run s evs = s /\
     forall ev, event_typed ev -> is_ok (stream_step s ev) = false).
Proof.
  apply closed_halves_stay_closed; [ground|repeat constructor; ground|discriminate].
Defined.
