(* ===== verification/Window.v ===== *)
(** * Flow-control constants and the credit policy of the Server relay

    internal/protocol/window.go and [AgentRelayWindowConfig] of
    internal/server/agent_relay_transport.go. *)

From stdpp Require Import base list strings.
From S2P Require Import Prelude Frame.
Local Open Scope Z_scope.

Definition MaxStreamFrame : Z := 32768.
Definition DefaultServerReceiveWindow : Z := 16 * MaxStreamFrame.
Definition DefaultAgentReceiveWindow : Z := 262144.
Definition DefaultWindowUpdateThreshold : Z := 131072.
Definition MinRefillableWindow : Z := DefaultWindowUpdateThreshold + MaxStreamFrame.

Definition ShouldFlushWindowUpdate (remaining unacked threshold : Z) : bool :=
  if unacked =? 0 then false
  else (unacked >=? threshold) || (remaining <? MaxStreamFrame).

Definition NegotiateReceiveWindow (advertised : Z) : Z :=
  if (advertised <? MinRefillableWindow) || (advertised >? DefaultServerReceiveWindow)
  then DefaultServerReceiveWindow else advertised.

(** ** The Server's window configuration *)

Record AgentRelayWindowConfig := mkWindowConfig {
  AdvertisedWindow : Z;
  UpdateThreshold : Z;
  MaxActiveStreamsPerAgent : Z;
}.

Definition advertisedWindow (c : AgentRelayWindowConfig) : Z :=
  if (AdvertisedWindow c <? MinRefillableWindow) ||
     (AdvertisedWindow c >? DefaultServerReceiveWindow)
  then DefaultServerReceiveWindow else AdvertisedWindow c.

Definition windowFor (c : AgentRelayWindowConfig) (requested : Z) : Z :=
  let window := advertisedWindow c in
  let peer := NegotiateReceiveWindow requested in
  if peer <? window then peer else window.

(** [window-threshold] is a uint32 subtraction; the guard before it excludes the
    wrap-around. *)
Definition updateThreshold (c : AgentRelayWindowConfig) (window : Z) : Z :=
  let threshold := UpdateThreshold c in
  if (threshold =? 0) || (threshold >? window) ||
     (uint 32 (window - threshold) <? MaxStreamFrame)
  then DefaultWindowUpdateThreshold else threshold.

(** ** Lemmas *)

Lemma NegotiateReceiveWindow_range a :
  MinRefillableWindow <= NegotiateReceiveWindow a <= DefaultServerReceiveWindow.
Proof.
  unfold NegotiateReceiveWindow, MinRefillableWindow, DefaultServerReceiveWindow,
    DefaultWindowUpdateThreshold, MaxStreamFrame in *.
  destruct (a <? 131072 + 32768) eqn:E1, (a >? 16 * 32768) eqn:E2; cbn; split_bools; lia.
Qed.

Lemma advertisedWindow_range c :
  MinRefillableWindow <= advertisedWindow c <= DefaultServerReceiveWindow.
Proof. apply (NegotiateReceiveWindow_range (AdvertisedWindow c)). Qed.

Lemma windowFor_range c r :
  MinRefillableWindow <= windowFor c r <= DefaultServerReceiveWindow.
Proof.
  unfold windowFor. pose proof (advertisedWindow_range c).
  pose proof (NegotiateReceiveWindow_range r). case_goal; lia.
Qed.

Lemma updateThreshold_room c w :
  MinRefillableWindow <= w <= DefaultServerReceiveWindow -> 0 <= UpdateThreshold c ->
  0 < updateThreshold c w /\ updateThreshold c w + MaxStreamFrame <= w.
Proof.
  unfold updateThreshold, MinRefillableWindow, DefaultServerReceiveWindow,
    DefaultWindowUpdateThreshold, MaxStreamFrame.
  intros Hw Ht. destruct (UpdateThreshold c =? 0) eqn:E1; cbn [orb]; [lia|].
  destruct (UpdateThreshold c >? w) eqn:E2; cbn [orb]; [lia|]. split_bools.
  rewrite uint_small by lia.
  destruct (w - UpdateThreshold c <? 32768) eqn:E3; split_bools; lia.
Qed.
