(* ===== verification/Wire.v ===== *)
(** * Handshake and record formats around the frame protocol

    internal/protocol/preface.go, the output records of internal/protocol/exec.go,
    capabilities.go, subprotocol.go, udp.go and the validation of open_result.go. *)

From stdpp Require Import base list sets sorting strings.
From Stdlib Require Import Ascii.
From S2P Require Import Prelude GoStrings Frame.
Local Open Scope Z_scope.

(** The rest of the documented contract of [io.Writer]: a short write is an
    error.  The preface and exec writers rely on it; [writeFull] does not. *)
Class WriterStrict (W : Type) `{WriterOk W} := {
  Write_short : forall (w : W) p n w', Write w p = (n, None, w') -> n = length p;
}.

Inductive wire_error :=
| ErrBadPreface
| ErrInvalidExecRecord
| WireIO (e : io_error).

(** ** The agent preface *)

Definition prefaceMagic : bytes := #"TMAG".
Definition PrefaceVersion : Z := 1.
Definition MaxPrefaceToken : Z := 2048.
Definition prefaceHeaderLen : nat := 8.

Definition preface_bytes (token : bytes) : bytes :=
  prefaceMagic ++ be_put 1 PrefaceVersion ++ be_put 1 0 ++ be_put 2 (uint 16 (Z.of_nat (length token))) ++ token.

Definition WritePreface {W} `{Writer W} (w : W) (token : bytes) : option wire_error * W :=
  if (Z.of_nat (length token) =? 0) || (Z.of_nat (length token) >? MaxPrefaceToken)
  then (Some ErrBadPreface, w)
  else
    let '(_, err, w') := Write w (preface_bytes token) in
    (WireIO <$> err, w').

Definition ReadPreface (input : bytes) : result bytes wire_error * bytes :=
  match ReadFull prefaceHeaderLen input with
  | (Err _, rest) => (Err ErrBadPreface, rest)
  | (Ok header, rest) =>
      if negb (seq_eqb (slice 0 4 header) prefaceMagic) ||
         negb (be_get (slice 4 5 header) =? PrefaceVersion) ||
         negb (be_get (slice 5 6 header) =? 0)
      then (Err ErrBadPreface, rest)
      else
        let length := be_get (slice 6 8 header) in
        if (length =? 0) || (length >? MaxPrefaceToken) then (Err ErrBadPreface, rest)
        else match ReadFull (Z.to_nat length) rest with
        | (Err _, rest') => (Err ErrBadPreface, rest')
        | (Ok token, rest') => (Ok token, rest')
        end
  end.

(** ** Exec output records *)

Definition ExecRecordStdout : byte := byte_of 1.
Definition ExecRecordStderr : byte := byte_of 2.
Definition ExecRecordExit : byte := byte_of 3.
Definition ExecRecordError : byte := byte_of 4.
Definition MaxExecRecordPayload : Z := 65536.

Definition record_bytes (kind : byte) (payload : bytes) : bytes :=
  kind :: be_put 4 (uint 32 (Z.of_nat (length payload))) ++ payload.

Definition WriteExecRecord {W} `{Writer W} (w : W) (kind : byte) (payload : bytes) :
    option wire_error * W :=
  if Z.of_nat (length payload) >? MaxExecRecordPayload then (Some ErrInvalidExecRecord, w)
  else
    let '(_, err, w') := Write w (record_bytes kind payload) in
    (WireIO <$> err, w').

Definition ReadExecRecord (input : bytes) : result (byte * bytes) wire_error * bytes :=
  match ReadFull 5 input with
  | (Err e, rest) => (Err (WireIO e), rest)
  | (Ok header, rest) =>
      let length := be_get (slice 1 5 header) in
      if length >? MaxExecRecordPayload then (Err ErrInvalidExecRecord, rest)
      else match ReadFull (Z.to_nat length) rest with
      | (Err e, rest') => (Err (WireIO e), rest')
      | (Ok payload, rest') =>
          match header with
          | kind :: _ => (Ok (kind, payload), rest')
          | [] => (Err (WireIO ErrUnexpectedEOF), rest')
          end
      end
  end.

(** A run's records, written one after the other until one fails, and read
    until the stream ends. *)
Fixpoint write_records {W} `{Writer W} (w : W) (rs : list (byte * bytes)) : option wire_error * W :=
  match rs with
  | [] => (None, w)
  | (k, p) :: rs' =>
      match WriteExecRecord w k p with
      | (None, w') => write_records w' rs'
      | (Some e, w') => (Some e, w')
      end
  end.

Fixpoint read_records (fuel : nat) (input : bytes) : list (byte * bytes) * wire_error :=
  match fuel with
  | O => ([], ErrInvalidExecRecord)
  | S fuel' =>
      match ReadExecRecord input with
      | (Ok r, rest) => let '(rs, e) := read_records fuel' rest in (r :: rs, e)
      | (Err e, _) => ([], e)
      end
  end.

(** ** Capability negotiation *)

Record CapabilityHello := mkHello { Versions : list Z; Features : list bytes }.
Record NegotiatedCapabilities := mkNegotiated { n_Version : Z; n_Features : list bytes }.

(** [None] is [ErrNoCommonVersion].  The maps used as sets are membership tests. *)
Definition select_version (server client : list Z) : Z :=
  foldl (fun selected v => if bool_decide (v ∈ server) && (v >? selected) then v else selected) 0 client.

Definition common_features (server client : list bytes) : list bytes :=
  foldl (fun features f =>
    if bool_decide (f ∈ server) && negb (bool_decide (f ∈ features)) then features ++ [f] else features)
    [] client.

Definition NegotiateCapabilities (client server : CapabilityHello) : option NegotiatedCapabilities :=
  let selected := select_version (Versions server) (Versions client) in
  if selected =? 0 then None
  else Some (mkNegotiated selected
    (sort_by str_ltb (common_features (Features server) (Features client)))).

(** ** Subprotocol selection *)

Definition SubprotocolLegacy : bytes := #"tunnelmesh.v1".
Definition SubprotocolOpenResult : bytes := #"tunnelmesh.v1.open-result".
Definition SubprotocolFlowControl : bytes := #"tunnelmesh.v1.open-result.flow-control".
Definition SubprotocolClientMetadata : bytes := #"tunnelmesh.v1.open-result.flow-control.metadata".

Definition ClientSubprotocols : list bytes :=
  [SubprotocolClientMetadata; SubprotocolFlowControl; SubprotocolOpenResult; SubprotocolLegacy].

Definition SelectSubprotocol `{GoUnicode} (offered : list bytes) : bytes * bool :=
  let normalized :=
    filter (fun v => v <> []) (TrimSpace <$> concat ((fun h => Split h comma) <$> offered)) in
  match List.find (fun c => bool_decide (c ∈ normalized))
          [SubprotocolClientMetadata; SubprotocolFlowControl; SubprotocolOpenResult] with
  | Some c => (c, true)
  | None => if bool_decide (SubprotocolLegacy ∈ normalized) then (SubprotocolLegacy, false) else ([], false)
  end.

(** ** UDP associations *)

Definition MaxDatagram : Z := 64 * 1024.

Definition NewUDPAssociation (maxDatagram : Z) : Z :=
  if (maxDatagram <=? 0) || (maxDatagram >? MaxDatagram) then MaxDatagram else maxDatagram.

Definition EncodeDatagram (max : Z) (payload : bytes) : result bytes proto_error :=
  if Z.of_nat (length payload) >? max then Err ErrDatagramTooLarge else Ok payload.

Definition DecodeDatagram (max : Z) (payload : bytes) : result bytes proto_error :=
  if Z.of_nat (length payload) >? max then Err ErrDatagramTooLarge else Ok payload.

(** ** OPEN_RESULT validation *)

Record OpenResultPayload := mkOpenResult {
  or_Accepted : bool;
  or_Stage : bytes;
  or_Code : bytes;
  or_Retryable : bool;
  or_RetryAfterMS : Z;
}.

Definition open_result_stages : list bytes :=
  [#"authorization"; #"selection"; #"relay"; #"queue"; #"dns"; #"connect"; #"policy"; #"protocol"].
Definition OpenResultCodeOK : bytes := #"ok".
Definition open_result_codes : list bytes :=
  [OpenResultCodeOK; #"forbidden"; #"agent_offline"; #"queue_full"; #"timeout"; #"network_unreachable";
   #"host_unreachable"; #"connection_refused"; #"unsupported_capability"; #"internal_error"].

Definition validate_open_result (p : OpenResultPayload) : result unit proto_error :=
  if negb (bool_decide (or_Stage p ∈ open_result_stages)) then Err ErrInvalidFrame
  else if negb (bool_decide (or_Code p ∈ open_result_codes)) then Err ErrInvalidFrame
  else if negb (Bool.eqb (or_Accepted p) (seq_eqb (or_Code p) OpenResultCodeOK)) then Err ErrInvalidFrame
  else if or_RetryAfterMS p <? 0 then Err ErrInvalidFrame
  else Ok tt.

(** ** Lemmas *)

(** The preface is an 8-byte header, whose fields read back, and the token. *)
Lemma preface_split token :
  exists h, preface_bytes token = h ++ token /\ length h = 8%nat /\
    slice 0 4 h = prefaceMagic /\ slice 4 5 h = be_put 1 PrefaceVersion /\ slice 5 6 h = be_put 1 0 /\
    slice 6 8 h = be_put 2 (uint 16 (Z.of_nat (length token))).
Proof.
  set (l := be_put 2 (uint 16 (Z.of_nat (length token)))).
  assert (length l = 2%nat) as Hl by apply length_be_put.
  exists (prefaceMagic ++ be_put 1 PrefaceVersion ++ be_put 1 0 ++ l).
  split; [unfold preface_bytes; fold l; by rewrite <- !(assoc_L (++))|].
  destruct l as [|a [|b [|]]]; try done.
Qed.

Lemma header_preface (h : bytes) (n : Z) :
  length h = 8%nat -> slice 0 4 h = prefaceMagic -> be_get (slice 4 5 h) = PrefaceVersion ->
  be_get (slice 5 6 h) = 0 -> be_get (slice 6 8 h) = n ->
  h = prefaceMagic ++ be_put 1 PrefaceVersion ++ be_put 1 0 ++ be_put 2 n.
Proof.
  intros Hl H1 H2 H3 H4.
  do 9 (destruct h as [|? h]; try done). cbv in H1. injection H1 as -> -> -> ->.
  change (slice 4 5 _) with [a3] in H2. change (slice 5 6 _) with [a4] in H3.
  change (slice 6 8 _) with [a5; a6] in H4.
  rewrite <- H2, <- H3, <- H4, (be_put_get' 1 [a3] eq_refl), (be_put_get' 1 [a4] eq_refl),
    (be_put_get' 2 [a5; a6] eq_refl). done.
Qed.

Lemma ReadPreface_encode token rest :
  0 < Z.of_nat (length token) <= MaxPrefaceToken ->
  ReadPreface (preface_bytes token ++ rest) = (Ok token, rest).
Proof.
  intros Hl. destruct (preface_split token) as (h & -> & Hh & H1 & H2 & H3 & H4).
  unfold ReadPreface. rewrite <- (assoc_L (++)), ReadFull_app by done.
  unfold MaxPrefaceToken in *. rewrite (uint_small 16) in H4 by lia.
  rewrite H1, H2, H3, H4, seq_eqb_refl, !be_get_put_small by (unfold PrefaceVersion; lia). cbn [negb orb Z.eqb PrefaceVersion Pos.eqb].
  replace (Z.of_nat (length token) =? 0) with false by lia.
  replace (Z.of_nat (length token) >? 2048) with false by lia. cbn [orb].
  by rewrite ReadFull_app by lia.
Qed.

Lemma ReadPreface_Ok input token rest :
  ReadPreface input = (Ok token, rest) ->
  input = preface_bytes token ++ rest /\ 0 < Z.of_nat (length token) <= MaxPrefaceToken.
Proof.
  unfold ReadPreface. destruct (ReadFull prefaceHeaderLen input) as [[h|] r0] eqn:Eh; [|done].
  apply ReadFull_Ok in Eh as [-> Hh].
  destruct (seq_eqb _ _) eqn:E1; [|done]. destruct (be_get (slice 4 5 h) =? _) eqn:E2; [|done].
  destruct (be_get (slice 5 6 h) =? 0) eqn:E3; [|done]. cbn [negb orb].
  pose proof (be_get_range (slice 6 8 h)) as Hrange.
  destruct (be_get (slice 6 8 h) =? 0) eqn:E4; [done|]. cbn [orb].
  destruct (be_get (slice 6 8 h) >? MaxPrefaceToken) eqn:E5; [done|].
  destruct (ReadFull (Z.to_nat _) r0) as [[t|] r1] eqn:Et; [|done]. intros [= <- <-].
  apply ReadFull_Ok in Et as [-> Ht]. split_bools. apply seq_eqb_eq in E1.
  assert (Z.of_nat (length t) = be_get (slice 6 8 h)) as Hn by lia.
  unfold MaxPrefaceToken in *. split; [|lia].
  unfold preface_bytes. rewrite Hn, (uint_small 16) by lia.
  rewrite (header_preface h _ Hh E1 E2 E3 eq_refl) at 1. by rewrite <- !(assoc_L (++)).
Qed.

Lemma ReadPreface_consumes input r rest :
  ReadPreface input = (r, rest) ->
  exists used, input = used ++ rest /\ Z.of_nat (length used) <= 8 + MaxPrefaceToken.
Proof.
  unfold ReadPreface, MaxPrefaceToken. destruct (ReadFull prefaceHeaderLen input) as [[h|] r0] eqn:Eh;
    apply ReadFull_rest in Eh as (u & -> & Hu); unfold prefaceHeaderLen in Hu;
    [|intros [= <- <-]; exists u; split; [done|lia]].
  destruct (_ || _ || _); [intros [= <- <-]; exists u; split; [done|lia]|].
  destruct (_ || _) eqn:Eg; [intros [= <- <-]; exists u; split; [done|lia]|]. split_bools.
  destruct (ReadFull (Z.to_nat _) r0) as [[t|] r1] eqn:Et; intros [= <- <-];
    apply ReadFull_rest in Et as (u' & -> & Hu'); exists (u ++ u');
    (split; [by rewrite (assoc_L (++))|]); rewrite length_app; lia.
Qed.

(** *** Records *)

Lemma ReadExecRecord_encode kind payload rest :
  Z.of_nat (length payload) <= MaxExecRecordPayload ->
  ReadExecRecord (record_bytes kind payload ++ rest) = (Ok (kind, payload), rest).
Proof.
  intros Hl. unfold ReadExecRecord, record_bytes, MaxExecRecordPayload in *.
  set (l := be_put 4 _). assert (length l = 4%nat) as Hl4 by apply length_be_put.
  rewrite app_comm_cons, <- (assoc_L (++)), ReadFull_app by (cbn; lia).
  assert (slice 1 5 (kind :: l) = l) as ->.
  { destruct l as [|? [|? [|? [|? [|]]]]]; done. }
  unfold l. rewrite (uint_small 32) by lia. rewrite be_get_put_small by lia.
  replace (_ >? 65536) with false by lia. by rewrite ReadFull_app by lia.
Qed.

Definition records_bytes (rs : list (byte * bytes)) : bytes :=
  concat ((fun r => record_bytes r.1 r.2) <$> rs).

Section writer.
Context {W : Type} `{WriterStrict W}.

Lemma Write_all (w w' : W) p n : Write w p = (n, None, w') -> written w' = written w ++ p.
Proof.
  intros E. pose proof (Write_short _ _ _ _ E) as ->.
  by rewrite (Write_written _ _ _ _ _ E), firstn_all.
Qed.

Lemma WriteExecRecord_Ok (w w' : W) k p :
  WriteExecRecord w k p = (None, w') ->
  written w' = written w ++ record_bytes k p /\ Z.of_nat (length p) <= MaxExecRecordPayload.
Proof.
  unfold WriteExecRecord. destruct (_ >? _) eqn:Eg; [done|].
  destruct (Write w (record_bytes k p)) as [[n e] w1] eqn:Ew. destruct e; [done|].
  intros [= <-]. split_bools. split; [by eapply Write_all|done].
Qed.

Lemma write_records_Ok rs (w w' : W) :
  write_records w rs = (None, w') ->
  written w' = written w ++ records_bytes rs /\
  Forall (fun r => Z.of_nat (length r.2) <= MaxExecRecordPayload) rs.
Proof.
  revert w. induction rs as [|[k p] rs IH]; intros w; cbn [write_records].
  { intros [= <-]. by rewrite app_nil_r. }
  destruct (WriteExecRecord w k p) as [[e|] w1] eqn:E; [done|]. intros E'.
  apply WriteExecRecord_Ok in E as [Hw Hp]. apply IH in E' as [Hw' Hrs].
  split; [|by constructor]. unfold records_bytes in *. rewrite fmap_cons. cbn [concat fst snd].
  by rewrite Hw', Hw, <- (assoc_L (++)).
Qed.
End writer.

Lemma read_records_encode rs fuel :
  Forall (fun r => Z.of_nat (length r.2) <= MaxExecRecordPayload) rs -> (length rs < fuel)%nat ->
  read_records fuel (records_bytes rs) = (rs, WireIO EOF).
Proof.
  intros Hrs. revert fuel. induction Hrs as [|[k p] rs Hp Hrs IH]; intros [|fuel] Hf; cbn in Hf; try lia.
  - done.
  - cbn [read_records]. unfold records_bytes in *. rewrite fmap_cons. cbn [concat fst snd].
    rewrite ReadExecRecord_encode by done. by rewrite IH by lia.
Qed.

(** *** Negotiation *)

Lemma select_version_spec server client :
  let v := select_version server client in
  0 <= v /\ (v <> 0 -> v ∈ server /\ v ∈ client) /\
  (forall u, u ∈ server -> u ∈ client -> u <= v).
Proof.
  cbn zeta. unfold select_version.
  induction client as [|c client IH] using rev_ind; [cbn; split_and!; [done|done|set_solver]|].
  rewrite foldl_app. cbn [foldl]. set (v := foldl _ 0 client) in *. destruct IH as (H0 & H1 & H2).
  destruct (bool_decide (c ∈ server)) eqn:Ec; cbn [andb]; split_bools.
  - destruct (c >? v) eqn:Eg; split_bools.
    + split_and!; [lia|set_solver|]. intros u Hu Hin. apply elem_of_app in Hin as [Hin|Hin].
      * specialize (H2 u Hu Hin). lia.
      * apply list_elem_of_singleton in Hin. lia.
    + split_and!; [lia|set_solver|]. intros u Hu Hin. apply elem_of_app in Hin as [Hin|Hin]; [by apply H2|].
      apply list_elem_of_singleton in Hin. lia.
  - split_and!; [lia|set_solver|]. intros u Hu Hin. apply elem_of_app in Hin as [Hin|Hin]; [by apply H2|].
    apply list_elem_of_singleton in Hin as ->. done.
Qed.

Lemma common_features_spec server client :
  NoDup (common_features server client) /\
  (forall f, f ∈ common_features server client <-> f ∈ server /\ f ∈ client).
Proof.
  unfold common_features. induction client as [|c client IH] using rev_ind.
  { cbn. split; [apply NoDup_nil_2|set_solver]. }
  rewrite foldl_app. cbn [foldl]. set (fs := foldl _ [] client) in *. destruct IH as [IH1 IH2].
  destruct (bool_decide (c ∈ server)) eqn:Ec; cbn [andb]; split_bools; [|set_solver].
  destruct (bool_decide (c ∈ fs)) eqn:Ef; cbn [negb]; split_bools.
  - split; [done|]. intros f. rewrite IH2, elem_of_app, list_elem_of_singleton.
    split; [naive_solver|]. intros [Hs [Hc| ->]]; [done|]. by apply IH2.
  - split; [apply NoDup_app; split_and!; [done|set_solver|apply NoDup_singleton]|].
    intros f. rewrite !elem_of_app, IH2, list_elem_of_singleton. naive_solver.
Qed.

Lemma common_features_comm a b : common_features a b ≡ₚ common_features b a.
Proof.
  destruct (common_features_spec a b) as [Na Ha], (common_features_spec b a) as [Nb Hb].
  apply NoDup_Permutation; [done|done|]. intros x. rewrite Ha, Hb. naive_solver.
Qed.

(** ** Properties *)

(** The agent preface is read by a parser that accepts exactly the bytes
    [WritePreface] produces: for every input, [ReadPreface] returns a token
    exactly when the input starts with that token's encoding and the token has 1
    to 2048 bytes, leaving the rest of the stream for the frame decoder, and
    whatever the input it never consumes more than 2056 bytes; a [WritePreface]
    that succeeds has put exactly that encoding on the wire. *)
Theorem preface_roundtrip {W} `{WriterStrict W} (w w' : W) (token : bytes) (input rest : bytes) :
  (ReadPreface input = (Ok token, rest) <->
     input = preface_bytes token ++ rest /\ 0 < Z.of_nat (length token) <= MaxPrefaceToken) /\
  (exists used, input = used ++ (ReadPreface input).2 /\ Z.of_nat (length used) <= 8 + MaxPrefaceToken) /\
  (WritePreface w token = (None, w') ->
     written w' = written w ++ preface_bytes token /\
     ReadPreface (preface_bytes token ++ rest) = (Ok token, rest)).
Proof.
  split_and!.
  - split; [apply ReadPreface_Ok|]. intros [-> Hl]. by apply ReadPreface_encode.
  - destruct (ReadPreface input) as [r rest'] eqn:E. by apply ReadPreface_consumes in E.
  - unfold WritePreface. destruct (_ || _) eqn:Eg; [done|]. split_bools.
    destruct (Write w (preface_bytes token)) as [[n e] w1] eqn:Ew. destruct e; [done|].
    intros [= <-]. split; [by eapply Write_all|]. apply ReadPreface_encode. lia.
Qed.

#[global] Instance buffer_writer_strict : WriterStrict bytes.
Proof. split; cbn. intros w p n w' E. by injection E as <- <-. Qed.

Lemma preface_roundtrip_witness :
  WritePreface (W := bytes) [] #"tok" = (None, preface_bytes #"tok") /\
  ReadPreface (preface_bytes #"tok" ++ #"x") = (Ok #"tok", #"x").
Proof.
  split; [reflexivity|].
  apply (preface_roundtrip (W := bytes) [] (preface_bytes #"tok") #"tok" [] #"x"). reflexivity.
Defined.

(** The output of a script run survives the wire: if every record of a run
    is written without error, reading the written bytes yields the same kinds and
    payloads in the same order and then a clean end of stream. *)
Theorem exec_records_roundtrip {W} `{WriterStrict W} (w w' : W) (rs : list (byte * bytes)) (fuel : nat)
    (Hw : write_records w rs = (None, w')) (Hfuel : (length rs < fuel)%nat) :
  exists out, written w' = written w ++ out /\ read_records fuel out = (rs, WireIO EOF).
Proof.
  apply write_records_Ok in Hw as [Hw Hrs]. exists (records_bytes rs).
  split; [done|]. by apply read_records_encode.
Qed.

Definition sample_records : list (byte * bytes) :=
  [(ExecRecordStdout, #"out"); (ExecRecordStderr, []); (ExecRecordExit, #"0")].

Lemma exec_records_roundtrip_witness :
  exists out, written (records_bytes sample_records) = written [] ++ out /\
    read_records 4 out = (sample_records, WireIO EOF).
Proof.
  apply (exec_records_roundtrip (W := bytes) [] (records_bytes sample_records) sample_records 4);
    [reflexivity|cbn; lia].
Defined.

(** Capability negotiation is symmetric and optimal: both peers compute the
    same result whatever side they call client; it fails exactly when they share
    no non-zero version; otherwise it picks the highest shared version and, sorted
    and without duplicates, exactly the shared features. *)
Theorem negotiation_symmetric (a b : CapabilityHello) :
  NegotiateCapabilities a b = NegotiateCapabilities b a /\
  match NegotiateCapabilities a b with
  | None => forall v, v ∈ Versions a -> v ∈ Versions b -> v <= 0
  | Some n =>
      n_Version n ∈ Versions a /\ n_Version n ∈ Versions b /\
      (forall v, v ∈ Versions a -> v ∈ Versions b -> v <= n_Version n) /\
      NoDup (n_Features n) /\ StronglySorted (not_less str_ltb) (n_Features n) /\
      (forall f, f ∈ n_Features n <-> f ∈ Features a /\ f ∈ Features b)
  end.
Proof.
  destruct (select_version_spec (Versions b) (Versions a)) as (A0 & A1 & A2).
  destruct (select_version_spec (Versions a) (Versions b)) as (B0 & B1 & B2).
  unfold NegotiateCapabilities.
  assert (select_version (Versions b) (Versions a) = select_version (Versions a) (Versions b)) as Ev.
  { set (x := select_version _ (Versions a)) in *. set (y := select_version (Versions a) _) in *.
    destruct (decide (x = 0)) as [Hx|Hx], (decide (y = 0)) as [Hy|Hy]; try lia.
    - destruct (B1 Hy). specialize (A2 y). naive_solver lia.
    - destruct (A1 Hx). specialize (B2 x). naive_solver lia.
    - destruct (A1 Hx), (B1 Hy). specialize (A2 y). specialize (B2 x). naive_solver lia. }
  rewrite <- Ev. destruct (select_version (Versions b) (Versions a) =? 0) eqn:Ez; split_bools.
  { split; [done|]. intros v Ha Hb. rewrite Ez in A2. by apply A2. }
  split.
  - f_equal. f_equal. apply sort_by_unique; [apply str_ltb_asym|apply str_ltb_trans_false| |apply common_features_comm].
    intros x y _ _. apply str_ltb_trichotomy.
  - destruct (A1 Ez) as [Hb Ha]. cbn [n_Version n_Features].
    destruct (common_features_spec (Features b) (Features a)) as [Hn Hm].
    split_and!; [done|done|by intros; apply A2|by rewrite sort_by_perm| |].
    + apply sort_by_sorted; [apply str_ltb_asym|apply str_ltb_trans_false].
    + intros f. rewrite sort_by_perm, Hm. naive_solver.
Qed.
