(* ===== verification/RelayStream.v ===== *)
(** * The Server's Agent relay stream

    [agentRelayStream] of internal/server/agent_relay_transport.go: the
    byte-accounted inbound buffer, the credit it returns to the Agent, the
    credit-bounded write path, and its half-close and failure states; and the
    sending side of the Agent that talks to it (internal/agent/session.go). *)

From stdpp Require Import base list relations strings.
From Stdlib Require Import Ascii.
From S2P Require Import Prelude GoStrings Frame Stream Window Wire.
Local Open Scope Z_scope.

Inductive relay_err :=
| RelayEOF                     (* io.EOF *)
| RelayClosedPipe              (* io.ErrClosedPipe *)
| RelayBackpressure            (* relay.ErrBackpressure *)
| RelayProto (e : proto_error)
| RelaySend                    (* what sendServerGeneration returned *).

#[global] Instance relay_err_eq_dec : EqDecision relay_err.
Proof. solve_decision. Defined.

(** The stream.  The one-slot wake channels are booleans; [rs_attached] is the
    entry of the transport's stream table. *)
Record agentRelayStream := mkRelay {
  rs_wireID : Z;
  rs_readBuf : bytes;
  rs_readPos : nat;
  rs_budget : Z;
  rs_err : option relay_err;
  rs_localHalf : bool;
  rs_remoteHalf : bool;
  rs_send : option StreamState;
  rs_unacked : Z;
  rs_done : bool;
  rs_closed : bool;
  rs_attached : bool;
  rs_dataSignal : bool;
  rs_controlSignal : bool;
}.

Definition rs_set_buf (s : agentRelayStream) (buf : bytes) (pos : nat) (sig : bool) :=
  mkRelay (rs_wireID s) buf pos (rs_budget s) (rs_err s) (rs_localHalf s) (rs_remoteHalf s)
    (rs_send s) (rs_unacked s) (rs_done s) (rs_closed s) (rs_attached s) sig (rs_controlSignal s).
Definition rs_set_signals (s : agentRelayStream) (d c : bool) :=
  mkRelay (rs_wireID s) (rs_readBuf s) (rs_readPos s) (rs_budget s) (rs_err s) (rs_localHalf s)
    (rs_remoteHalf s) (rs_send s) (rs_unacked s) (rs_done s) (rs_closed s) (rs_attached s) d c.
Definition rs_set_unacked (s : agentRelayStream) (u : Z) :=
  mkRelay (rs_wireID s) (rs_readBuf s) (rs_readPos s) (rs_budget s) (rs_err s) (rs_localHalf s)
    (rs_remoteHalf s) (rs_send s) u (rs_done s) (rs_closed s) (rs_attached s)
    (rs_dataSignal s) (rs_controlSignal s).
Definition rs_set_send (s : agentRelayStream) (st : option StreamState) :=
  mkRelay (rs_wireID s) (rs_readBuf s) (rs_readPos s) (rs_budget s) (rs_err s) (rs_localHalf s)
    (rs_remoteHalf s) st (rs_unacked s) (rs_done s) (rs_closed s) (rs_attached s)
    (rs_dataSignal s) (rs_controlSignal s).
Definition rs_set_halves (s : agentRelayStream) (l r : bool) :=
  mkRelay (rs_wireID s) (rs_readBuf s) (rs_readPos s) (rs_budget s) (rs_err s) l r
    (rs_send s) (rs_unacked s) (rs_done s) (rs_closed s) (rs_attached s)
    (rs_dataSignal s) (rs_controlSignal s).
Definition rs_set_final (s : agentRelayStream) (e : option relay_err) (done closed attached : bool) :=
  mkRelay (rs_wireID s) (rs_readBuf s) (rs_readPos s) (rs_budget s) e (rs_localHalf s)
    (rs_remoteHalf s) (rs_send s) (rs_unacked s) done closed attached
    (rs_dataSignal s) (rs_controlSignal s).

(** Bytes received and not yet handed to [Read]. *)
Definition buffered (s : agentRelayStream) : Z :=
  Z.of_nat (length (rs_readBuf s)) - Z.of_nat (rs_readPos s).

(** The stream [OpenStream] registers for a window. *)
Definition newRelayStream (wireID window : Z) : agentRelayStream :=
  mkRelay wireID [] 0 window None false false
    (match NewStreamState wireID DefaultAgentReceiveWindow with
     | Ok st => Some (match OpenLocal st with Ok st' => st' | Err _ => st end)
     | Err _ => None
     end) 0 false false true false false.

Definition detach (s : agentRelayStream) : agentRelayStream :=
  rs_set_final s (rs_err s) (rs_done s) (rs_closed s) false.

(** [finish] (and [fail]): a later error replaces an EOF, nothing else does. *)
Definition finish (s : agentRelayStream) (e : relay_err) : agentRelayStream :=
  let err :=
    match rs_err s with
    | None => Some e
    | Some RelayEOF => if decide (e = RelayEOF) then Some RelayEOF else Some e
    | Some old => Some old
    end in
  rs_set_final s err true (rs_closed s) (rs_attached s).

(** ** Inbound bytes *)

Definition enqueue (s : agentRelayStream) (payload : bytes) : result agentRelayStream relay_err :=
  if rs_remoteHalf s then Err (RelayProto ErrInvalidFrame)
  else match rs_err s with
  | Some e => Err e
  | None =>
      let budget := if rs_budget s <=? 0 then DefaultServerReceiveWindow else rs_budget s in
      let buf := drop (rs_readPos s) (rs_readBuf s) in
      if Z.of_nat (length buf) + Z.of_nat (length payload) >? budget then Err RelayBackpressure
      else match payload with
      | [] => Ok (rs_set_buf s buf 0 (rs_dataSignal s))
      | _ => Ok (rs_set_buf s (buf ++ payload) 0 true)
      end
  end.

(** [sendServerGeneration]'s answer is an argument of the operations that send:
    [true] for a nil error. *)
Definition WriteControl (s : agentRelayStream) (sent : bool) (f : Frame) :
    result unit relay_err * agentRelayStream * list Frame :=
  if negb (FType f =? FrameWindowUpdate) then (Err (RelayProto ErrInvalidFrame), s, [])
  else
    let f' := mkFrame CurrentVersion (FType f) (Flags f) (rs_wireID s) (Window f) (Payload f) in
    if sent then (Ok tt, s, [f'])
    else (Err RelaySend, finish (detach s) RelaySend, [f']).

Definition releaseReceiveWindow (cfg : AgentRelayWindowConfig) (s : agentRelayStream)
    (sent : bool) (consumed : Z) : agentRelayStream * list Frame :=
  if consumed <=? 0 then (s, [])
  else match rs_err s with
  | Some _ => (s, [])
  | None =>
      let unacked := uint 32 (rs_unacked s + uint 32 consumed) in
      let free := rs_budget s - buffered s in
      let remaining := if 0 <? free then uint 32 free else 0 in
      let threshold := updateThreshold cfg (uint 32 (Z.max (rs_budget s) 0)) in
      if ShouldFlushWindowUpdate remaining unacked threshold then
        if unacked =? 0 then (rs_set_unacked s 0, [])
        else
          let '(_, s', out) :=
            WriteControl (rs_set_unacked s 0) sent (mkFrame 0 FrameWindowUpdate 0 0 unacked []) in
          (s', out)
      else (rs_set_unacked s unacked, [])
  end.

(** One pass of [Read]'s loop: it returns, or waits for a wake-up. *)
Inductive read_outcome :=
| ReadBytes (data : bytes)
| ReadNothing
| ReadError (e : relay_err)
| ReadWaits.

Definition Read (cfg : AgentRelayWindowConfig) (s : agentRelayStream) (sent : bool) (n : nat) :
    read_outcome * agentRelayStream * list Frame :=
  if decide (n = 0%nat) then (ReadNothing, s, [])
  else if decide (rs_readPos s < length (rs_readBuf s))%nat then
    let data := take n (drop (rs_readPos s) (rs_readBuf s)) in
    let pos := (rs_readPos s + length data)%nat in
    let s1 := if decide (pos = length (rs_readBuf s))
              then rs_set_buf s [] 0 (rs_dataSignal s)
              else rs_set_buf s (rs_readBuf s) pos (rs_dataSignal s) in
    let '(s2, out) := releaseReceiveWindow cfg s1 sent (Z.of_nat (length data)) in
    (ReadBytes data, s2, out)
  else
    let s1 := rs_set_signals s false (rs_controlSignal s) in
    if rs_controlSignal s1 then (ReadNothing, rs_set_signals s1 false false, [])
    else match rs_err s1 with
    | Some e => (ReadError e, s1, [])
    | None => (ReadWaits, s1, [])
    end.

(** ** Outbound bytes *)

Inductive send_outcome :=
| SendChunk (n : Z)
| SendError (e : relay_err)
| SendWaits.

(** One pass of [consumeSendWindow]'s loop.  When the window is empty the code
    waits on the wake-up channel, a 100 ms timer and [done]; a closed [done] is
    always ready. *)
Definition consumeSendWindow (s : agentRelayStream) (remaining : Z) :
    send_outcome * agentRelayStream :=
  let terminal := match rs_err s with Some e => negb (bool_decide (e = RelayEOF)) | None => false end in
  if terminal || rs_localHalf s
  then (SendError (match rs_err s with Some e => e | None => RelayClosedPipe end), s)
  else match rs_send s with
  | None => (SendChunk remaining, s)
  | Some st =>
      let want0 := uint 32 remaining in
      let want := if want0 >? MaxStreamFrame then MaxStreamFrame else want0 in
      let waits :=
        (if rs_done s
         then SendError (match rs_err s with Some e => e | None => RelayClosedPipe end)
         else SendWaits, s) in
      match ConsumeSend st want with
      | Ok st' => (SendChunk want, rs_set_send s (Some st'))
      | Err ErrWindowExhausted =>
          if 0 <? st_send st then
            let want' := if st_send st <? want then st_send st else want in
            match ConsumeSend st want' with
            | Ok st' => (SendChunk want', rs_set_send s (Some st'))
            | Err ErrWindowExhausted => waits
            | Err e => (SendError (RelayProto e), s)
            end
          else waits
      | Err e => (SendError (RelayProto e), s)
      end
  end.

Definition data_frame (id : Z) (p : bytes) : Frame :=
  mkFrame CurrentVersion FrameData 0 id 0 p.

(** [Write] up to the point where it returns or has to wait for credit;
    [fuel] bounds the number of chunks.  [sends] answers each frame sent. *)
Inductive write_outcome :=
| WriteDone
| WriteFailed (e : relay_err)
| WriteWaits
| WriteNoFuel.

Fixpoint write_loop (fuel : nat) (sends : nat -> bool) (s : agentRelayStream)
    (payload : bytes) (sent : nat) : write_outcome * nat * agentRelayStream * list Frame :=
  if decide (sent < length payload)%nat then
    match fuel with
    | O => (WriteNoFuel, sent, s, [])
    | S fuel' =>
        match consumeSendWindow s (Z.of_nat (length payload - sent)) with
        | (SendError e, s1) => (WriteFailed e, sent, s1, [])
        | (SendWaits, s1) => (WriteWaits, sent, s1, [])
        | (SendChunk n, s1) =>
            let chunk := Z.to_nat n in
            let f := data_frame (rs_wireID s) (slice sent (sent + chunk) payload) in
            if sends sent then
              let '(o, m, s2, out) := write_loop fuel' sends s1 payload (sent + chunk) in
              (o, m, s2, f :: out)
            else (WriteFailed RelaySend, sent, finish (detach s1) RelaySend, [f])
        end
    end
  else (WriteDone, sent, s, []).

Definition RelayWrite (sends : nat -> bool) (s : agentRelayStream) (payload : bytes) :
    write_outcome * nat * agentRelayStream * list Frame :=
  match payload with
  | [] => (WriteDone, 0%nat, s, [])
  | _ =>
      if Z.of_nat (length payload) >? MaxPayload
      then (WriteFailed (RelayProto ErrPayloadTooLarge), 0%nat, s, [])
      else write_loop (length payload) sends s payload 0
  end.

(** ** Half-close and close *)

Definition remoteHalfClose (s : agentRelayStream) : bool * agentRelayStream :=
  if rs_remoteHalf s then (false, s)
  else
    let s1 := rs_set_halves s (rs_localHalf s) true in
    (rs_localHalf s, finish s1 RelayEOF).

Definition CloseWrite (s : agentRelayStream) (sent : bool) :
    result unit relay_err * agentRelayStream * list Frame :=
  let hard := match rs_err s with Some e => negb (bool_decide (e = RelayEOF)) | None => false end in
  if hard then (Err (match rs_err s with Some e => e | None => RelayEOF end), s, [])
  else if rs_localHalf s then (Ok tt, s, [])
  else
    let s1 := rs_set_halves s true (rs_remoteHalf s) in
    let f := mkFrame CurrentVersion FrameHalfClose 0 (rs_wireID s) 0 [] in
    if sent then (Ok tt, if rs_remoteHalf s then detach s1 else s1, [f])
    else (Err RelaySend, finish (detach s1) RelaySend, [f]).

Definition RelayClose (s : agentRelayStream) : agentRelayStream * list Frame :=
  if rs_closed s then (s, [])
  else
    let s1 := detach s in
    let complete := rs_localHalf s && rs_remoteHalf s in
    let terminal := match rs_err s with Some e => negb (bool_decide (e = RelayEOF)) | None => false end in
    let out := if negb complete && negb terminal
               then [mkFrame CurrentVersion FrameReset 0 (rs_wireID s) 0 []] else [] in
    let s2 := finish s1 RelayClosedPipe in
    (rs_set_final s2 (rs_err s2) (rs_done s2) true (rs_attached s2), out).

(** ** The Agent's sending side (internal/agent/session.go) *)

(** The send state [completeDial] creates from the window of OPEN_STREAM. *)
Definition agent_send_state (id window : Z) : option StreamState :=
  if 0 <? window then
    match NewStreamState id window with
    | Ok st => Some (match OpenLocal st with Ok st' => st' | Err _ => st end)
    | Err _ => None
    end
  else None.

(** One pass of [waitForSendWindow]'s loop. *)
Definition waitForSendWindow (st : StreamState) (size : Z) : send_outcome * StreamState :=
  match ConsumeSend st (uint 32 size) with
  | Ok st' => (SendChunk size, st')
  | Err ErrWindowExhausted => (SendWaits, st)
  | Err e => (SendError (RelayProto e), st)
  end.

(** The size of the buffer [readBack] reads the target's bytes into: the bound
    of one DATA payload. *)
Definition readBack_buffer (protocol : bytes) : Z :=
  let n := 32768 in
  let n := if ascii_EqualFold protocol #"udp" then MaxPayload else n in
  if ascii_EqualFold protocol #"icmp-echo" then MaxDatagram else n.

(** ** A download: Agent to Server, with both directions of the wire *)

Record link := mkLink {
  lk_agent : StreamState;
  lk_data : list bytes;       (* DATA payloads on the wire, oldest first *)
  lk_relay : agentRelayStream;
  lk_updates : list Z;        (* WINDOW_UPDATE credits on the wire *)
}.

Inductive link_step (cfg : AgentRelayWindowConfig) (protocol : bytes) : link -> link -> Prop :=
| LinkSend a a' ds r us p :
    p <> [] -> Z.of_nat (length p) <= readBack_buffer protocol ->
    waitForSendWindow a (Z.of_nat (length p)) = (SendChunk (Z.of_nat (length p)), a') ->
    link_step cfg protocol (mkLink a ds r us) (mkLink a' (ds ++ [p]) r us)
| LinkDeliver a p ds r r' us :
    enqueue r p = Ok r' ->
    link_step cfg protocol (mkLink a (p :: ds) r us) (mkLink a ds r' us)
| LinkRead a ds r r' us n o out :
    Read cfg r true n = (o, r', out) ->
    link_step cfg protocol (mkLink a ds r us) (mkLink a ds r' (us ++ (Window <$> out)))
| LinkCredit a a' ds r u us :
    AddSendWindow a u = Ok a' ->
    link_step cfg protocol (mkLink a ds r (u :: us)) (mkLink a' ds r us).

Definition link_init (cfg : AgentRelayWindowConfig) (id requested : Z) (lk : link) : Prop :=
  exists a, agent_send_state id (windowFor cfg requested) = Some a /\
    lk = mkLink a [] (newRelayStream id (windowFor cfg requested)) [].

Definition link_reachable (cfg : AgentRelayWindowConfig) (protocol : bytes) (id requested : Z)
    (lk : link) : Prop :=
  exists lk0, link_init cfg id requested lk0 /\ rtc (link_step cfg protocol) lk0 lk.

(** ** Lemmas *)

Definition byte_len (p : bytes) : Z := Z.of_nat (length p).

(** A stream that is being read normally. *)
Definition relay_live (s : agentRelayStream) : Prop :=
  rs_err s = None /\ rs_remoteHalf s = false /\ (rs_readPos s <= length (rs_readBuf s))%nat.

Lemma enqueue_fits s p :
  relay_live s -> 0 < rs_budget s -> buffered s + byte_len p <= rs_budget s ->
  exists s', enqueue s p = Ok s' /\ relay_live s' /\ rs_budget s' = rs_budget s /\
    rs_unacked s' = rs_unacked s /\ buffered s' = buffered s + byte_len p.
Proof.
  intros (He & Hr & Hpos) Hb Hfit. unfold enqueue. rewrite Hr, He.
  replace (rs_budget s <=? 0) with false by lia.
  unfold buffered, byte_len in *. rewrite length_drop.
  destruct (_ >? rs_budget s) eqn:Hgt; [split_bools; lia|].
  destruct p as [|c p]; (eexists; split; [reflexivity|]); unfold relay_live, buffered; cbn;
    rewrite ?length_app, length_drop, He, Hr; cbn in *; split_and!; try done; lia.
Qed.

(** The credit a read returns is exactly what it took off the debt. *)
Lemma releaseReceiveWindow_spec cfg s n s' out :
  releaseReceiveWindow cfg s true n = (s', out) ->
  rs_err s = None -> 0 < n -> 0 <= rs_unacked s -> rs_unacked s + n <= rs_budget s ->
  0 <= UpdateThreshold cfg ->
  MinRefillableWindow <= rs_budget s <= DefaultServerReceiveWindow ->
  rs_err s' = None /\ rs_remoteHalf s' = rs_remoteHalf s /\ rs_budget s' = rs_budget s /\
  rs_readBuf s' = rs_readBuf s /\ rs_readPos s' = rs_readPos s /\
  0 <= rs_unacked s' < updateThreshold cfg (rs_budget s) /\
  Forall (fun u => 0 < u) (Window <$> out) /\
  rs_unacked s' + zsum id (Window <$> out) = rs_unacked s + n.
Proof.
  intros E He Hn Hu Hun Hth Hw. unfold releaseReceiveWindow in E.
  destruct (updateThreshold_room cfg (rs_budget s) Hw Hth) as [Ht0 _].
  assert (rs_budget s <= max_uint32 /\ 0 < rs_budget s) as [Hm Hp].
  { unfold MinRefillableWindow, DefaultWindowUpdateThreshold, DefaultServerReceiveWindow,
      MaxStreamFrame, max_uint32 in *. lia. }
  replace (n <=? 0) with false in E by lia. rewrite He in E.
  rewrite (uint32_id n), (uint32_id (rs_unacked s + n)), Z.max_l,
    (uint32_id (rs_budget s)) in E by lia.
  unfold ShouldFlushWindowUpdate in E.
  replace (rs_unacked s + n =? 0) with false in E by lia.
  destruct (_ || _) eqn:Ef; cbn in E; injection E as <- <-; cbn;
    rewrite ?zsum_cons, ?zsum_nil; unfold id.
  - split_and!; try done; try lia. repeat constructor. lia.
  - split_bools. split_and!; try done; try lia.
Qed.

Lemma Read_spec cfg s n o s' out :
  Read cfg s true n = (o, s', out) ->
  relay_live s -> buffered s + rs_unacked s <= rs_budget s ->
  0 <= rs_unacked s < updateThreshold cfg (rs_budget s) ->
  0 <= UpdateThreshold cfg ->
  MinRefillableWindow <= rs_budget s <= DefaultServerReceiveWindow ->
  relay_live s' /\ rs_budget s' = rs_budget s /\
  0 <= rs_unacked s' < updateThreshold cfg (rs_budget s) /\
  Forall (fun u => 0 < u) (Window <$> out) /\
  buffered s' + rs_unacked s' + zsum id (Window <$> out) = buffered s + rs_unacked s.
Proof.
  intros E (He & Hr & Hpos) Hb Hlt Hth Hw. unfold Read in E.
  destruct (decide (n = 0%nat)) as [->|Hn].
  { injection E as <- <- <-. cbn. rewrite zsum_nil. split_and!; try done; try lia. }
  destruct (decide (rs_readPos s < length (rs_readBuf s))%nat) as [Hlen|Hlen].
  2:{ cbn in E. unfold relay_live, buffered in *.
      destruct (rs_controlSignal s); [|rewrite He in E]; injection E as <- <- <-; cbn;
      rewrite ?zsum_nil; split_and!; try done; try lia. }
  set (data := take n (drop (rs_readPos s) (rs_readBuf s))) in *.
  assert (length data = Nat.min n (length (rs_readBuf s) - rs_readPos s)) as Hd
    by (unfold data; by rewrite length_take, length_drop).
  match type of E with context [releaseReceiveWindow cfg ?t _ _] => set (s1 := t) in * end.
  destruct (releaseReceiveWindow cfg s1 true (Z.of_nat (length data))) as [s2 out2] eqn:Er.
  injection E as <- <- <-.
  assert (rs_err s1 = None /\ rs_remoteHalf s1 = false /\ rs_budget s1 = rs_budget s /\
    rs_unacked s1 = rs_unacked s /\ (rs_readPos s1 <= length (rs_readBuf s1))%nat /\
    buffered s1 = buffered s - Z.of_nat (length data)) as (H1 & H2 & H3 & H4 & H5 & H6).
  { unfold s1, buffered. destruct (decide _); cbn; split_and!; try done; lia. }
  apply releaseReceiveWindow_spec in Er as (R1 & R2 & R3 & R4 & R5 & R6 & R7 & R8);
    rewrite ?H3, ?H4 in *; try done; try lia.
  2:{ unfold buffered in *. lia. }
  unfold relay_live, buffered in *. rewrite R4, R5, R2.
  split_and!; try done; lia.
Qed.

Definition link_inv (cfg : AgentRelayWindowConfig) (w : Z) (lk : link) : Prop :=
  st_status (lk_agent lk) = StreamOpen /\ 0 <= st_send (lk_agent lk) /\
  relay_live (lk_relay lk) /\ rs_budget (lk_relay lk) = w /\
  0 <= rs_unacked (lk_relay lk) < updateThreshold cfg w /\
  Forall (fun u => 0 < u) (lk_updates lk) /\
  st_send (lk_agent lk) + zsum byte_len (lk_data lk) + buffered (lk_relay lk) +
    rs_unacked (lk_relay lk) + zsum id (lk_updates lk) = w.

Lemma zsum_pos_nonneg l : Forall (fun u => 0 < u) l -> 0 <= zsum id l.
Proof. induction 1 as [|u l Hu _ IH]; rewrite ?zsum_cons, ?zsum_nil; unfold id in *; lia. Qed.

Lemma buffered_nonneg s : relay_live s -> 0 <= buffered s.
Proof. intros (_ & _ & H). unfold buffered. lia. Qed.

Lemma byte_len_nonneg p : 0 <= byte_len p.
Proof. unfold byte_len. lia. Qed.

Lemma readBack_buffer_bound protocol : readBack_buffer protocol <= MaxPayload.
Proof. unfold readBack_buffer. repeat case_goal; done. Qed.

Section link.
Context (cfg : AgentRelayWindowConfig) (w : Z).
Hypothesis Hw : MinRefillableWindow <= w <= DefaultServerReceiveWindow.
Hypothesis Hth : 0 <= UpdateThreshold cfg.

Lemma w_range : 0 < w <= max_uint32.
Proof.
  unfold MinRefillableWindow, DefaultWindowUpdateThreshold, DefaultServerReceiveWindow,
    MaxStreamFrame, max_uint32 in *. lia.
Qed.

(** Every term of the credit balance is non-negative. *)
Lemma link_inv_bounds lk : link_inv cfg w lk ->
  0 <= zsum byte_len (lk_data lk) /\ 0 <= buffered (lk_relay lk) /\ 0 <= zsum id (lk_updates lk).
Proof.
  intros (_ & _ & Hl & _ & _ & Hu & _). split_and!.
  - apply zsum_nonneg, byte_len_nonneg.
  - by apply buffered_nonneg.
  - by apply zsum_pos_nonneg.
Qed.

Ltac open_inv Hi :=
  pose proof (link_inv_bounds _ Hi) as (Hd & Hb & Hus); pose proof w_range as [Hw0 Hwm];
  destruct Hi as (H1 & H2 & H3 & H4 & H5 & H6 & H7); cbn [lk_agent lk_data lk_relay lk_updates] in *;
  rewrite ?zsum_cons in *.

Ltac show_inv :=
  unfold link_inv;
  cbn [lk_agent lk_data lk_relay lk_updates st_send st_status set_send];
  rewrite ?zsum_app, ?zsum_cons.

Lemma link_send_inv a a' ds r us p :
  link_inv cfg w (mkLink a ds r us) -> p <> [] -> byte_len p <= MaxPayload ->
  waitForSendWindow a (byte_len p) = (SendChunk (byte_len p), a') ->
  link_inv cfg w (mkLink a' (ds ++ [p]) r us).
Proof.
  intros Hi Hp Hm E. open_inv Hi.
  pose proof (byte_len_nonneg p). unfold MaxPayload in *.
  unfold waitForSendWindow, ConsumeSend in E.
  rewrite H1, (uint32_id (byte_len p)) in E by (unfold max_uint32; lia).
  destruct (byte_len p >? st_send a) eqn:Eg; [done|]. injection E as <-.
  show_inv. rewrite zsum_nil. split_bools.
  rewrite uint32_id by lia. split_and!; try done; lia.
Qed.

Lemma link_deliver_ok a p ds r us :
  link_inv cfg w (mkLink a (p :: ds) r us) ->
  exists r', enqueue r p = Ok r' /\ link_inv cfg w (mkLink a ds r' us).
Proof.
  intros Hi. open_inv Hi.
  pose proof (zsum_nonneg byte_len ds byte_len_nonneg).
  destruct (enqueue_fits r p) as (r' & E & Hl' & Hb' & Hu' & Hbuf); [done|lia|lia|].
  exists r'. split; [done|]. show_inv.
  rewrite Hb', Hu', Hbuf. split_and!; try done; lia.
Qed.

Lemma link_credit_ok a ds r u us :
  link_inv cfg w (mkLink a ds r (u :: us)) ->
  exists a', AddSendWindow a u = Ok a' /\ link_inv cfg w (mkLink a' ds r us).
Proof.
  intros Hi. open_inv Hi.
  apply Forall_cons in H6 as [Hu Hus']. pose proof (zsum_pos_nonneg us Hus').
  unfold AddSendWindow. rewrite H1. unfold id in *.
  replace (st_send a + u >? max_uint32) with false by lia.
  eexists. split; [reflexivity|]. show_inv. unfold id.
  rewrite uint32_id by lia. split_and!; try done; lia.
Qed.

Lemma link_read_inv a ds r us n o r' out :
  link_inv cfg w (mkLink a ds r us) -> Read cfg r true n = (o, r', out) ->
  link_inv cfg w (mkLink a ds r' (us ++ (Window <$> out))).
Proof.
  intros Hi E. open_inv Hi.
  apply Read_spec in E as (R1 & R2 & R3 & R4 & R5); rewrite ?H4 in *; try done; try lia.
  show_inv. split_and!; try done; try lia.
  by apply Forall_app.
Qed.

Lemma link_step_inv protocol lk lk' :
  link_inv cfg w lk -> link_step cfg protocol lk lk' -> link_inv cfg w lk'.
Proof.
  intros Hi Hs. destruct Hs as [a a' ds r us p Hp Hm E|a p ds r r' us E| |a a' ds r u us E].
  - eapply link_send_inv; [done|done| |exact E].
    pose proof (readBack_buffer_bound protocol). unfold byte_len. lia.
  - apply link_deliver_ok in Hi as (r'' & E' & Hi'). congruence.
  - by eapply link_read_inv.
  - apply link_credit_ok in Hi as (a'' & E' & Hi'). congruence.
Qed.

(** With nothing in flight and nothing buffered, what is missing from the
    sender's window is less than the threshold. *)
Lemma link_idle_credit a r :
  link_inv cfg w (mkLink a [] r []) -> buffered r = 0 ->
  MaxStreamFrame < st_send a.
Proof.
  intros Hi Hb0. open_inv Hi. rewrite ?zsum_nil in *.
  destruct (updateThreshold_room cfg w Hw Hth). lia.
Qed.
End link.

Lemma link_init_inv cfg id requested lk :
  0 <= UpdateThreshold cfg ->
  link_init cfg id requested lk -> link_inv cfg (windowFor cfg requested) lk.
Proof.
  intros Hth (a & Ha & ->). pose proof (windowFor_range cfg requested) as Hw.
  destruct (updateThreshold_room cfg _ Hw Hth) as [Ht0 _].
  destruct (w_range _ Hw) as [Hw0 _].
  unfold agent_send_state, NewStreamState in Ha.
  replace (0 <? windowFor cfg requested) with true in Ha by lia.
  replace (windowFor cfg requested =? 0) with false in Ha by lia.
  destruct (id =? 0); [done|]. cbn in Ha. injection Ha as <-.
  unfold link_inv, relay_live, buffered; cbn. rewrite !zsum_nil. split_and!; try done; lia.
Qed.

Lemma link_reachable_inv cfg protocol id requested lk :
  0 <= UpdateThreshold cfg ->
  link_reachable cfg protocol id requested lk -> link_inv cfg (windowFor cfg requested) lk.
Proof.
  intros Hth (lk0 & H0 & Hr). apply link_init_inv in H0; [|done].
  induction Hr as [|x y z Hs _ IH]; [done|].
  apply IH. eapply link_step_inv; [apply windowFor_range|done|done|done].
Qed.

(** *** The write path *)

Lemma consumeSendWindow_spec s st remaining o s' :
  consumeSendWindow s remaining = (o, s') ->
  rs_send s = Some st -> 0 <= st_send st <= max_uint32 -> 0 < remaining <= MaxPayload ->
  match o with
  | SendChunk n => 0 < n <= MaxStreamFrame /\ n <= remaining /\ n <= st_send st /\
      s' = rs_set_send s (Some (set_send st (st_send st - n)))
  | SendError _ => s' = s
  | SendWaits => s' = s /\ st_send st = 0
  end.
Proof.
  intros E Hs Hst Hrem. unfold consumeSendWindow in E. rewrite Hs in E.
  unfold MaxPayload in Hrem. rewrite uint32_id in E by (unfold max_uint32; lia).
  destruct (_ || rs_localHalf s); [by injection E as <- <-|].
  set (want := if remaining >? MaxStreamFrame then MaxStreamFrame else remaining) in *.
  assert (0 < want <= MaxStreamFrame /\ want <= remaining) as [Hw Hr].
  { unfold want, MaxStreamFrame. case_goal; split_bools; lia. }
  unfold ConsumeSend in E. destruct (st_status st); try (by injection E as <- <-);
  destruct (want >? st_send st) eqn:Eg; split_bools;
    try (injection E as <- <-; rewrite uint32_id by lia; split_and!; (done || lia));
  (destruct (0 <? st_send st) eqn:E0; split_bools;
    [|destruct (rs_done s); injection E as <- <-; split_and?; (done || lia)]);
  replace (st_send st <? want) with true in E by lia;
  replace (st_send st >? st_send st) with false in E by lia;
  injection E as <- <-; rewrite uint32_id by lia; split_and!; (done || lia).
Qed.

Definition is_data (id : Z) (f : Frame) : Prop :=
  FType f = FrameData /\ StreamID f = id /\ Version f = CurrentVersion /\
  0 < payload_len f <= MaxStreamFrame.

Lemma slice_split {A} (i j : nat) (l : list A) :
  (i <= j)%nat -> take i l ++ slice i j l = take j l.
Proof.
  intros Hij. unfold slice. rewrite <- (take_drop i (take j l)).
  by rewrite take_take, Nat.min_l, skipn_firstn_comm by lia.
Qed.

Lemma write_loop_spec fuel sends s st payload m0 o m s' out :
  write_loop fuel sends s payload m0 = (o, m, s', out) ->
  rs_send s = Some st -> 0 <= st_send st <= max_uint32 ->
  Z.of_nat (length payload) <= MaxPayload ->
  (m0 <= length payload)%nat -> (length payload - m0 <= fuel)%nat ->
  o <> WriteNoFuel /\ (m0 <= m <= length payload)%nat /\
  Forall (is_data (rs_wireID s)) out /\ zsum payload_len out <= st_send st /\
  (exists sent lost, out = sent ++ lost /\ take m0 payload ++ concat (Payload <$> sent) = take m payload /\
     (lost = [] \/ (length lost = 1%nat /\ o = WriteFailed RelaySend))) /\
  (o = WriteDone -> m = length payload) /\
  (o = WriteWaits -> zsum payload_len out = st_send st).
Proof.
  revert s st m0 o m s' out.
  induction fuel as [|fuel IH]; intros s st m0 o m s' out E Hs Hst Hp Hm Hf; cbn in E;
    (destruct (decide (m0 < length payload)%nat) as [Hlt|Hge]; [|injection E as <- <- <- <-];
     [|cbn; rewrite zsum_nil; split_and!; try done; try lia; exists [], []; cbn; rewrite app_nil_r; by auto]);
    [lia|].
  destruct (consumeSendWindow s _) as [[n|e|] s1] eqn:Ec;
    (eapply consumeSendWindow_spec in Ec; [|done|done|lia]).
  2:{ injection E as <- <- <- <-. cbn. rewrite zsum_nil. split_and!; try done; try lia.
      exists [], []. cbn. rewrite app_nil_r. by auto. }
  2:{ destruct Ec as [-> Hz]. injection E as <- <- <- <-. cbn. rewrite zsum_nil. split_and!; try done; try lia.
      exists [], []. cbn. rewrite app_nil_r. by auto. }
  destruct Ec as (Hn & Hnr & Hns & ->).
  set (f := data_frame (rs_wireID s) (slice m0 (m0 + Z.to_nat n) payload)) in *.
  assert (payload_len f = n) as Hl.
  { unfold f, payload_len; cbn. rewrite length_slice by lia. lia. }
  assert (is_data (rs_wireID s) f) as Hd by (unfold is_data; rewrite Hl; split_and!; (done || lia)).
  destruct (sends m0).
  - destruct (write_loop fuel sends _ payload (m0 + Z.to_nat n)) as [[[o1 m1] s2] out1] eqn:Ew.
    injection E as <- <- <- <-.
    eapply IH in Ew as (H1 & H2 & H3 & H4 & (sent & lost & -> & H5 & H6) & H7 & H8);
      [|reflexivity|cbn; lia|done|lia|lia].
    cbn [st_send set_send rs_wireID rs_set_send] in *. rewrite zsum_cons.
    split_and!; try done; try lia; [by constructor| |intros; specialize (H8 ltac:(done)); lia].
    exists (f :: sent), lost. split_and!; [done| |done].
    rewrite fmap_cons. cbn [concat Payload f data_frame].
    by rewrite (assoc_L (++)), slice_split by lia.
  - injection E as <- <- <- <-. rewrite zsum_cons, zsum_nil.
    split_and!; try done; try lia; [by apply Forall_singleton|].
    exists [], [f]. cbn. rewrite app_nil_r. by auto.
Qed.

(** A relay stream whose reader has caught up, owing [u] bytes of credit. *)
Definition idle_relay (id w u : Z) (sig : bool) : agentRelayStream :=
  rs_set_unacked (rs_set_buf (newRelayStream id w) [] 0 sig) u.

Definition idle_link (id w u : Z) (sig : bool) : link :=
  mkLink (mkStream id StreamOpen (w - u) w) [] (idle_relay id w u sig) [].

(** Send, deliver and read one payload that stays below the threshold. *)
Lemma idle_round cfg protocol id w u sig p :
  MinRefillableWindow <= w <= DefaultServerReceiveWindow -> p <> [] ->
  byte_len p <= readBack_buffer protocol -> 0 <= u ->
  u + byte_len p < updateThreshold cfg w -> updateThreshold cfg w <= w ->
  rtc (link_step cfg protocol) (idle_link id w u sig) (idle_link id w (u + byte_len p) true).
Proof.
  intros Hw Hp Hm Hu Ht Htw. pose proof (w_range w Hw) as [Hw0 Hwm].
  pose proof (byte_len_nonneg p). unfold idle_link.
  assert (0 < byte_len p) by (unfold byte_len; destruct p; [done|cbn; lia]).
  eapply rtc_l; [eapply (LinkSend _ _ _ _ _ _ _ p); [done|done|]|].
  { unfold waitForSendWindow, ConsumeSend; cbn [st_status st_send]. fold (byte_len p).
    rewrite (uint32_id (byte_len p)), uint32_id by lia.
    replace (byte_len p >? w - u) with false by lia. reflexivity. }
  eapply rtc_l; [apply (LinkDeliver _ _ _ p [] _ (rs_set_unacked (rs_set_buf (newRelayStream id w) p 0 true) u))|].
  { unfold enqueue, idle_relay; cbn [rs_remoteHalf rs_err rs_budget rs_readPos rs_readBuf
      rs_set_unacked rs_set_buf newRelayStream drop length]. fold (byte_len p).
    replace (w <=? 0) with false by lia. cbv iota.
    change (Z.of_nat 0 + byte_len p) with (byte_len p).
    replace (byte_len p >? w) with false by lia.
    by destruct p. }
  eapply rtc_l; [eapply (LinkRead _ _ _ _ _ (idle_relay id w (u + byte_len p) true) [] (length p) (ReadBytes p) [])|].
  { unfold Read, idle_relay. cbn [rs_readPos rs_readBuf rs_set_unacked rs_set_buf drop].
    rewrite decide_False by (by destruct p). rewrite decide_True by (unfold byte_len in *; lia).
    rewrite drop_0, firstn_all, decide_True by done.
    unfold releaseReceiveWindow. fold (byte_len p).
    replace (byte_len p <=? 0) with false by lia.
    cbn [rs_err rs_set_unacked rs_set_buf newRelayStream rs_unacked rs_budget].
    rewrite (uint32_id (byte_len p)), (uint32_id (u + byte_len p)), Z.max_l, (uint32_id w) by lia.
    unfold ShouldFlushWindowUpdate, buffered; cbn [rs_readBuf rs_readPos rs_set_buf rs_set_unacked length].
    replace (u + byte_len p =? 0) with false by lia.
    replace (u + byte_len p >=? updateThreshold cfg w) with false by lia.
    change (Z.of_nat 0 - Z.of_nat 0) with 0. rewrite Z.sub_0_r.
    replace (0 <? w) with true by lia. rewrite (uint32_id w) by lia.
    replace (w <? MaxStreamFrame) with false
      by (unfold MinRefillableWindow, DefaultWindowUpdateThreshold, MaxStreamFrame in *; lia).
    reflexivity. }
  unfold idle_link. replace (w - u - byte_len p) with (w - (u + byte_len p)) by lia.
  apply rtc_refl.
Qed.

(** ** Properties *)

(** C25. A download can never overrun the Server.  In every state an Agent and a
    Server relay stream reach by exchanging DATA and WINDOW_UPDATE frames over
    an ordered wire, the credit is conserved: the Agent's send window, the bytes
    in flight, the bytes buffered, the bytes read but not yet acknowledged and
    the credits in flight add up to the negotiated window.  Hence [enqueue]
    never answers [ErrBackpressure] to a payload on the wire, and no
    WINDOW_UPDATE overflows the Agent's send window. *)
Theorem link_credit_conserved (cfg : AgentRelayWindowConfig) (protocol : bytes) (id requested : Z)
    (lk : link) (Hth : 0 <= UpdateThreshold cfg)
    (Hr : link_reachable cfg protocol id requested lk) :
  st_send (lk_agent lk) + zsum byte_len (lk_data lk) + buffered (lk_relay lk) +
    rs_unacked (lk_relay lk) + zsum Datatypes.id (lk_updates lk) = windowFor cfg requested /\
  0 <= buffered (lk_relay lk) <= windowFor cfg requested /\
  (forall p ds, lk_data lk = p :: ds -> is_ok (enqueue (lk_relay lk) p) = true) /\
  (forall u us, lk_updates lk = u :: us -> is_ok (AddSendWindow (lk_agent lk) u) = true).
Proof.
  pose proof (link_reachable_inv _ _ _ _ _ Hth Hr) as Hi.
  pose proof (windowFor_range cfg requested) as Hw.
  pose proof (link_inv_bounds _ _ _ Hi). destruct lk as [a ds r us]. split_and!.
  - apply Hi.
  - cbn in *. lia.
  - destruct Hi as (? & ? & ? & ? & ? & ? & ?). cbn in *. lia.
  - intros p ds' [= ->]. cbn [lk_relay].
    by destruct (link_deliver_ok _ _ Hw _ _ _ _ _ Hi) as (? & -> & _).
  - intros u us' [= ->]. cbn [lk_agent].
    by destruct (link_credit_ok _ _ Hw _ _ _ _ _ Hi) as (? & -> & _).
Qed.

Definition sample_cfg : AgentRelayWindowConfig := mkWindowConfig MinRefillableWindow 0 0.

(** Five bytes sent and delivered, three of them read. *)
Definition sample_link : link :=
  mkLink (mkStream 5 StreamOpen (MinRefillableWindow - 5) MinRefillableWindow) []
    (rs_set_unacked (rs_set_buf (newRelayStream 5 MinRefillableWindow) #"hello" 3 true) 3) [].

Definition agent0 (cfg : AgentRelayWindowConfig) : StreamState :=
  mkStream 5 StreamOpen (windowFor cfg 0) (windowFor cfg 0).

Lemma sample_link_reachable : link_reachable sample_cfg #"tcp" 5 0 sample_link.
Proof.
  eexists. split; [eexists; split; reflexivity|].
  eapply rtc_l; [eapply (LinkSend _ _ _ _ _ _ _ #"hello"); [done|by vm_compute|reflexivity]|].
  eapply rtc_l; [eapply LinkDeliver; reflexivity|].
  eapply rtc_l; [eapply (LinkRead _ _ _ _ _ _ _ 3%nat); reflexivity|].
  apply rtc_refl.
Qed.

Lemma link_credit_conserved_witness :
  buffered (lk_relay sample_link) = 2 /\
  0 <= buffered (lk_relay sample_link) <= windowFor sample_cfg 0.
Proof.
  split; [reflexivity|].
  apply (link_credit_conserved sample_cfg #"tcp" 5 0 sample_link);
    [by vm_compute|exact sample_link_reachable].
Defined.

(** C26. The credit policy never stalls a byte-stream download: with no frame in
    flight and nothing left to read, the Agent's remaining window admits any
    payload [readBack] can produce for a protocol other than UDP and ICMP, so
    the withheld acknowledgements never deadlock sender and receiver. *)
Theorem link_never_stalls (cfg : AgentRelayWindowConfig) (protocol : bytes) (id requested : Z)
    (lk : link) (p : bytes) (Hth : 0 <= UpdateThreshold cfg)
    (Hr : link_reachable cfg protocol id requested lk)
    (Hq : lk_data lk = [] /\ lk_updates lk = [] /\ buffered (lk_relay lk) = 0)
    (Hproto : ascii_EqualFold protocol #"udp" = false /\ ascii_EqualFold protocol #"icmp-echo" = false)
    (Hp : p <> [] /\ Z.of_nat (length p) <= readBack_buffer protocol) :
  exists a', waitForSendWindow (lk_agent lk) (Z.of_nat (length p)) =
    (SendChunk (Z.of_nat (length p)), a').
Proof.
  pose proof (link_reachable_inv _ _ _ _ _ Hth Hr) as Hi.
  destruct lk as [a ds r us], Hq as (Hd & Hu & Hb), Hp as [_ Hp], Hproto as [Hp1 Hp2].
  cbn [lk_data lk_updates lk_relay lk_agent] in *. subst.
  pose proof (link_idle_credit _ _ (windowFor_range cfg requested) Hth a r Hi Hb).
  destruct Hi as (H1 & _). cbn in H1. unfold readBack_buffer in Hp. rewrite Hp1, Hp2 in Hp.
  unfold waitForSendWindow, ConsumeSend, MaxStreamFrame in *.
  rewrite H1, uint32_id by (unfold max_uint32; lia).
  destruct (_ >? st_send a) eqn:Hgt; [split_bools; lia|]. by eexists.
Qed.

Lemma link_never_stalls_witness :
  exists a', waitForSendWindow (agent0 sample_cfg) 5 = (SendChunk 5, a').
Proof.
  apply (link_never_stalls sample_cfg #"tcp" 5 0
    (mkLink (agent0 sample_cfg) [] (newRelayStream 5 (windowFor sample_cfg 0)) []) #"hello");
    try ground.
  - eexists. split; [eexists; split; reflexivity|apply rtc_refl].
Defined.

(** The credit policy is sized for frames of at most 32 KiB, and UDP
    exceeds it: with the smallest configurable window, two 65507-byte datagrams
    that the Server has read completely leave 131014 bytes unacknowledged, below
    the flush threshold; nothing is in flight and nothing is buffered, further
    reads send no credit, and the Agent waits for credit for the third datagram. *)
Theorem udp_download_stalls :
  exists lk, link_reachable sample_cfg #"udp" 5 0 lk /\
    lk_data lk = [] /\ lk_updates lk = [] /\ buffered (lk_relay lk) = 0 /\
    (forall n, (Read sample_cfg (lk_relay lk) true n).2 = []) /\
    65507 <= readBack_buffer #"udp" /\
    waitForSendWindow (lk_agent lk) 65507 = (SendWaits, lk_agent lk).
Proof.
  exists (idle_link 5 MinRefillableWindow 131014 true). split_and!; try done.
  - exists (idle_link 5 MinRefillableWindow 0 false).
    split; [eexists; split; reflexivity|].
    assert (forall n, byte_len (replicate n "x"%char) = Z.of_nat n) as Hl
      by (intros; unfold byte_len; by rewrite length_replicate).
    set (d := replicate (Z.to_nat 65507) "x"%char).
    assert (byte_len d = 65507) as Hd by (unfold d; rewrite Hl; lia).
    assert (d <> []) as Hne by (intros E; by rewrite E in Hd).
    clearbody d. etrans.
    + apply (idle_round _ _ _ _ _ _ d); rewrite ?Hd; done.
    + pose proof (idle_round sample_cfg #"udp" 5 MinRefillableWindow 65507 true d) as Hr.
      rewrite Hd in *. apply Hr; done.
  - intros n. unfold Read. case_decide; done.
Qed.

(** [Write] is sound with respect to credit.  Whatever the transport
    answers, it terminates within its loop bound; the frames it emits are DATA
    frames of this stream of 1 to 32768 bytes whose payloads are, in order, the
    bytes [Write] reports as written (only a frame the transport refused may
    follow them); together they never exceed the send window; a completed write
    wrote everything, and a write that waits has used the window up. *)
Theorem RelayWrite_within_credit (sends : nat -> bool) (s : agentRelayStream) (st : StreamState)
    (payload : bytes) (o : write_outcome) (m : nat) (s' : agentRelayStream) (out : list Frame)
    (Hs : rs_send s = Some st) (Hst : 0 <= st_send st <= max_uint32)
    (E : RelayWrite sends s payload = (o, m, s', out)) :
  o <> WriteNoFuel /\ (m <= length payload)%nat /\
  Forall (is_data (rs_wireID s)) out /\ zsum payload_len out <= st_send st /\
  (exists sent lost, out = sent ++ lost /\ concat (Payload <$> sent) = take m payload /\
     (lost = [] \/ (length lost = 1%nat /\ o = WriteFailed RelaySend))) /\
  (o = WriteDone -> m = length payload) /\
  (o = WriteWaits -> zsum payload_len out = st_send st).
Proof.
  assert (forall o', o' <> WriteWaits -> exists sent lost : list Frame, [] = sent ++ lost /\
    concat (Payload <$> sent) = take 0 payload /\
     (lost = [] \/ (length lost = 1%nat /\ o' = WriteFailed RelaySend))) as H0
    by (intros; exists [], []; by auto).
  unfold RelayWrite in E. destruct payload as [|c payload].
  { injection E as <- <- <- <-. cbn. rewrite zsum_nil. split_and!; try done; try lia. by apply H0. }
  destruct (_ >? MaxPayload) eqn:Eg.
  { injection E as <- <- <- <-. rewrite zsum_nil. split_and!; try done; try (cbn; lia). by apply H0. }
  split_bools. eapply write_loop_spec in E as (H1 & H2 & H3 & H4 & H5 & H6 & H7);
    [|done|done|lia|lia|lia]. rewrite take_0 in H5. split_and!; try done. lia.
Qed.

Lemma RelayWrite_within_credit_witness :
  rs_send (newRelayStream 5 0) = Some (mkStream 5 StreamOpen 262144 262144) /\
  exists o m s' out, RelayWrite (fun _ => true) (newRelayStream 5 0) #"abc" = (o, m, s', out) /\
    (m <= 3)%nat /\ Forall (is_data 5) out.
Proof.
  split; [reflexivity|]. do 4 eexists. split; [reflexivity|].
  edestruct (RelayWrite_within_credit (fun _ => true) (newRelayStream 5 0)
    (mkStream 5 StreamOpen 262144 262144) #"abc") as (_ & H1 & H2 & _);
    [reflexivity|by vm_compute|reflexivity|]. by split.
Defined.

(** A remote half-close also ends the local write direction as soon as it
    needs credit: for any open stream whose send window is used up, a write
    waits for a WINDOW_UPDATE before the Agent's HALF_CLOSE and fails with
    [io.EOF] after it, although the local half is still open. *)
Theorem half_close_fails_blocked_write (sends : nat -> bool) (s : agentRelayStream)
    (st : StreamState) (payload : bytes)
    (Hs : rs_send s = Some st) (Hst : st_status st = StreamOpen /\ st_send st = 0)
    (Hopen : rs_err s = None /\ rs_localHalf s = false /\ rs_remoteHalf s = false /\ rs_done s = false)
    (Hp : payload <> [] /\ Z.of_nat (length payload) <= MaxPayload) :
  RelayWrite sends s payload = (WriteWaits, 0%nat, s, []) /\
  (let s' := (remoteHalfClose s).2 in
   rs_localHalf s' = false /\
   RelayWrite sends s' payload = (WriteFailed RelayEOF, 0%nat, s', [])).
Proof.
  destruct Hst as [Hst Hz], Hopen as (He & Hl & Hr & Hd), Hp as [Hne Hm].
  assert (forall s1, rs_send s1 = Some st -> rs_localHalf s1 = false ->
    rs_err s1 = None \/ rs_err s1 = Some RelayEOF ->
    RelayWrite sends s1 payload =
      (if rs_done s1 then WriteFailed (default RelayClosedPipe (rs_err s1)) else WriteWaits, 0%nat, s1, []))
    as Hw.
  { intros s1 Hs1 Hl1 He1. unfold RelayWrite. destruct payload as [|c payload]; [done|].
    replace (_ >? MaxPayload) with false by lia. cbn [length write_loop].
    rewrite decide_True by lia. unfold consumeSendWindow.
    rewrite Hs1, Hl1. unfold ConsumeSend. rewrite Hst, Hz.
    rewrite (uint32_id (Z.of_nat _)) by (cbn [length] in *; unfold max_uint32, MaxPayload in *; lia).
    replace (_ || false) with false by (by destruct He1 as [-> | ->]).
    set (want := if _ >? MaxStreamFrame then _ else _).
    assert (0 < want) by (unfold want, MaxStreamFrame; case_goal; lia).
    replace (want >? 0) with true by lia. cbn. destruct (rs_done s1); [|done].
    by destruct (rs_err s1). }
  unfold remoteHalfClose. rewrite Hr. cbn. split; [|split; [done|]].
  - rewrite Hw; auto. by rewrite Hd.
  - rewrite Hw; cbn; rewrite ?He; auto.
Qed.

Definition sample_blocked : agentRelayStream :=
  rs_set_send (newRelayStream 5 MinRefillableWindow) (Some (mkStream 5 StreamOpen 0 0)).

Lemma half_close_fails_blocked_write_witness :
  RelayWrite (fun _ => true) sample_blocked #"abc" = (WriteWaits, 0%nat, sample_blocked, []).
Proof.
  apply (half_close_fails_blocked_write (fun _ => true) sample_blocked
    (mkStream 5 StreamOpen 0 0) #"abc"); ground.
Defined.
