(* ===== verification/FrameQueue.v ===== *)
(** * Byte-bounded frame queues and the receive demultiplexer

    internal/session/bounded_queue.go and internal/session/frame_demux.go. *)

From stdpp Require Import base list gmap strings.
From Stdlib Require Import Ascii.
From S2P Require Import Prelude Frame.
Local Open Scope Z_scope.

(** ** [BoundedFrameQueue]

    Times are nanoseconds, passed to the operations that call [time.Now]. *)
Record BoundedFrameQueue := mkQueue {
  q_frames : list Frame;
  q_bytes : Z;
  q_maxBytes : Z;
  q_closed : bool;
  q_waits : list Z;
  q_lastWait : Z;
}.

Definition NewBoundedFrameQueue (maxBytes : Z) : BoundedFrameQueue :=
  mkQueue [] 0 (if maxBytes <=? 0 then 1 else maxBytes) false [] 0.

Definition TryPush (now : Z) (q : BoundedFrameQueue) (f : Frame) : bool * BoundedFrameQueue :=
  if q_closed q then (false, q)
  else
    let size := payload_len f in
    if (q_bytes q + size >? q_maxBytes q) || (Z.of_nat (length (q_frames q)) >=? q_maxBytes q)
    then (false, q)
    else (true, mkQueue (q_frames q ++ [f]) (q_bytes q + size) (q_maxBytes q) (q_closed q)
                  (q_waits q ++ [now]) (q_lastWait q)).

Definition popLocked (now : Z) (q : BoundedFrameQueue) : option Frame * BoundedFrameQueue :=
  match q_frames q with
  | [] => (None, q)
  | f :: frames =>
      let '(waits, last) :=
        match q_waits q with
        | [] => ([], q_lastWait q)
        | t :: ts => (ts, now - t)
        end in
      (Some f, mkQueue frames (q_bytes q - payload_len f) (q_maxBytes q) (q_closed q) waits last)
  end.

Definition TryPop := popLocked.

(** One pass of [Pop]'s loop. *)
Inductive pop_outcome := Popped (f : Frame) | PopClosed | PopWaits.

Definition Pop (now : Z) (q : BoundedFrameQueue) : pop_outcome * BoundedFrameQueue :=
  match popLocked now q with
  | (Some f, q') => (Popped f, q')
  | (None, q') => (if q_closed q then PopClosed else PopWaits, q')
  end.

Definition CloseAfterDrain (q : BoundedFrameQueue) : BoundedFrameQueue :=
  mkQueue (q_frames q) (q_bytes q) (q_maxBytes q) true (q_waits q) (q_lastWait q).

Definition CloseQueue (q : BoundedFrameQueue) : BoundedFrameQueue :=
  mkQueue [] 0 (q_maxBytes q) true (q_waits q) (q_lastWait q).

Inductive queue_op :=
| QPush (now : Z) (f : Frame)
| QPop (now : Z)
| QDrain
| QClose.

Definition queue_step (q : BoundedFrameQueue) (op : queue_op) : BoundedFrameQueue :=
  match op with
  | QPush now f => (TryPush now q f).2
  | QPop now => (TryPop now q).2
  | QDrain => CloseAfterDrain q
  | QClose => CloseQueue q
  end.

(** Frames accepted and frames delivered by a run. *)
Definition queue_in (q : BoundedFrameQueue) (op : queue_op) : list Frame :=
  match op with
  | QPush now f => if (TryPush now q f).1 then [f] else []
  | _ => []
  end.

Definition queue_out (q : BoundedFrameQueue) (op : queue_op) : list Frame :=
  match op with
  | QPop now => match (TryPop now q).1 with Some f => [f] | None => [] end
  | _ => []
  end.

Fixpoint queue_run (q : BoundedFrameQueue) (ops : list queue_op) :
    BoundedFrameQueue * list Frame * list Frame :=
  match ops with
  | [] => (q, [], [])
  | op :: ops' =>
      let '(q', i, o) := queue_run (queue_step q op) ops' in
      (q', queue_in q op ++ i, queue_out q op ++ o)
  end.

(** ** [FrameDemux] *)

Record FrameDemux := mkDemux {
  d_queues : gmap Z BoundedFrameQueue;
  d_maxStreamBytes : Z;
  d_control : bool;          (* a control handler is installed *)
  d_closed : bool;
}.

Definition NewFrameDemux (maxStreamBytes : Z) (control : bool) : FrameDemux :=
  mkDemux ∅ (if maxStreamBytes <=? 0 then 262144 else maxStreamBytes) control false.

Inductive dispatch_outcome :=
| ToControl (f : Frame)        (* the handler is called with the frame *)
| DroppedControl
| Queued
| StreamQueueFull.

Definition DemuxRemove (d : FrameDemux) (id : Z) : FrameDemux :=
  mkDemux (delete id (d_queues d)) (d_maxStreamBytes d) (d_control d) (d_closed d).

Definition Dispatch (now : Z) (d : FrameDemux) (f : Frame) : dispatch_outcome * FrameDemux :=
  if negb (FType f =? FrameData) then
    (if d_control d then ToControl f else DroppedControl, d)
  else if StreamID f =? 0 then (StreamQueueFull, d)
  else if d_closed d then (StreamQueueFull, d)
  else
    let id := StreamID f in
    let '(queue, created) :=
      match d_queues d !! id with
      | Some q => (q, false)
      | None => (NewBoundedFrameQueue (d_maxStreamBytes d), true)
      end in
    let '(ok, queue') := TryPush now queue f in
    let d1 := mkDemux (<[id := queue']> (d_queues d)) (d_maxStreamBytes d) (d_control d) (d_closed d) in
    if ok then (Queued, d1)
    else (StreamQueueFull, if created then DemuxRemove d1 id else d1).

(** A consumer takes a frame from the queue [Stream] gives it. *)
Definition DemuxPop (now : Z) (d : FrameDemux) (id : Z) : option Frame * FrameDemux :=
  match d_queues d !! id with
  | None => (None, d)
  | Some q =>
      let '(r, q') := TryPop now q in
      (r, mkDemux (<[id := q']> (d_queues d)) (d_maxStreamBytes d) (d_control d) (d_closed d))
  end.

Definition DemuxClose (d : FrameDemux) : FrameDemux :=
  if d_closed d then d else mkDemux ∅ (d_maxStreamBytes d) (d_control d) true.

Definition pending_of (d : FrameDemux) (id : Z) : list Frame :=
  match d_queues d !! id with Some q => q_frames q | None => [] end.

(** ** Lemmas *)

Definition queue_wf (q : BoundedFrameQueue) : Prop :=
  q_bytes q = zsum payload_len (q_frames q) /\ 0 < q_maxBytes q /\
  q_bytes q <= q_maxBytes q /\ Z.of_nat (length (q_frames q)) <= q_maxBytes q.

Lemma payload_len_nonneg f : 0 <= payload_len f.
Proof. unfold payload_len. lia. Qed.

Lemma NewBoundedFrameQueue_wf n : queue_wf (NewBoundedFrameQueue n).
Proof. unfold queue_wf, NewBoundedFrameQueue; cbn. rewrite zsum_nil.
  case_goal; split_bools; split_and!; lia. Qed.

Lemma TryPush_wf now q f : queue_wf q -> queue_wf (TryPush now q f).2.
Proof.
  intros (H1 & H2 & H3 & H4). unfold TryPush, queue_wf.
  destruct (q_closed q); [done|].
  destruct (_ >? _) eqn:E1; cbn; [done|]. destruct (_ >=? _) eqn:E2; cbn; [done|].
  split_bools. rewrite zsum_app, length_app, zsum_cons, zsum_nil. cbn. split_and!; lia.
Qed.

Lemma popLocked_wf now q : queue_wf q -> queue_wf (popLocked now q).2.
Proof.
  intros (H1 & H2 & H3 & H4). unfold popLocked, queue_wf.
  destruct (q_frames q) as [|f fs] eqn:E; cbn.
  - rewrite E. by split_and!.
  - rewrite zsum_cons in H1. cbn in H4. pose proof (payload_len_nonneg f).
    destruct (q_waits q); cbn; split_and!; lia.
Qed.

Lemma TryPush_frames now q f :
  q_frames (TryPush now q f).2 = q_frames q ++ (if (TryPush now q f).1 then [f] else []).
Proof. unfold TryPush. repeat case_goal; cbn; by rewrite ?app_nil_r. Qed.

Lemma TryPop_frames now q :
  q_frames q = (match (TryPop now q).1 with Some f => [f] | None => [] end) ++ q_frames (TryPop now q).2.
Proof.
  unfold TryPop, popLocked. destruct (q_frames q) eqn:E; cbn; [by rewrite E|].
  by destruct (q_waits q).
Qed.

Lemma queue_step_wf q op : queue_wf q -> queue_wf (queue_step q op).
Proof.
  intros H. destruct op; cbn.
  - by apply TryPush_wf.
  - by apply popLocked_wf.
  - done.
  - destruct H as (H1 & H2 & H3 & H4). unfold queue_wf; cbn. rewrite zsum_nil. split_and!; lia.
Qed.

Definition is_close (op : queue_op) : bool := match op with QClose => true | _ => false end.

(** Accounting of one step: what was queued plus what is accepted is what is
    delivered plus what stays queued, unless the queue is discarded. *)
Lemma queue_step_frames q op :
  is_close op = false ->
  q_frames q ++ queue_in q op = queue_out q op ++ q_frames (queue_step q op).
Proof.
  intros Hc. destruct op as [now f|now| |]; cbn in *; [| | |done].
  - by rewrite TryPush_frames.
  - rewrite app_nil_r. apply TryPop_frames.
  - by rewrite app_nil_r.
Qed.

Lemma Dispatch_other now d f id :
  id <> StreamID f -> d_queues (Dispatch now d f).2 !! id = d_queues d !! id.
Proof.
  intros Hid. unfold Dispatch.
  destruct (negb _); [done|]. destruct (StreamID f =? 0); [done|]. destruct (d_closed d); [done|].
  destruct (d_queues d !! StreamID f) as [q|]; cbv beta iota;
    match goal with |- context [TryPush now ?q f] => destruct (TryPush now q f) as [[] ?] end; cbn;
    rewrite ?lookup_delete_ne, ?lookup_insert_ne by done; done.
Qed.

(** What becomes of a DATA frame's own queue. *)
Lemma Dispatch_data now d f :
  FType f = FrameData -> StreamID f <> 0 -> d_closed d = false ->
  let q := default (NewBoundedFrameQueue (d_maxStreamBytes d)) (d_queues d !! StreamID f) in
  (Dispatch now d f).1 = (if (TryPush now q f).1 then Queued else StreamQueueFull) /\
  pending_of (Dispatch now d f).2 (StreamID f) =
    pending_of d (StreamID f) ++ (if (TryPush now q f).1 then [f] else []).
Proof.
  intros Ht Hid Hc. cbn zeta. unfold Dispatch, pending_of. rewrite Ht, Hc.
  replace (StreamID f =? 0) with false by lia. cbn [negb Z.eqb FrameData Pos.eqb].
  destruct (d_queues d !! StreamID f) as [q|] eqn:Eq; cbn [from_option id];
    match goal with |- context [TryPush now ?q f] =>
      pose proof (TryPush_frames now q f) as Hf; destruct (TryPush now q f) as [[] q'] end;
    cbn in *; split; try done; simplify_map_eq; done.
Qed.

(** ** Properties *)

(** [BoundedFrameQueue] is a bounded FIFO.  In any run of pushes, pops and
    [CloseAfterDrain] (which only stops acceptance) the accepted frames are the
    delivered ones followed by those still queued: nothing is lost, duplicated or
    reordered; and after any run, [Close] included, the byte counter equals the
    queued payload bytes and both it and the frame count stay within [maxBytes]. *)
Theorem bounded_queue_fifo (maxBytes : Z) (ops : list queue_op) :
  let '(q, accepted, delivered) := queue_run (NewBoundedFrameQueue maxBytes) ops in
  queue_wf q /\
  (forallb (fun op => negb (is_close op)) ops = true -> accepted = delivered ++ q_frames q).
Proof.
  pose proof (NewBoundedFrameQueue_wf maxBytes) as Hwf.
  assert (q_frames (NewBoundedFrameQueue maxBytes) = []) as H0 by done.
  revert Hwf H0. generalize (NewBoundedFrameQueue maxBytes). intros q Hwf H0.
  enough (let '(q', accepted, delivered) := queue_run q ops in
    queue_wf q' /\ (forallb (fun op => negb (is_close op)) ops = true ->
      q_frames q ++ accepted = delivered ++ q_frames q')) as H.
  { destruct (queue_run q ops) as [[q' i] o]. by rewrite H0 in H. }
  clear H0. induction ops as [|op ops IH] in q, Hwf |- *; cbn.
  { by rewrite app_nil_r. }
  specialize (IH _ (queue_step_wf q op Hwf)).
  destruct (queue_run (queue_step q op) ops) as [[q' i] o]. destruct IH as [IH1 IH2].
  split; [done|]. intros Hc. split_bools.
  by rewrite (assoc_L (++)), queue_step_frames, <- !(assoc_L (++)), IH2.
Qed.

(** The receive loop isolates streams: dispatching a frame changes no other
    stream's queue, whether it is accepted or refused, and a frame that is not
    DATA changes none at all; a DATA frame on an open demultiplexer is accepted
    exactly when its own stream's queue has room, and accepted frames are
    appended to it in order. *)
Theorem demux_isolates_streams (now : Z) (d : FrameDemux) (f : Frame) (Hopen : d_closed d = false) :
  (forall id, id <> StreamID f -> d_queues (Dispatch now d f).2 !! id = d_queues d !! id) /\
  (FType f <> FrameData -> (Dispatch now d f).2 = d) /\
  (FType f = FrameData -> StreamID f <> 0 ->
   let q := default (NewBoundedFrameQueue (d_maxStreamBytes d)) (d_queues d !! StreamID f) in
   let ok := negb (q_closed q) && (q_bytes q + payload_len f <=? q_maxBytes q) &&
             (Z.of_nat (length (q_frames q)) <? q_maxBytes q) in
   (Dispatch now d f).1 = (if ok then Queued else StreamQueueFull) /\
   pending_of (Dispatch now d f).2 (StreamID f) =
     pending_of d (StreamID f) ++ (if ok then [f] else [])).
Proof.
  split_and!; [intros; by apply Dispatch_other| |].
  - intros Ht. unfold Dispatch. by replace (FType f =? FrameData) with false by lia.
  - intros Ht Hid. pose proof (Dispatch_data now d f Ht Hid Hopen) as Hd. cbn zeta in *.
    set (q := default _ _) in *.
    replace (TryPush now q f).1 with (negb (q_closed q) && (q_bytes q + payload_len f <=? q_maxBytes q) &&
      (Z.of_nat (length (q_frames q)) <? q_maxBytes q)) in Hd; [done|].
    unfold TryPush. destruct (q_closed q); [done|]. cbn.
    destruct (_ >? _) eqn:E1; cbn; split_bools; [by zbool|].
    destruct (_ >=? _) eqn:E2; cbn; split_bools; zbool; done.
Qed.

Definition sample_demux : FrameDemux := NewFrameDemux 4 true.
Definition sample_data (id : Z) (p : bytes) : Frame := mkFrame CurrentVersion FrameData 0 id 0 p.

Lemma demux_isolates_streams_witness :
  (Dispatch 0 sample_demux (sample_data 3 #"abc")).1 = Queued.
Proof.
  destruct (demux_isolates_streams 0 sample_demux (sample_data 3 #"abc") eq_refl) as (_ & _ & H).
  by destruct (H eq_refl ltac:(done)) as [-> _].
Defined.
