(* ===== verification/FairWriter.v ===== *)
(** * The fair frame writer

    internal/session/fair_writer.go: one connection's send scheduler, with a
    priority queue of control frames and a round-robin over per-stream queues. *)

From stdpp Require Import base list gmap strings.
From Stdlib Require Import Ascii.
From S2P Require Import Prelude Frame FrameQueue.
Local Open Scope Z_scope.

Inductive writer_err := ErrControlQueueFull | ErrStreamQueueFull.

Record FairWriterConfig := mkWriterConfig {
  ControlQueueSize : Z;
  StreamQueueBytes : Z;
  QuantumBytes : Z;
}.

(** A queued control frame and the channel [EnqueueControlSync] waits on. *)
Record controlItem := mkItem { ci_frame : Frame; ci_done : option Z }.

(** ** Wait samples *)

Definition SampleRecord (values : list Z) (duration : Z) : list Z :=
  let duration := if duration <? 0 then 0 else duration in
  let values := values ++ [duration] in
  if decide (64 < length values)%nat then drop (length values - 64) values else values.

Definition P95 (values : list Z) : Z :=
  match values with
  | [] => 0
  | _ =>
      let sorted := sort_by Z.ltb values in
      let n := Z.of_nat (length values) in
      let index := (n * 95 + 99) / 100 in
      let index := if index >=? n then n - 1 else index in
      nth (Z.to_nat index) sorted 0
  end.

(** ** The writer

    [fw_signalled] lists the done channels that have been closed. *)
Record FairFrameWriter := mkWriter {
  fw_control : list controlItem;
  fw_streams : gmap Z BoundedFrameQueue;
  fw_order : list Z;
  fw_cursor : nat;
  fw_config : FairWriterConfig;
  fw_samples : list Z;
  fw_closed : bool;
  fw_signalled : list Z;
}.

Definition NewFairFrameWriter (config : FairWriterConfig) : FairFrameWriter :=
  let pos x d := if x <=? 0 then d else x in
  mkWriter [] ∅ [] 0
    (mkWriterConfig (pos (ControlQueueSize config) 64) (pos (StreamQueueBytes config) 262144)
       (pos (QuantumBytes config) 32768)) [] false [].

Definition fw_set_control (w : FairFrameWriter) (c : list controlItem) : FairFrameWriter :=
  mkWriter c (fw_streams w) (fw_order w) (fw_cursor w) (fw_config w) (fw_samples w)
    (fw_closed w) (fw_signalled w).
Definition fw_set_sched (w : FairFrameWriter) (m : gmap Z BoundedFrameQueue) (order : list Z)
    (cursor : nat) : FairFrameWriter :=
  mkWriter (fw_control w) m order cursor (fw_config w) (fw_samples w) (fw_closed w) (fw_signalled w).
Definition fw_set_samples (w : FairFrameWriter) (l : list Z) : FairFrameWriter :=
  mkWriter (fw_control w) (fw_streams w) (fw_order w) (fw_cursor w) (fw_config w) l
    (fw_closed w) (fw_signalled w).
Definition fw_signal (w : FairFrameWriter) (done : option Z) : FairFrameWriter :=
  mkWriter (fw_control w) (fw_streams w) (fw_order w) (fw_cursor w) (fw_config w) (fw_samples w)
    (fw_closed w) (match done with Some c => c :: fw_signalled w | None => fw_signalled w end).

(** [removeStreamLocked]; its callers pass the queue the map holds, so the
    pointer comparison is the presence test.  The closed queue is unreachable
    afterwards. *)
Definition removeStreamLocked (w : FairFrameWriter) (id : Z) : FairFrameWriter :=
  match fw_streams w !! id with
  | None => w
  | Some _ =>
      let m := delete id (fw_streams w) in
      match list_find (fun x => x = id) (fw_order w) with
      | Some (i, _) =>
          fw_set_sched w m (delete i (fw_order w))
            (if decide (i < fw_cursor w)%nat then fw_cursor w - 1 else fw_cursor w)%nat
      | None => fw_set_sched w m (fw_order w) (fw_cursor w)
      end
  end.

Definition EnqueueData (now : Z) (w : FairFrameWriter) (streamID : Z) (f : Frame) :
    option writer_err * FairFrameWriter :=
  if streamID =? 0 then (Some ErrStreamQueueFull, w)
  else
    let f := mkFrame (Version f) (FType f) (Flags f) streamID (Window f) (Payload f) in
    if fw_closed w then (Some ErrStreamQueueFull, w)
    else
      let '(stream, w1, created) :=
        match fw_streams w !! streamID with
        | Some q => (q, w, false)
        | None =>
            let q := NewBoundedFrameQueue (StreamQueueBytes (fw_config w)) in
            let order := fw_order w ++ [streamID] in
            (q, fw_set_sched w (<[streamID := q]> (fw_streams w)) order (length order - 1), true)
        end in
      let '(ok, stream') := TryPush now stream f in
      let w2 := fw_set_sched w1 (<[streamID := stream']> (fw_streams w1)) (fw_order w1) (fw_cursor w1) in
      if ok then (None, w2)
      else (Some ErrStreamQueueFull, if created then removeStreamLocked w2 streamID else w2).

Definition enqueueControl (w : FairFrameWriter) (f : Frame) (done : option Z) :
    option writer_err * FairFrameWriter :=
  if fw_closed w then (Some ErrControlQueueFull, w)
  else if Z.of_nat (length (fw_control w)) >=? ControlQueueSize (fw_config w)
  then (Some ErrControlQueueFull, w)
  else (None, fw_set_control w (fw_control w ++ [mkItem f done])).

Definition EnqueueControl (now : Z) (w : FairFrameWriter) (f : Frame) :
    option writer_err * FairFrameWriter :=
  if (FType f =? FrameHalfClose) && negb (StreamID f =? 0)
  then EnqueueData now w (StreamID f) f
  else enqueueControl w f None.

(** Up to the wait on [done], the channel named by the caller. *)
Definition EnqueueControlSync (w : FairFrameWriter) (f : Frame) (done : Z) :
    option writer_err * FairFrameWriter :=
  enqueueControl w f (Some done).

Definition retireIdleLocked (w : FairFrameWriter) (ids : list Z) : FairFrameWriter :=
  foldl (fun w id =>
    match fw_streams w !! id with
    | None => w
    | Some q => match q_frames q with [] => removeStreamLocked w id | _ => w end
    end) w ids.

(** The [for range w.order] loop: [n] iterations are left. *)
Fixpoint nextData_loop (n : nat) (now : Z) (w : FairFrameWriter) (idle : list Z) :
    option Frame * FairFrameWriter :=
  match n with
  | O => (None, retireIdleLocked w idle)
  | S n' =>
      let len := length (fw_order w) in
      let index := (fw_cursor w mod len)%nat in
      let id := nth index (fw_order w) 0 in
      let w1 := fw_set_sched w (fw_streams w) (fw_order w) ((index + 1) mod len)%nat in
      match fw_streams w1 !! id with
      | None => nextData_loop n' now w1 idle
      | Some q =>
          match TryPop now q with
          | (Some f, q') =>
              let w2 := fw_set_sched w1 (<[id := q']> (fw_streams w1)) (fw_order w1) (fw_cursor w1) in
              let w3 := fw_set_samples w2 (SampleRecord (fw_samples w2) (q_lastWait q')) in
              (Some f, retireIdleLocked w3 idle)
          | (None, _) => nextData_loop n' now w1 (idle ++ [id])
          end
      end
  end.

Definition nextDataLocked (now : Z) (w : FairFrameWriter) : option Frame * FairFrameWriter :=
  nextData_loop (length (fw_order w)) now w [].

(** One pass of [next]'s loop with a live context. *)
Inductive next_outcome := NextItem (it : controlItem) | NextStopped | NextWaits.

Definition next (now : Z) (w : FairFrameWriter) : next_outcome * FairFrameWriter :=
  if fw_closed w then (NextStopped, w)
  else match fw_control w with
  | it :: rest => (NextItem it, fw_set_control w rest)
  | [] =>
      match nextDataLocked now w with
      | (Some f, w') => (NextItem (mkItem f None), w')
      | (None, w') => (NextWaits, w')
      end
  end.

Definition hasDataLocked (w : FairFrameWriter) : bool :=
  existsb (fun p => match q_frames p.2 with [] => false | _ => true end) (map_to_list (fw_streams w)).

Definition drained (w : FairFrameWriter) : bool :=
  fw_closed w || negb (negb (bool_decide (fw_control w = [])) || hasDataLocked w).

Definition CloseWriter (w : FairFrameWriter) : FairFrameWriter :=
  if fw_closed w then w
  else mkWriter [] ∅ [] (fw_cursor w) (fw_config w) (fw_samples w) true
    (omap ci_done (fw_control w) ++ fw_signalled w).

(** One iteration of [Run]: take the next item, hand it to the sender, whose
    answer is [sent], and report it. *)
Definition Run_step (now : Z) (w : FairFrameWriter) (sent : bool) :
    option controlItem * FairFrameWriter :=
  match next now w with
  | (NextItem it, w1) =>
      if sent then (Some it, fw_signal w1 (ci_done it))
      else (Some it, CloseWriter (fw_signal w1 (ci_done it)))
  | (_, w1) => (None, w1)
  end.

(** ** Runs of the writer *)

Inductive writer_op :=
| WData (now id : Z) (f : Frame)
| WControl (now : Z) (f : Frame)
| WSync (f : Frame) (done : Z)
| WTurn (now : Z) (sent : bool)
| WClose.

Inductive writer_event :=
| AcceptData (id : Z) (f : Frame)
| AcceptControl (f : Frame)
| SendData (id : Z) (f : Frame)
| SendControl (f : Frame).

(** What [EnqueueData] stores: the frame under the stream's number. *)
Definition restream (id : Z) (f : Frame) : Frame :=
  mkFrame (Version f) (FType f) (Flags f) id (Window f) (Payload f).

Definition accepted (r : option writer_err) (ev : writer_event) : list writer_event :=
  match r with None => [ev] | Some _ => [] end.

Definition sent_event (w : FairFrameWriter) (it : controlItem) : writer_event :=
  match fw_control w with
  | [] => SendData (StreamID (ci_frame it)) (ci_frame it)
  | _ => SendControl (ci_frame it)
  end.

Definition writer_step (w : FairFrameWriter) (op : writer_op) : FairFrameWriter * list writer_event :=
  match op with
  | WData now id f =>
      let '(r, w') := EnqueueData now w id f in (w', accepted r (AcceptData id (restream id f)))
  | WControl now f =>
      let '(r, w') := EnqueueControl now w f in
      (w', accepted r (if (FType f =? FrameHalfClose) && negb (StreamID f =? 0)
                       then AcceptData (StreamID f) f else AcceptControl f))
  | WSync f done => let '(r, w') := EnqueueControlSync w f done in (w', accepted r (AcceptControl f))
  | WTurn now sent =>
      let '(r, w') := Run_step now w sent in
      (w', match r with Some it => [sent_event w it] | None => [] end)
  | WClose => (CloseWriter w, [])
  end.

Fixpoint writer_run (w : FairFrameWriter) (ops : list writer_op) : FairFrameWriter * list writer_event :=
  match ops with
  | [] => (w, [])
  | op :: ops' =>
      let '(w1, e1) := writer_step w op in
      let '(w2, e2) := writer_run w1 ops' in
      (w2, e1 ++ e2)
  end.

(** A frame travels in the control lane or in its stream's lane. *)
Inductive lane := ControlLane | StreamLane (id : Z).

#[global] Instance lane_eq_dec : EqDecision lane.
Proof. solve_decision. Defined.

Definition event_in (l : lane) (e : writer_event) : option Frame :=
  match e, l with
  | AcceptControl f, ControlLane => Some f
  | AcceptData i f, StreamLane id => if decide (i = id) then Some f else None
  | _, _ => None
  end.

Definition event_out (l : lane) (e : writer_event) : option Frame :=
  match e, l with
  | SendControl f, ControlLane => Some f
  | SendData i f, StreamLane id => if decide (i = id) then Some f else None
  | _, _ => None
  end.

(** ** Lemmas *)

Definition fw_pending (w : FairFrameWriter) (id : Z) : list Frame :=
  match fw_streams w !! id with Some q => q_frames q | None => [] end.

Definition queued (w : FairFrameWriter) (l : lane) : list Frame :=
  match l with
  | ControlLane => ci_frame <$> fw_control w
  | StreamLane id => fw_pending w id
  end.

(** The streams in the order in which their turns come. *)
Definition ring_of (order : list Z) (cursor : nat) : list Z := drop cursor order ++ take cursor order.
Definition ring (w : FairFrameWriter) : list Z := ring_of (fw_order w) (fw_cursor w).

Definition sched_inv (w : FairFrameWriter) : Prop :=
  (fw_cursor w <= length (fw_order w))%nat /\ NoDup (fw_order w) /\
  (forall id, id ∈ fw_order w <-> is_Some (fw_streams w !! id)) /\
  (forall id q, fw_streams w !! id = Some q ->
     queue_wf q /\ q_closed q = false /\ Forall (fun f => StreamID f = id) (q_frames q)).

Definition writer_inv (w : FairFrameWriter) : Prop :=
  if fw_closed w then fw_control w = [] /\ fw_streams w = ∅ /\ fw_order w = [] else sched_inv w.

(** Everything but the schedule of streams. *)
Definition same_rest (w w' : FairFrameWriter) : Prop :=
  fw_control w' = fw_control w /\ fw_config w' = fw_config w /\ fw_closed w' = fw_closed w /\
  fw_signalled w' = fw_signalled w.

Lemma ring_perm w : ring w ≡ₚ fw_order w.
Proof. unfold ring, ring_of. by rewrite (comm (++)), take_drop. Qed.

Lemma ring_NoDup w : sched_inv w -> NoDup (ring w).
Proof. intros (_ & H & _). by rewrite ring_perm. Qed.

Lemma elem_of_ring w id : id ∈ ring w <-> id ∈ fw_order w.
Proof. by rewrite ring_perm. Qed.

Lemma nodup_split_unique {A} (a a' b b' : list A) (x : A) :
  NoDup (a ++ x :: b) -> a ++ x :: b = a' ++ x :: b' -> a = a' /\ b = b'.
Proof.
  revert a'. induction a as [|y a IH]; intros [|y' a'] Hn E; cbn in *.
  - by injection E as <-.
  - injection E as <- ->. apply NoDup_cons in Hn as [Hn _]. set_solver.
  - injection E as -> E. apply NoDup_cons in Hn as [Hn _]. set_solver.
  - injection E as <- E. apply NoDup_cons in Hn as [_ Hn].
    destruct (IH _ Hn E) as [-> ->]. done.
Qed.

(** Taking an element out of the order takes it out of the ring. *)
Lemma ring_of_delete (p s : list Z) (x : Z) (c : nat) (a b : list Z) :
  NoDup (p ++ x :: s) -> (c <= length (p ++ x :: s))%nat ->
  ring_of (p ++ x :: s) c = a ++ x :: b ->
  ring_of (p ++ s) (if decide (length p < c)%nat then c - 1 else c)%nat = a ++ b.
Proof.
  intros Hn Hc E. rewrite length_app in Hc. cbn in Hc.
  assert (NoDup (a ++ x :: b)) as Hn'.
  { rewrite <- E. unfold ring_of. by rewrite (comm (++)), take_drop. }
  unfold ring_of in *. case_decide as Hd.
  - replace c with (length p + S (c - length p - 1))%nat in E by lia.
    set (k := (c - length p - 1)%nat) in *.
    rewrite drop_app_add, take_app_add in E. cbn in E.
    replace (drop k s ++ p ++ x :: take k s) with ((drop k s ++ p) ++ x :: take k s) in E
      by by rewrite <- (assoc_L (++)).
    destruct (nodup_split_unique _ _ _ _ _ Hn' (eq_sym E)) as [-> ->].
    replace (c - 1)%nat with (length p + k)%nat by lia.
    by rewrite drop_app_add, take_app_add, (assoc_L (++)).
  - rewrite drop_app_le, take_app_le in E by lia.
    rewrite <- (assoc_L (++)) in E. cbn in E.
    destruct (nodup_split_unique _ _ _ _ _ Hn' (eq_sym E)) as [-> ->].
    rewrite drop_app_le, take_app_le by lia. by rewrite <- (assoc_L (++)).
Qed.

Lemma list_find_eq (p s : list Z) (x : Z) :
  x ∉ p -> list_find (fun y => y = x) (p ++ x :: s) = Some (length p, x).
Proof.
  intros Hx. apply list_find_Some. split_and!; [|done|].
  - by rewrite list_lookup_middle.
  - intros j y Hj Hlt Heq. subst y. rewrite lookup_app_l in Hj by done.
    apply Hx. by eapply list_elem_of_lookup_2.
Qed.

Lemma removeStreamLocked_spec w id a b :
  sched_inv w -> ring w = a ++ id :: b ->
  let w' := removeStreamLocked w id in
  sched_inv w' /\ ring w' = a ++ b /\ fw_streams w' = delete id (fw_streams w) /\ same_rest w w'.
Proof.
  intros Hi E. pose proof Hi as (Hc & Hn & Hdom & Hq). cbn zeta.
  assert (id ∈ fw_order w) as Hin by (rewrite <- elem_of_ring, E; set_solver).
  destruct (proj1 (Hdom id) Hin) as [q Hs].
  apply list_elem_of_split in Hin as (p & s & Ho).
  assert (id ∉ p) as Hp by (rewrite Ho in Hn; apply NoDup_app in Hn as (_ & H & _); set_solver).
  unfold removeStreamLocked. rewrite Hs, Ho, list_find_eq, delete_middle by done.
  unfold ring in *. rewrite Ho in *.
  assert (id ∉ p ++ s /\ NoDup (p ++ s)) as [Hps Hn'].
  { rewrite <- Permutation_middle in Hn. by apply NoDup_cons in Hn. }
  split_and!; [split_and!; cbn| by eapply ring_of_delete |done|done].
  - rewrite length_app in *. cbn in Hc. case_decide; lia.
  - done.
  - intros j. destruct (decide (j = id)) as [->|Hj].
    + rewrite lookup_delete_eq. split; [done|]. by intros [? [=]].
    + rewrite lookup_delete_ne by done. rewrite <- Hdom. set_solver.
  - intros j q' Hj. apply lookup_delete_Some in Hj as [_ Hj]. by apply Hq.
Qed.

Lemma same_rest_trans w1 w2 w3 : same_rest w1 w2 -> same_rest w2 w3 -> same_rest w1 w3.
Proof. unfold same_rest. intros (-> & -> & -> & ->) (? & ? & ? & ?). by split_and!. Qed.

Lemma retireIdleLocked_spec ids w a b :
  sched_inv w -> ring w = a ++ ids ++ b -> Forall (fun id => fw_pending w id = []) ids ->
  let w' := retireIdleLocked w ids in
  sched_inv w' /\ ring w' = a ++ b /\ same_rest w w' /\
  (forall id, fw_pending w' id = fw_pending w id).
Proof.
  unfold retireIdleLocked. revert w.
  induction ids as [|id ids IH]; intros w Hi E Hf; cbn zeta; [by split_and!|].
  cbn [foldl]. apply Forall_cons in Hf as [He Hf].
  pose proof Hi as (_ & _ & Hdom & _).
  assert (id ∈ fw_order w) as Hin by (rewrite <- elem_of_ring, E; set_solver).
  destruct (proj1 (Hdom id) Hin) as [q Hs]. unfold fw_pending in He. rewrite Hs in He.
  rewrite Hs, He.
  destruct (removeStreamLocked_spec w id a (ids ++ b) Hi E) as (Hi1 & E1 & Hs1 & Hr1).
  assert (forall j, fw_pending (removeStreamLocked w id) j = fw_pending w j) as Hp1.
  { intros j. unfold fw_pending. rewrite Hs1. destruct (decide (j = id)) as [->|Hj].
    - by rewrite lookup_delete_eq, Hs, He.
    - by rewrite lookup_delete_ne. }
  destruct (IH _ Hi1 E1) as (Hi2 & E2 & Hr2 & Hp2).
  { eapply Forall_impl; [done|]. intros j. by rewrite Hp1. }
  split_and!; [done|done|by eapply same_rest_trans|]. intros j. by rewrite Hp2, Hp1.
Qed.

(** Advancing the cursor by one turn rotates the ring. *)
Lemma ring_advance order c y t :
  (c <= length order)%nat -> ring_of order c = y :: t ->
  let i := (c mod length order)%nat in
  nth i order 0 = y /\ ring_of order ((i + 1) mod length order) = t ++ [y] /\
  ((i + 1) mod length order <= length order)%nat.
Proof.
  intros Hc E. cbn zeta.
  assert (exists i, (c mod length order = i)%nat /\ (i < length order)%nat /\
    ring_of order i = y :: t) as (i & -> & Hi & Er).
  { destruct (decide (length order = c)) as [<-|Hne].
    - destruct order as [|z order]; [done|].
      exists 0%nat. rewrite Nat.Div0.mod_same. unfold ring_of in *.
      rewrite drop_ge, take_ge in E by done. cbn in *. rewrite app_nil_r. split_and!; [done|lia|done].
    - exists c. rewrite Nat.mod_small by lia. split_and!; [done|lia|done]. }
  clear c E Hc. unfold ring_of in Er. pose proof (take_drop i order) as Htd.
  assert (length (take i order) = i) as Hlt by (rewrite length_take; lia).
  destruct (drop i order) as [|z d] eqn:Ed.
  { apply (f_equal length) in Ed. rewrite length_drop in Ed. cbn in Ed. lia. }
  injection Er as -> <-. split_and!.
  - rewrite <- Htd, app_nth2, Hlt, Nat.sub_diag by lia. done.
  - unfold ring_of. destruct (decide (i + 1 = length order)%nat) as [Hlast|Hnl].
    + rewrite Hlast, Nat.Div0.mod_same. assert (length d = 0%nat) as Hd.
      { apply (f_equal length) in Ed. rewrite length_drop in Ed. cbn in Ed. lia. }
      apply nil_length_inv in Hd as ->. cbn. by rewrite app_nil_r.
    + rewrite Nat.mod_small by lia. rewrite <- drop_drop, Ed. cbn.
      rewrite <- Htd at 1. rewrite take_app_ge by lia.
      rewrite Hlt. replace (i + 1 - i)%nat with 1%nat by lia. cbn. by rewrite (assoc_L (++)).
  - apply Nat.lt_le_incl, Nat.mod_upper_bound. lia.
Qed.

Lemma TryPop_wf now q f q' : TryPop now q = (Some f, q') ->
  q_frames q = f :: q_frames q' /\ q_closed q' = q_closed q /\ (queue_wf q -> queue_wf q').
Proof.
  intros E. pose proof (popLocked_wf now q) as Hw. pose proof (TryPop_frames now q) as Hf.
  unfold TryPop in *. rewrite E in *. cbn in *. split_and!; [done| |done].
  unfold popLocked in E. repeat case_goal; case_hyp E; [done|].
  destruct (q_waits q); by injection E as <- <-.
Qed.

Lemma TryPop_none now q q' : TryPop now q = (None, q') -> q_frames q = [].
Proof.
  unfold TryPop, popLocked. destruct (q_frames q); [done|]. by destruct (q_waits q).
Qed.

(** What a data turn does: the streams before [x] in turn order are idle and
    are retired, [x] gives its oldest frame and goes to the end. *)
Definition data_turn (w : FairFrameWriter) (rest : list Z) (r : option Frame) (w' : FairFrameWriter) : Prop :=
  match r with
  | Some f => exists e x t fs,
      rest = e ++ x :: t /\ Forall (fun id => fw_pending w id = []) e /\
      fw_pending w x = f :: fs /\ ring w' = t ++ [x] /\
      (forall id, fw_pending w' id = if decide (id = x) then fs else fw_pending w id)
  | None => Forall (fun id => fw_pending w id = []) rest /\ ring w' = [] /\
      (forall id, fw_pending w' id = fw_pending w id)
  end.

Lemma pop_sched now w x q f q' c :
  sched_inv w -> (c <= length (fw_order w))%nat -> fw_streams w !! x = Some q ->
  TryPop now q = (Some f, q') ->
  let w' := fw_set_samples (fw_set_sched w (<[x := q']> (fw_streams w)) (fw_order w) c)
              (SampleRecord (fw_samples w) (q_lastWait q')) in
  sched_inv w' /\ same_rest w w' /\ q_frames q = f :: q_frames q' /\
  (forall id, fw_pending w' id = if decide (id = x) then q_frames q' else fw_pending w id).
Proof.
  intros (Hc0 & Hn & Hdom & Hq) Hc Hs Hpop. cbn zeta.
  destruct (TryPop_wf _ _ _ _ Hpop) as (Hf & Hcl & Hw). destruct (Hq _ _ Hs) as (H1 & H2 & H3).
  split_and!; [split_and!; cbn|done|done|].
  - done.
  - done.
  - intros id. rewrite Hdom. destruct (decide (id = x)) as [->|Hne].
    + rewrite lookup_insert_eq, Hs. by split; eexists.
    + by rewrite lookup_insert_ne.
  - intros id q0. destruct (decide (id = x)) as [->|Hne].
    + rewrite lookup_insert_eq. intros [= <-]. rewrite Hf in H3. apply Forall_cons in H3 as [_ H3].
      split_and!; [by apply Hw|by rewrite Hcl|done].
    + rewrite lookup_insert_ne by done. apply Hq.
  - intros id. unfold fw_pending; cbn. case_decide as Hd; [subst|].
    + by rewrite lookup_insert_eq.
    + by rewrite lookup_insert_ne.
Qed.

Lemma nextData_loop_spec n now w idle rest :
  sched_inv w -> ring w = rest ++ idle -> length rest = n ->
  Forall (fun id => fw_pending w id = []) idle ->
  let '(r, w') := nextData_loop n now w idle in
  sched_inv w' /\ same_rest w w' /\ data_turn w rest r w'.
Proof.
  revert w idle rest. induction n as [|n IH]; intros w idle rest Hi Er Hl Hf.
  - apply nil_length_inv in Hl as ->. cbn [nextData_loop].
    destruct (retireIdleLocked_spec idle w [] [] Hi) as (H1 & H2 & H3 & H4);
      [by rewrite app_nil_r|done|]. by split_and!.
  - destruct rest as [|y rest]; [done|]. cbn [length] in Hl. cbn [nextData_loop].
    pose proof Hi as (Hc & Hn & Hdom & Hq).
    destruct (ring_advance _ _ _ _ Hc Er) as (Hy & Er1 & Hc1). rewrite Hy.
    set (c := ((fw_cursor w mod length (fw_order w) + 1) mod length (fw_order w))%nat) in *.
    set (w1 := fw_set_sched w (fw_streams w) (fw_order w) c).
    assert (sched_inv w1) as Hi1 by by split_and!.
    assert (ring w1 = rest ++ idle ++ [y]) as Hr1 by (by rewrite (assoc_L (++))).
    assert (y ∈ fw_order w) as Hin by (rewrite <- elem_of_ring, Er; set_solver).
    destruct (proj1 (Hdom y) Hin) as [q Hs]. change (fw_streams w1) with (fw_streams w). rewrite Hs.
    destruct (TryPop now q) as [[f|] q'] eqn:Hpop.
    + destruct (pop_sched now w y q f q' c Hi Hc1 Hs Hpop) as (Hi2 & Hr2 & Hfr & Hp2).
      change (fw_samples (fw_set_sched w1 _ _ _)) with (fw_samples w).
      change (fw_set_sched w1 (<[y:=q']> (fw_streams w)) (fw_order w1) (fw_cursor w1))
        with (fw_set_sched w (<[y:=q']> (fw_streams w)) (fw_order w) c).
      set (w2 := fw_set_samples _ _) in *.
      assert (y ∉ idle) as Hni.
      { pose proof (ring_NoDup w Hi) as Hnd. rewrite Er in Hnd. cbn in Hnd.
        apply NoDup_cons in Hnd. set_solver. }
      destruct (retireIdleLocked_spec idle w2 rest [y] Hi2 Hr1) as (H1 & H2 & H3 & H4).
      { apply Forall_forall. intros j Hj. rewrite Hp2, decide_False by set_solver.
        by eapply Forall_forall in Hf. }
      split_and!; [done|by eapply same_rest_trans|].
      exists [], y, rest, (q_frames q'). split_and!; [done|done| |done|].
      * unfold fw_pending. by rewrite Hs.
      * intros j. by rewrite H4, Hp2.
    + apply TryPop_none in Hpop.
      assert (fw_pending w y = []) as Hpy by (unfold fw_pending; by rewrite Hs).
      specialize (IH w1 (idle ++ [y]) rest Hi1 Hr1 ltac:(lia)).
      destruct (nextData_loop n now w1 (idle ++ [y])) as [r w'].
      destruct IH as (H1 & H2 & H3).
      { apply Forall_app. split; [done|]. by apply Forall_singleton. }
      split_and!; [done|done|]. destruct r as [f|].
      * destruct H3 as (e & x & t & fs & -> & G1 & G2 & G3 & G4).
        exists (y :: e), x, t, fs. split_and!; try done. by apply Forall_cons.
      * destruct H3 as (G1 & G2 & G3). split_and!; try done. by apply Forall_cons.
Qed.

Lemma nextDataLocked_spec now w :
  sched_inv w ->
  let '(r, w') := nextDataLocked now w in
  sched_inv w' /\ same_rest w w' /\ data_turn w (ring w) r w'.
Proof.
  intros Hi. unfold nextDataLocked. apply nextData_loop_spec; [done|by rewrite app_nil_r| |done].
  by rewrite ring_perm.
Qed.

Lemma TryPush_spec now q f ok q' id :
  TryPush now q f = (ok, q') -> queue_wf q -> q_closed q = false ->
  Forall (fun f => StreamID f = id) (q_frames q) -> StreamID f = id ->
  queue_wf q' /\ q_closed q' = false /\ Forall (fun f => StreamID f = id) (q_frames q') /\
  q_frames q' = q_frames q ++ (if ok then [f] else []).
Proof.
  intros E Hw Hc Hf Hid. pose proof (TryPush_wf now q f Hw) as Hw'.
  pose proof (TryPush_frames now q f) as Hfr. rewrite E in *. cbn in *.
  split_and!; [done| |rewrite Hfr; apply Forall_app; split; [done|by destruct ok; repeat constructor]|done].
  unfold TryPush in E. rewrite Hc in E. case_hyp E; injection E as <- <-; done.
Qed.

Lemma insert_sched w id q c :
  sched_inv w -> (c <= length (fw_order w))%nat -> id ∈ fw_order w ->
  queue_wf q -> q_closed q = false -> Forall (fun f => StreamID f = id) (q_frames q) ->
  sched_inv (fw_set_sched w (<[id := q]> (fw_streams w)) (fw_order w) c).
Proof.
  intros (Hc0 & Hn & Hdom & Hq) Hc Hin H1 H2 H3. split_and!; cbn; [done|done| |].
  - intros j. rewrite Hdom. destruct (decide (j = id)) as [->|Hne].
    + rewrite lookup_insert_eq. split; intros _; [done|]. by apply Hdom.
    + by rewrite lookup_insert_ne.
  - intros j q0. destruct (decide (j = id)) as [->|Hne].
    + rewrite lookup_insert_eq. by intros [= <-].
    + rewrite lookup_insert_ne by done. apply Hq.
Qed.

Lemma open_stream_sched w id :
  sched_inv w -> id ∉ fw_order w ->
  let order := fw_order w ++ [id] in
  let w1 := fw_set_sched w
    (<[id := NewBoundedFrameQueue (StreamQueueBytes (fw_config w))]> (fw_streams w))
    order (length order - 1) in
  sched_inv w1 /\ ring w1 = id :: fw_order w.
Proof.
  intros (Hc & Hn & Hdom & Hq) Hin. cbn zeta. rewrite length_app. cbn [length].
  replace (length (fw_order w) + 1 - 1)%nat with (length (fw_order w)) by lia.
  split; [split_and!; cbn|].
  - rewrite length_app. lia.
  - apply NoDup_app. split_and!; [done|set_solver|apply NoDup_singleton].
  - intros j. rewrite elem_of_app, list_elem_of_singleton, Hdom.
    destruct (decide (j = id)) as [->|Hne].
    + rewrite lookup_insert_eq. split; [done|by right].
    + rewrite lookup_insert_ne by done. split; [by intros [?|]|by left].
  - intros j q. destruct (decide (j = id)) as [->|Hne].
    + rewrite lookup_insert_eq. intros [= <-]. split_and!; [apply NewBoundedFrameQueue_wf|done|by constructor].
    + rewrite lookup_insert_ne by done. apply Hq.
  - unfold ring, ring_of; cbn. by rewrite drop_app_length, take_app_length.
Qed.

(** [EnqueueData] appends to the stream's own queue or changes no queue; only
    the creation of a queue moves the cursor. *)
Lemma EnqueueData_spec now w id f :
  sched_inv w -> fw_closed w = false ->
  let '(r, w') := EnqueueData now w id f in
  sched_inv w' /\ same_rest w w' /\
  (forall j, fw_pending w' j =
     fw_pending w j ++ (if decide (j = id) then match r with None => [restream id f] | Some _ => [] end else [])) /\
  (id ∈ fw_order w -> fw_order w' = fw_order w /\ fw_cursor w' = fw_cursor w) /\
  (id ∉ fw_order w -> r = None -> ring w' = id :: fw_order w).
Proof.
  intros Hi Hcl. unfold EnqueueData. destruct (id =? 0) eqn:Ez.
  { split_and!; try done. intros j. destruct (decide _); by rewrite app_nil_r. }
  rewrite Hcl. fold (restream id f). pose proof Hi as (Hc & Hn & Hdom & Hq).
  destruct (fw_streams w !! id) as [q|] eqn:Hs.
  - destruct (Hq _ _ Hs) as (H1 & H2 & H3). destruct (TryPush now q (restream id f)) as [ok q'] eqn:Ep.
    destruct (TryPush_spec _ _ _ _ _ _ Ep H1 H2 H3 eq_refl) as (G1 & G2 & G3 & G4).
    assert (id ∈ fw_order w) as Hin by (by apply Hdom; rewrite Hs).
    destruct ok; (split_and!; [by apply insert_sched|done| |done|done]);
      intros j; unfold fw_pending; cbn; (case_decide as Hd; [subst j|]);
      rewrite ?lookup_insert_eq, ?Hs, ?lookup_insert_ne, ?app_nil_r by done;
      rewrite ?app_nil_r in G4; done.
  - assert (id ∉ fw_order w) as Hin by (rewrite Hdom, Hs; by intros [? [=]]).
    destruct (open_stream_sched w id Hi Hin) as [Hi1 Hr1]. cbn zeta in *.
    set (w1 := fw_set_sched w _ _ _) in *. set (q := NewBoundedFrameQueue _) in *.
    destruct (TryPush now q (restream id f)) as [ok q'] eqn:Ep.
    destruct (TryPush_spec _ _ _ _ _ id Ep) as (G1 & G2 & G3 & G4);
      [apply NewBoundedFrameQueue_wf|done|by constructor|done|].
    assert (sched_inv (fw_set_sched w1 (<[id := q']> (fw_streams w1)) (fw_order w1) (fw_cursor w1))) as Hi2.
    { apply insert_sched; try done; [apply Hi1|]. rewrite <- elem_of_ring, Hr1. set_solver. }
    set (w2 := fw_set_sched w1 _ _ _) in *.
    assert (same_rest w w2) as Hr by done.
    assert (forall j, fw_pending w2 j = if decide (j = id) then q_frames q' else fw_pending w j) as Hp.
    { intros j. unfold fw_pending, w2, w1; cbn. rewrite insert_insert_eq.
      case_decide as Hd; [subst; by rewrite lookup_insert_eq|by rewrite lookup_insert_ne]. }
    assert (fw_pending w id = []) as Hp0 by (unfold fw_pending; by rewrite Hs).
    destruct ok.
    + split_and!; [done|done| |done|by intros _ _].
      intros j. rewrite Hp. case_decide as Hd; [by rewrite Hd, Hp0|by rewrite app_nil_r].
    + destruct (removeStreamLocked_spec w2 id [] (fw_order w) Hi2) as (K1 & K2 & K3 & K4); [done|].
      split_and!; [done|by eapply same_rest_trans| |done|done].
      intros j. unfold fw_pending at 1. rewrite K3. unfold w2, w1; cbn.
      rewrite insert_insert_eq, delete_insert_id by done.
      destruct (decide _); by rewrite app_nil_r.
Qed.

(** Accounting of one lane over one step. *)
Definition lane_step (w : FairFrameWriter) (evs : list writer_event) (w' : FairFrameWriter) : Prop :=
  forall l, exists lost,
    queued w l ++ omap (event_in l) evs = omap (event_out l) evs ++ lost /\
    (fw_closed w' = false -> lost = queued w' l).

Lemma CloseWriter_inv w : writer_inv w -> writer_inv (CloseWriter w) /\ fw_closed (CloseWriter w) = true.
Proof. intros H. unfold CloseWriter. by destruct (fw_closed w) eqn:E. Qed.

Lemma same_rest_closed w w' : same_rest w w' -> fw_closed w' = fw_closed w.
Proof. by intros (_ & _ & -> & _). Qed.

Lemma EnqueueData_step now w id f :
  writer_inv w -> fw_closed w = false ->
  let '(r, w') := EnqueueData now w id f in
  writer_inv w' /\ lane_step w (accepted r (AcceptData id (restream id f))) w'.
Proof.
  unfold writer_inv. intros Hi Hc. rewrite Hc in Hi.
  pose proof (EnqueueData_spec now w id f Hi Hc) as H.
  destruct (EnqueueData now w id f) as [r w']. destruct H as (H1 & H2 & H3 & _ & _).
  pose proof (same_rest_closed _ _ H2) as Hc'. rewrite Hc', Hc. split; [done|].
  intros [|j]; (eexists; split; [|done]); cbn.
  - destruct H2 as (-> & _). by destruct r; cbn; rewrite ?app_nil_r.
  - rewrite H3. destruct r; cbn; repeat case_decide; subst; cbn; by rewrite ?app_nil_r.
Qed.

Lemma enqueueControl_step w f done :
  writer_inv w -> fw_closed w = false ->
  let '(r, w') := enqueueControl w f done in
  writer_inv w' /\ lane_step w (accepted r (AcceptControl f)) w'.
Proof.
  unfold writer_inv, enqueueControl. intros Hi Hc. rewrite Hc in *.
  destruct (_ >=? _); cbn; rewrite Hc; (split; [done|]); intros [|j]; (eexists; split; [|done]); cbn;
    by rewrite ?app_nil_r, ?fmap_app.
Qed.

Lemma Run_step_lanes now w sent :
  writer_inv w -> fw_closed w = false ->
  let '(r, w') := Run_step now w sent in
  writer_inv w' /\ lane_step w (match r with Some it => [sent_event w it] | None => [] end) w'.
Proof.
  intros Hi Hc. unfold Run_step, next. rewrite Hc. unfold writer_inv in Hi. rewrite Hc in Hi.
  assert (forall w1 it, fw_closed w1 = false -> sched_inv w1 ->
    lane_step w [sent_event w it] w1 ->
    let w' := if sent then fw_signal w1 (ci_done it) else CloseWriter (fw_signal w1 (ci_done it)) in
    writer_inv w' /\ lane_step w [sent_event w it] w') as Hfin.
  { intros w1 it Hc1 Hi1 Hl. cbn zeta. destruct sent; cbn.
    - unfold writer_inv; cbn. rewrite Hc1. split; [done|]. intros l. by destruct (Hl l) as (lost & H1 & H2); exists lost.
    - destruct (CloseWriter_inv (fw_signal w1 (ci_done it))) as [H1 H2].
      { unfold writer_inv; cbn. by rewrite Hc1. }
      split; [done|]. intros l. destruct (Hl l) as (lost & G1 & G2). exists lost. by rewrite H2. }
  destruct (fw_control w) as [|it rest] eqn:Ec.
  - pose proof (nextDataLocked_spec now w Hi) as H.
    destruct (nextDataLocked now w) as [[f|] w1]; destruct H as (H1 & H2 & H3).
    + destruct H3 as (e & x & t & fs & Er & G1 & G2 & G3 & G4).
      pose proof (same_rest_closed _ _ H2) as Hc1.
      assert (StreamID f = x) as Hx.
      { destruct Hi as (_ & _ & _ & Hq). unfold fw_pending in G2.
        destruct (fw_streams w !! x) as [q|] eqn:Es; [|done].
        destruct (Hq _ _ Es) as (_ & _ & Hf). rewrite G2 in Hf. by apply Forall_cons in Hf as [Hf _]. }
      specialize (Hfin w1 (mkItem f None)). destruct sent; apply Hfin; try (by rewrite Hc1); try done;
      (intros [|j]; (eexists; split; [|done]); cbn; unfold sent_event; rewrite Ec; cbn;
        [by destruct H2 as (-> & _); rewrite Ec|]; rewrite app_nil_r, G4, Hx;
        destruct (decide (x = j)) as [->|]; [by rewrite decide_True|by rewrite decide_False]).
    + pose proof (same_rest_closed _ _ H2) as Hc1. destruct H3 as (_ & _ & G).
      unfold writer_inv. rewrite Hc1, Hc. split; [done|].
      intros [|j]; (eexists; split; [|done]); cbn; rewrite app_nil_r; [|by rewrite G].
      by destruct H2 as (-> & _).
  - specialize (Hfin (fw_set_control w rest) it). destruct sent; apply Hfin; try done;
    (intros [|j]; (eexists; split; [|done]); cbn; unfold sent_event; rewrite Ec; cbn; by rewrite app_nil_r).
Qed.

Lemma writer_step_closed w op :
  fw_closed w = true -> writer_step w op = (w, []).
Proof.
  intros Hc. destruct op; cbn; unfold EnqueueControl, EnqueueControlSync, EnqueueData,
    enqueueControl, Run_step, next, CloseWriter; rewrite ?Hc; repeat case_goal; done.
Qed.

Lemma writer_run_closed w ops : fw_closed w = true -> writer_run w ops = (w, []).
Proof.
  intros Hc. induction ops as [|op ops IH]; [done|].
  cbn [writer_run]. by rewrite writer_step_closed, IH.
Qed.

Lemma writer_step_lanes w op :
  writer_inv w -> fw_closed w = false ->
  let '(w', evs) := writer_step w op in writer_inv w' /\ lane_step w evs w'.
Proof.
  intros Hi Hc. destruct op as [now id f|now f|f done|now sent|]; cbn [writer_step].
  - pose proof (EnqueueData_step now w id f Hi Hc) as H. by destruct (EnqueueData now w id f).
  - unfold EnqueueControl. destruct (_ && _) eqn:Eh.
    + pose proof (EnqueueData_step now w (StreamID f) f Hi Hc) as H.
      destruct (EnqueueData now w (StreamID f) f). by destruct f.
    + pose proof (enqueueControl_step w f None Hi Hc) as H. by destruct (enqueueControl w f None).
  - pose proof (enqueueControl_step w f (Some done) Hi Hc) as H. unfold EnqueueControlSync.
    by destruct (enqueueControl w f (Some done)).
  - pose proof (Run_step_lanes now w sent Hi Hc) as H. by destruct (Run_step now w sent).
  - destruct (CloseWriter_inv w Hi) as [H1 H2]. split; [done|]. intros l. eexists.
    split; [by rewrite app_nil_r|]. by rewrite H2.
Qed.

Lemma writer_run_lanes ops w :
  writer_inv w ->
  let '(w', evs) := writer_run w ops in writer_inv w' /\ lane_step w evs w'.
Proof.
  revert w. induction ops as [|op ops IH]; intros w Hi.
  { cbn. split; [done|]. intros l. eexists. by split; [by rewrite app_nil_r|]. }
  destruct (fw_closed w) eqn:Hc.
  { rewrite writer_run_closed by done. split; [done|]. intros l.
    eexists. by split; [by rewrite app_nil_r|]. }
  pose proof (writer_step_lanes w op Hi Hc) as Hs. cbn [writer_run].
  destruct (writer_step w op) as [w1 e1]. destruct Hs as [Hi1 Hl1].
  destruct (fw_closed w1) eqn:Hc1.
  { rewrite writer_run_closed, app_nil_r by done. split; [done|]. done. }
  specialize (IH w1 Hi1). destruct (writer_run w1 ops) as [w2 e2]. destruct IH as [Hi2 Hl2].
  split; [done|]. intros l. destruct (Hl1 l) as (lost1 & G1 & G2), (Hl2 l) as (lost2 & K1 & K2).
  exists lost2. split; [|done]. rewrite (G2 Hc1) in G1.
  by rewrite !omap_app, (assoc_L (++)), G1, <- !(assoc_L (++)), K1.
Qed.

Lemma NewFairFrameWriter_inv cfg : writer_inv (NewFairFrameWriter cfg).
Proof.
  unfold writer_inv, sched_inv; cbn. split_and!; [lia|apply NoDup_nil_2| |].
  - intros id. rewrite lookup_empty. split; [set_solver|]. by intros [? [=]].
  - intros id q. by rewrite lookup_empty.
Qed.

(** ** Fairness *)

(** A step that neither creates a stream queue nor closes the writer. *)
Definition calm (w : FairFrameWriter) (op : writer_op) : bool :=
  match op with
  | WData _ id _ => bool_decide (id ∈ fw_order w)
  | WControl _ f => negb ((FType f =? FrameHalfClose) && negb (StreamID f =? 0)) ||
                    bool_decide (StreamID f ∈ fw_order w)
  | WSync _ _ => true
  | WTurn _ sent => sent
  | WClose => false
  end.

Fixpoint calm_run (w : FairFrameWriter) (ops : list writer_op) : bool :=
  match ops with
  | [] => true
  | op :: ops' => calm w op && calm_run (writer_step w op).1 ops'
  end.

Definition data_turns (evs : list writer_event) : nat :=
  length (omap (fun e => match e with SendData i _ => Some i | _ => None end) evs).

(** [k] streams come before [id] in turn order, and [id] has a frame waiting. *)
Definition waiting_at (w : FairFrameWriter) (id : Z) (k : nat) : Prop :=
  fw_pending w id <> [] /\ exists a b, ring w = a ++ id :: b /\ length a = k.

Lemma waiting_data_turn w id k f w' :
  sched_inv w -> waiting_at w id k -> data_turn w (ring w) (Some f) w' ->
  (exists fs, fw_pending w id = f :: fs) \/ (exists k', waiting_at w' id k' /\ (k' < k)%nat).
Proof.
  intros Hi (Hp & a & b & Er & Hk) (e & x & t & fs & Er' & He & Hx & Hr & Hp').
  destruct (decide (x = id)) as [->|Hne]; [left; by exists fs|right].
  assert (id ∈ t) as Hin.
  { assert (id ∈ e ++ x :: t) as H by (rewrite <- Er', Er; set_solver).
    apply elem_of_app in H as [H|H]; [|set_solver].
    by eapply Forall_forall in He. }
  apply list_elem_of_split in Hin as (a' & b' & ->).
  assert (NoDup (a ++ id :: b)) as Hn by (rewrite <- Er; by apply ring_NoDup).
  rewrite Er in Er'. replace (e ++ x :: a' ++ id :: b') with ((e ++ x :: a') ++ id :: b') in Er'
    by by rewrite <- (assoc_L (++)).
  destruct (nodup_split_unique _ _ _ _ _ Hn Er') as [-> ->].
  exists (length a'). split; [|subst; rewrite length_app; cbn; lia].
  split; [rewrite Hp', decide_False; [done|congruence]|].
  exists a', (b' ++ [x]). split; [|done]. by rewrite Hr, <- (assoc_L (++)).
Qed.

Lemma next_data_item now w :
  writer_inv w -> fw_closed w = false ->
  sched_inv (next now w).2 /\ fw_closed (next now w).2 = false /\
  match next now w with
  | (NextItem it, w') =>
      match fw_control w with
      | it0 :: rest => it = it0 /\ w' = fw_set_control w rest
      | [] => it = mkItem (ci_frame it) None /\ data_turn w (ring w) (Some (ci_frame it)) w'
      end
  | (NextWaits, w') => fw_control w = [] /\ data_turn w (ring w) None w'
  | (NextStopped, _) => False
  end.
Proof.
  unfold writer_inv. intros Hi Hc. rewrite Hc in Hi. unfold next. rewrite Hc.
  destruct (fw_control w) as [|it rest] eqn:Ec; [|by split_and!].
  pose proof (nextDataLocked_spec now w Hi) as H.
  destruct (nextDataLocked now w) as [[f|] w1]; destruct H as (H1 & H2 & H3);
    pose proof (same_rest_closed _ _ H2) as Hc1; rewrite Hc in Hc1; by split_and!.
Qed.

(** One calm step serves [id], or brings its turn nearer by the data turns it
    used. *)
Lemma calm_step w op id k :
  writer_inv w -> fw_closed w = false -> waiting_at w id k -> calm w op = true ->
  let '(w', evs) := writer_step w op in
  fw_closed w' = false /\
  ((exists f, SendData id f ∈ evs) \/
   exists k', waiting_at w' id k' /\ (k' + data_turns evs <= k)%nat).
Proof.
  intros Hi Hc Hw Hcalm. pose proof Hi as Hi'. unfold writer_inv in Hi'. rewrite Hc in Hi'.
  assert (forall now j f, j ∈ fw_order w ->
    let '(r, w') := EnqueueData now w j f in
    fw_closed w' = false /\ exists k', waiting_at w' id k' /\ (k' + 0 <= k)%nat) as Hdata.
  { intros now j f Hj. pose proof (EnqueueData_spec now w j f Hi' Hc) as H.
    destruct (EnqueueData now w j f) as [r w']. destruct H as (H1 & H2 & H3 & H4 & _).
    destruct (H4 Hj) as [Ho Hcur]. split; [by rewrite (same_rest_closed _ _ H2)|].
    exists k. destruct Hw as (Hp & Hr). split; [|lia]. unfold waiting_at, ring. rewrite Ho, Hcur.
    split; [|done]. rewrite H3. by destruct (fw_pending w id). }
  assert (forall f d, let '(r, w') := enqueueControl w f d in
    fw_closed w' = false /\ exists k', waiting_at w' id k' /\ (k' + 0 <= k)%nat) as Hctl.
  { intros f d. unfold enqueueControl. rewrite Hc. destruct (_ >=? _); cbn; (split; [done|]);
      exists k; (split; [done|lia]). }
  destruct op as [now j f|now f|f ch|now sent|]; cbn in Hcalm; cbn [writer_step]; [| | | |done].
  - split_bools. specialize (Hdata now j f ltac:(done)). destruct (EnqueueData now w j f) as [r w'].
    destruct r, Hdata as [H1 H2]; auto.
  - unfold EnqueueControl. destruct (_ && _); cbn in Hcalm.
    + split_bools. specialize (Hdata now (StreamID f) f ltac:(done)).
      destruct (EnqueueData now w (StreamID f) f) as [r w']. destruct r, Hdata as [H1 H2]; auto.
    + specialize (Hctl f None). destruct (enqueueControl w f None) as [r w'].
      destruct r, Hctl as [H1 H2]; auto.
  - specialize (Hctl f (Some ch)). unfold EnqueueControlSync.
    destruct (enqueueControl w f (Some ch)) as [r w']. destruct r, Hctl as [H1 H2]; auto.
  - subst sent. pose proof (next_data_item now w Hi Hc) as H. unfold Run_step.
    destruct (next now w) as [[it| |] w1]; cbn in H; destruct H as (H1 & H2 & H3); [|done|].
    + split; [done|]. unfold sent_event. destruct (fw_control w) as [|it0 rest].
      * destruct H3 as [H3 H4].
        destruct (waiting_data_turn _ _ _ _ _ Hi' Hw H4) as [[fs Hs]|(k' & Hk & Hlt)].
        -- left. exists (ci_frame it). apply list_elem_of_singleton. f_equal.
           destruct Hi' as (_ & _ & _ & Hq). unfold fw_pending in Hs.
           destruct (fw_streams w !! id) as [q|] eqn:Es; [|done].
           destruct (Hq _ _ Es) as (_ & _ & Hf). rewrite Hs in Hf.
           by apply Forall_cons in Hf as [Hf _].
        -- right. exists k'. split; [done|]. cbn. lia.
      * destruct H3 as [-> ->]. right. exists k. split; [done|]. cbn. lia.
    + split; [done|]. right. destruct H3 as (_ & Hall & _). exfalso.
      destruct Hw as (Hp & a & b & Er & _). rewrite Er in Hall.
      apply Forall_app in Hall as [_ Hall]. by apply Forall_cons in Hall as [Hall _].
Qed.

Lemma data_turns_app a b : data_turns (a ++ b) = (data_turns a + data_turns b)%nat.
Proof. unfold data_turns. by rewrite omap_app, length_app. Qed.

Lemma calm_run_serves ops w id k :
  writer_inv w -> fw_closed w = false -> waiting_at w id k -> calm_run w ops = true ->
  (k < data_turns (writer_run w ops).2)%nat ->
  exists f, SendData id f ∈ (writer_run w ops).2.
Proof.
  revert w k. induction ops as [|op ops IH]; intros w k Hi Hc Hw Hcalm; cbn [writer_run].
  { cbn. lia. }
  cbn in Hcalm. apply andb_prop in Hcalm as [Hc1 Hc2].
  pose proof (calm_step w op id k Hi Hc Hw Hc1) as Hs.
  pose proof (writer_step_lanes w op Hi Hc) as Hl.
  destruct (writer_step w op) as [w1 e1]. cbn in Hc2. destruct Hl as [Hi1 _], Hs as [Hcl Hs].
  destruct (writer_run w1 ops) as [w2 e2] eqn:Er. cbn [snd]. rewrite data_turns_app. intros Hk.
  destruct Hs as [[f Hf]|(k' & Hw' & Hle)]; [exists f; set_solver|].
  specialize (IH w1 k' Hi1 Hcl Hw' Hc2). rewrite Er in IH. cbn [snd] in IH.
  destruct IH as [f Hf]; [lia|]. exists f. set_solver.
Qed.

(** ** Starvation under churn *)

(** A turn whose first candidate has a frame leaves the order alone. *)
Lemma nextData_head now w x t f fs :
  sched_inv w -> ring w = x :: t -> fw_pending w x = f :: fs ->
  let w' := (nextDataLocked now w).2 in
  (nextDataLocked now w).1 = Some f /\ fw_order w' = fw_order w /\
  fw_cursor w' = ((fw_cursor w mod length (fw_order w) + 1) mod length (fw_order w))%nat /\
  (forall id, fw_pending w' id = if decide (id = x) then fs else fw_pending w id).
Proof.
  intros Hi Er Hp. pose proof Hi as (Hc & _ & _ & _). cbn zeta.
  destruct (ring_advance _ _ _ _ Hc Er) as (Hx & _ & Hc1).
  assert (nextDataLocked now w = nextData_loop (S (length t)) now w []) as ->.
  { unfold nextDataLocked. f_equal. pose proof (ring_perm w) as Hr. rewrite Er in Hr. by rewrite <- Hr. }
  cbn [nextData_loop]. rewrite Hx. cbn [fw_streams fw_set_sched].
  destruct (fw_streams w !! x) as [q|] eqn:Hs.
  2:{ unfold fw_pending in Hp. by rewrite Hs in Hp. }
  destruct (TryPop now q) as [[g|] q'] eqn:Hpop.
  - destruct (pop_sched now w x q g q' _ Hi Hc1 Hs Hpop) as (_ & _ & Hfr & Hp2).
    unfold fw_pending in Hp. rewrite Hs in Hp. rewrite Hp in Hfr. injection Hfr as -> ->.
    split_and!; done.
  - apply TryPop_none in Hpop. unfold fw_pending in Hp. rewrite Hs in Hp. congruence.
Qed.

(** A frame without payload is accepted by any stream with an empty queue. *)
Lemma EnqueueData_empty now w id f :
  sched_inv w -> fw_closed w = false -> id <> 0 -> Payload f = [] -> fw_pending w id = [] ->
  (EnqueueData now w id f).1 = None.
Proof.
  intros (_ & _ & _ & Hq) Hc Hid Hf Hp. unfold EnqueueData. replace (id =? 0) with false by lia.
  rewrite Hc. fold (restream id f).
  assert (forall q, queue_wf q -> q_closed q = false -> q_frames q = [] ->
    exists q', TryPush now q (restream id f) = (true, q')) as Hpush.
  { intros q (H1 & H2 & H3 & H4) Hcl He. unfold TryPush. rewrite Hcl, He.
    unfold payload_len; cbn [restream Payload]. rewrite Hf. cbn [length].
    change (Z.of_nat 0) with 0.
    replace (q_bytes q + 0 >? q_maxBytes q) with false by lia.
    replace (0 >=? q_maxBytes q) with false by lia. by eexists. }
  unfold fw_pending in Hp. destruct (fw_streams w !! id) as [q|] eqn:Hs.
  - destruct (Hq _ _ Hs) as (H1 & H2 & _). by destruct (Hpush q H1 H2 Hp) as [q' ->].
  - by destruct (Hpush _ (NewBoundedFrameQueue_wf (StreamQueueBytes (fw_config w))) eq_refl eq_refl) as [q' ->].
Qed.

Lemma EnqueueData_new_order now w id f :
  fw_closed w = false -> fw_streams w !! id = None -> (EnqueueData now w id f).1 = None ->
  fw_order (EnqueueData now w id f).2 = fw_order w ++ [id] /\
  fw_cursor (EnqueueData now w id f).2 = length (fw_order w).
Proof.
  intros Hc Hs. unfold EnqueueData. rewrite Hc, Hs. destruct (id =? 0); [done|].
  destruct (TryPush now _ _) as [[] q']; [|done]. intros _. cbn. rewrite length_app. cbn.
  split; [done|lia].
Qed.

(** Stream 1 refills after each of its turns, stream 2 has one frame, and short
    streams keep arriving. *)
Definition tick (id : Z) : Frame := mkFrame CurrentVersion FrameData 0 id 0 [].

Definition churn_round (k : nat) : list writer_op :=
  [WData 0 (3 + Z.of_nat k) (tick (3 + Z.of_nat k)); WTurn 0 true; WTurn 0 true; WData 0 1 (tick 1)].

Definition churn (n : nat) : list writer_op :=
  [WData 0 1 (tick 1); WData 0 2 (tick 2)] ++ concat (churn_round <$> seq 0 n).

Definition churn_state (k : nat) (w : FairFrameWriter) : Prop :=
  sched_inv w /\ fw_closed w = false /\ fw_control w = [] /\
  fw_order w = 1 :: 2 :: ((fun i => 3 + Z.of_nat i) <$> seq 0 k) /\ fw_cursor w = 1%nat /\
  fw_pending w 1 = [tick 1] /\ fw_pending w 2 = [tick 2] /\
  (forall id, 3 <= id -> fw_pending w id = []).

Lemma enq_step w id :
  sched_inv w -> fw_closed w = false -> fw_control w = [] -> id <> 0 -> fw_pending w id = [] ->
  exists w', writer_step w (WData 0 id (tick id)) = (w', [AcceptData id (tick id)]) /\
    sched_inv w' /\ fw_closed w' = false /\ fw_control w' = [] /\
    (forall j, fw_pending w' j = if decide (j = id) then [tick id] else fw_pending w j) /\
    (id ∈ fw_order w -> fw_order w' = fw_order w /\ fw_cursor w' = fw_cursor w) /\
    (id ∉ fw_order w -> fw_order w' = fw_order w ++ [id] /\ fw_cursor w' = length (fw_order w)).
Proof.
  intros Hi Hc Hctl Hid Hp. cbn [writer_step].
  pose proof (EnqueueData_empty 0 w id (tick id) Hi Hc Hid eq_refl Hp) as Hr.
  pose proof (EnqueueData_new_order 0 w id (tick id) Hc) as Hnew.
  pose proof (EnqueueData_spec 0 w id (tick id) Hi Hc) as Hs. pose proof Hi as (_ & _ & Hdom & _).
  destruct (EnqueueData 0 w id (tick id)) as [r w']. cbn in Hr, Hnew. subst r.
  destruct Hs as (H1 & H2 & H3 & H4 & _). exists w'. cbn [accepted].
  change (restream id (tick id)) with (tick id) in *. destruct H2 as (K1 & _ & K3 & _).
  split_and!; try done; [by rewrite K3|by rewrite K1| |].
  - intros j. rewrite H3. case_decide as Hd; [by rewrite Hd, Hp|by rewrite app_nil_r].
  - intros Hn. apply Hnew; [|done]. rewrite Hdom in Hn. by apply eq_None_not_Some.
Qed.

Lemma turn_step w x t f fs :
  sched_inv w -> fw_closed w = false -> fw_control w = [] -> ring w = x :: t ->
  fw_pending w x = f :: fs ->
  exists w', writer_step w (WTurn 0 true) = (w', [SendData (StreamID f) f]) /\
    sched_inv w' /\ fw_closed w' = false /\ fw_control w' = [] /\ fw_order w' = fw_order w /\
    fw_cursor w' = ((fw_cursor w mod length (fw_order w) + 1) mod length (fw_order w))%nat /\
    (forall id, fw_pending w' id = if decide (id = x) then fs else fw_pending w id).
Proof.
  intros Hi Hc Hctl Er Hp. cbn [writer_step]. unfold Run_step, next, sent_event. rewrite Hc, Hctl.
  pose proof (nextDataLocked_spec 0 w Hi) as Hs.
  destruct (nextData_head 0 w x t f fs Hi Er Hp) as (H1 & H2 & H3 & H4).
  destruct (nextDataLocked 0 w) as [r w']. cbn in H1, H2, H3, H4. subst r.
  destruct Hs as (K1 & (K2 & _ & K3 & _) & _). exists (fw_signal w' None).
  split_and!; try done; cbn; [by rewrite K3|by rewrite K2].
Qed.

Lemma writer_run_cons w op ops w1 e1 :
  writer_step w op = (w1, e1) ->
  writer_run w (op :: ops) = ((writer_run w1 ops).1, e1 ++ (writer_run w1 ops).2).
Proof. intros E. cbn [writer_run]. rewrite E. by destruct (writer_run w1 ops). Qed.

Lemma writer_run_app w a b :
  writer_run w (a ++ b) =
    ((writer_run (writer_run w a).1 b).1, (writer_run w a).2 ++ (writer_run (writer_run w a).1 b).2).
Proof.
  revert w. induction a as [|op a IH]; intros w; cbn [app writer_run].
  { cbn. by destruct (writer_run w b). }
  destruct (writer_step w op) as [w1 e1]. rewrite IH.
  destruct (writer_run w1 a) as [w2 e2]. cbn. by rewrite (assoc_L (++)).
Qed.

Lemma churn_round_step k w :
  churn_state k w ->
  let '(w', evs) := writer_run w (churn_round k) in
  churn_state (S k) w' /\ omap (event_out (StreamLane 2)) evs = [] /\
  omap (event_out (StreamLane 1)) evs = [tick 1].
Proof.
  intros (Hi & Hc & Hctl & Ho & Hcur & H1 & H2 & H3). unfold churn_round.
  set (n := 3 + Z.of_nat k). set (ns := (fun i => 3 + Z.of_nat i) <$> seq 0 k) in *.
  assert (n ∉ fw_order w) as Hn.
  { rewrite Ho, !elem_of_cons. intros [?|[?|Hin]]; [lia|lia|].
    apply list_elem_of_fmap in Hin as (i & Hi' & Hin). apply elem_of_seq in Hin. lia. }
  destruct (enq_step w n) as (w1 & E1 & Hi1 & Hc1 & Hctl1 & P1 & _ & O1);
    [done|done|done|lia|by apply H3; lia|]. destruct (O1 Hn) as [Ho1 Hcur1].
  rewrite (writer_run_cons _ _ _ _ _ E1).
  assert (ring w1 = n :: 1 :: 2 :: ns) as R1.
  { unfold ring, ring_of. rewrite Ho1, Hcur1, drop_app_length, take_app_length, Ho. done. }
  destruct (turn_step w1 n _ (tick n) [] Hi1 Hc1 Hctl1 R1) as (w2 & E2 & Hi2 & Hc2 & Hctl2 & Ho2 & Hcur2 & P2).
  { by rewrite P1, decide_True. }
  rewrite (writer_run_cons _ _ _ _ _ E2).
  assert (fw_cursor w2 = 0%nat) as Hz.
  { rewrite Hcur2, Ho1, Hcur1, length_app. cbn [length].
    rewrite (Nat.mod_small (length (fw_order w))) by lia. apply Nat.Div0.mod_same. }
  assert (ring w2 = 1 :: 2 :: ns ++ [n]) as R2.
  { unfold ring, ring_of. rewrite Hz, Ho2, Ho1, Ho. cbn. by rewrite app_nil_r. }
  destruct (turn_step w2 1 _ (tick 1) [] Hi2 Hc2 Hctl2 R2) as (w3 & E3 & Hi3 & Hc3 & Hctl3 & Ho3 & Hcur3 & P3).
  { by rewrite P2, decide_False, P1, decide_False, H1 by lia. }
  rewrite (writer_run_cons _ _ _ _ _ E3).
  assert (fw_order w3 = 1 :: 2 :: ns ++ [n]) as Ho3' by (by rewrite Ho3, Ho2, Ho1, Ho).
  destruct (enq_step w3 1) as (w4 & E4 & Hi4 & Hc4 & Hctl4 & P4 & O4 & _);
    [done|done|done|done|by rewrite P3, decide_True|].
  destruct O4 as [Ho4 Hcur4]; [rewrite Ho3'; set_solver|].
  rewrite (writer_run_cons _ _ _ _ _ E4). cbn [writer_run fst snd].
  split_and!; try (cbn; by rewrite ?decide_False by (cbn; lia)).
  split_and!; try done.
  - rewrite Ho4, Ho3'. unfold ns, n. rewrite seq_S, fmap_app. done.
  - rewrite Hcur4, Hcur3, Hz, Ho2, Ho1, Ho. cbn [length app].
    rewrite Nat.Div0.mod_0_l. by rewrite Nat.mod_small by lia.
  - rewrite P4, decide_False, P3, decide_False, P2, decide_False, P1, decide_False by lia. done.
  - intros j Hj. rewrite P4, decide_False, P3, decide_False, P2 by lia.
    case_decide; [done|]. by rewrite P1, decide_False, H3 by done.
Qed.

Lemma churn_init cfg :
  let '(w, evs) := writer_run (NewFairFrameWriter cfg) [WData 0 1 (tick 1); WData 0 2 (tick 2)] in
  churn_state 0 w /\ omap (event_out (StreamLane 2)) evs = [] /\
  omap (event_out (StreamLane 1)) evs = [].
Proof.
  pose proof (NewFairFrameWriter_inv cfg) as Hi. cbn in Hi.
  assert (forall j, fw_pending (NewFairFrameWriter cfg) j = []) as H0.
  { intros j. unfold fw_pending; cbn. by rewrite lookup_empty. }
  destruct (enq_step _ 1 Hi eq_refl eq_refl ltac:(done) (H0 1)) as (w1 & E1 & Hi1 & Hc1 & Hctl1 & P1 & _ & O1).
  destruct O1 as [Ho1 Hcur1]; [cbn; set_solver|]. cbn in Ho1.
  destruct (enq_step w1 2 Hi1 Hc1 Hctl1 ltac:(done)) as (w2 & E2 & Hi2 & Hc2 & Hctl2 & P2 & _ & O2).
  { by rewrite P1, decide_False, H0. }
  destruct O2 as [Ho2 Hcur2]; [rewrite Ho1; set_solver|].
  rewrite (writer_run_cons _ _ _ _ _ E1), (writer_run_cons _ _ _ _ _ E2). cbn [writer_run fst snd].
  split_and!; [split_and!|done|done]; try done.
  - by rewrite Ho2, Ho1.
  - by rewrite Hcur2, Ho1.
  - by rewrite P2, decide_False, P1 by done.
  - intros id Hid. by rewrite P2, decide_False, P1, decide_False, H0 by lia.
Qed.

Lemma churn_run cfg n :
  let '(w, evs) := writer_run (NewFairFrameWriter cfg) (churn n) in
  churn_state n w /\ omap (event_out (StreamLane 2)) evs = [] /\
  length (omap (event_out (StreamLane 1)) evs) = n.
Proof.
  induction n as [|n IH].
  { unfold churn. cbn [seq fmap list_fmap concat]. rewrite app_nil_r.
    pose proof (churn_init cfg) as H. destruct (writer_run _ _) as [w evs].
    destruct H as (H1 & H2 & ->). done. }
  unfold churn in *. rewrite seq_S, fmap_app, concat_app, (assoc_L (++)), writer_run_app.
  destruct (writer_run _ _) as [w evs]. destruct IH as (IH1 & IH2 & IH3). cbn [fmap list_fmap concat fst snd].
  rewrite app_nil_r. pose proof (churn_round_step n w IH1) as H. cbn [Nat.add].
  destruct (writer_run w (churn_round n)) as [w' evs']. destruct H as (H1 & H2 & H3).
  cbn [fst snd]. rewrite !omap_app, H2, IH2, length_app, H3, IH3. cbn. split_and!; [done|done|lia].
Qed.

Lemma pending_not_in_ring w id : sched_inv w -> id ∉ ring w -> fw_pending w id = [].
Proof.
  intros (_ & _ & Hdom & _) Hin. rewrite elem_of_ring, Hdom in Hin.
  apply eq_None_not_Some in Hin. unfold fw_pending. by rewrite Hin.
Qed.

Lemma reachable_inv cfg ops : writer_inv (writer_run (NewFairFrameWriter cfg) ops).1.
Proof.
  pose proof (writer_run_lanes ops _ (NewFairFrameWriter_inv cfg)) as H.
  by destruct (writer_run _ ops) as [w evs], H.
Qed.

(** ** Properties *)

(** C30. The writer keeps every lane (the control queue, and each stream) in
    order.  Over any interleaving of data, half-close, control and synchronous
    control frames with turns of [Run], failed sends and [Close], the frames sent
    on a lane are a prefix of the frames accepted on it; and while the writer is
    open the rest are exactly the queued ones, so the retirement of idle stream
    queues loses and reorders nothing. *)
Theorem writer_lanes_fifo (cfg : FairWriterConfig) (ops : list writer_op) (l : lane) :
  let '(w, evs) := writer_run (NewFairFrameWriter cfg) ops in
  exists lost, omap (event_in l) evs = omap (event_out l) evs ++ lost /\
    (fw_closed w = false -> lost = queued w l).
Proof.
  pose proof (writer_run_lanes ops _ (NewFairFrameWriter_inv cfg)) as H.
  destruct (writer_run _ ops) as [w evs]. destruct H as [_ H].
  destruct (H l) as (lost & H1 & H2). exists lost. split; [|done].
  assert (queued (NewFairFrameWriter cfg) l = []) as Hz.
  { destruct l; [done|]. unfold queued, fw_pending; cbn. by rewrite lookup_empty. }
  by rewrite Hz in H1.
Qed.

(** A turn of an open writer is never wasted and respects priorities: it
    finds nothing only when every lane is empty; it sends the oldest control
    frame whenever there is one; otherwise it sends the oldest frame of the
    stream it serves. *)
Theorem turn_work_conserving (cfg : FairWriterConfig) (ops : list writer_op) (now : Z) (sent : bool) :
  let w := (writer_run (NewFairFrameWriter cfg) ops).1 in
  fw_closed w = false ->
  match (Run_step now w sent).1 with
  | None => forall l, queued w l = []
  | Some it =>
      match fw_control w with
      | it0 :: _ => it = it0
      | [] => exists fs, queued w (StreamLane (StreamID (ci_frame it))) = ci_frame it :: fs
      end
  end.
Proof.
  cbn zeta. intros Hc. pose proof (reachable_inv cfg ops) as Hi. set (w := (writer_run _ ops).1) in *.
  pose proof (next_data_item now w Hi Hc) as H. pose proof Hi as Hs. unfold writer_inv in Hs. rewrite Hc in Hs.
  unfold Run_step. destruct (next now w) as [[it| |] w1]; destruct H as (_ & _ & H); [|done|].
  - replace (if sent then _ else _).1 with (Some it) by (by destruct sent).
    destruct (fw_control w); [|by destruct H]. destruct H as (_ & e & x & t & fs & _ & _ & Hp & _ & _).
    exists fs. cbn [queued]. replace (StreamID (ci_frame it)) with x; [done|].
    destruct Hs as (_ & _ & _ & Hq). unfold fw_pending in Hp.
    destruct (fw_streams w !! x) as [q|] eqn:Es; [|done].
    destruct (Hq _ _ Es) as (_ & _ & Hf). rewrite Hp in Hf. by apply Forall_cons in Hf as [Hf _].
  - destruct H as (Hctl & Hall & _). intros [|id]; cbn; [by rewrite Hctl|].
    destruct (decide (id ∈ ring w)) as [Hin|Hin]; [by eapply Forall_forall in Hall|].
    by apply pending_not_in_ring.
Qed.

Definition sample_writer_ops : list writer_op :=
  [WData 0 1 (tick 1); WData 0 2 (tick 2); WTurn 5 true].

Lemma turn_work_conserving_witness :
  exists fs, queued (writer_run (NewFairFrameWriter (mkWriterConfig 0 0 0)) sample_writer_ops).1
    (StreamLane 1) = tick 1 :: fs.
Proof.
  exact (turn_work_conserving (mkWriterConfig 0 0 0) sample_writer_ops 7 true eq_refl).
Defined.

(** Round-robin fairness: as long as no new stream queue is created and the
    connection lives, a stream with a frame waiting is served within as many data
    turns as there are stream queues, however much the other streams enqueue. *)
Theorem waiting_stream_is_served (cfg : FairWriterConfig) (pre ops : list writer_op) (id : Z)
    (w : FairFrameWriter)
    (Hw : w = (writer_run (NewFairFrameWriter cfg) pre).1)
    (Hopen : fw_closed w = false) (Hpend : fw_pending w id <> [])
    (Hcalm : calm_run w ops = true)
    (Hturns : (length (fw_order w) <= data_turns (writer_run w ops).2)%nat) :
  exists f, SendData id f ∈ (writer_run w ops).2.
Proof.
  pose proof (reachable_inv cfg pre) as Hi. rewrite <- Hw in Hi.
  assert (sched_inv w) as Hs by (unfold writer_inv in Hi; by rewrite Hopen in Hi).
  destruct (decide (id ∈ ring w)) as [Hin|Hin]; [|by apply pending_not_in_ring in Hin].
  apply list_elem_of_split in Hin as (a & b & Hr).
  apply (calm_run_serves ops w id (length a)); try done; [by split; [|exists a, b]|].
  pose proof (ring_perm w) as Hp. rewrite Hr in Hp. apply Permutation_length in Hp.
  rewrite length_app in Hp. cbn in Hp. lia.
Qed.

Lemma waiting_stream_is_served_witness :
  exists f, SendData 1 f ∈
    (writer_run (writer_run (NewFairFrameWriter (mkWriterConfig 0 0 0)) sample_writer_ops).1
      [WData 6 2 (tick 2); WTurn 6 true; WTurn 7 true]).2.
Proof.
  apply (waiting_stream_is_served (mkWriterConfig 0 0 0) sample_writer_ops _ 1 _ eq_refl);
    vm_compute; try done.
Defined.

(** Creating queues breaks that fairness: [EnqueueData] moves the cursor to
    a new stream and the turn after it wraps to the first one.  With one short
    stream arriving per turn of stream 1, stream 1 is served [n] times and the
    frame of stream 2, queued from the start, is never sent, for every [n]. *)
Theorem new_streams_starve_waiting (cfg : FairWriterConfig) (n : nat) :
  let '(w, evs) := writer_run (NewFairFrameWriter cfg) (churn n) in
  fw_closed w = false /\ length (omap (event_out (StreamLane 1)) evs) = n /\
  omap (event_out (StreamLane 2)) evs = [] /\ queued w (StreamLane 2) = [tick 2].
Proof.
  pose proof (churn_run cfg n) as H. destruct (writer_run _ (churn n)) as [w evs].
  destruct H as ((_ & Hc & _ & _ & _ & _ & H2 & _) & Hs & Hl). by split_and!.
Qed.

(** [EnqueueControlSync] can report a frame that was never sent: after it is
    accepted, [Close] closes its done channel, so the caller's wait ends with a
    nil error although the frame was dropped. *)
Theorem sync_reported_unsent (cfg : FairWriterConfig) (f : Frame) (ch : Z) (Hsize : 0 < ControlQueueSize cfg) :
  let w0 := NewFairFrameWriter cfg in
  (EnqueueControlSync w0 f ch).1 = None /\
  ch ∉ fw_signalled (EnqueueControlSync w0 f ch).2 /\
  let '(w, evs) := writer_run w0 [WSync f ch; WClose] in
  ch ∈ fw_signalled w /\ omap (event_out ControlLane) evs = [] /\
  (forall ops, omap (event_out ControlLane) (writer_run w ops).2 = []).
Proof.
  cbn zeta.
  assert (EnqueueControlSync (NewFairFrameWriter cfg) f ch =
    (None, fw_set_control (NewFairFrameWriter cfg) [mkItem f (Some ch)])) as E.
  { unfold EnqueueControlSync, enqueueControl, NewFairFrameWriter.
    cbn [fw_closed fw_control fw_config ControlQueueSize length].
    replace (ControlQueueSize cfg <=? 0) with false by lia. change (Z.of_nat 0) with 0.
    by replace (0 >=? ControlQueueSize cfg) with false by lia. }
  cbn [writer_run writer_step]. rewrite E. cbn. split_and!; [done|set_solver|set_solver|done|].
  intros ops. by rewrite writer_run_closed.
Qed.

Lemma sync_reported_unsent_witness :
  (EnqueueControlSync (NewFairFrameWriter (mkWriterConfig 8 0 0)) (tick 0) 9).1 = None.
Proof. apply (sync_reported_unsent (mkWriterConfig 8 0 0) (tick 0) 9). done. Defined.
