(* ===== verification/GoNet.v ===== *)
(** * The parts of Go's [net] package the program relies on

    [net.IP], [net.IPMask] and [net.IPNet] with the textual forms of
    [net/netip], as the standard library implements them. *)

From stdpp Require Import base list strings sorting.
From Stdlib Require Import Ascii.
From S2P Require Import Prelude GoStrings.
Local Open Scope Z_scope.

(** A [net.IP] or [net.IPMask] is a byte slice; nil is the empty one. *)
Notation IP := (list ascii) (only parsing).

Definition byte_and (a b : byte) : byte := byte_of (Z.land (byte_val a) (byte_val b)).
Definition zero_byte : byte := byte_of 0.
Definition ff_byte : byte := byte_of 255.

Definition v4InV6Prefix : bytes := replicate 10 zero_byte ++ [ff_byte; ff_byte].

Definition To4 (ip : IP) : IP :=
  if decide (length ip = 4%nat) then ip
  else if decide (length ip = 16%nat) then
    if seq_eqb (take 12 ip) v4InV6Prefix then drop 12 ip else []
  else [].

Definition IPv4 (a b c d : Z) : IP := v4InV6Prefix ++ [byte_of a; byte_of b; byte_of c; byte_of d].

Definition IPEqual (ip x : IP) : bool :=
  if decide (length ip = length x) then seq_eqb ip x
  else if decide (length ip = 4%nat /\ length x = 16%nat) then
    seq_eqb (take 12 x) v4InV6Prefix && seq_eqb ip (drop 12 x)
  else if decide (length ip = 16%nat /\ length x = 4%nat) then
    seq_eqb (take 12 ip) v4InV6Prefix && seq_eqb (drop 12 ip) x
  else false.

(** ** Masks *)

Definition mask_byte (n : Z) : byte :=
  if n >=? 8 then ff_byte else byte_of (255 - Z.shiftr 255 (Z.max n 0)).

Definition CIDRMask (ones bits : Z) : bytes :=
  if negb ((bits =? 32) || (bits =? 128)) then []
  else if (ones <? 0) || (ones >? bits) then []
  else (fun i => mask_byte (ones - 8 * Z.of_nat i)) <$> seq 0 (Z.to_nat (bits / 8)).

(** The number of leading ones of a mask byte, when only zeros follow. *)
Definition byte_ones (b : byte) : option Z :=
  match List.find (fun n => beq (mask_byte n) b) [0; 1; 2; 3; 4; 5; 6; 7; 8] with
  | Some n => Some n
  | None => None
  end.

Fixpoint simpleMaskLength (m : bytes) : option Z :=
  match m with
  | [] => Some 0
  | v :: m' =>
      if beq v ff_byte then (fun n => 8 + n) <$> simpleMaskLength m'
      else match byte_ones v with
      | None => None
      | Some n => if forallb (beq zero_byte) m' then Some n else None
      end
  end.

(** [IPMask.Size]. *)
Definition mask_Size (m : bytes) : Z * Z :=
  match simpleMaskLength m with
  | None => (0, 0)
  | Some ones => (ones, 8 * Z.of_nat (length m))
  end.

(** [IP.Mask]. *)
Definition ip_Mask (ip mask : bytes) : IP :=
  let mask := if decide (length mask = 16%nat /\ length ip = 4%nat) then
                if forallb (beq ff_byte) (take 12 mask) then drop 12 mask else mask
              else mask in
  let ip := if decide (length mask = 4%nat /\ length ip = 16%nat) then
              if seq_eqb (take 12 ip) v4InV6Prefix then drop 12 ip else ip
            else ip in
  if decide (length ip = length mask) then zip_with byte_and ip mask else [].

Record IPNet := mkIPNet { n_IP : IP; n_Mask : bytes }.

#[global] Instance IPNet_eq_dec : EqDecision IPNet.
Proof. solve_decision. Defined.

Definition networkNumberAndMask (n : IPNet) : option (IP * bytes) :=
  let ip := match To4 (n_IP n) with [] => n_IP n | ip => ip end in
  if negb (bool_decide (length ip = 4%nat) || bool_decide (length ip = 16%nat)) then None
  else
    let m := n_Mask n in
    if decide (length m = 4%nat) then
      if decide (length ip = 4%nat) then Some (ip, m) else None
    else if decide (length m = 16%nat) then
      if decide (length ip = 4%nat) then Some (ip, drop 12 m) else Some (ip, m)
    else None.

Definition IPNet_Contains (n : IPNet) (ip : IP) : bool :=
  match networkNumberAndMask n with
  | None => false
  | Some (nn, m) =>
      let ip := match To4 ip with [] => ip | x => x end in
      if decide (length ip = length nn) then
        seq_eqb (zip_with byte_and nn m) (zip_with byte_and ip m)
      else false
  end.

(** ** Text *)

Definition ip4_string (ip : IP) : bytes := Join ((fun b => Itoa (byte_val b)) <$> ip) dot.

Definition hex_digit (v : Z) : byte := if v <? 10 then byte_of (48 + v) else byte_of (87 + v).

(** Lower-case hexadecimal without leading zeros. *)
Definition hex_group (v : Z) : bytes :=
  let ds := [v / 4096; v / 256 mod 16; v / 16 mod 16] in
  (fix skip l := match l with
                 | [] => [hex_digit (v mod 16)]
                 | d :: l' => if d =? 0 then skip l' else (hex_digit <$> l) ++ [hex_digit (v mod 16)]
                 end) ds.

Fixpoint groups_of (ip : bytes) : list Z :=
  match ip with
  | a :: b :: ip' => be_get [a; b] :: groups_of ip'
  | _ => []
  end.

Fixpoint zero_run (l : list Z) : nat :=
  match l with
  | g :: l' => if g =? 0 then S (zero_run l') else 0%nat
  | [] => 0%nat
  end.

(** The leftmost longest run of at least two zero groups: start and length. *)
Definition best_run (gs : list Z) : option (nat * nat) :=
  foldl (fun best i =>
    let l := zero_run (drop i gs) in
    let bl := match best with Some (_, bl) => bl | None => 0%nat end in
    if decide (2 <= l /\ bl < l)%nat then Some (i, l) else best) None (seq 0 8).

Definition ip6_string (ip : IP) : bytes :=
  let gs := groups_of ip in
  match best_run gs with
  | None => Join (hex_group <$> gs) colon
  | Some (i, l) =>
      Join (hex_group <$> take i gs) colon ++ [colon; colon] ++ Join (hex_group <$> drop (i + l) gs) colon
  end.

(** [IP.String] on 4- and 16-byte addresses. *)
Definition IP_String (ip : IP) : bytes :=
  match To4 ip with
  | [] => ip6_string ip
  | ip4 => ip4_string ip4
  end.

(** [IPNet.String] for a contiguous mask; [None] stands for the renderings
    [<nil>] and of a mask with holes. *)
Definition IPNet_String (n : IPNet) : option bytes :=
  match networkNumberAndMask n with
  | None => None
  | Some (nn, m) =>
      match simpleMaskLength m with
      | None => None
      | Some l => Some (IP_String nn ++ [slash] ++ Itoa l)
      end
  end.

(** ** Parsing ([netip.ParseAddr] without zones) *)

Definition parse_octet (f : bytes) : option Z :=
  match f with
  | [] => None
  | c :: f' =>
      if forallb is_digit f then
        if beq c "0"%char && negb (bool_decide (f' = [])) then None
        else match parse_digits 0 f with
        | Some v => if v >? 255 then None else Some v
        | None => None
        end
      else None
  end.

Definition parseIPv4 (s : bytes) : option bytes :=
  match mapM parse_octet (Split s dot) with
  | Some [a; b; c; d] => Some [byte_of a; byte_of b; byte_of c; byte_of d]
  | _ => None
  end.

Definition hex_val (c : byte) : option Z :=
  if is_digit c then Some (byte_val c - 48)
  else if (97 <=? byte_val c) && (byte_val c <=? 102) then Some (byte_val c - 87)
  else if (65 <=? byte_val c) && (byte_val c <=? 70) then Some (byte_val c - 55)
  else None.

(** The leading hexadecimal digits, their value, and the rest. *)
Fixpoint take_hex (acc : Z) (s : bytes) : nat * Z * bytes :=
  match s with
  | c :: s' =>
      match hex_val c with
      | Some v => let '(n, acc', rest) := take_hex (acc * 16 + v) s' in (S n, acc', rest)
      | None => (0%nat, acc, s)
      end
  | [] => (0%nat, acc, [])
  end.

Definition v6_finish (ip : bytes) (ellipsis : option nat) : option bytes :=
  if decide (length ip < 16)%nat then
    match ellipsis with
    | None => None
    | Some e => Some (take e ip ++ replicate (16 - length ip) zero_byte ++ drop e ip)
    end
  else match ellipsis with Some _ => None | None => Some ip end.

(** The loop over 16-bit groups; [fuel] counts the groups that still fit. *)
Fixpoint v6_loop (fuel : nat) (s : bytes) (ip : bytes) (ellipsis : option nat) : option bytes :=
  match fuel with
  | O => match s with [] => v6_finish ip ellipsis | _ => None end
  | S fuel' =>
      let '(n, acc, rest) := take_hex 0 s in
      if decide (n = 0%nat \/ 4 < n)%nat then None
      else match rest with
      | c :: rest' =>
          if beq c dot then
            if decide (ellipsis = None /\ length ip <> 12%nat) then None
            else if decide (16 < length ip + 4)%nat then None
            else match parseIPv4 s with
            | Some v4 => v6_finish (ip ++ v4) ellipsis
            | None => None
            end
          else if negb (beq c colon) then None
          else
            let ip' := ip ++ be_put 2 acc in
            match rest' with
            | [] => None
            | c2 :: rest'' =>
                if beq c2 colon then
                  match ellipsis with
                  | Some _ => None
                  | None =>
                      match rest'' with
                      | [] => v6_finish ip' (Some (length ip'))
                      | _ => v6_loop fuel' rest'' ip' (Some (length ip'))
                      end
                  end
                else v6_loop fuel' rest' ip' ellipsis
            end
      | [] => v6_finish (ip ++ be_put 2 acc) ellipsis
      end
  end.

Definition parseIPv6 (s : bytes) : option bytes :=
  if ContainsByte s "%"%char then None
  else match s with
  | c1 :: c2 :: s' =>
      if beq c1 colon && beq c2 colon then
        match s' with
        | [] => Some (replicate 16 zero_byte)
        | _ => v6_loop 8 s' [] (Some 0%nat)
        end
      else v6_loop 8 s [] None
  | _ => v6_loop 8 s [] None
  end.

Definition is_addr_mark (c : byte) : bool := beq c dot || beq c colon || beq c "%"%char.

(** 4 bytes for dotted notation, 16 for colon notation. *)
Definition ParseAddr (s : bytes) : option bytes :=
  match List.find is_addr_mark s with
  | Some c => if beq c dot then parseIPv4 s else if beq c colon then parseIPv6 s else None
  | None => None
  end.

Definition As16 (a : bytes) : bytes := if decide (length a = 4%nat) then v4InV6Prefix ++ a else a.

(** [net.ParseIP]; nil is []. *)
Definition ParseIP (s : bytes) : IP := match ParseAddr s with Some a => As16 a | None => [] end.

(** [dtoi] on a whole string. *)
Definition dtoi_all (s : bytes) : option Z :=
  match s with
  | [] => None
  | _ => match parse_digits 0 s with
         | Some n => if n >=? 16777215 then None else Some n
         | None => None
         end
  end.

Definition ParseCIDR (s : bytes) : option (IP * IPNet) :=
  match Cut s slash with
  | (_, _, false) => None
  | (addr, mask, true) =>
      match ParseAddr addr with
      | None => None
      | Some a =>
          let bits := 8 * Z.of_nat (length a) in
          match dtoi_all mask with
          | None => None
          | Some n =>
              if n >? bits then None
              else
                let m := CIDRMask n bits in
                Some (As16 a, mkIPNet (ip_Mask (As16 a) m) m)
          end
      end
  end.

(** [strings.LastIndexByte]. *)
Definition LastIndexByte (s : bytes) (c : byte) : option nat :=
  match IndexByte (reverse s) c with
  | Some i => Some (length s - 1 - i)%nat
  | None => None
  end.

(** [net.SplitHostPort]; every error is [None]. *)
Definition SplitHostPort (hostport : bytes) : option (bytes * bytes) :=
  let lb := "["%char in
  let rb := "]"%char in
  match LastIndexByte hostport colon with
  | None => None
  | Some i =>
      let port := drop (i + 1) hostport in
      if beq (nth 0 hostport zero_byte) lb then
        match IndexByte hostport rb with
        | None => None
        | Some e =>
            if decide (e + 1 = length hostport \/ e + 1 <> i)%nat then None
            else if ContainsByte (drop 1 hostport) lb then None
            else if ContainsByte (drop (e + 1) hostport) rb then None
            else Some (slice 1 e hostport, port)
        end
      else
        let host := take i hostport in
        if ContainsByte host colon then None
        else if ContainsByte hostport lb then None
        else if ContainsByte hostport rb then None
        else Some (host, port)
  end.

(** ** Address classes *)

Definition nth_val (ip : IP) (i : nat) : Z := byte_val (nth i ip zero_byte).

Definition IsPrivate (ip : IP) : bool :=
  match To4 ip with
  | [] => bool_decide (length ip = 16%nat) && (Z.land (nth_val ip 0) 254 =? 252)
  | ip4 => (nth_val ip4 0 =? 10) || ((nth_val ip4 0 =? 172) && (Z.land (nth_val ip4 1) 240 =? 16)) ||
           ((nth_val ip4 0 =? 192) && (nth_val ip4 1 =? 168))
  end.

Definition IPv6loopback : IP := replicate 15 zero_byte ++ [byte_of 1].

Definition IsLoopback (ip : IP) : bool :=
  match To4 ip with
  | [] => IPEqual ip IPv6loopback
  | ip4 => nth_val ip4 0 =? 127
  end.

Definition IsLinkLocalUnicast (ip : IP) : bool :=
  match To4 ip with
  | [] => bool_decide (length ip = 16%nat) && (nth_val ip 0 =? 254) && (Z.land (nth_val ip 1) 192 =? 128)
  | ip4 => (nth_val ip4 0 =? 169) && (nth_val ip4 1 =? 254)
  end.

Definition IsLinkLocalMulticast (ip : IP) : bool :=
  match To4 ip with
  | [] => bool_decide (length ip = 16%nat) && (nth_val ip 0 =? 255) && (Z.land (nth_val ip 1) 15 =? 2)
  | ip4 => (nth_val ip4 0 =? 224) && (nth_val ip4 1 =? 0) && (nth_val ip4 2 =? 0)
  end.

Definition IsUnspecified (ip : IP) : bool :=
  IPEqual ip (IPv4 0 0 0 0) || IPEqual ip (replicate 16 zero_byte).

(** ** IPv4 addresses and networks as numbers *)

Definition net4 (v k : Z) : IPNet := mkIPNet (be_put 4 v) (CIDRMask k 32).

(** The first address of the /[k] block of [v]. *)
Definition block (k v : Z) : Z := v - v mod 2 ^ (32 - k).

Definition is_addr4 (v : Z) : Prop := 0 <= v < 2 ^ 32.

(** ** Lemmas *)

Lemma byte_land_range a b : 0 <= Z.land (byte_val a) (byte_val b) < 256.
Proof.
  pose proof (byte_val_range a). pose proof (byte_val_range b).
  assert (0 <= Z.land (byte_val a) (byte_val b)) as H1 by (apply Z.land_nonneg; lia).
  split; [done|]. pose proof (Z.land_ones (Z.land (byte_val a) (byte_val b)) 8 ltac:(lia)) as H2.
  rewrite <- Z.land_assoc, (Z.land_ones (byte_val b)), (Z.mod_small (byte_val b)) in H2 by lia.
  rewrite H2. apply Z.mod_pos_bound. lia.
Qed.

Lemma byte_val_and a b : byte_val (byte_and a b) = Z.land (byte_val a) (byte_val b).
Proof. unfold byte_and. rewrite byte_val_of. apply Z.mod_small, byte_land_range. Qed.

Lemma land_snoc x y a b :
  0 <= a < 256 -> 0 <= b < 256 ->
  Z.land (x * 256 + a) (y * 256 + b) = Z.land x y * 256 + Z.land a b.
Proof.
  intros Ha Hb.
  assert (forall z c, 0 <= c < 256 -> Z.shiftr (z * 256 + c) 8 = z) as Hs.
  { intros z c Hc. rewrite Z.shiftr_div_pow2 by lia. change (2 ^ 8) with 256.
    rewrite Z.div_add_l, Z.div_small by lia. lia. }
  assert (forall z c, 0 <= c < 256 -> Z.land (z * 256 + c) (Z.ones 8) = c) as Hm.
  { intros z c Hc. rewrite Z.land_ones by lia. change (2 ^ 8) with 256.
    rewrite Z.add_comm, Z.mod_add, Z.mod_small by lia. done. }
  set (p := x * 256 + a). set (q := y * 256 + b).
  rewrite (Z.div_mod (Z.land p q) 256) by lia.
  replace (Z.land p q / 256) with (Z.land x y).
  2:{ change 256 with (2 ^ 8). rewrite <- Z.shiftr_div_pow2, Z.shiftr_land by lia.
      unfold p, q. by rewrite !Hs. }
  replace (Z.land p q mod 256) with (Z.land a b); [lia|].
  change 256 with (2 ^ 8). rewrite <- Z.land_ones by lia.
  rewrite <- (Hm x a Ha), <- (Hm y b Hb). fold p q.
  apply Z.bits_inj'. intros n _. rewrite !Z.land_spec.
  by destruct (Z.testbit p n), (Z.testbit q n), (Z.testbit (Z.ones 8) n).
Qed.

Lemma be_get_and a b :
  length a = length b -> be_get (zip_with byte_and a b) = Z.land (be_get a) (be_get b).
Proof.
  revert b. induction a as [|x a IH] using rev_ind; intros b Hl.
  { by destruct b. }
  destruct b as [|y b _] using rev_ind; [rewrite length_app in Hl; cbn in Hl; lia|].
  rewrite !length_app in Hl. cbn in Hl. assert (length a = length b) as Hl' by lia.
  rewrite zip_with_app by done. cbn. rewrite !be_get_snoc, byte_val_and, IH by done.
  rewrite land_snoc by apply byte_val_range. done.
Qed.

(** Facts about the 33 prefix lengths, by computation. *)
Definition prefix_facts (k : Z) : bool :=
  (be_get (CIDRMask k 32) =? 2 ^ 32 - 2 ^ (32 - k)) &&
  bool_decide (simpleMaskLength (CIDRMask k 32) = Some k) &&
  bool_decide (length (CIDRMask k 32) = 4%nat) &&
  bool_decide (dtoi_all (Itoa k) = Some k).

Lemma prefix_cases k : 0 <= k <= 32 ->
  be_get (CIDRMask k 32) = 2 ^ 32 - 2 ^ (32 - k) /\ simpleMaskLength (CIDRMask k 32) = Some k /\
  length (CIDRMask k 32) = 4%nat /\ dtoi_all (Itoa k) = Some k.
Proof.
  intros Hk. assert (forallb prefix_facts (Z.of_nat <$> seq 0 33) = true) as H by by vm_compute.
  rewrite forallb_forall in H.
  assert (prefix_facts k = true) as Hf.
  { apply H, list_elem_of_In, list_elem_of_fmap. exists (Z.to_nat k). rewrite elem_of_seq. lia. }
  clear H. unfold prefix_facts in Hf. split_bools. by split_and!.
Qed.

Lemma mask_Size_CIDR k : 0 <= k <= 32 -> mask_Size (CIDRMask k 32) = (k, 32).
Proof.
  intros Hk. destruct (prefix_cases k Hk) as (_ & H1 & H2 & _).
  unfold mask_Size. by rewrite H1, H2.
Qed.

Lemma block_shift k v : 0 <= k <= 32 -> block k v = Z.shiftl (Z.shiftr v (32 - k)) (32 - k).
Proof.
  intros Hk. unfold block. rewrite Z.shiftl_mul_pow2, Z.shiftr_div_pow2 by lia.
  pose proof (Z.div_mod v (2 ^ (32 - k))). lia.
Qed.

Lemma land_mask v k : is_addr4 v -> 0 <= k <= 32 -> Z.land v (2 ^ 32 - 2 ^ (32 - k)) = block k v.
Proof.
  intros Hv Hk. rewrite block_shift by done.
  replace (2 ^ 32 - 2 ^ (32 - k)) with (Z.shiftl (Z.ones k) (32 - k)).
  2:{ rewrite Z.shiftl_mul_pow2, Z.ones_equiv by lia.
      replace (2 ^ 32) with (2 ^ k * 2 ^ (32 - k)); [lia|].
      rewrite <- Z.pow_add_r by lia. f_equal. lia. }
  apply Z.bits_inj'. intros n Hn. rewrite Z.land_spec, !Z.shiftl_spec by done.
  destruct (Z.ltb_spec n (32 - k)).
  { rewrite !(Z.testbit_neg_r _ (n - (32 - k))) by lia. by rewrite andb_false_r. }
  rewrite Z.shiftr_spec by lia. replace (n - (32 - k) + (32 - k)) with n by lia.
  destruct (Z.ltb_spec n 32).
  - rewrite Z.ones_spec_low by lia. apply andb_true_r.
  - rewrite (Z.bits_above_log2 v n); [done|unfold is_addr4 in Hv; lia|].
    destruct (decide (v = 0)) as [->|Hz]; [cbn; lia|].
    assert (Z.log2 v < 32) by (apply Z.log2_lt_pow2; unfold is_addr4 in Hv; lia). lia.
Qed.

Lemma block_le k v : 0 <= k <= 32 -> is_addr4 v -> 0 <= block k v <= v.
Proof.
  intros Hk Hv. unfold block, is_addr4 in *.
  pose proof (Z.mod_pos_bound v (2 ^ (32 - k)) ltac:(apply Z.pow_pos_nonneg; lia)).
  pose proof (Z.mod_le v (2 ^ (32 - k)) ltac:(lia) ltac:(apply Z.pow_pos_nonneg; lia)). lia.
Qed.

Lemma block_addr4 k v : 0 <= k <= 32 -> is_addr4 v -> is_addr4 (block k v).
Proof. intros Hk Hv. pose proof (block_le k v Hk Hv). unfold is_addr4 in *. lia. Qed.

Lemma block_idemp k v : 0 <= k <= 32 -> block k (block k v) = block k v.
Proof.
  intros Hk. rewrite !(block_shift k) by done. rewrite Z.shiftr_shiftl_l, Z.sub_diag by lia.
  by rewrite Z.shiftl_0_r.
Qed.

(** Two addresses are in one block exactly when their prefixes agree. *)
Lemma block_eq_iff k u v : 0 <= k <= 32 -> block k u = block k v <-> u / 2 ^ (32 - k) = v / 2 ^ (32 - k).
Proof.
  intros Hk. unfold block. assert (0 < 2 ^ (32 - k)) by (apply Z.pow_pos_nonneg; lia).
  pose proof (Z.div_mod u (2 ^ (32 - k)) ltac:(lia)). pose proof (Z.div_mod v (2 ^ (32 - k)) ltac:(lia)).
  nia.
Qed.

(** *** Addresses *)

Lemma addr4_put ip : length ip = 4%nat -> exists v, is_addr4 v /\ ip = be_put 4 v.
Proof.
  intros Hl. exists (be_get ip). split; [|by rewrite be_put_get'].
  pose proof (be_get_range ip) as H. rewrite Hl in H. exact H.
Qed.

Lemma be_get_put4 v : is_addr4 v -> be_get (be_put 4 v) = v.
Proof. intros Hv. apply be_get_put_small. exact Hv. Qed.

Lemma be_put4_inj u v : is_addr4 u -> is_addr4 v -> be_put 4 u = be_put 4 v -> u = v.
Proof. intros Hu Hv E. by rewrite <- (be_get_put4 u), E, be_get_put4. Qed.

Lemma To4_put v : To4 (be_put 4 v) = be_put 4 v.
Proof. unfold To4. by rewrite decide_True by apply length_be_put. Qed.

Lemma To4_mapped ip : length ip = 4%nat -> To4 (v4InV6Prefix ++ ip) = ip.
Proof.
  intros Hl. unfold To4. rewrite length_app, Hl. change (length v4InV6Prefix) with 12%nat.
  rewrite decide_False, decide_True by lia.
  change 12%nat with (length v4InV6Prefix). by rewrite take_app_length, drop_app_length, seq_eqb_refl.
Qed.

Lemma To4_length ip : length (To4 ip) = 4%nat \/ To4 ip = [].
Proof.
  unfold To4. repeat case_decide; auto. destruct (seq_eqb _ _); auto. left. rewrite length_drop. lia.
Qed.

Lemma be_put4_cons v : exists b l, be_put 4 v = b :: l.
Proof. pose proof (length_be_put 4 v). destruct (be_put 4 v); [done|by eauto]. Qed.

Lemma zip_and_mask v k : is_addr4 v -> 0 <= k <= 32 ->
  zip_with byte_and (be_put 4 v) (CIDRMask k 32) = be_put 4 (block k v).
Proof.
  intros Hv Hk. destruct (prefix_cases k Hk) as (Hm & _ & Hl & _).
  assert (length (zip_with byte_and (be_put 4 v) (CIDRMask k 32)) = 4%nat) as Hz
    by (rewrite length_zip_with, length_be_put, Hl; done).
  rewrite <- (be_put_get' 4 _ Hz). f_equal.
  rewrite be_get_and by (by rewrite length_be_put). by rewrite be_get_put4, Hm, land_mask.
Qed.

Lemma ip_Mask_put v k : is_addr4 v -> 0 <= k <= 32 ->
  ip_Mask (be_put 4 v) (CIDRMask k 32) = be_put 4 (block k v).
Proof.
  intros Hv Hk. destruct (prefix_cases k Hk) as (_ & _ & Hl & _). unfold ip_Mask.
  destruct (decide (length (CIDRMask k 32) = 16%nat /\ _)) as [[? ?]|_]; [lia|].
  destruct (decide (length (CIDRMask k 32) = 4%nat /\ _)) as [[_ H]|_]; [by rewrite length_be_put in H|].
  rewrite decide_True by (by rewrite length_be_put, Hl). by apply zip_and_mask.
Qed.

Lemma ip_Mask_mapped v k : is_addr4 v -> 0 <= k <= 32 ->
  ip_Mask (v4InV6Prefix ++ be_put 4 v) (CIDRMask k 32) = be_put 4 (block k v).
Proof.
  intros Hv Hk. destruct (prefix_cases k Hk) as (_ & _ & Hl & _). unfold ip_Mask.
  destruct (decide (length (CIDRMask k 32) = 16%nat /\ _)) as [[? ?]|_]; [lia|].
  destruct (decide (length (CIDRMask k 32) = 4%nat /\ _)) as [_|H].
  2:{ destruct H. by rewrite length_app, length_be_put. }
  change 12%nat with (length v4InV6Prefix). rewrite take_app_length, drop_app_length, seq_eqb_refl.
  rewrite decide_True by (by rewrite length_be_put, Hl). by apply zip_and_mask.
Qed.

Lemma networkNumberAndMask_net4 v k : 0 <= k <= 32 ->
  networkNumberAndMask (net4 v k) = Some (be_put 4 v, CIDRMask k 32).
Proof.
  intros Hk. destruct (prefix_cases k Hk) as (_ & _ & Hl & _).
  unfold networkNumberAndMask, net4; cbn [n_IP n_Mask]. rewrite To4_put.
  pose proof (length_be_put 4 v) as Hp. destruct (be_put 4 v) eqn:E; [done|]. rewrite Hp, Hl. done.
Qed.

(** Membership in an IPv4 network is equality of blocks. *)
Lemma IPNet_Contains_net4 v k u : is_addr4 v -> is_addr4 u -> 0 <= k <= 32 ->
  IPNet_Contains (net4 v k) (be_put 4 u) = bool_decide (block k u = block k v).
Proof.
  intros Hv Hu Hk. unfold IPNet_Contains. rewrite networkNumberAndMask_net4 by done.
  rewrite To4_put. pose proof (length_be_put 4 u) as Hp.
  destruct (be_put 4 u) as [|b l] eqn:E; [done|]. rewrite <- E in *.
  rewrite decide_True by (by rewrite !length_be_put). rewrite !zip_and_mask by done.
  unfold seq_eqb. apply bool_decide_ext. split; [|by intros ->].
  intros H. symmetry. apply be_put4_inj; [by apply block_addr4|by apply block_addr4|done].
Qed.

(** *** Text *)

Lemma octet_roundtrip_all :
  forallb (fun n => bool_decide (parse_octet (Itoa n) = Some n)) (Z.of_nat <$> seq 0 256) = true.
Proof. by vm_compute. Qed.

Lemma parse_octet_Itoa n : 0 <= n < 256 -> parse_octet (Itoa n) = Some n.
Proof.
  intros Hn. pose proof octet_roundtrip_all as H. rewrite forallb_forall in H.
  specialize (H n). rewrite bool_decide_eq_true in H. apply H, list_elem_of_In, list_elem_of_fmap.
  exists (Z.to_nat n). rewrite elem_of_seq. lia.
Qed.

Lemma parseIPv4_string ip : length ip = 4%nat -> parseIPv4 (ip4_string ip) = Some ip.
Proof.
  intros Hl. do 5 (destruct ip as [|? ip]; try done). unfold parseIPv4, ip4_string.
  rewrite Split_Join; [|done|].
  2:{ apply Forall_fmap, Forall_forall. intros b _. apply Itoa_not_elem; [apply byte_val_range|done]. }
  cbn [fmap list_fmap mapM]. rewrite !parse_octet_Itoa by apply byte_val_range.
  cbn. by rewrite !byte_of_val.
Qed.

Lemma digits_no_mark s : Forall (fun c => is_digit c = true) s -> List.find is_addr_mark s = None.
Proof.
  induction 1 as [|c s Hc _ IH]; [done|]. cbn [List.find].
  destruct (is_addr_mark c) eqn:E; [|done]. unfold is_addr_mark in E.
  repeat (apply orb_prop in E as [E|E]); apply beq_eq in E as ->; done.
Qed.

Lemma find_app {A} (p : A -> bool) (a b : list A) :
  List.find p (a ++ b) = match List.find p a with Some x => Some x | None => List.find p b end.
Proof. induction a as [|x a IH]; [done|]. cbn. by destruct (p x). Qed.

Lemma ParseAddr_ip4_string ip : length ip = 4%nat -> ParseAddr (ip4_string ip) = Some ip.
Proof.
  intros Hl. unfold ParseAddr.
  assert (List.find is_addr_mark (ip4_string ip) = Some dot) as ->; [|by apply parseIPv4_string].
  destruct ip as [|a [|b ip]]; try done. unfold ip4_string. rewrite !fmap_cons, Join_cons by done.
  rewrite find_app, digits_no_mark by (apply Itoa_digits; apply byte_val_range). done.
Qed.

Lemma ip4_string_no_slash ip : slash ∉ ip4_string ip.
Proof.
  unfold ip4_string. induction ip as [|a ip IH]; [apply not_elem_of_nil|].
  assert (slash ∉ Itoa (byte_val a)) as Ha by (apply Itoa_not_elem; [apply byte_val_range|done]).
  destruct ip as [|b ip]; [done|]. rewrite fmap_cons, Join_cons by done.
  rewrite elem_of_app, elem_of_cons. intros [H|[H|H]]; [done|by inversion H|done].
Qed.

Definition cidr4_string (v k : Z) : bytes := ip4_string (be_put 4 v) ++ [slash] ++ Itoa k.

(** Printed networks contain no space, so trimming leaves them alone. *)
Lemma cidr4_TrimSpace `{GoUnicode} v k : 0 <= k <= 32 -> TrimSpace (cidr4_string v k) = cidr4_string v k.
Proof.
  intros Hk. apply TrimSpace_Forall.
  assert (forall c, is_digit c = true \/ c = dot \/ c = slash -> is_ascii_byte c = true /\ is_space c = false) as Hc.
  { intros c [Hd|[->| ->]]; [|by vm_compute..]. unfold is_digit, is_ascii_byte, is_space in *. split_bools.
    split; [zbool; done|]. repeat (apply orb_false_iff; split); lia. }
  unfold cidr4_string, ip4_string. apply Forall_app. split.
  - apply Join_bytes; [by apply Hc; auto|]. apply Forall_fmap, Forall_forall. intros b _. cbn.
    eapply Forall_impl; [apply Itoa_digits, byte_val_range|]. auto.
  - cbn. constructor; [by apply Hc; auto|]. eapply Forall_impl; [apply Itoa_digits; lia|]. auto.
Qed.

Lemma cidr4_nonempty v k : exists c s, cidr4_string v k = c :: s.
Proof. unfold cidr4_string. destruct (ip4_string (be_put 4 v)); cbn; eauto. Qed.

Lemma IPNet_String_net4 v k : 0 <= k <= 32 -> IPNet_String (net4 v k) = Some (cidr4_string v k).
Proof.
  intros Hk. destruct (prefix_cases k Hk) as (_ & Hs & _ & _). unfold IPNet_String.
  rewrite networkNumberAndMask_net4, Hs by done. unfold IP_String. rewrite To4_put.
  unfold cidr4_string. by destruct (be_put4_cons v) as (b & l & ->).
Qed.

Lemma ParseCIDR_string v k : is_addr4 v -> 0 <= k <= 32 ->
  ParseCIDR (cidr4_string v k) = Some (v4InV6Prefix ++ be_put 4 v, net4 (block k v) k).
Proof.
  intros Hv Hk. destruct (prefix_cases k Hk) as (_ & _ & _ & Hd). unfold ParseCIDR, cidr4_string.
  cbn [app]. rewrite Cut_app by apply ip4_string_no_slash.
  rewrite ParseAddr_ip4_string by apply length_be_put. rewrite Hd, length_be_put.
  change (8 * Z.of_nat 4) with 32. replace (k >? 32) with false by lia.
  unfold As16. rewrite decide_True by apply length_be_put. by rewrite ip_Mask_mapped.
Qed.

Lemma dtoi_all_nonneg s n : dtoi_all s = Some n -> 0 <= n.
Proof.
  unfold dtoi_all. destruct s as [|c s]; [done|].
  destruct (parse_digits 0 (c :: s)) as [m|] eqn:E; [|done]. apply parse_digits_nonneg in E; [|lia].
  case_goal; [done|]. by intros [= <-].
Qed.

Lemma mask_Size_other n bits : bits <> 32 -> (mask_Size (CIDRMask n bits)).2 <> 32.
Proof.
  intros Hb. unfold mask_Size. destruct (simpleMaskLength _); cbn; [|done].
  unfold CIDRMask. repeat case_goal; cbn; try lia. rewrite length_fmap, length_seq. split_bools.
  destruct (bits =? 32) eqn:E; split_bools; [done|]. cbn in *. split_bools. by subst.
Qed.

(** A network [ParseCIDR] returns with a 32-bit mask comes from dotted notation
    and has its host bits cleared. *)
Lemma ParseCIDR_inv4 s lit n :
  ParseCIDR s = Some (lit, n) -> (mask_Size (n_Mask n)).2 = 32 ->
  exists v k, is_addr4 v /\ 0 <= k <= 32 /\ lit = v4InV6Prefix ++ be_put 4 v /\ n = net4 (block k v) k.
Proof.
  unfold ParseCIDR. destruct (Cut s slash) as [[addr mask] []]; [|done].
  destruct (ParseAddr addr) as [a|]; [|done]. destruct (dtoi_all mask) as [k|] eqn:Ek; [|done].
  apply dtoi_all_nonneg in Ek. destruct (_ >? _) eqn:Eg; [done|]. intros [= <- <-]. cbn [n_Mask].
  intros Hm. destruct (decide (length a = 4%nat)) as [Hl|Hl].
  - destruct (addr4_put a Hl) as (v & Hv & ->). exists v, k. rewrite length_be_put in *. split_bools.
    change (8 * Z.of_nat 4) with 32 in *. unfold As16. rewrite decide_True by apply length_be_put.
    by rewrite ip_Mask_mapped by (done || lia).
  - by apply mask_Size_other in Hm; [|lia].
Qed.

(** *** Masks read back *)

Lemma mask_byte_zero n : n <= 0 -> mask_byte n = zero_byte.
Proof. intros Hn. unfold mask_byte. destruct (n >=? 8) eqn:E; [lia|]. by rewrite Z.max_r by done. Qed.

Lemma byte_ones_inv b n : byte_ones b = Some n -> beq b ff_byte = false -> 0 <= n < 8 /\ mask_byte n = b.
Proof.
  unfold byte_ones. destruct (List.find _ _) as [m|] eqn:E; [|done]. intros [= ->] Hb.
  apply List.find_some in E as [Hin E]. apply beq_eq in E as <-. split; [|done].
  cbn in Hin. destruct Hin as [<-|[<-|[<-|[<-|[<-|[<-|[<-|[<-|[<-|[]]]]]]]]]]; try lia. done.
Qed.

Lemma simpleMaskLength_inv m n : simpleMaskLength m = Some n ->
  0 <= n <= 8 * Z.of_nat (length m) /\ m = (fun i => mask_byte (n - 8 * Z.of_nat i)) <$> seq 0 (length m).
Proof.
  revert n. induction m as [|v m IH]; intros n; cbn [simpleMaskLength]; [by intros [= <-]|].
  assert (forall f : nat -> ascii, f <$> seq 0 (length (v :: m)) = f 0%nat :: ((fun i => f (S i)) <$> seq 0 (length m))) as Hseq.
  { intros f. cbn [length seq fmap list_fmap]. by rewrite <- fmap_S_seq, <- list_fmap_compose. }
  destruct (beq v ff_byte) eqn:Ev.
  - destruct (simpleMaskLength m) as [n'|]; [|done]. intros [= <-]. destruct (IH n' eq_refl) as [Hn Hm].
    split; [cbn [length]; lia|]. rewrite Hseq. apply beq_eq in Ev as ->. rewrite Hm at 1. f_equal.
    + unfold mask_byte. change (Z.of_nat 0) with 0. by destruct (_ >=? 8) eqn:E; [|split_bools; lia].
    + apply list_fmap_ext. intros i x _. f_equal. lia.
  - destruct (byte_ones v) as [o|] eqn:Eo; [|done]. destruct (forallb _ m) eqn:Em; [|done]. intros [= ->].
    apply byte_ones_inv in Eo as [Ho <-]; [|done]. split; [cbn [length]; lia|]. rewrite Hseq. f_equal; [f_equal; lia|].
    clear -Em Ho. apply list_eq_same_length with (n := length m); [by rewrite length_fmap, length_seq|done|].
    intros i x y _ Hx Hy. apply list_lookup_fmap_Some in Hy as (j & -> & Hj). rewrite mask_byte_zero by lia.
    rewrite List.forallb_forall in Em. symmetry. apply beq_eq, Em. apply list_elem_of_In.
    by eapply list_elem_of_lookup_2.
Qed.

Lemma mask_Size_inv m k : mask_Size m = (k, 32) -> 0 <= k <= 32 /\ m = CIDRMask k 32.
Proof.
  unfold mask_Size. destruct (simpleMaskLength m) as [n|] eqn:E; [|done]. intros [= -> Hl].
  apply simpleMaskLength_inv in E as [Hk Hm]. assert (length m = 4%nat) as H4 by lia. rewrite H4 in *.
  split; [lia|]. rewrite Hm. unfold CIDRMask.
  destruct (_ || (k >? 32)) eqn:Eb; [|done]. apply orb_true_iff in Eb as [Eb|Eb]; lia.
Qed.

(** An IPv4 network in either representation contains what its four-byte form
    contains. *)
Lemma IPNet_Contains_To4 n v k u : is_addr4 v -> is_addr4 u ->
  To4 (n_IP n) = be_put 4 v -> mask_Size (n_Mask n) = (k, 32) ->
  IPNet_Contains n (be_put 4 u) = bool_decide (block k u = block k v).
Proof.
  intros Hv Hu Hip Hm. apply mask_Size_inv in Hm as [Hk Hm]. rewrite <- IPNet_Contains_net4 by done.
  unfold IPNet_Contains, networkNumberAndMask, net4. cbn [n_IP n_Mask]. rewrite Hip, Hm, To4_put. done.
Qed.

(** *** The text of a network determines it *)

Definition hex_read (s : bytes) : option Z :=
  foldl (fun acc c => a ← acc; d ← hex_val c; Some (a * 16 + d)) (Some 0) s.

Lemma hex_digit_facts d : 0 <= d < 16 -> hex_val (hex_digit d) = Some d /\ hex_digit d <> colon /\ hex_digit d <> slash.
Proof.
  intros Hd. assert (d ∈ Z.of_nat <$> seq 0 16) as Hin by (apply list_elem_of_fmap; exists (Z.to_nat d); rewrite elem_of_seq; lia).
  cbn in Hin. repeat (apply elem_of_cons in Hin as [->|Hin]; [by vm_compute|]). by apply not_elem_of_nil in Hin.
Qed.

Lemma hex_group_facts g : 0 <= g < 65536 -> hex_read (hex_group g) = Some g /\ hex_group g <> [] /\ colon ∉ hex_group g /\ slash ∉ hex_group g.
Proof.
  intros Hg. unfold hex_group, hex_read.
  destruct (hex_digit_facts (g / 4096)) as (A1 & A2 & A3); [Z.to_euclidean_division_equations; lia|].
  destruct (hex_digit_facts (g / 256 mod 16)) as (B1 & B2 & B3); [Z.to_euclidean_division_equations; lia|].
  destruct (hex_digit_facts (g / 16 mod 16)) as (C1 & C2 & C3); [Z.to_euclidean_division_equations; lia|].
  destruct (hex_digit_facts (g mod 16)) as (D1 & D2 & D3); [Z.to_euclidean_division_equations; lia|].
  destruct (Z.eqb_spec (g / 4096) 0); [destruct (Z.eqb_spec (g / 256 mod 16) 0); [destruct (Z.eqb_spec (g / 16 mod 16) 0)|]|];
    cbn [fmap list_fmap app foldl mbind option_bind]; rewrite ?A1, ?B1, ?C1, ?D1; cbn [mbind option_bind];
    rewrite ?A1, ?B1, ?C1, ?D1; cbn [mbind option_bind]; rewrite ?A1, ?B1, ?C1, ?D1; cbn [mbind option_bind]; rewrite ?A1, ?B1, ?C1, ?D1; cbn [mbind option_bind];
    (split; [f_equal; Z.to_euclidean_division_equations; lia|split; [done|rewrite !not_elem_of_cons; split_and!; first [done | by apply not_elem_of_nil]]]).
Qed.

Lemma hex_groups_inj gs gs' : Forall (fun g => 0 <= g < 65536) gs -> Forall (fun g => 0 <= g < 65536) gs' -> hex_group <$> gs = hex_group <$> gs' -> gs = gs'.
Proof.
  intros Hg. revert gs'. induction Hg as [|g gs Hr _ IH]; intros [|g' gs'] Hg' E; try done. apply Forall_cons in Hg' as [Hr' Hg'].
  injection E as E1 E2. f_equal; [|by apply IH]. destruct (hex_group_facts g Hr) as [R1 _], (hex_group_facts g' Hr') as [R2 _]. congruence.
Qed.

(** The nonempty fields before the first empty one. *)
Fixpoint leading (l : list bytes) : list bytes := match l with x :: l' => if decide (x = []) then [] else x :: leading l' | [] => [] end.

Lemma leading_app l k : Forall (fun x => x <> []) l -> leading (l ++ [] :: k) = l.
Proof. induction 1 as [|x l Hx _ IH]; [done|]. cbn. rewrite decide_False by done. by f_equal. Qed.

Lemma leading_all l : Forall (fun x => x <> []) l -> leading l = l.
Proof. induction 1 as [|x l Hx _ IH]; [done|]. cbn. rewrite decide_False by done. by f_equal. Qed.

Lemma zero_run_replicate l : take (zero_run l) l = replicate (zero_run l) 0.
Proof. induction l as [|g l IH]; [done|]. cbn. destruct (Z.eqb_spec g 0) as [->|]; [|done]. cbn. by f_equal. Qed.

Lemma zero_run_length l : (zero_run l <= length l)%nat.
Proof. induction l as [|g l IH]; [done|]. cbn. destruct (g =? 0); lia. Qed.

Lemma best_run_Some gs i l : best_run gs = Some (i, l) -> l = zero_run (drop i gs) /\ (2 <= l)%nat.
Proof.
  unfold best_run. assert (forall ks best, (forall j m, best = Some (j, m) -> m = zero_run (drop j gs) /\ (2 <= m)%nat) ->
    forall j m, foldl (fun best i => let l := zero_run (drop i gs) in let bl := match best with Some (_, bl) => bl | None => 0%nat end in
      if decide (2 <= l /\ bl < l)%nat then Some (i, l) else best) best ks = Some (j, m) -> m = zero_run (drop j gs) /\ (2 <= m)%nat) as H; [|by apply H].
  induction ks as [|k ks IH]; intros best Hb; [done|]. cbn [foldl]. apply IH. intros j m. cbv zeta. destruct (decide _) as [[? _]|]; [|apply Hb]. by intros [= <- <-].
Qed.

Lemma hex_fields gs : Forall (fun g => 0 <= g < 65536) gs -> Forall (fun x => x <> [] /\ colon ∉ x /\ slash ∉ x) (hex_group <$> gs).
Proof. intros Hg. apply Forall_fmap. eapply Forall_impl; [exact Hg|]. intros g Hr. by destruct (hex_group_facts g Hr) as (_ & ?). Qed.

(** The eight groups behind the fields of an IPv6 text. *)
Definition decompress (fields : list bytes) : list bytes :=
  let a := leading fields in
  let b := reverse (leading (reverse fields)) in
  if decide (length a = 8%nat) then a else a ++ replicate (8 - length a - length b) (hex_group 0) ++ b.

Lemma leading_Split_Join l k : Forall (fun x => x <> [] /\ colon ∉ x /\ slash ∉ x) l ->
  leading (Split (Join l colon) colon ++ [] :: k) = l /\ leading (reverse (Split (Join l colon) colon) ++ [] :: k) = reverse l.
Proof.
  intros Hl. destruct (decide (l = [])) as [->|Hne]; [done|]. assert (Forall (fun x => x <> []) l) as Hn by (eapply Forall_impl; [exact Hl|by intros ? []]).
  rewrite Split_Join; [|done|eapply Forall_impl; [exact Hl|by intros ? (_ & ? & _)]]. split; [by apply leading_app|]. apply leading_app. by apply Forall_reverse.
Qed.

Lemma ip6_fields ip : length (groups_of ip) = 8%nat -> Forall (fun g => 0 <= g < 65536) (groups_of ip) ->
  hex_group <$> groups_of ip = decompress (Split (ip6_string ip) colon).
Proof.
  unfold ip6_string. set (gs := groups_of ip). intros Hlen Hg. pose proof (hex_fields gs Hg) as Hf. destruct (best_run gs) as [[i l]|] eqn:Eb.
  - apply best_run_Some in Eb as [El Hl]. pose proof (zero_run_length (drop i gs)) as Hle. rewrite length_drop in Hle.
    assert (gs = take i gs ++ replicate l 0 ++ drop (i + l) gs) as Egs.
    { rewrite <- (take_drop i gs) at 1. f_equal. rewrite <- (take_drop l (drop i gs)) at 1. rewrite drop_drop. f_equal. rewrite El. apply zero_run_replicate. }
    rewrite Egs in Hf. rewrite !fmap_app in Hf. apply Forall_app in Hf as [HA Hf]. apply Forall_app in Hf as [_ HB].
    set (A := hex_group <$> take i gs) in *. set (B := hex_group <$> drop (i + l) gs) in *.
    change (Join A colon ++ [colon; colon] ++ Join B colon) with (Join A colon ++ colon :: colon :: Join B colon). rewrite Split_app_gen.
    cbn [Split]. rewrite beq_refl. unfold decompress. rewrite reverse_app, reverse_cons, <- app_assoc. cbn [app].
    rewrite (proj1 (leading_Split_Join A (Split (Join B colon) colon) HA)), (proj2 (leading_Split_Join B (reverse (Split (Join A colon) colon)) HB)), reverse_involutive.
    assert (length A = i) as -> by (unfold A; rewrite length_fmap, length_take; lia).
    assert (length B = 8 - i - l)%nat as -> by (unfold B; rewrite length_fmap, length_drop; lia).
    rewrite decide_False by lia. rewrite Egs at 1. rewrite !fmap_app, fmap_replicate. replace (8 - i - (8 - i - l))%nat with l by lia. done.
  - rewrite Split_Join.
    + unfold decompress. rewrite leading_all by (eapply Forall_impl; [exact Hf|by intros ? []]). by rewrite decide_True by (by rewrite length_fmap).
    + destruct gs; [done|]. done.
    + eapply Forall_impl; [exact Hf|by intros ? (_ & ? & _)].
Qed.

Lemma groups_of_facts n ip : length ip = (2 * n)%nat ->
  length (groups_of ip) = n /\ Forall (fun g => 0 <= g < 65536) (groups_of ip) /\
  forall ip', length ip' = (2 * n)%nat -> groups_of ip = groups_of ip' -> ip = ip'.
Proof.
  revert ip. induction n as [|n IH]; intros ip Hl.
  - destruct ip; [|done]. split; [done|]. split; [by constructor|]. by intros [|].
  - destruct ip as [|a [|b ip]]; cbn [length] in Hl; try lia. destruct (IH ip ltac:(lia)) as (L & R & I). cbn [groups_of length]. split; [by rewrite L|].
    split; [constructor; [|done]; apply (be_get_range [a; b])|]. intros [|a' [|b' ip']] Hl' E; cbn [length] in Hl'; try lia. cbn [groups_of] in E.
    injection E as E1 E2. assert ([a; b] = [a'; b']) as E3 by (rewrite <- (be_put_get' 2 [a; b]), <- (be_put_get' 2 [a'; b']); [by rewrite E1|done|done]).
    injection E3 as -> ->. do 2 f_equal. apply I; [lia|done].
Qed.

Lemma ip6_string_inj ip ip' : length ip = 16%nat -> length ip' = 16%nat -> ip6_string ip = ip6_string ip' -> ip = ip'.
Proof.
  intros Hl Hl' E. destruct (groups_of_facts 8 ip Hl) as (L & R & I). destruct (groups_of_facts 8 ip' Hl') as (L' & R' & _). apply I; [done|].
  apply hex_groups_inj; [done|done|]. by rewrite !ip6_fields, E.
Qed.

Lemma ip6_string_marks ip : length ip = 16%nat -> colon ∈ ip6_string ip /\ slash ∉ ip6_string ip.
Proof.
  intros Hl. destruct (groups_of_facts 8 ip Hl) as (L & R & _). unfold ip6_string. set (gs := groups_of ip) in *. pose proof (hex_fields gs R) as Hf.
  assert (forall l, Forall (fun x => x <> [] /\ colon ∉ x /\ slash ∉ x) l -> slash ∉ Join l colon) as Hs.
  { intros l Hall. assert (Forall (fun c => c <> slash) (Join l colon)) as HJ.
    { apply Join_bytes; [done|]. eapply Forall_impl; [exact Hall|]. intros x (_ & _ & Hx). apply Forall_forall. intros c Hc ->. done. }
    rewrite Forall_forall in HJ. intros Hin. by apply (HJ _ Hin). }
  destruct (best_run gs) as [[i l]|]; split.
  - rewrite !elem_of_app. right. left. by left.
  - rewrite !elem_of_app. rewrite !elem_of_cons. intros [Hin|[[?|[?|Hin]]|Hin]]; [|done|done|by apply not_elem_of_nil in Hin|];
      revert Hin; apply Hs, hex_fields; [by apply Forall_take|by apply Forall_drop].
  - destruct gs as [|g [|g' gs]]; try done. rewrite !fmap_cons, Join_cons by done. rewrite elem_of_app. right. by left.
  - by apply Hs.
Qed.

Lemma ip4_string_no_colon ip : colon ∉ ip4_string ip.
Proof.
  assert (Forall (fun c => c <> colon) (ip4_string ip)) as HJ.
  { apply Join_bytes; [done|]. apply Forall_fmap, Forall_forall. intros b _. cbn. eapply Forall_impl; [apply Itoa_digits, byte_val_range|]. intros c Hc ->. done. }
  rewrite Forall_forall in HJ. intros Hin. by apply (HJ _ Hin).
Qed.

(** The network number and mask of a printed network. *)
Lemma IPNet_String_inv n t : IPNet_String n = Some t -> exists nn m l,
  networkNumberAndMask n = Some (nn, m) /\ simpleMaskLength m = Some l /\ t = IP_String nn ++ [slash] ++ Itoa l /\
  (length nn = 4 /\ length m = 4 \/ length nn = 16 /\ length m = 16 /\ To4 nn = [])%nat.
Proof.
  unfold IPNet_String. destruct (networkNumberAndMask n) as [[nn m]|] eqn:E; [|done]. destruct (simpleMaskLength m) as [l|] eqn:El; [|done]. intros [= <-].
  exists nn, m, l. split_and!; [done|done|done|]. revert E. unfold networkNumberAndMask. set (ip := match To4 (n_IP n) with [] => n_IP n | _ => _ end).
  assert (length ip = 16%nat -> To4 ip = []) as Hto.
  { unfold ip. pose proof (To4_length (n_IP n)) as Ht. destruct (To4 (n_IP n)) as [|b l'] eqn:Et; [done|]. destruct Ht; [lia|done]. }
  destruct (_ || _) eqn:Eo; cbn [negb]; [|done]. apply orb_prop in Eo. rewrite !bool_decide_eq_true in Eo.
  repeat case_decide; try done; intros [= <- <-]; rewrite ?length_drop; [by left| |destruct Eo; [done|right; split_and!; auto]]. left. split; [done|lia].
Qed.

(** Two networks with the same text have the same number and mask. *)
Lemma IPNet_String_inj n n' t : IPNet_String n = Some t -> IPNet_String n' = Some t -> networkNumberAndMask n = networkNumberAndMask n'.
Proof.
  intros (nn & m & l & E & Hm & -> & Hl)%IPNet_String_inv (nn' & m' & l' & E' & Hm' & Et & Hl')%IPNet_String_inv. rewrite E, E'.
  assert (forall a k : bytes, (length a = 4 /\ length k = 4 \/ length a = 16 /\ length k = 16 /\ To4 a = [])%nat -> slash ∉ IP_String a /\
    IP_String a = if decide (length a = 4%nat) then ip4_string a else ip6_string a) as Hs.
  { intros a k [[Ha _]|(Ha & _ & Ht)]; unfold IP_String.
    - unfold To4. rewrite !decide_True by done. destruct a; [done|]. split; [apply ip4_string_no_slash|done].
    - rewrite Ht, decide_False by lia. split; [by apply ip6_string_marks|done]. }
  destruct (Hs nn m Hl) as [N1 E1], (Hs nn' m' Hl') as [N2 E2].
  assert (Cut (IP_String nn ++ slash :: Itoa l) slash = Cut (IP_String nn' ++ slash :: Itoa l') slash) as Ec by (f_equal; exact Et).
  rewrite !Cut_app in Ec by done. injection Ec as Ei Em. apply Itoa_injective in Em as <-.
  apply simpleMaskLength_inv in Hm as [_ Hm], Hm' as [_ Hm']. rewrite E1, E2 in Ei.
  destruct Hl as [[Ha Hk]|(Ha & Hk & _)], Hl' as [[Ha' Hk']|(Ha' & Hk' & _)].
  - rewrite !decide_True in Ei by done. assert (nn = nn') as ->; [|congruence]. apply (f_equal parseIPv4) in Ei. rewrite !parseIPv4_string in Ei by done. by injection Ei.
  - rewrite decide_True, decide_False in Ei by lia. exfalso. apply (ip4_string_no_colon nn). rewrite Ei. by apply ip6_string_marks.
  - rewrite decide_False, decide_True in Ei by lia. exfalso. apply (ip4_string_no_colon nn'). rewrite <- Ei. by apply ip6_string_marks.
  - rewrite !decide_False in Ei by lia. apply ip6_string_inj in Ei as ->; [|done|done]. congruence.
Qed.

Lemma IPNet_Contains_text n n' t ip : IPNet_String n = Some t -> IPNet_String n' = Some t -> IPNet_Contains n ip = IPNet_Contains n' ip.
Proof. intros E E'. unfold IPNet_Contains. by rewrite (IPNet_String_inj n n' t E E'). Qed.

(** *** Every parsed network has a text *)

Lemma v6_finish_length ip e a : (length ip <= 16)%nat -> v6_finish ip e = Some a -> length a = 16%nat.
Proof.
  intros Hl. unfold v6_finish. case_decide; destruct e as [e|]; try done; intros [= <-]; [|lia].
  rewrite !length_app, length_replicate, length_take, length_drop. lia.
Qed.

Lemma v6_loop_length fuel s ip e a : (length ip + 2 * fuel = 16)%nat -> v6_loop fuel s ip e = Some a -> length a = 16%nat.
Proof.
  revert s ip e. induction fuel as [|f IH]; intros s ip e Hl; cbn [v6_loop]; [destruct s; [|done]; apply v6_finish_length; lia|].
  assert (forall acc, length (ip ++ be_put 2 acc) + 2 * f = 16)%nat as Hl' by (intros; rewrite length_app, length_be_put; lia).
  destruct (take_hex 0 s) as [[n acc] rest]. case_decide; [done|]. specialize (Hl' acc). destruct rest as [|c rest]; [apply v6_finish_length; lia|].
  destruct (beq c dot).
  - repeat case_decide; try done. destruct (parseIPv4 s) as [v4|] eqn:E4; [|done]. apply v6_finish_length. rewrite length_app.
    assert (length v4 = 4%nat); [|lia]. revert E4. unfold parseIPv4. repeat case_match; try done. by intros [= <-].
  - destruct (negb _); [done|]. destruct rest as [|c2 rest]; [done|]. destruct (beq c2 colon); [|by apply IH].
    destruct e; [done|]. destruct rest; [apply v6_finish_length; lia|by apply IH].
Qed.

Lemma ParseAddr_length s a : ParseAddr s = Some a -> length a = 4%nat \/ length a = 16%nat.
Proof.
  unfold ParseAddr. destruct (List.find _ _) as [c|]; [|done]. destruct (beq c dot).
  - unfold parseIPv4. repeat case_match; try done. intros [= <-]. by left.
  - destruct (beq c colon); [|done]. unfold parseIPv6. destruct (ContainsByte _ _); [done|]. intros Hp. right. revert Hp.
    destruct s as [|c1 [|c2 s]]; [apply v6_loop_length; done..|]. destruct (_ && _); [|by apply v6_loop_length].
    destruct s; [by intros [= <-]|]. by apply v6_loop_length.
Qed.

Lemma long_mask_facts k : 0 <= k <= 128 -> length (CIDRMask k 128) = 16%nat /\
  is_Some (simpleMaskLength (CIDRMask k 128)) /\ is_Some (simpleMaskLength (drop 12 (CIDRMask k 128))).
Proof.
  intros Hk. assert (forallb (fun k => bool_decide (length (CIDRMask k 128) = 16%nat) &&
    bool_decide (is_Some (simpleMaskLength (CIDRMask k 128))) && bool_decide (is_Some (simpleMaskLength (drop 12 (CIDRMask k 128))))) (Z.of_nat <$> seq 0 129) = true) as H by by vm_compute.
  rewrite forallb_forall in H. assert (In k (Z.of_nat <$> seq 0 129)) as Hin.
  { apply list_elem_of_In, list_elem_of_fmap. exists (Z.to_nat k). rewrite elem_of_seq. lia. }
  specialize (H k Hin). apply andb_prop in H as [[H1 H2]%andb_prop H3]. rewrite !bool_decide_eq_true in H1, H2, H3. done.
Qed.

Lemma ParseCIDR_text s lit n : ParseCIDR s = Some (lit, n) -> is_Some (IPNet_String n).
Proof.
  unfold ParseCIDR. destruct (Cut s slash) as [[addr mask] []]; [|done]. destruct (ParseAddr addr) as [a|] eqn:Ea; [|done].
  apply ParseAddr_length in Ea. destruct (dtoi_all mask) as [k|] eqn:Ek; [|done]. apply dtoi_all_nonneg in Ek. destruct (_ >? _) eqn:Eg; [done|]. intros [= _ <-].
  destruct Ea as [Hl|Hl].
  - destruct (addr4_put a Hl) as (v & Hv & ->). rewrite length_be_put in *. change (8 * Z.of_nat 4) with 32 in *. unfold As16.
    rewrite decide_True by apply length_be_put. rewrite ip_Mask_mapped by (done || lia).
    pose proof (IPNet_String_net4 (block k v) k ltac:(lia)) as Hs. unfold net4 in Hs. rewrite Hs. by eexists.
  - rewrite Hl in *. change (8 * Z.of_nat 16) with 128 in *. unfold As16. rewrite decide_False by lia. destruct (long_mask_facts k ltac:(lia)) as (Hm & [l1 S1] & [l2 S2]).
    assert (length (ip_Mask a (CIDRMask k 128)) = 16%nat) as Hi.
    { unfold ip_Mask. cbv zeta. rewrite (decide_False (P := length (CIDRMask k 128) = 16%nat /\ length a = 4%nat)) by lia.
      rewrite (decide_False (P := length (CIDRMask k 128) = 4%nat /\ length a = 16%nat)) by lia. rewrite decide_True by lia. rewrite length_zip_with. lia. }
    unfold IPNet_String, networkNumberAndMask. cbn [n_IP n_Mask]. set (ip := ip_Mask a _) in *. pose proof (To4_length ip) as Ht.
    generalize dependent (CIDRMask k 128). intros m Hm S1 S2 ip Hi Ht.
    destruct (To4 ip) as [|b t]; [|destruct Ht as [Ht|]; [|done]]; rewrite ?Hi, ?Ht, Hm.
    + change (is_Some (match simpleMaskLength m with Some l => Some (IP_String ip ++ [slash] ++ Itoa l) | None => None end)). rewrite S1. by eexists.
    + change (is_Some (match simpleMaskLength (drop 12 m) with Some l => Some (IP_String (b :: t) ++ [slash] ++ Itoa l) | None => None end)). rewrite S2. by eexists.
Qed.

Lemma hex_digit_ascii d : 0 <= d < 16 -> is_ascii_byte (hex_digit d) = true.
Proof.
  intros Hd. assert (d ∈ Z.of_nat <$> seq 0 16) as Hin by (apply list_elem_of_fmap; exists (Z.to_nat d); rewrite elem_of_seq; lia).
  cbn in Hin. repeat (apply elem_of_cons in Hin as [->|Hin]; [by vm_compute|]). by apply not_elem_of_nil in Hin.
Qed.

Lemma hex_group_ascii g : 0 <= g < 65536 -> Forall (fun c => is_ascii_byte c = true) (hex_group g).
Proof.
  intros Hg. unfold hex_group.
  assert (Forall (fun d => 0 <= d < 16) [g / 4096; g / 256 mod 16; g / 16 mod 16; g mod 16]) as Hd by (repeat constructor; Z.to_euclidean_division_equations; lia).
  assert (forall l, Forall (fun d => 0 <= d < 16) l -> Forall (fun c => is_ascii_byte c = true) (hex_digit <$> l)) as Hm.
  { intros l Hl. apply Forall_fmap. eapply Forall_impl; [exact Hl|]. intros d. apply hex_digit_ascii. }
  apply Forall_cons in Hd as [H1 Hd]. apply Forall_cons in Hd as [H2 Hd]. apply Forall_cons in Hd as [H3 Hd]. apply Forall_cons in Hd as [H4 _].
  destruct (g / 4096 =? 0); [destruct (g / 256 mod 16 =? 0); [destruct (g / 16 mod 16 =? 0)|]|];
    rewrite ?Forall_app, ?Forall_singleton; try (split; [apply Hm; repeat (apply Forall_cons_2; [done|]); apply Forall_nil_2|]); by apply hex_digit_ascii.
Qed.

Lemma IPNet_String_ascii n t : IPNet_String n = Some t -> Forall (fun c => is_ascii_byte c = true) t.
Proof.
  intros (nn & m & l & _ & Hm & -> & Hl)%IPNet_String_inv. apply simpleMaskLength_inv in Hm as [Hm _].
  assert (forall s, Forall (fun c => is_digit c = true) s -> Forall (fun c => is_ascii_byte c = true) s) as Hdig.
  { intros s Hs. eapply Forall_impl; [exact Hs|]. intros c Hc. unfold is_digit, is_ascii_byte in *. split_bools. apply Z.ltb_lt. lia. }
  apply Forall_app. split; [|constructor; [done|apply Hdig, Itoa_digits; lia]]. unfold IP_String.
  destruct Hl as [[Ha _]|(Ha & _ & ->)].
  - unfold To4. rewrite decide_True by done. destruct nn; [done|]. apply Join_bytes; [done|]. apply Forall_fmap, Forall_forall. intros b _. apply Hdig, Itoa_digits, byte_val_range.
  - destruct (groups_of_facts 8 nn Ha) as (_ & R & _). unfold ip6_string.
    assert (forall gs, Forall (fun g => 0 <= g < 65536) gs -> Forall (fun c => is_ascii_byte c = true) (Join (hex_group <$> gs) colon)) as Hj.
    { intros gs Hg. apply Join_bytes; [done|]. apply Forall_fmap. eapply Forall_impl; [exact Hg|]. intros g. apply hex_group_ascii. }
    destruct (best_run _) as [[i k]|]; [|by apply Hj]. rewrite !Forall_app. split_and!; [apply Hj; by apply Forall_take|by repeat constructor|apply Hj; by apply Forall_drop].
Qed.
