(* ===== verification/GoCrypto.v ===== *)
(** * Encodings and hashes of the Go standard library

    [encoding/base64.StdEncoding] (decoding), [base64.RawURLEncoding] and
    [crypto/sha256.Sum256], as the credential checks and the page cursors use
    them. *)

From stdpp Require Import base list strings.
From Stdlib Require Import Ascii.
From S2P Require Import Prelude GoStrings.
Local Open Scope Z_scope.

(** ** Base64 *)

Definition b64_val (c : byte) : option Z :=
  let v := byte_val c in
  if is_upper c then Some (v - 65)
  else if is_lower c then Some (v - 71)
  else if is_digit c then Some (v + 4)
  else if v =? 43 then Some 62
  else if v =? 47 then Some 63
  else None.

Definition is_newline (c : byte) : bool := (byte_val c =? 10) || (byte_val c =? 13).
Definition pad_char : byte := "="%char.

(** Four characters at a time; padding may only end the input. *)
Fixpoint b64_quanta (s : bytes) : option bytes :=
  match s with
  | [] => Some []
  | c1 :: c2 :: c3 :: c4 :: s' =>
      match b64_val c1, b64_val c2 with
      | Some a, Some b =>
          if beq c3 pad_char then
            if beq c4 pad_char && bool_decide (s' = []) then Some [byte_of (a * 4 + b / 16)] else None
          else match b64_val c3 with
          | None => None
          | Some c =>
              if beq c4 pad_char then
                if bool_decide (s' = []) then Some [byte_of (a * 4 + b / 16); byte_of (b mod 16 * 16 + c / 4)]
                else None
              else match b64_val c4, b64_quanta s' with
              | Some d, Some rest =>
                  Some (byte_of (a * 4 + b / 16) :: byte_of (b mod 16 * 16 + c / 4) ::
                        byte_of (c mod 4 * 64 + d) :: rest)
              | _, _ => None
              end
          end
      | _, _ => None
      end
  | _ => None
  end.

(** [StdEncoding.DecodeString]: carriage returns and newlines are ignored. *)
Definition DecodeString (s : bytes) : option bytes :=
  b64_quanta (List.filter (fun c => negb (is_newline c)) s).

(** *** [RawURLEncoding]: the URL alphabet without padding *)

Definition url_char (v : Z) : byte :=
  if v <? 26 then byte_of (65 + v)
  else if v <? 52 then byte_of (71 + v)
  else if v <? 62 then byte_of (v - 4)
  else if v =? 62 then "-"%char else "_"%char.

Definition url_val (c : byte) : option Z :=
  let v := byte_val c in
  if is_upper c then Some (v - 65)
  else if is_lower c then Some (v - 71)
  else if is_digit c then Some (v + 4)
  else if v =? 45 then Some 62
  else if v =? 95 then Some 63
  else None.

Fixpoint RawURLEncode (s : bytes) : bytes :=
  match s with
  | [] => []
  | [a] => [url_char (byte_val a / 4); url_char (byte_val a mod 4 * 16)]
  | [a; b] => [url_char (byte_val a / 4); url_char (byte_val a mod 4 * 16 + byte_val b / 16); url_char (byte_val b mod 16 * 4)]
  | a :: b :: c :: s' =>
      url_char (byte_val a / 4) :: url_char (byte_val a mod 4 * 16 + byte_val b / 16) ::
      url_char (byte_val b mod 16 * 4 + byte_val c / 64) :: url_char (byte_val c mod 64) :: RawURLEncode s'
  end.

(** A last group of two or three characters stands for one or two bytes; one
    character alone is an error. *)
Fixpoint url_quanta (s : bytes) : option bytes :=
  match s with
  | [] => Some []
  | [_] => None
  | [c1; c2] => a ← url_val c1; b ← url_val c2; Some [byte_of (a * 4 + b / 16)]
  | [c1; c2; c3] =>
      a ← url_val c1; b ← url_val c2; c ← url_val c3; Some [byte_of (a * 4 + b / 16); byte_of (b mod 16 * 16 + c / 4)]
  | c1 :: c2 :: c3 :: c4 :: s' =>
      a ← url_val c1; b ← url_val c2; c ← url_val c3; d ← url_val c4; rest ← url_quanta s';
      Some (byte_of (a * 4 + b / 16) :: byte_of (b mod 16 * 16 + c / 4) :: byte_of (c mod 4 * 64 + d) :: rest)
  end.

Definition RawURLDecode (s : bytes) : option bytes := url_quanta (List.filter (fun c => negb (is_newline c)) s).

(** *** [RawStdEncoding]: the same with the last two digits [+] and [/] *)

Definition RawStdEncode (s : bytes) : bytes :=
  (fun c => if beq c "-"%char then "+"%char else if beq c "_"%char then "/"%char else c) <$> RawURLEncode s.

Definition RawStdDecode (s : bytes) : option bytes :=
  if existsb (fun c => beq c "-"%char || beq c "_"%char) s then None
  else RawURLDecode ((fun c => if beq c "+"%char then "-"%char else if beq c "/"%char then "_"%char else c) <$> s).

(** ** SHA-256 *)

Definition add32 (a b : Z) : Z := (a + b) mod 2 ^ 32.
Definition rotr (n x : Z) : Z := Z.lor (Z.shiftr x n) (Z.shiftl x (32 - n) mod 2 ^ 32).

(** The constant tables of FIPS 180-4: the first 32 bits of the fractional parts
    of the cube roots of the first 64 primes, and of the square roots of the
    first 8.  [Sum256_abc] below checks them against a published digest. *)
Definition is_prime (n : nat) : bool :=
  forallb (fun d => negb (Z.of_nat n mod Z.of_nat d =? 0)) (seq 2 (n - 2)).

Definition primes : list Z := Eval vm_compute in Z.of_nat <$> List.filter is_prime (seq 2 310).

(** The largest [r] below [2 ^ (bits + 1)] with [r ^ k <= n], bit by bit. *)
Fixpoint int_root (k n : Z) (bits : nat) (r : Z) : Z :=
  match bits with
  | O => r
  | S b => let r' := r + 2 ^ Z.of_nat b in int_root k n b (if r' ^ k <=? n then r' else r)
  end.

Definition root_fraction (k p : Z) : Z := int_root k (p * 2 ^ (32 * k)) 40 0 mod 2 ^ 32.

Definition sha256_k : list Z := Eval vm_compute in root_fraction 3 <$> primes.
Definition sha256_init : list Z := Eval vm_compute in root_fraction 2 <$> take 8 primes.

(** The message schedule, newest word first. *)
Fixpoint sha256_expand (n : nat) (rev : list Z) : list Z :=
  match n with
  | O => rev
  | S n' =>
      let w i := nth i rev 0 in
      let s0 := Z.lxor (Z.lxor (rotr 7 (w 14%nat)) (rotr 18 (w 14%nat))) (Z.shiftr (w 14%nat) 3) in
      let s1 := Z.lxor (Z.lxor (rotr 17 (w 1%nat)) (rotr 19 (w 1%nat))) (Z.shiftr (w 1%nat) 10) in
      sha256_expand n' (add32 (add32 (w 15%nat) s0) (add32 (w 6%nat) s1) :: rev)
  end.

Definition sha256_round (st : list Z) (kw : Z * Z) : list Z :=
  match st with
  | [a; b; c; d; e; f; g; h] =>
      let s1 := Z.lxor (Z.lxor (rotr 6 e) (rotr 11 e)) (rotr 25 e) in
      let ch := Z.lxor (Z.land e f) (Z.land (2 ^ 32 - 1 - e) g) in
      let t1 := add32 (add32 h s1) (add32 ch (add32 kw.1 kw.2)) in
      let s0 := Z.lxor (Z.lxor (rotr 2 a) (rotr 13 a)) (rotr 22 a) in
      let maj := Z.lxor (Z.lxor (Z.land a b) (Z.land a c)) (Z.land b c) in
      [add32 t1 (add32 s0 maj); a; b; c; add32 d t1; e; f; g]
  | _ => st
  end.

Fixpoint words_of (n : nat) (s : bytes) : list Z :=
  match n with
  | O => []
  | S n' => be_get (take 4 s) :: words_of n' (drop 4 s)
  end.

Definition sha256_block (st : list Z) (blk : bytes) : list Z :=
  let w := reverse (sha256_expand 48 (reverse (words_of 16 blk))) in
  zip_with add32 st (foldl sha256_round st (zip sha256_k w)).

Fixpoint sha256_blocks (n : nat) (st : list Z) (s : bytes) : list Z :=
  match n with
  | O => st
  | S n' => sha256_blocks n' (sha256_block st (take 64 s)) (drop 64 s)
  end.

Definition Sum256 (s : bytes) : bytes :=
  let len := length s in
  let zeros := ((119 - len mod 64) mod 64)%nat in
  let padded := s ++ [byte_of 128] ++ replicate zeros (byte_of 0) ++ be_put 8 (8 * Z.of_nat len) in
  concat (be_put 4 <$> sha256_blocks (length padded / 64) sha256_init padded).

(** ** Lemmas *)

(** The published test vector for the message [abc]. *)
Lemma Sum256_abc :
  be_get (Sum256 #"abc") = 0xba7816bf8f01cfea414140de5dae2223b00361a396177a9cb410ff61f20015ad.
Proof. by vm_compute. Qed.

Lemma Sum256_empty :
  be_get (Sum256 []) = 0xe3b0c44298fc1c149afbf4c8996fb92427ae41e4649b934ca495991b7852b855.
Proof. by vm_compute. Qed.

Lemma DecodeString_sample : DecodeString #"dXNlcjpwYTpzcw==" = Some #"user:pa:ss".
Proof. by vm_compute. Qed.

Lemma url_val_char v : 0 <= v < 64 -> url_val (url_char v) = Some v /\ is_newline (url_char v) = false.
Proof.
  intros Hv. assert (forallb (fun n => bool_decide (url_val (url_char (Z.of_nat n)) = Some (Z.of_nat n)) && negb (is_newline (url_char (Z.of_nat n)))) (seq 0 64) = true) as Hall by (by vm_compute).
  rewrite forallb_forall in Hall. specialize (Hall (Z.to_nat v)). rewrite Z2Nat.id in Hall by lia.
  destruct (andb_prop _ _ (Hall ltac:(apply in_seq; lia))) as [H1%bool_decide_eq_true H2%negb_true_iff]. done.
Qed.

Lemma byte_of_eq v c : v = byte_val c -> byte_of v = c.
Proof. intros ->. apply byte_of_val. Qed.

Lemma filter_url_char v l : 0 <= v < 64 ->
  List.filter (fun c => negb (is_newline c)) (url_char v :: l) = url_char v :: List.filter (fun c => negb (is_newline c)) l.
Proof. intros Hv. destruct (url_val_char v Hv) as [_ E]. cbn [List.filter]. by rewrite E. Qed.

Ltac url_arith := Z.to_euclidean_division_equations; lia.

(** Whatever bytes an identifier has, its cursor decodes to it. *)
Lemma RawURL_roundtrip s : RawURLDecode (RawURLEncode s) = Some s.
Proof.
  unfold RawURLDecode.
  assert (forall l n, (length l <= n)%nat -> url_quanta (List.filter (fun c => negb (is_newline c)) (RawURLEncode l)) = Some l) as H; [|by apply (H s (length s))].
  intros l n. revert l. induction n as [|n IH]; intros l Hl; [by destruct l; simpl in Hl; [|lia]|].
  assert (forall v, 0 <= v < 64 -> url_val (url_char v) = Some v) as Hv by (intros; by apply url_val_char).
  destruct l as [|a [|b [|c l]]]; [done|..]; cbn [RawURLEncode]; pose proof (byte_val_range a); try pose proof (byte_val_range b); try pose proof (byte_val_range c);
    rewrite !filter_url_char by url_arith; cbn [List.filter url_quanta]; rewrite !Hv by url_arith; cbn [mbind option_bind].
  - do 2 f_equal. apply byte_of_eq. url_arith.
  - do 2 f_equal; [|f_equal]; apply byte_of_eq; url_arith.
  - rewrite IH by (simpl in Hl; lia). cbn [mbind option_bind]. do 2 f_equal; [|f_equal; [|f_equal]]; apply byte_of_eq; url_arith.
Qed.

(** Every character of an encoding is a digit of the alphabet. *)
Lemma RawURLEncode_chars (P : byte -> Prop) s : (forall v, 0 <= v < 64 -> P (url_char v)) -> Forall P (RawURLEncode s).
Proof.
  intros HP. assert (forall n l, (length l <= n)%nat -> Forall P (RawURLEncode l)) as Hn; [|by apply (Hn (length s))].
  induction n as [|n IH]; intros l Hl; (destruct l as [|a [|b [|c l]]]; [constructor|..]); cbn [length] in Hl; try lia; cbn [RawURLEncode];
    pose proof (byte_val_range a); try pose proof (byte_val_range b); try pose proof (byte_val_range c); repeat (constructor; [apply HP; url_arith|]); [constructor..|].
  apply IH. lia.
Qed.

(** A property of the 64 digits, decided by evaluation. *)
Lemma url_char_all (f : byte -> bool) v : forallb (fun n => f (url_char (Z.of_nat n))) (seq 0 64) = true -> 0 <= v < 64 -> f (url_char v) = true.
Proof.
  intros Hall Hv. rewrite forallb_forall in Hall. specialize (Hall (Z.to_nat v)). rewrite Z2Nat.id in Hall by lia. apply Hall, in_seq. lia.
Qed.

Lemma RawStd_roundtrip s : RawStdDecode (RawStdEncode s) = Some s.
Proof.
  unfold RawStdDecode, RawStdEncode. set (enc := fun c => if beq c "-"%char then _ else _). set (dec := fun c => if beq c "+"%char then _ else _).
  assert (Forall (fun c => dec (enc c) = c /\ beq (enc c) "-"%char || beq (enc c) "_"%char = false) (RawURLEncode s)) as Hf.
  { apply RawURLEncode_chars. intros v Hv.
    assert (beq (dec (enc (url_char v))) (url_char v) && negb (beq (enc (url_char v)) "-"%char || beq (enc (url_char v)) "_"%char) = true) as [H1 H2%negb_true_iff]%andb_prop;
      [|split; [by apply beq_eq in H1|done]].
    by apply (url_char_all (fun c => beq (dec (enc c)) c && negb (beq (enc c) "-"%char || beq (enc c) "_"%char))). }
  assert (existsb (fun c => beq c "-"%char || beq c "_"%char) (enc <$> RawURLEncode s) = false) as ->.
  { apply not_true_iff_false. rewrite existsb_exists. intros (c & Hc%list_elem_of_In & Hb). apply list_elem_of_fmap in Hc as (d & -> & Hd).
    rewrite Forall_forall in Hf. destruct (Hf d Hd) as [_ Hx]. congruence. }
  rewrite <- list_fmap_compose. assert ((dec ∘ enc) <$> RawURLEncode s = RawURLEncode s) as ->; [|apply RawURL_roundtrip].
  induction Hf as [|c l [Hc _] _ IH]; [done|]. cbn. by rewrite Hc, IH.
Qed.

Lemma length_Sum256 s : length (Sum256 s) = 32%nat.
Proof.
  unfold Sum256. set (n := (_ / 64)%nat). set (p := s ++ _). clearbody n p.
  assert (forall st l, length st = 8%nat -> length (sha256_blocks n st l) = 8%nat) as Hb.
  { induction n as [|n IH]; intros st l Hst; [done|]. cbn [sha256_blocks]. apply IH. unfold sha256_block. rewrite length_zip_with.
    assert (forall k, length (foldl sha256_round st k) = 8%nat) as ->; [|by rewrite Hst].
    intros k. revert st Hst. induction k as [|x k IHk]; intros st Hst; [done|]. cbn [foldl]. apply IHk.
    by destruct st as [|a [|b [|c [|d [|e [|f [|g [|h [|]]]]]]]]]. }
  specialize (Hb sha256_init p eq_refl). by destruct (sha256_blocks n sha256_init p) as [|a [|b [|c [|d [|e [|f [|g [|h [|]]]]]]]]].
Qed.
