(* ===== verification/GoFloat.v ===== *)
(** * float64

    Go's float64 is IEEE 754 binary64 with round-to-nearest-even: the standard
    library's [SpecFloat] operations at precision 53 and exponent bound 1024.
    The conversions and operations the sources use are given here with what is
    needed to reason about them: non-negative finite floats as scaled integers,
    exact comparison, and a relative error of at most [2 ^ -53] per operation. *)

From stdpp Require Import base list.
From Stdlib Require Import SpecFloat ZArith Lia.
From S2P Require Import Prelude.
Local Open Scope Z_scope.

Definition float64 := spec_float.
Definition f64_of_int (z : Z) : float64 := binary_normalize 53 1024 z 0 false.
Definition f64_add : float64 -> float64 -> float64 := SFadd 53 1024.
Definition f64_sub : float64 -> float64 -> float64 := SFsub 53 1024.
Definition f64_mul : float64 -> float64 -> float64 := SFmul 53 1024.
Definition f64_div : float64 -> float64 -> float64 := SFdiv 53 1024.
Definition f64_ltb : float64 -> float64 -> bool := SFltb.
Definition f64_leb : float64 -> float64 -> bool := SFleb.
Definition f64_zero : float64 := S754_zero false.

(** ** Binary digits *)

Lemma digits2_bounds p : 2 ^ (Zpos (digits2_pos p) - 1) <= Zpos p < 2 ^ Zpos (digits2_pos p).
Proof.
  induction p as [p IH|p IH|]; cbn [digits2_pos]; [| |done];
    rewrite Pos2Z.inj_succ; replace (Z.succ (Zpos (digits2_pos p)) - 1) with (Zpos (digits2_pos p) - 1 + 1) by lia;
    rewrite Z.pow_succ_r, Z.pow_add_r by lia; lia.
Qed.

Lemma digits2_unique p k : 2 ^ (k - 1) <= Zpos p < 2 ^ k -> Zpos (digits2_pos p) = k.
Proof.
  intros H. pose proof (digits2_bounds p) as Hd.
  assert (0 < k) by (destruct (Z.le_gt_cases k 0); [|done]; assert (2 ^ k <= 1) by (destruct (decide (k = 0)) as [->|]; [done|rewrite Z.pow_neg_r by lia; done]); lia).
  destruct (Z.lt_trichotomy (Zpos (digits2_pos p)) k) as [|[|]]; [|done|].
  - assert (2 ^ Zpos (digits2_pos p) <= 2 ^ (k - 1)) by (apply Z.pow_le_mono_r; lia). lia.
  - assert (2 ^ k <= 2 ^ (Zpos (digits2_pos p) - 1)) by (apply Z.pow_le_mono_r; lia). lia.
Qed.

(** ** Shifting right with a remembered remainder *)

(** The location [l] of a remainder [a] of [b]. *)
Definition loc_ok (l : location) (a b : Z) : Prop :=
  0 <= a < b /\
  match l with
  | loc_Exact => a = 0
  | loc_Inexact c => 0 < a /\ Z.compare (2 * a) b = c
  end.

Lemma new_location_ok b a : 0 <= a < b -> loc_ok (new_location b a) a b.
Proof.
  intros H. split; [done|]. unfold new_location, new_location_even, new_location_odd.
  pose proof (Z.mod_pos_bound b 2). pose proof (Zmod_even b).
  destruct (Z.even b) eqn:Eb; (destruct (Z.eqb_spec a 0); [done|]); (split; [lia|]); [done|].
  pose proof (Z.div_mod b 2).
  destruct (Z.compare_spec (2 * a + 1) b), (Z.compare_spec (2 * a) b); try done; lia.
Qed.

Lemma shr_record_of_loc_ok m l : shr_m (shr_record_of_loc m l) = m /\ loc_of_shr_record (shr_record_of_loc m l) = l.
Proof. by destruct l as [|[]]. Qed.

Lemma shr_1_spec r a b : 0 <= shr_m r -> loc_ok (loc_of_shr_record r) a b ->
  shr_m (shr_1 r) = shr_m r / 2 /\ loc_ok (loc_of_shr_record (shr_1 r)) (shr_m r mod 2 * b + a) (2 * b).
Proof.
  intros Hm [Hab Hl].
  assert (exists q t, shr_m r = 2 * q + Z.b2z t /\ 0 <= q /\ shr_1 r = Build_shr_record q t (shr_r r || shr_s r)) as (q & t & Eq & Hq & ->).
  { destruct r as [[|[p|p|]|p] r s]; cbn [shr_m] in *; [exists 0, false|exists (Zpos p), true|exists (Zpos p), false|exists 0, true|lia];
      split_and!; cbn; lia || done. }
  rewrite Eq. replace ((2 * q + Z.b2z t) / 2) with q by (destruct t; cbn [Z.b2z]; Z.to_euclidean_division_equations; lia).
  replace ((2 * q + Z.b2z t) mod 2) with (Z.b2z t) by (destruct t; cbn [Z.b2z]; Z.to_euclidean_division_equations; lia).
  split; [done|]. split; [destruct t; cbn [Z.b2z]; lia|].
  destruct r as [m rr ss], t, rr, ss; cbn in *; (split; [lia|]) || lia; destruct (Z.compare_spec (2 * a) b); try done;
    (apply Z.compare_lt_iff + apply Z.compare_gt_iff + apply Z.compare_eq_iff); lia.
Qed.

Lemma iter_pos_nat {A} (f : A -> A) p x : SpecFloat.iter_pos f p x = Nat.iter (Pos.to_nat p) f x.
Proof.
  revert x; induction p as [p IH|p IH|]; intros x; cbn [SpecFloat.iter_pos]; [| |done]; rewrite !IH, <- Nat.iter_add.
  - rewrite <- Nat.iter_succ_r. f_equal. lia.
  - f_equal. lia.
Qed.

Lemma shr_n_spec n r a b : 0 <= shr_m r -> loc_ok (loc_of_shr_record r) a b ->
  shr_m (Nat.iter n shr_1 r) = shr_m r / 2 ^ Z.of_nat n /\
  loc_ok (loc_of_shr_record (Nat.iter n shr_1 r)) (shr_m r mod 2 ^ Z.of_nat n * b + a) (2 ^ Z.of_nat n * b).
Proof.
  intros Hm Hl. induction n as [|n [IH1 IH2]].
  - change (Z.of_nat 0) with 0. rewrite Z.pow_0_r, Z.div_1_r, Z.mod_1_r. cbn [Nat.iter]. split; [done|].
    by replace (0 * b + a) with a by lia; replace (1 * b) with b by lia.
  - rewrite Nat.iter_succ. set (r' := Nat.iter n shr_1 r) in *. set (k := 2 ^ Z.of_nat n) in *.
    assert (0 < k) by (unfold k; lia).
    assert (0 <= shr_m r') by (rewrite IH1; apply Z.div_pos; lia).
    destruct (shr_1_spec r' _ _ ltac:(done) IH2) as [E1 E2].
    replace (2 ^ Z.of_nat (S n)) with (k * 2) by (unfold k; rewrite Nat2Z.inj_succ, Z.pow_succ_r; lia).
    rewrite E1, IH1, Z.div_div by lia. split; [done|]. revert E2. rewrite IH1.
    replace (shr_m r mod (k * 2) * b + a) with ((shr_m r / k) mod 2 * (k * b) + (shr_m r mod k * b + a)); [by replace (2 * (k * b)) with (k * 2 * b) by lia|].
    rewrite Z.rem_mul_r by lia. lia.
Qed.

Lemma round_nearest_even_spec m l a b : loc_ok l a b ->
  m <= round_nearest_even m l <= m + 1 /\ 2 * Z.abs (round_nearest_even m l * b - (m * b + a)) <= b.
Proof.
  intros [Hab Hl]. unfold round_nearest_even. destruct l as [|c]; [subst; lia|]. destruct Hl as [Ha Hc].
  destruct c; [apply Z.compare_eq_iff in Hc; destruct (Z.even m)|apply (proj1 (Z.compare_lt_iff _ _)) in Hc|apply (proj1 (Z.compare_gt_iff _ _)) in Hc]; lia.
Qed.

(** ** Rounding *)

(** [u] approximates [v] with relative error at most [2 ^ -53]. *)
Definition near (u v : Z) : Prop := 2 ^ 53 * Z.abs (u - v) <= v.

Lemma fexp64 e : fexp 53 1024 e = Z.max (e - 53) (-1074).
Proof. done. Qed.

Lemma shr_fexp_spec m e l a b : 0 < m -> loc_ok l a b -> -1074 <= e <= fexp 53 1024 (Zdigits2 m + e) ->
  exists n, let r := (shr_fexp 53 1024 m e l).1 in
    0 <= n /\ n = Z.max 0 (Zdigits2 m - 53) /\ (shr_fexp 53 1024 m e l).2 = e + n /\ shr_m r = m / 2 ^ n /\
    loc_ok (loc_of_shr_record r) (m mod 2 ^ n * b + a) (2 ^ n * b).
Proof.
  intros Hm Hl He. rewrite fexp64 in He. exists (Z.max 0 (Zdigits2 m - 53)).
  destruct (shr_record_of_loc_ok m l) as [E1 E2]. unfold shr_fexp. rewrite fexp64.
  replace (Z.max (Zdigits2 m + e - 53) (-1074) - e) with (Z.max 0 (Zdigits2 m - 53)) by lia.
  assert (0 <= Z.max 0 (Zdigits2 m - 53)) by lia. split; [done|]. split; [done|].
  destruct (Z.max 0 (Zdigits2 m - 53)) as [|p|p] eqn:En; [|clear He|lia]; cbn [shr fst snd].
  - rewrite E1, E2, Z.pow_0_r, Z.div_1_r, Z.mod_1_r. split_and!; [lia|done|].
    by replace (0 * b + a) with a by lia; replace (1 * b) with b by lia.
  - rewrite iter_pos_nat. rewrite <- E2 in Hl. pose proof (shr_n_spec (Pos.to_nat p) (shr_record_of_loc m l) a b) as H'.
    rewrite E1, positive_nat_Z in H'. split; [done|]. apply H'; [lia|done].
Qed.

Lemma pow2_split m n : 0 <= n -> 0 < m -> 0 <= m / 2 ^ n /\ m = 2 ^ n * (m / 2 ^ n) + m mod 2 ^ n /\ 0 <= m mod 2 ^ n < 2 ^ n.
Proof.
  intros Hn Hm. assert (0 < 2 ^ n) by lia. split; [apply Z.div_pos; lia|]. split; [apply Z.div_mod; lia|]. by apply Z.mod_pos_bound.
Qed.

(** The digits of a mantissa cut to 53 bits. *)
Lemma cut_digits p n : n = Z.max 0 (Zpos (digits2_pos p) - 53) ->
  0 < Zpos p / 2 ^ n < 2 ^ 53 /\ (53 <= Zpos (digits2_pos p) -> 2 ^ 52 <= Zpos p / 2 ^ n) /\
  (Zpos (digits2_pos p) < 53 -> Zpos p / 2 ^ n = Zpos p).
Proof.
  intros Hn. pose proof (digits2_bounds p) as Hd. set (d := Zpos (digits2_pos p)) in *.
  destruct (Z.le_gt_cases 53 d) as [H53|H53].
  - assert (n = d - 53) as -> by lia. clear Hn.
    replace (d - 1) with (52 + (d - 53)) in Hd by lia. replace (2 ^ d) with (2 ^ 53 * 2 ^ (d - 53)) in Hd by (rewrite <- Z.pow_add_r by lia; f_equal; lia).
    rewrite Z.pow_add_r in Hd by lia. assert (0 < 2 ^ (d - 53)) by lia.
    assert (2 ^ 52 <= Zpos p / 2 ^ (d - 53)) by (apply Z.div_le_lower_bound; lia).
    assert (Zpos p / 2 ^ (d - 53) < 2 ^ 53) by (apply Z.div_lt_upper_bound; lia). lia.
  - assert (n = 0) as -> by lia. rewrite Z.pow_0_r, Z.div_1_r.
    assert (2 ^ d <= 2 ^ 53) by (apply Z.pow_le_mono_r; lia). lia.
Qed.

Lemma bounded_intro m e : Zpos m < 2 ^ 53 -> -1074 <= e <= 971 -> 2 ^ 52 <= Zpos m \/ e = -1074 ->
  bounded 53 1024 m e = true.
Proof.
  intros Hm He Hn. pose proof (digits2_bounds m) as Hd.
  assert (Zpos (digits2_pos m) <= 53) as Hle.
  { apply Z.lt_succ_r, Z.nle_gt. intros H. assert (2 ^ 53 <= 2 ^ (Zpos (digits2_pos m) - 1)) by (apply Z.pow_le_mono_r; lia). lia. }
  unfold bounded, canonical_mantissa. rewrite fexp64. apply andb_true_iff. split; [|apply Z.leb_le; lia]. apply Z.eqb_eq.
  destruct Hn as [Hn| ->]; [|lia]. rewrite (digits2_unique m 53) by (change (53 - 1) with 52; lia). lia.
Qed.

(** The second shift of [binary_round_aux] only renormalises a carry. *)
Lemma renormalise q e : 0 < q <= 2 ^ 53 -> -1074 <= e <= 970 -> 2 ^ 52 <= q \/ e = -1074 ->
  exists m' e', shr_m (shr_fexp 53 1024 q e loc_Exact).1 = Zpos m' /\ (shr_fexp 53 1024 q e loc_Exact).2 = e' /\
    bounded 53 1024 m' e' = true /\ Zpos m' * 2 ^ (e' + 1074) = q * 2 ^ (e + 1074).
Proof.
  intros Hq He Hn. destruct q as [|q|q]; [lia| |lia]. destruct (decide (Zpos q = 2 ^ 53)) as [Eq|Hne].
  - exists (2 ^ 52)%positive, (e + 1). rewrite Eq. unfold shr_fexp. rewrite fexp64.
    replace (Zdigits2 (2 ^ 53)) with 54 by done. replace (Z.max (54 + e - 53) (-1074) - e) with 1 by lia.
    split_and!; [done|done|by apply bounded_intro; [|lia|left]|].
    replace (e + 1 + 1074) with (e + 1074 + 1) by lia. rewrite Z.pow_add_r by lia. change (Zpos (2 ^ 52)) with (2 ^ 52). lia.
  - exists q, e. assert (bounded 53 1024 q e = true) as Hb by (apply bounded_intro; lia).
    unfold shr_fexp. unfold bounded, canonical_mantissa in Hb. apply andb_true_iff in Hb as [Hc%Z.eqb_eq Hb].
    replace (fexp 53 1024 (Zdigits2 (Zpos q) + e) - e) with 0 by (cbn [Zdigits2]; lia).
    split_and!; [done|done| |done]. unfold bounded, canonical_mantissa. by rewrite Hc, Z.eqb_refl.
Qed.

Lemma round_aux_spec s p e l a b : loc_ok l a b ->
  -1074 <= e <= fexp 53 1024 (Zpos (digits2_pos p) + e) -> Zpos (digits2_pos p) + e <= 1000 ->
  53 <= Zpos (digits2_pos p) \/ a = 0 ->
  exists m' e', binary_round_aux 53 1024 s (Zpos p) e l = S754_finite s m' e' /\ bounded 53 1024 m' e' = true /\
    near (Zpos m' * 2 ^ (e' + 1074) * b) ((Zpos p * b + a) * 2 ^ (e + 1074)) /\
    (a = 0 -> Zpos p mod 2 ^ Z.max 0 (Zpos (digits2_pos p) - 53) = 0 -> Zpos m' * 2 ^ (e' + 1074) = Zpos p * 2 ^ (e + 1074)).
Proof.
  intros Hl He Hhi Ha. destruct (shr_fexp_spec (Zpos p) e l a b ltac:(lia) Hl He) as (n & Hn0 & Hn & E2 & Em & Hl').
  cbn [Zdigits2] in Hn. destruct (cut_digits p n Hn) as (Hc1 & Hc2 & Hc3). rewrite fexp64 in He.
  unfold binary_round_aux. destruct (shr_fexp 53 1024 (Zpos p) e l) as [r e1]. cbn [fst snd] in *. rewrite Em. subst e1.
  destruct (round_nearest_even_spec (Zpos p / 2 ^ n) _ _ _ Hl') as [Hq Hr].
  set (q := round_nearest_even (Zpos p / 2 ^ n) (loc_of_shr_record r)) in *.
  assert (a = 0 -> Zpos p mod 2 ^ n = 0 -> q = Zpos p / 2 ^ n) as Hexact.
  { intros Ha0 Hz. unfold q. destruct Hl' as [_ Hl']. rewrite Hz, Ha0 in Hl'. destruct (loc_of_shr_record r); [done|lia]. }
  assert (2 ^ 52 <= q \/ e + n = -1074) as Hnorm by (destruct (Z.le_gt_cases 53 (Zpos (digits2_pos p))); lia).
  destruct (renormalise q (e + n)) as (m' & e' & E3 & E4 & Hb & Hv); [lia|lia|exact Hnorm|].
  destruct (shr_fexp 53 1024 q (e + n) loc_Exact) as [r' e1]. cbn [fst snd] in *. rewrite E3. subst e1.
  assert (e' <= 971) as He' by (unfold bounded in Hb; apply andb_true_iff in Hb as [_ Hb%Z.leb_le]; lia).
  exists m', e'. replace (e' <=? 1024 - 53) with true by (symmetry; apply Z.leb_le; lia). split_and!; [done|done| |].
  2: { rewrite <- Hn. intros Ha0 Hz. rewrite Hv, (Hexact Ha0 Hz). replace (e + n + 1074) with (n + (e + 1074)) by lia.
       rewrite Z.pow_add_r by lia. destruct (pow2_split (Zpos p) n ltac:(lia) ltac:(lia)) as (_ & Hdm & _). rewrite Hz in Hdm.
       rewrite Hdm at 2. ring. }
  rewrite Hv. replace (e + n + 1074) with (n + (e + 1074)) by lia. rewrite Z.pow_add_r by lia.
  destruct (pow2_split (Zpos p) n ltac:(lia) ltac:(lia)) as (_ & Hdm & Hmod). unfold near.
  destruct Hl as [Hab _]. set (k := 2 ^ n) in *. set (v := 2 ^ (e + 1074)). assert (0 < v) by (unfold v; lia). assert (0 < k) by lia.
  replace (q * (k * v) * b - (Zpos p * b + a) * v) with ((q * (k * b) - (Zpos p / k * (k * b) + (Zpos p mod k * b + a))) * v).
  2: { rewrite Hdm at 3. ring. }
  rewrite Z.abs_mul, (Z.abs_eq v) by lia. rewrite Z.mul_assoc. apply Z.mul_le_mono_nonneg_r; [lia|].
  destruct (Z.le_gt_cases 53 (Zpos (digits2_pos p))) as [H53|H53].
  - specialize (Hc2 H53). assert (k * b * 2 ^ 52 <= Zpos p * b + a); [|lia].
    rewrite Hdm at 1. nia.
  - assert (a = 0) as -> by lia. assert (k = 1) as Hk by (unfold k; by replace n with 0 by lia).
    rewrite (Hexact eq_refl) by (rewrite Hk; apply Z.mod_1_r). rewrite Hk, Z.mod_1_r, Z.div_1_r. lia.
Qed.

(** ** Non-negative finite floats as multiples of [2 ^ -1074] *)

Definition is_f64 (x : float64) (v : Z) : Prop :=
  match x with
  | S754_zero _ => v = 0
  | S754_finite false m e => bounded 53 1024 m e = true /\ v = Zpos m * 2 ^ (e + 1074)
  | _ => False
  end.

(** The value 1. *)
Definition unit64 : Z := 2 ^ 1074.

Lemma bounded_elim m e : bounded 53 1024 m e = true ->
  Zpos m < 2 ^ 53 /\ -1074 <= e <= 971 /\ (2 ^ 52 <= Zpos m \/ e = -1074) /\ Zpos (digits2_pos m) <= 53.
Proof.
  unfold bounded, canonical_mantissa. rewrite fexp64. intros [Hc%Z.eqb_eq Hb%Z.leb_le]%andb_true_iff.
  pose proof (digits2_bounds m) as Hd. assert (Zpos (digits2_pos m) <= 53) as Hle by lia.
  assert (2 ^ Zpos (digits2_pos m) <= 2 ^ 53) by (apply Z.pow_le_mono_r; lia).
  split_and!; [lia|lia|lia| |done]. destruct (decide (Zpos (digits2_pos m) = 53)) as [E|]; [left|right; lia].
  rewrite E in Hd. change (53 - 1) with 52 in Hd. lia.
Qed.

Lemma is_f64_nonneg x v : is_f64 x v -> 0 <= v.
Proof. destruct x as [| | |[] m e]; cbn; [lia|done|done|done|]. intros [[_ [He _]]%bounded_elim ->]. assert (0 < 2 ^ (e + 1074)) by lia. lia. Qed.

Lemma scaled_lt m1 e1 m2 e2 : bounded 53 1024 m1 e1 = true -> bounded 53 1024 m2 e2 = true -> e1 < e2 ->
  Zpos m1 * 2 ^ (e1 + 1074) < Zpos m2 * 2 ^ (e2 + 1074).
Proof.
  intros (H1 & He1 & _)%bounded_elim (H2 & He2 & Hn & _)%bounded_elim Hlt.
  replace (e2 + 1074) with (1 + (e2 - e1 - 1) + (e1 + 1074)) by lia. rewrite (Z.pow_add_r 2 (1 + _)), (Z.pow_add_r 2 1) by lia. change (2 ^ 1) with 2.
  set (k := 2 ^ (e1 + 1074)). set (j := 2 ^ (e2 - e1 - 1)). assert (0 < k) by (unfold k; lia). assert (0 < j) by (unfold j; lia).
  assert (2 ^ 52 <= Zpos m2) by lia. assert (2 ^ 53 <= Zpos m2 * (2 * j)) by nia. nia.
Qed.

(** Comparison is exact. *)
Lemma f64_compare x y v w : is_f64 x v -> is_f64 y w -> SFcompare x y = Some (Z.compare v w).
Proof.
  destruct x as [| | |[] m1 e1], y as [| | |[] m2 e2]; cbn [is_f64 SFcompare]; try done.
  - by intros -> ->.
  - intros -> [(_ & ? & _)%bounded_elim ->]. assert (0 < 2 ^ (e2 + 1074)) by lia. f_equal. symmetry. apply Z.compare_lt_iff. nia.
  - intros [(_ & ? & _)%bounded_elim ->] ->. assert (0 < 2 ^ (e1 + 1074)) by lia. f_equal. symmetry. apply Z.compare_gt_iff. nia.
  - intros [H1 ->] [H2 ->]. f_equal. symmetry. destruct (Z.compare_spec e1 e2) as [->|Hlt|Hlt].
    + pose proof (bounded_elim _ _ H2) as (_ & ? & _). assert (0 < 2 ^ (e2 + 1074)) by lia.
      rewrite <- Zmult_compare_compat_r by lia. done.
    + apply Z.compare_lt_iff. by apply scaled_lt.
    + apply Z.compare_gt_iff. by apply scaled_lt.
Qed.

Lemma f64_ltb_spec x y v w : is_f64 x v -> is_f64 y w -> f64_ltb x y = (v <? w).
Proof. intros H1 H2. unfold f64_ltb, SFltb. rewrite (f64_compare _ _ _ _ H1 H2). unfold Z.ltb. by destruct (v ?= w). Qed.

Lemma f64_leb_spec x y v w : is_f64 x v -> is_f64 y w -> f64_leb x y = (v <=? w).
Proof. intros H1 H2. unfold f64_leb, SFleb. rewrite (f64_compare _ _ _ _ H1 H2). unfold Z.leb. by destruct (v ?= w). Qed.

Lemma near_refl v : 0 <= v -> near v v.
Proof. unfold near. lia. Qed.

Lemma near_scale k u v : 0 < k -> near (u * k) (v * k) <-> near u v.
Proof.
  intros Hk. unfold near. replace (u * k - v * k) with ((u - v) * k) by lia. rewrite Z.abs_mul, (Z.abs_eq k), Z.mul_assoc by lia.
  split; intros; nia.
Qed.

Lemma shl_align_spec m e e' : e' <= e -> Zpos (shl_align m e e').1 = Zpos m * 2 ^ (e - e') /\ (shl_align m e e').2 = e'.
Proof.
  intros He. unfold shl_align. destruct (e' - e) as [|d|d] eqn:Ed; [|lia|]; cbn [fst snd].
  - replace e' with e by lia. by rewrite Z.sub_diag, Z.pow_0_r, Z.mul_1_r.
  - replace (e - e') with (Zpos d) by lia. split; [|done]. clear. induction d as [|d IH] using Pos.peano_ind; [cbn [Pos.iter]; change (2 ^ 1) with 2; lia|].
    rewrite Pos.iter_succ, Pos2Z.inj_succ, Z.pow_succ_r by lia. lia.
Qed.

Lemma digits_of_value p e c : -1074 <= e -> Zpos p * 2 ^ (e + 1074) < 2 ^ c -> Zpos (digits2_pos p) + e < c - 1073.
Proof.
  intros He Hv. pose proof (digits2_bounds p) as [Hd _]. apply Z.nle_gt. intros Hc.
  assert (0 < 2 ^ (e + 1074)) by lia.
  assert (2 ^ c <= 2 ^ (Zpos (digits2_pos p) - 1 + (e + 1074))) by (apply Z.pow_le_mono_r; lia).
  rewrite Z.pow_add_r in * by lia. nia.
Qed.

(** A multiple of [2 ^ t] by a 53-bit factor loses nothing when cut to 53 bits. *)
Lemma multiple_cut p j t : 0 <= t -> j < 2 ^ 53 -> Zpos p = j * 2 ^ t -> Zpos p mod 2 ^ Z.max 0 (Zpos (digits2_pos p) - 53) = 0.
Proof.
  intros Ht Hj Hp. set (n := Z.max 0 _). assert (n <= t) as Hn.
  { unfold n. apply Z.max_lub; [done|]. pose proof (digits2_bounds p) as [Hd _]. apply Z.nlt_ge. intros Hlt.
    assert (2 ^ (53 + t) <= 2 ^ (Zpos (digits2_pos p) - 1)) by (apply Z.pow_le_mono_r; lia).
    rewrite Z.pow_add_r in * by lia. assert (0 < 2 ^ t) by lia. nia. }
  rewrite Hp. replace t with (t - n + n) by lia. rewrite Z.pow_add_r, Z.mul_assoc by lia. apply Z_mod_mult.
Qed.

Lemma binary_round_spec p e : -1074 <= e -> Zpos (digits2_pos p) + e <= 1000 ->
  exists u, is_f64 (binary_round 53 1024 false p e) u /\ near u (Zpos p * 2 ^ (e + 1074)) /\
    (forall j k, 0 <= k -> j < 2 ^ 53 -> Zpos p = j * 2 ^ k -> u = Zpos p * 2 ^ (e + 1074)).
Proof.
  intros He Hd. unfold binary_round. set (f := fexp 53 1024 (Zpos (digits2_pos p) + e)).
  assert (exists p' e', shl_align p e f = (p', e') /\ Zpos p' * 2 ^ (e' + 1074) = Zpos p * 2 ^ (e + 1074) /\
    Zpos (digits2_pos p') + e' = Zpos (digits2_pos p) + e /\ -1074 <= e' <= f /\
    (exists i, 0 <= i /\ Zpos p' = Zpos p * 2 ^ i)) as (p' & e' & -> & Ev & Ed & Hf & i & Hi & Ep).
  { unfold f. rewrite fexp64. destruct (Z.le_gt_cases (Z.max (Zpos (digits2_pos p) + e - 53) (-1074)) e) as [Hle|Hgt].
    - destruct (shl_align_spec p e _ Hle) as [E1 E2]. set (f' := Z.max _ _) in *. destruct (shl_align p e f') as [p' e'].
      cbn [fst snd] in *. subst e'. exists p', f'.
      pose proof (digits2_bounds p) as Hp. assert (Zpos (digits2_pos p') = Zpos (digits2_pos p) + (e - f')) as Ed.
      { apply digits2_unique. rewrite E1. replace (Zpos (digits2_pos p) + (e - f') - 1) with (Zpos (digits2_pos p) - 1 + (e - f')) by lia.
        rewrite !(Z.pow_add_r 2 _ (e - f')) by lia. assert (0 < 2 ^ (e - f')) by lia. nia. }
      split_and!; [done| |lia|lia|lia|exists (e - f'); split; [lia|done]]. rewrite E1, <- Z.mul_assoc, <- Z.pow_add_r by lia. do 2 f_equal. lia.
    - exists p, e. split_and!; [|done|done|lia|lia|exists 0; split; [lia|by rewrite Z.pow_0_r, Z.mul_1_r]].
      unfold shl_align. by destruct (_ - e) eqn:E; [..|lia]. }
  unfold f in Hf. rewrite <- Ed in Hf. destruct (round_aux_spec false p' e' loc_Exact 0 1) as (m' & k & -> & Hb & Hn & Hx); [done|done|lia|by right|].
  exists (Zpos m' * 2 ^ (k + 1074)). rewrite Z.mul_1_r, Z.add_0_r, Z.mul_1_r, Ev in *. split_and!; [done|done|]. intros j t Ht Hj Hp.
  apply Hx; [done|]. apply (multiple_cut p' j (t + i)); [lia|done|]. rewrite Ep, Hp, Z.pow_add_r by lia. ring.
Qed.

Lemma normalize_spec m e b : 0 <= m -> -1074 <= e -> m * 2 ^ (e + 1074) < 2 ^ 2000 ->
  exists u, is_f64 (binary_normalize 53 1024 m e b) u /\ near u (m * 2 ^ (e + 1074)) /\
    (forall j k, 0 <= k -> j < 2 ^ 53 -> m = j * 2 ^ k -> u = m * 2 ^ (e + 1074)).
Proof.
  intros Hm He Hv. destruct m as [|p|]; [|apply binary_round_spec; [done|]; pose proof (digits_of_value p e 2000 He Hv); lia|lia].
  by exists 0.
Qed.

Lemma f64_of_int_spec z : 0 <= z < 2 ^ 53 -> is_f64 (f64_of_int z) (z * unit64).
Proof.
  intros Hz. destruct (normalize_spec z 0 false) as (u & Hu & _ & Hx); [lia|lia| |].
  2: { rewrite (Hx z 0) in Hu by (rewrite ?Z.pow_0_r; lia). done. }
  change (2 ^ (0 + 1074)) with unit64. apply (Z.le_lt_trans _ (2 ^ 53 * unit64)); [|done].
  apply Z.mul_le_mono_nonneg_r; [done|lia].
Qed.

Lemma scaled_pos m k : 0 <= k -> 0 < Zpos m * 2 ^ k.
Proof. intros Hk. apply Z.mul_pos_pos; [done|]. by apply Z.pow_pos_nonneg. Qed.

Lemma f64_add_spec x y v w : is_f64 x v -> is_f64 y w -> v + w < 2 ^ 2000 ->
  exists u, is_f64 (f64_add x y) u /\ near u (v + w).
Proof.
  intros Hx Hy Hb. pose proof (is_f64_nonneg _ _ Hx). pose proof (is_f64_nonneg _ _ Hy).
  destruct x as [s1| | |[] m1 e1], y as [s2| | |[] m2 e2]; try done.
  - cbn in Hx, Hy. subst. exists 0. unfold f64_add. by destruct s1, s2.
  - cbn in Hx. subst. exists w. split; [done|by apply near_refl].
  - cbn in Hy. subst. exists v. split; [done|]. replace (v + 0) with v by lia. by apply near_refl.
  - unfold f64_add, SFadd. destruct Hx as [(_ & He1 & _)%bounded_elim ->], Hy as [(_ & He2 & _)%bounded_elim ->].
    destruct (shl_align_spec m1 e1 (Z.min e1 e2) ltac:(lia)) as [-> _]. destruct (shl_align_spec m2 e2 (Z.min e1 e2) ltac:(lia)) as [-> _].
    cbn [cond_Zopp]. set (e := Z.min e1 e2) in *. set (s := _ + _ : Z).
    assert (s * 2 ^ (e + 1074) = Zpos m1 * 2 ^ (e1 + 1074) + Zpos m2 * 2 ^ (e2 + 1074)) as Es.
    { unfold s. rewrite Z.mul_add_distr_r, <- !Z.mul_assoc, <- !Z.pow_add_r by lia. do 3 f_equal; lia. }
    rewrite <- Es in *. clear Es.
    destruct (normalize_spec s e false) as (u & Hu & Hn & _); [|clear - He1 He2; lia|done|by exists u].
    apply Z.add_nonneg_nonneg; (apply Z.lt_le_incl, scaled_pos; clear - He1 He2; lia).
Qed.

Lemma f64_sub_spec x y v w : is_f64 x v -> is_f64 y w -> w <= v -> v < 2 ^ 2000 ->
  exists u, is_f64 (f64_sub x y) u /\ near u (v - w) /\
    (forall i j, v = i * unit64 -> w = j * unit64 -> i < 2 ^ 53 -> u = v - w).
Proof.
  intros Hx Hy Hle Hb. pose proof (is_f64_nonneg _ _ Hx). pose proof (is_f64_nonneg _ _ Hy).
  destruct x as [s1| | |[] m1 e1], y as [s2| | |[] m2 e2]; try done.
  - cbn in Hx, Hy. subst. exists 0. unfold f64_sub. split_and!; [by destruct s1, s2|done|lia].
  - destruct Hy as [(_ & He2 & _)%bounded_elim ->]. cbn in Hx. subst. apply Z.le_ngt in Hle. destruct Hle. apply scaled_pos. clear - He2. lia.
  - cbn in Hy. subst. exists v. split; [done|]. replace (v - 0) with v by lia. split; [by apply near_refl|done].
  - unfold f64_sub, SFsub. destruct Hx as [(_ & He1 & Hn1 & _)%bounded_elim ->], Hy as [(_ & He2 & _)%bounded_elim ->].
    destruct (shl_align_spec m1 e1 (Z.min e1 e2) ltac:(lia)) as [-> _]. destruct (shl_align_spec m2 e2 (Z.min e1 e2) ltac:(lia)) as [-> _].
    cbn [cond_Zopp]. set (e := Z.min e1 e2) in *. set (s := _ - _ : Z).
    assert (s * 2 ^ (e + 1074) = Zpos m1 * 2 ^ (e1 + 1074) - Zpos m2 * 2 ^ (e2 + 1074)) as Es.
    { unfold s. rewrite Z.mul_sub_distr_r, <- !Z.mul_assoc, <- !Z.pow_add_r by lia. do 3 f_equal; lia. }
    rewrite <- Es. assert (0 < 2 ^ (e + 1074)) as Hp by (apply Z.pow_pos_nonneg; clear - He1 He2; lia).
    destruct (normalize_spec s e false) as (u & Hu & Hn & Hx).
    { apply (Z.mul_nonneg_cancel_r _ _ Hp). rewrite Es. clear - Hle. lia. }
    { clear - He1 He2. lia. }
    { rewrite Es. eapply Z.le_lt_trans; [|exact Hb]. clear - Hle H0. lia. }
    exists u. split_and!; [done|done|].
    intros i j Ei Ej Hi. assert (e <= 0) as He.
    { apply Z.nlt_ge. intros Hpos. assert (e1 <> -1074) by lia. destruct Hn1 as [Hn1|]; [|done]. clear Ej Es Hn Hx Hu Hb Hle.
      replace (e1 + 1074) with (e1 - 1 + 1 + 1074) in Ei by lia. rewrite !Z.pow_add_r, Z.mul_assoc in Ei by lia.
      apply Z.mul_cancel_r in Ei; [|done]. change (2 ^ 1) with 2 in Ei. assert (0 < 2 ^ (e1 - 1)) by lia. nia. }
    apply (Hx (i - j) (- e)); [lia|clear - Hi Ej He2; assert (0 < 2 ^ (e2 + 1074)) by lia; assert (0 < unit64) by done; nia|].
    apply (Z.mul_cancel_r _ _ (2 ^ (e + 1074))); [lia|]. rewrite Es, Ei, Ej, <- Z.mul_assoc, <- Z.pow_add_r, <- Z.mul_sub_distr_r by lia.
    do 2 f_equal. lia.
Qed.

(** A value of at least [2 ^ -400] has a full mantissa. *)
Lemma full_mantissa m e : bounded 53 1024 m e = true -> 2 ^ 674 <= Zpos m * 2 ^ (e + 1074) ->
  2 ^ 52 <= Zpos m < 2 ^ 53 /\ -453 <= e /\ Zpos (digits2_pos m) = 53.
Proof.
  intros (Hm & He & Hn & _)%bounded_elim Hv. assert (-453 <= e) as Hlo.
  { apply Z.nlt_ge. intros Hlt. assert (2 ^ (e + 1074) <= 2 ^ 620) by (apply Z.pow_le_mono_r; lia).
    assert (2 ^ 674 = 2 ^ 54 * 2 ^ 620) by (by rewrite <- Z.pow_add_r). assert (0 < 2 ^ 620) by done.
    assert (Zpos m * 2 ^ (e + 1074) <= 2 ^ 53 * 2 ^ 620) by (apply Z.mul_le_mono_nonneg; lia). lia. }
  split_and!; [lia|done|done|]. apply digits2_unique. change (53 - 1) with 52. lia.
Qed.

Lemma f64_mul_spec x y v w : is_f64 x v -> is_f64 y w -> 2 ^ 674 <= v < 2 ^ 1400 -> 2 ^ 674 <= w < 2 ^ 1400 ->
  exists u, is_f64 (f64_mul x y) u /\ near (u * unit64) (v * w).
Proof.
  intros Hx Hy Hv Hw. destruct x as [s1| | |[] m1 e1], y as [s2| | |[] m2 e2]; try done; try (by (cbn in Hx; subst; destruct Hv)); try (by (cbn in Hy; subst; destruct Hw)).
  destruct Hx as [H1 ->], Hy as [H2 ->]. unfold f64_mul, SFmul. cbn [xorb].
  pose proof (bounded_elim _ _ H1) as (_ & B1 & _). pose proof (bounded_elim _ _ H2) as (_ & B2 & _).
  destruct (full_mantissa _ _ H1 (proj1 Hv)) as (M1 & E1 & D1), (full_mantissa _ _ H2 (proj1 Hw)) as (M2 & E2 & D2).
  pose proof (digits_of_value m1 e1 1400 (proj1 B1) (proj2 Hv)). pose proof (digits_of_value m2 e2 1400 (proj1 B2) (proj2 Hw)). clear Hv Hw.
  assert (105 <= Zpos (digits2_pos (m1 * m2)) <= 106) as D.
  { pose proof (digits2_bounds (m1 * m2)) as [Ha Hb]. set (d := Zpos (digits2_pos (m1 * m2))) in *. rewrite Pos2Z.inj_mul in *.
    assert (2 ^ 104 <= Zpos m1 * Zpos m2 < 2 ^ 106) by (change (2 ^ 104) with (2 ^ 52 * 2 ^ 52); change (2 ^ 106) with (2 ^ 53 * 2 ^ 53); nia).
    split; apply Z.nlt_ge; intros ?.
    - assert (2 ^ d <= 2 ^ 104) by (apply Z.pow_le_mono_r; lia). lia.
    - assert (2 ^ 106 <= 2 ^ (d - 1)) by (apply Z.pow_le_mono_r; lia). lia. }
  destruct (round_aux_spec false (m1 * m2) (e1 + e2) loc_Exact 0 1) as (m' & k & -> & Hb & Hn & _); [done|rewrite fexp64; lia|lia|by right|].
  exists (Zpos m' * 2 ^ (k + 1074)). split; [done|]. rewrite Z.mul_1_r, Z.add_0_r, Z.mul_1_r in Hn.
  apply (near_scale unit64) in Hn; [|done]. revert Hn. unfold unit64. rewrite Pos2Z.inj_mul.
  replace (Zpos m1 * Zpos m2 * 2 ^ (e1 + e2 + 1074) * 2 ^ 1074) with (Zpos m1 * 2 ^ (e1 + 1074) * (Zpos m2 * 2 ^ (e2 + 1074))); [done|].
  transitivity (Zpos m1 * Zpos m2 * (2 ^ (e1 + 1074) * 2 ^ (e2 + 1074))); [ring|].
  transitivity (Zpos m1 * Zpos m2 * (2 ^ (e1 + e2 + 1074) * 2 ^ 1074)); [|ring].
  rewrite <- !Z.pow_add_r by lia. do 2 f_equal. lia.
Qed.

Lemma f64_div_spec x y v w : is_f64 x v -> is_f64 y w -> 2 ^ 674 <= v < 2 ^ 1400 -> 2 ^ 674 <= w < 2 ^ 1400 ->
  exists u, is_f64 (f64_div x y) u /\ near (u * w) (v * unit64).
Proof.
  intros Hx Hy Hv Hw. destruct x as [s1| | |[] m1 e1], y as [s2| | |[] m2 e2]; try done; try (by (cbn in Hx; subst; destruct Hv)); try (by (cbn in Hy; subst; destruct Hw)).
  destruct Hx as [H1 ->], Hy as [H2 ->]. unfold f64_div, SFdiv, SFdiv_core_binary. cbn [xorb Zdigits2].
  pose proof (bounded_elim _ _ H1) as (_ & B1 & _). pose proof (bounded_elim _ _ H2) as (_ & B2 & _).
  destruct (full_mantissa _ _ H1 (proj1 Hv)) as (M1 & E1 & D1), (full_mantissa _ _ H2 (proj1 Hw)) as (M2 & E2 & D2).
  pose proof (digits_of_value m1 e1 1400 (proj1 B1) (proj2 Hv)). pose proof (digits_of_value m2 e2 1400 (proj1 B2) (proj2 Hw)). clear Hv Hw.
  rewrite D1, D2, fexp64. replace (Z.min (Z.max (53 + e1 - (53 + e2) - 53) (-1074)) (e1 - e2)) with (e1 - e2 - 53) by lia.
  replace (e1 - e2 - (e1 - e2 - 53)) with 53 by lia. cbn iota. rewrite Z.shiftl_mul_pow2 by lia.
  pose proof (Z_div_mod (Zpos m1 * 2 ^ 53) (Zpos m2) ltac:(lia)) as Hdiv.
  destruct (Z.div_eucl (Zpos m1 * 2 ^ 53) (Zpos m2)) as [q r]. destruct Hdiv as [Hq Hr].
  assert (2 ^ 52 <= q < 2 ^ 54) as Hqb by (change (2 ^ 54) with (2 ^ 53 * 2); nia). destruct q as [|q|]; [lia| |lia].
  assert (53 <= Zpos (digits2_pos q) <= 54) as D.
  { pose proof (digits2_bounds q) as [Ha Hb]. split; apply Z.nlt_ge; intros ?.
    - assert (2 ^ Zpos (digits2_pos q) <= 2 ^ 52) by (apply Z.pow_le_mono_r; lia). lia.
    - assert (2 ^ 54 <= 2 ^ (Zpos (digits2_pos q) - 1)) by (apply Z.pow_le_mono_r; lia). lia. }
  destruct (round_aux_spec false q (e1 - e2 - 53) (new_location (Zpos m2) r) r (Zpos m2)) as (m' & k & -> & Hb & Hn & _);
    [by apply new_location_ok|rewrite fexp64; lia|lia|lia|].
  exists (Zpos m' * 2 ^ (k + 1074)). split; [done|].
  apply (near_scale (2 ^ (e2 + 1074))) in Hn; [|lia]. replace (Zpos q * Zpos m2 + r) with (Zpos m1 * 2 ^ 53) in Hn by lia.
  rewrite <- (Z.mul_assoc _ (Zpos m2)) in Hn. revert Hn.
  replace (Zpos m1 * 2 ^ 53 * 2 ^ (e1 - e2 - 53 + 1074) * 2 ^ (e2 + 1074)) with (Zpos m1 * 2 ^ (e1 + 1074) * unit64); [done|].
  unfold unit64. rewrite <- !Z.mul_assoc, <- !Z.pow_add_r by lia. do 2 f_equal. lia.
Qed.
