(* ===== verification/Routing.v ===== *)
(** * HTTP routing

    internal/routing: the target policy (policy.go), the dynamic host encoding
    (parser.go) and route resolution (matcher.go). *)

From stdpp Require Import base list sets strings sorting.
From Stdlib Require Import Ascii.
From S2P Require Import Prelude GoStrings GoNet.
Local Open Scope Z_scope.

Inductive routing_err :=
| ErrRouteNotFound
| ErrCIDRNotAllowed
| ErrPortNotAllowed
| ErrDangerousAddress
| ErrMalformedDynamicHost
| ErrDNSLabelTooLong
| ErrInvalidPolicy           (* fmt.Errorf: invalid cidr, port or port list type *)
| ErrInvalidDomain           (* fmt.Errorf of ValidateDomainPattern *).

#[global] Instance routing_err_eq_dec : EqDecision routing_err.
Proof. solve_decision. Defined.

(** ** Address classes and the target policy *)

Definition IsDangerousAddress (ip : IP) : bool :=
  match To4 ip with
  | [] => true
  | ip4 =>
      (nth_val ip4 0 =? 0) || (nth_val ip4 0 >=? 224) ||
      ((nth_val ip4 0 =? 169) && (nth_val ip4 1 =? 254)) ||
      IPEqual ip4 (IPv4 169 254 169 254)
  end.

Definition IsPrivateTarget (ip : IP) : bool :=
  match ip with
  | [] => false
  | _ => IsPrivate ip || IsLoopback ip || IsLinkLocalUnicast ip || IsLinkLocalMulticast ip || IsUnspecified ip
  end.

(** [Ports] is a map used as a set. *)
Record Policy := mkPolicy { CIDRs : list IPNet; Ports : list Z; DenyPrivate : bool }.

(** The dynamic type of the [ports] argument of [NewPolicy]. *)
Inductive port_spec :=
| PortsNil
| PortsInts (l : list Z)
| PortsStrings (l : list bytes)
| PortsString (s : bytes)
| PortsOther.

Definition z_range (lo hi : Z) : list Z := (fun i => lo + Z.of_nat i) <$> seq 0 (Z.to_nat (hi - lo + 1)).

Section ports.
Context `{GoUnicode}.

Definition ParsePorts_token (token : bytes) : result (list Z) routing_err :=
  if ContainsByte token dash then
    match Split token dash with
    | [a; b] =>
        match Atoi a, Atoi b with
        | Some lo, Some hi =>
            if (lo <? 1) || (hi >? 65535) || (lo >? hi) then Err ErrInvalidPolicy else Ok (z_range lo hi)
        | _, _ => Err ErrInvalidPolicy
        end
    | _ => Err ErrInvalidPolicy
    end
  else match Atoi token with
  | Some p => if (p <? 1) || (p >? 65535) then Err ErrInvalidPolicy else Ok [p]
  | None => Err ErrInvalidPolicy
  end.

Fixpoint ParsePorts_tokens (tokens : list bytes) : result (list Z) routing_err :=
  match tokens with
  | [] => Ok []
  | raw :: tokens' =>
      match TrimSpace raw with
      | [] => ParsePorts_tokens tokens'
      | token =>
          let! l := ParsePorts_token token in
          let! l' := ParsePorts_tokens tokens' in
          Ok (l ++ l')
      end
  end.

Definition ParsePorts (raw : bytes) : result (list Z) routing_err :=
  ParsePorts_tokens (Split raw comma).

Fixpoint ParsePorts_all (l : list bytes) : result (list Z) routing_err :=
  match l with
  | [] => Ok []
  | raw :: l' =>
      let! p := ParsePorts raw in
      let! ps := ParsePorts_all l' in
      Ok (p ++ ps)
  end.

Definition normalizePorts (value : port_spec) : result (list Z) routing_err :=
  match value with
  | PortsNil => Ok []
  | PortsInts l => Ok l
  | PortsStrings l => ParsePorts_all l
  | PortsString s => ParsePorts s
  | PortsOther => Err ErrInvalidPolicy
  end.

Fixpoint parse_cidrs (cidrs : list bytes) : result (list IPNet) routing_err :=
  match cidrs with
  | [] => Ok []
  | raw :: cidrs' =>
      match ParseCIDR (TrimSpace raw) with
      | None => Err ErrInvalidPolicy
      | Some (_, n) => let! ns := parse_cidrs cidrs' in Ok (n :: ns)
      end
  end.

Definition NewPolicy (cidrs : list bytes) (ports : port_spec) : result Policy routing_err :=
  let! ns := parse_cidrs cidrs in
  let! ps := normalizePorts ports in
  if forallb (fun p => (1 <=? p) && (p <=? 65535)) ps then Ok (mkPolicy ns ps false)
  else Err ErrInvalidPolicy.
End ports.

Definition ValidatePolicy (p : Policy) (ip : IP) (port : Z) : result unit routing_err :=
  if bool_decide (ip = []) || bool_decide (To4 ip = []) || IsDangerousAddress ip then Err ErrDangerousAddress
  else if negb (bool_decide (CIDRs p = [])) && negb (existsb (fun n => IPNet_Contains n ip) (CIDRs p))
  then Err ErrCIDRNotAllowed
  else if negb (bool_decide (Ports p = [])) && negb (bool_decide (port ∈ Ports p)) then Err ErrPortNotAllowed
  else if (port <? 1) || (port >? 65535) then Err ErrPortNotAllowed
  else Ok tt.

(** ** Dynamic hosts *)

Record DynamicHost := mkDynamicHost {
  dh_AgentID : bytes;
  dh_TargetHost : bytes;
  dh_IPText : bytes;
  dh_IP : IP;
  dh_Port : Z;
  dh_TargetPort : Z;
  dh_Domain : bytes;
}.

Definition label_char (c : byte) : bool := is_lower c || is_digit c || beq c dash.

(** The loop over one label: a dash may not be first or last.  A non-ASCII rune
    is outside the allowed set whatever it decodes to. *)
Definition check_label (label : bytes) : result unit routing_err :=
  if decide (63 < length label)%nat then Err ErrDNSLabelTooLong
  else match label with
  | [] => Err ErrMalformedDynamicHost
  | c :: _ =>
      if forallb label_char label && negb (beq c dash) && negb (beq (List.last label zero_byte) dash)
      then Ok tt else Err ErrMalformedDynamicHost
  end.

Fixpoint check_labels (labels : list bytes) : result unit routing_err :=
  match labels with
  | [] => Ok tt
  | l :: ls => match check_label l with Ok _ => check_labels ls | Err e => Err e end
  end.

Definition parse_octet_field (f : bytes) : option Z :=
  match Atoi f with
  | Some v => if (v <? 0) || (v >? 255) then None else Some v
  | None => None
  end.

Section dynamic.
Context `{GoUnicode}.

(** [expectedSuffix] is the optional variadic argument. *)
Definition ParseDynamicHost (raw : bytes) (expectedSuffix : option bytes) : result DynamicHost routing_err :=
  let host := TrimSuffix (ToLower (TrimSpace raw)) [dot] in
  if bool_decide (host = []) || bool_decide (253 < length host)%nat then Err ErrMalformedDynamicHost
  else
    let labels := Split host dot in
    let! _ := check_labels labels in
    match labels with
    | [] => Err ErrMalformedDynamicHost
    | l0 :: domain_labels =>
        let parts := Split l0 dash in
        let n := length parts in
        if decide (n < 6)%nat then Err ErrMalformedDynamicHost
        else match mapM parse_octet_field (slice (n - 5) (n - 1) parts) with
        | Some [a; b; c; d] =>
            match Atoi (nth (n - 1) parts []) with
            | Some port =>
                if (port <? 1) || (port >? 65535) then Err ErrMalformedDynamicHost
                else
                  let agent := Join (take (n - 5) parts) dash in
                  if bool_decide (agent = []) || bool_decide (63 < length agent)%nat ||
                     HasPrefix agent [dash] || HasSuffix agent [dash]
                  then Err ErrMalformedDynamicHost
                  else
                    let ip := IPv4 a b c d in
                    if IsDangerousAddress ip then Err ErrDangerousAddress
                    else
                      let domain := Join domain_labels dot in
                      if match expectedSuffix with
                         | Some s => negb (seq_eqb (TrimSuffix (ToLower (TrimSpace s)) [dot]) domain)
                         | None => false
                         end
                      then Err ErrMalformedDynamicHost
                      else Ok (mkDynamicHost agent (IP_String ip) (IP_String ip) ip port port domain)
            | None => Err ErrMalformedDynamicHost
            end
        | _ => Err ErrMalformedDynamicHost
        end
    end.
End dynamic.

Definition DynamicHost_String (d : DynamicHost) : bytes :=
  match To4 (dh_IP d) with
  | [a; b; c; e] =>
      Join [dh_AgentID d; Itoa (byte_val a); Itoa (byte_val b); Itoa (byte_val c); Itoa (byte_val e);
            Itoa (dh_Port d)] dash
  | _ => []
  end.

(** ** Routes *)

Record Route := mkRoute {
  ID : bytes;
  RouteID : bytes;
  Domain : bytes;
  PathPrefix : bytes;
  AgentID : bytes;
  TargetHost : bytes;
  TargetPort : Z;
  Protocol : bytes;
  HostHeader : bytes;
  TargetScheme : bytes;
  TLSServerName : bytes;
  AllowedCIDRs : list bytes;
  AllowedPorts : list Z;
  Dynamic : bool;
}.

Definition set_ID (r : Route) (id : bytes) : Route :=
  mkRoute id (RouteID r) (Domain r) (PathPrefix r) (AgentID r) (TargetHost r) (TargetPort r) (Protocol r)
    (HostHeader r) (TargetScheme r) (TLSServerName r) (AllowedCIDRs r) (AllowedPorts r) (Dynamic r).

Record RouteResolver := mkResolver {
  routes : list Route;
  dynamicSuffix : bytes;
  policy : Policy;
}.

Definition validDNSLabel (label : bytes) : bool :=
  match label with
  | [] => false
  | c :: _ =>
      bool_decide (length label <= 63)%nat && negb (beq c dash) &&
      negb (beq (List.last label zero_byte) dash) && forallb label_char label
  end.

Definition validDNSName (name : bytes) : bool :=
  negb (bool_decide (name = [])) && bool_decide (length name <= 253)%nat && forallb validDNSLabel (Split name dot).

Definition wildcard : bytes := #"tm-*.".
Definition wildcard_head : bytes := #"tm-*".
Definition tm_prefix : bytes := #"tm-".

Definition pathMatch (prefix path : bytes) : bool :=
  if seq_eqb prefix [slash] then true
  else HasPrefix path prefix &&
       (bool_decide (length path = length prefix) || HasSuffix prefix [slash] ||
        beq (nth (length prefix) path zero_byte) slash).

Section resolver.
Context `{GoUnicode}.

(** [WithDynamicSuffix] and the [DynamicSuffix] field. *)
Definition normalizeSuffix (s : bytes) : bytes := TrimSuffix (ToLower (TrimSpace s)) [dot].

Definition normalizeHost (host0 : bytes) : bytes :=
  let host := TrimSpace (ToLower host0) in
  if ContainsByte host colon then
    match SplitHostPort host with
    | Some (parsed, port) =>
        match port with
        | [] => TrimSuffix host [dot]
        | _ =>
            match Atoi port with
            | Some p => if (p <? 1) || (p >? 65535) then [] else TrimSuffix parsed [dot]
            | None => []
            end
        end
    | None => TrimSuffix host [dot]
    end
  else TrimSuffix host [dot].

Definition domainMatch (pattern0 host : bytes) : bool :=
  let pattern := normalizeHost pattern0 in
  if bool_decide (pattern = []) then false
  else if seq_eqb pattern host then true
  else if HasPrefix pattern wildcard then
    let base := TrimPrefix pattern wildcard_head in
    if negb (HasSuffix host base) then false
    else
      let label := TrimSuffix (TrimSuffix host base) [dot] in
      HasPrefix label tm_prefix && validDNSLabel label
  else false.

Definition domainRank (pattern0 host0 : bytes) : Z :=
  let pattern := normalizeHost pattern0 in
  let host := normalizeHost host0 in
  if seq_eqb pattern host then 3
  else if HasPrefix pattern wildcard then 1 else 0.

Definition ValidateDomainPattern (raw : bytes) : result unit routing_err :=
  let pattern := TrimSuffix (ToLower (TrimSpace raw)) [dot] in
  if bool_decide (pattern = []) then Ok tt
  else if ContainsByte pattern "*"%char then
    if negb (HasPrefix pattern wildcard) || negb (bool_decide (CountByte pattern "*"%char = 1%nat))
    then Err ErrInvalidDomain
    else if validDNSName (drop 1 (TrimPrefix pattern wildcard_head)) then Ok tt else Err ErrInvalidDomain
  else if validDNSName pattern then Ok tt else Err ErrInvalidDomain.

Definition validateRoutePolicy (r : Route) : result unit routing_err :=
  if bool_decide (AllowedCIDRs r = []) && bool_decide (AllowedPorts r = []) then Ok tt
  else
    let ip := ParseIP (TrimSpace (TargetHost r)) in
    if bool_decide (ip = []) then Ok tt
    else
      let! p := NewPolicy (AllowedCIDRs r) (PortsInts (AllowedPorts r)) in
      ValidatePolicy p ip (TargetPort r).

(** The comparator of the stable sort. *)
Definition route_less (host : bytes) (a b : Route) : bool :=
  let ad := domainRank (Domain a) host in
  let bd := domainRank (Domain b) host in
  if negb (ad =? bd) then ad >? bd
  else if negb (bool_decide (length (PathPrefix a) = length (PathPrefix b)))
  then bool_decide (length (PathPrefix b) < length (PathPrefix a))%nat
  else str_ltb (ID a) (ID b).

Definition candidate (host path : bytes) (r : Route) : bool :=
  domainMatch (Domain r) host && (bool_decide (PathPrefix r = []) || pathMatch (PathPrefix r) path).

Definition with_alias (r : Route) : Route := if bool_decide (ID r = []) then set_ID r (RouteID r) else r.

Definition dynamic_prefix : bytes := #"dynamic:".

Definition resolve_dynamic (r : RouteResolver) (host : bytes) : result Route routing_err :=
  if negb (bool_decide (dynamicSuffix r = [])) && HasSuffix host (dot :: dynamicSuffix r) then
    match ParseDynamicHost host None with
    | Err ErrDangerousAddress => Err ErrDangerousAddress
    | Err _ => Err ErrRouteNotFound
    | Ok d =>
        if EqualFold (dh_Domain d) (dynamicSuffix r) then
          let! _ := ValidatePolicy (policy r) (dh_IP d) (dh_Port d) in
          let id := dynamic_prefix ++ DynamicHost_String d in
          Ok (mkRoute id id host [] (dh_AgentID d) (dh_TargetHost d) (dh_Port d) #"http" [] [] [] [] [] true)
        else Err ErrRouteNotFound
    end
  else Err ErrRouteNotFound.

Definition resolve_by_id (r : RouteResolver) (routeID : bytes) : option (result Route routing_err) :=
  match List.find (fun x => seq_eqb (ID x) routeID || seq_eqb (RouteID x) routeID) (routes r) with
  | Some x => Some (let! _ := validateRoutePolicy x in Ok (with_alias x))
  | None => None
  end.

(** [ResolveHTTP(host, path)]; an empty [routeID] is the two-argument form. *)
Definition ResolveHTTP (r : RouteResolver) (routeID host0 path0 : bytes) : result Route routing_err :=
  match (if bool_decide (routeID = []) then None else resolve_by_id r routeID) with
  | Some res => res
  | None =>
      let host := normalizeHost host0 in
      if bool_decide (host = []) then Err ErrRouteNotFound
      else
        let path := if bool_decide (path0 = []) then [slash] else path0 in
        match sort_by (route_less host) (List.filter (candidate host path) (routes r)) with
        | selected0 :: _ =>
            let selected := with_alias selected0 in
            let! _ := validateRoutePolicy selected in
            Ok selected
        | [] => resolve_dynamic r host
        end
  end.
End resolver.

(** *** Construction *)

Inductive resolver_source :=
| SourceRoutes (l : list Route)                                   (* []Route, RouteTable *)
| SourceConfig (l : list Route) (suffix : bytes) (p : Policy)     (* RouteResolverConfig *)
| SourceNone.                                                     (* nil and unsupported types *)

Inductive ResolverOption :=
| WithDynamicSuffix (suffix : bytes)
| WithPolicy (p : Policy).

Definition NewRouteResolver `{GoUnicode} (source : resolver_source) (options : list ResolverOption) :
    RouteResolver :=
  let '(rs, suffix, p) :=
    match source with
    | SourceRoutes l => (l, #"apps.example.com", mkPolicy [] [] false)
    | SourceConfig l s p =>
        (l, if bool_decide (s = []) then #"apps.example.com" else normalizeSuffix s, p)
    | SourceNone => ([], #"apps.example.com", mkPolicy [] [] false)
    end in
  foldl (fun r o =>
    match o with
    | WithDynamicSuffix s => mkResolver (routes r) (normalizeSuffix s) (policy r)
    | WithPolicy p => mkResolver (routes r) (dynamicSuffix r) p
    end) (mkResolver rs suffix p) options.

(** ** Lemmas *)

(** *** The order of candidates *)

Section order.
Context `{GoUnicode} (host : bytes).

(** [route_less] compares three keys lexicographically. *)
Lemma route_less_true a b :
  route_less host a b = true <->
  domainRank (Domain b) host < domainRank (Domain a) host \/
  (domainRank (Domain a) host = domainRank (Domain b) host /\
   ((length (PathPrefix b) < length (PathPrefix a))%nat \/
    (length (PathPrefix a) = length (PathPrefix b) /\ str_ltb (ID a) (ID b) = true))).
Proof.
  unfold route_less. destruct (_ =? _) eqn:E; cbn [negb]; split_bools.
  - destruct (bool_decide (length (PathPrefix a) = _)) eqn:El; cbn [negb]; split_bools.
    + split; [intros Hs; right; auto|]. intros [?|(_ & [?|[_ ?]])]; [lia|lia|done].
    + rewrite bool_decide_eq_true. split; [auto|]. intros [?|(_ & [?|[? _]])]; [lia|done|lia].
  - split; [intros Hg; split_bools; lia|]. intros [?|(? & _)]; [|lia]. rewrite Z.gtb_ltb. by apply Z.ltb_lt.
Qed.

Lemma route_less_false a b :
  route_less host a b = false <->
  domainRank (Domain a) host < domainRank (Domain b) host \/
  (domainRank (Domain a) host = domainRank (Domain b) host /\
   ((length (PathPrefix a) < length (PathPrefix b))%nat \/
    (length (PathPrefix a) = length (PathPrefix b) /\ str_ltb (ID a) (ID b) = false))).
Proof.
  rewrite <- not_true_iff_false, route_less_true, <- not_true_iff_false.
  destruct (str_ltb (ID a) (ID b)); naive_solver lia.
Qed.

Lemma route_less_asym a b : route_less host a b = true -> route_less host b a = false.
Proof.
  rewrite route_less_true, route_less_false.
  pose proof (str_ltb_asym (ID a) (ID b)). naive_solver lia.
Qed.

Lemma route_less_trans_false a b c :
  route_less host b a = false -> route_less host c b = false -> route_less host c a = false.
Proof.
  rewrite !route_less_false. pose proof (str_ltb_trans_false (ID a) (ID b) (ID c)).
  intros [?|(? & [?|[? ?]])] [?|(? & [?|[? ?]])]; try (left; lia); right; (split; [lia|]);
    try (left; lia); right; (split; [lia|]); auto.
Qed.

Lemma route_less_antisym a b :
  route_less host a b = false -> route_less host b a = false -> ID a = ID b.
Proof.
  rewrite !route_less_false. intros [?|(? & [?|[? ?]])] [?|(? & [?|[? ?]])]; try lia.
  by apply str_ltb_trichotomy.
Qed.
End order.

Lemma fmap_NoDup_inj {A B} (f : A -> B) (l : list A) x y :
  NoDup (f <$> l) -> x ∈ l -> y ∈ l -> f x = f y -> x = y.
Proof.
  induction l as [|z l IH]; intros Hn Hx Hy E; [set_solver|].
  rewrite fmap_cons in Hn. apply NoDup_cons in Hn as [Hz Hn].
  apply elem_of_cons in Hx as [Hx|Hx]; apply elem_of_cons in Hy as [Hy|Hy]; subst; [done| | |].
  - destruct Hz. rewrite E. by apply list_elem_of_fmap_2.
  - destruct Hz. rewrite <- E. by apply list_elem_of_fmap_2.
  - by apply IH.
Qed.

Lemma filter_perm {A} (p : A -> bool) (l k : list A) : l ≡ₚ k -> List.filter p l ≡ₚ List.filter p k.
Proof.
  induction 1 as [|x l k _ IH|x y l|l k m _ IH1 _ IH2]; cbn.
  - done.
  - destruct (p x); [by constructor|done].
  - destruct (p x), (p y); try done. constructor.
  - by etrans.
Qed.

(** The same candidates in any order give the same winner. *)
Lemma sorted_candidates_perm `{GoUnicode} host (p : Route -> bool) l k :
  NoDup (ID <$> l) -> l ≡ₚ k ->
  sort_by (route_less host) (List.filter p l) = sort_by (route_less host) (List.filter p k).
Proof.
  intros Hn Hp. apply sort_by_unique; [apply route_less_asym|apply route_less_trans_false| |by apply filter_perm].
  intros a b Ha Hb H1 H2. apply list_elem_of_In, filter_In in Ha as [Ha _].
  apply list_elem_of_In, filter_In in Hb as [Hb _]. apply list_elem_of_In in Ha, Hb.
  eapply fmap_NoDup_inj; [done|done|done|]. by eapply route_less_antisym.
Qed.

(** *** Wildcards *)

Lemma label_char_not_dot c : label_char c = true -> c <> dot.
Proof. intros Hc ->. by vm_compute in Hc. Qed.

Lemma validDNSLabel_no_dot l : validDNSLabel l = true -> dot ∉ l.
Proof.
  unfold validDNSLabel. destruct l as [|c l]; [done|]. intros Hv. split_bools.
  intros Hin. match goal with Hf : forallb label_char _ = true |- _ =>
    rewrite forallb_forall in Hf; apply list_elem_of_In, Hf, label_char_not_dot in Hin end. done.
Qed.

Lemma TrimSuffix_no s p : HasSuffix s p = false -> TrimSuffix s p = s.
Proof. intros E. unfold TrimSuffix. by rewrite E. Qed.

Lemma domainMatch_wildcard `{GoUnicode} pattern base host :
  normalizeHost pattern = wildcard ++ base -> host <> wildcard ++ base ->
  domainMatch pattern host = true <->
  exists label dots, host = label ++ dots ++ dot :: base /\ (dots = [] \/ dots = [dot]) /\
    HasPrefix label tm_prefix = true /\ validDNSLabel label = true.
Proof.
  intros Hp Hne. unfold domainMatch. rewrite Hp.
  rewrite bool_decide_eq_false_2 by done.
  destruct (seq_eqb (wildcard ++ base) host) eqn:E; [by apply seq_eqb_eq in E|].
  rewrite HasPrefix_app.
  assert (TrimPrefix (wildcard ++ base) wildcard_head = dot :: base) as ->.
  { change (wildcard ++ base) with (wildcard_head ++ dot :: base). apply TrimPrefix_app. }
  split.
  - destruct (HasSuffix host (dot :: base)) eqn:Es; [|done]. cbn [negb]. intros Hl.
    apply andb_prop in Hl as [Hl1 Hl2]. apply HasSuffix_spec in Es as [k ->].
    rewrite TrimSuffix_app in *. exists (TrimSuffix k [dot]).
    destruct (HasSuffix k [dot]) eqn:Ek.
    + apply HasSuffix_spec in Ek as [k' ->]. rewrite TrimSuffix_app in *.
      exists [dot]. rewrite <- (assoc_L (++)). auto.
    + rewrite TrimSuffix_no in * by done. exists []. auto.
  - intros (label & dots & -> & Hd & H1 & H2). rewrite (assoc_L (++)), HasSuffix_app, TrimSuffix_app. cbn [negb].
    assert (TrimSuffix (label ++ dots) [dot] = label) as ->; [|by rewrite H1, H2].
    destruct Hd as [->| ->]; [|apply TrimSuffix_app]. rewrite app_nil_r. apply TrimSuffix_no.
    destruct (HasSuffix label [dot]) eqn:Es; [|done]. apply HasSuffix_spec in Es as [k ->].
    apply validDNSLabel_no_dot in H2. set_solver.
Qed.

(** *** Dynamic hosts *)

Definition host_byte (c : byte) : Prop := label_char c = true \/ c = dot.

Lemma host_byte_plain c : host_byte c ->
  (is_ascii_byte c = true /\ is_upper c = false) /\ (is_ascii_byte c = true /\ is_space c = false).
Proof.
  unfold host_byte, label_char, is_lower, is_digit, is_ascii_byte, is_upper, is_space.
  intros [Hc| ->]; [|by vm_compute]. apply orb_prop in Hc as [Hc|Hc]; [|apply beq_eq in Hc as ->; by vm_compute].
  apply orb_prop in Hc as [Hc|Hc]; split_bools; split_and!; zbool; try done;
    repeat (apply orb_false_iff; split); try lia.
Qed.

Lemma digit_label_char c : is_digit c = true -> label_char c = true.
Proof. unfold label_char. intros ->. by rewrite orb_true_r. Qed.

Lemma digit_not_dash c : is_digit c = true -> c <> dash.
Proof. intros Hc. by apply is_digit_not in Hc as [Hc _]. Qed.

Lemma check_label_Ok l : check_label l = Ok tt ->
  l <> [] /\ Forall (fun c => label_char c = true) l.
Proof.
  unfold check_label. case_decide; [done|]. destruct l as [|c l]; [done|].
  destruct (_ && _) eqn:E; [|done]. intros _. split_bools. split; [done|].
  apply Forall_forall. intros x Hx. match goal with Hf : forallb _ _ = true |- _ =>
    rewrite forallb_forall in Hf; apply Hf end. by apply list_elem_of_In.
Qed.

Lemma check_label_intro l y r k x :
  l = y :: r -> l = k ++ [x] -> (length l <= 63)%nat -> Forall (fun c => label_char c = true) l ->
  y <> dash -> x <> dash -> check_label l = Ok tt.
Proof.
  intros Hy Hk Hlen Hf Hyd Hxd. unfold check_label. rewrite decide_False by lia.
  assert (List.last l zero_byte = x) as Hl by (rewrite Hk; apply last_last).
  assert (forallb label_char l = true) as Hfl.
  { apply forallb_forall. intros z Hz. rewrite Forall_forall in Hf. apply Hf. by apply list_elem_of_In. }
  rewrite Hfl, Hl, (proj2 (beq_neq x dash) Hxd). rewrite Hy.
  by rewrite (proj2 (beq_neq y dash) Hyd).
Qed.

Lemma check_labels_Ok ls : check_labels ls = Ok tt -> Forall (fun l => check_label l = Ok tt) ls.
Proof.
  induction ls as [|l ls IH]; [constructor|]. cbn. destruct (check_label l) as [[]|] eqn:E; [|done].
  intros Hls. constructor; [done|by apply IH].
Qed.

(** The suffix of a dynamic host: non-empty labels, so it neither is empty nor
    ends with a dot. *)
Lemma domain_Ok domain :
  check_labels (Split domain dot) = Ok tt ->
  Forall host_byte domain /\ HasSuffix domain [dot] = false /\ domain <> [].
Proof.
  intros Hc. apply check_labels_Ok in Hc. split_and!.
  - rewrite <- (Join_Split domain dot). apply Join_bytes; [by right|].
    eapply Forall_impl; [exact Hc|]. intros l Hl%check_label_Ok. destruct Hl as [_ Hl].
    eapply Forall_impl; [exact Hl|]. by left.
  - destruct (HasSuffix domain [dot]) eqn:E; [|done]. apply HasSuffix_spec in E as [k ->].
    rewrite Split_app_gen in Hc. apply Forall_app in Hc as [_ Hc]. by apply Forall_cons in Hc as [Hc _].
  - intros ->. by apply Forall_cons in Hc as [Hc _].
Qed.

Definition dynamic_host (agent ip4 : bytes) (port : Z) (domain : bytes) : DynamicHost :=
  let ip := v4InV6Prefix ++ ip4 in
  mkDynamicHost agent (IP_String ip) (IP_String ip) ip port port domain.

(** What a host name must satisfy to be produced for an agent and target. *)
Record encodable (agent ip4 : bytes) (port : Z) (domain : bytes) : Prop := {
  enc_chars : forallb label_char agent = true;
  enc_agent : agent <> [] /\ HasPrefix agent [dash] = false /\ HasSuffix agent [dash] = false;
  enc_ip : length ip4 = 4%nat /\ IsDangerousAddress ip4 = false;
  enc_port : 1 <= port <= 65535;
  enc_domain : check_labels (Split domain dot) = Ok tt;
  enc_len : let label := DynamicHost_String (dynamic_host agent ip4 port domain) in
    (length label <= 63 /\ length label + 1 + length domain <= 253)%nat;
}.

Lemma dynamic_label a b c e agent port domain :
  DynamicHost_String (dynamic_host agent [a; b; c; e] port domain) =
  agent ++ dash :: Join [Itoa (byte_val a); Itoa (byte_val b); Itoa (byte_val c); Itoa (byte_val e); Itoa port] dash.
Proof. unfold DynamicHost_String, dynamic_host; cbn [dh_IP]. by rewrite To4_mapped. Qed.

Lemma dynamic_parts a b c e agent port domain : 0 <= port ->
  Split (DynamicHost_String (dynamic_host agent [a; b; c; e] port domain)) dash =
  Split agent dash ++ [Itoa (byte_val a); Itoa (byte_val b); Itoa (byte_val c); Itoa (byte_val e); Itoa port].
Proof.
  intros Hp. rewrite dynamic_label, Split_app_gen. f_equal. apply Split_Join; [done|].
  repeat constructor; (apply Itoa_not_elem; [apply byte_val_range || done|done]).
Qed.

Lemma Itoa_last n : 0 <= n -> exists k c, Itoa n = k ++ [c] /\ is_digit c = true.
Proof.
  intros Hn. pose proof (Itoa_digits n Hn) as Hd. pose proof (Itoa_not_nil n Hn) as Hne.
  destruct (Itoa n) as [|c k _] using rev_ind; [done|]. exists k, c. split; [done|].
  apply Forall_app in Hd as [_ Hd]. by inversion Hd.
Qed.

Lemma dynamic_label_check agent ip4 port domain :
  encodable agent ip4 port domain ->
  check_label (DynamicHost_String (dynamic_host agent ip4 port domain)) = Ok tt.
Proof.
  intros [Hc (Ha & Hpre & Hsuf) [Hl Hd] Hport Hdom Hlen]. cbn zeta in Hlen.
  do 5 (destruct ip4 as [|? ip4]; try done).
  set (label := DynamicHost_String _) in *.
  assert (Forall (fun x => label_char x = true) label) as Hf.
  { unfold label. rewrite dynamic_label. apply Forall_app. split.
    - apply Forall_forall. intros x Hx. rewrite forallb_forall in Hc. apply Hc. by apply list_elem_of_In.
    - constructor; [done|]. apply Join_bytes; [done|]. repeat constructor;
        (eapply Forall_impl; [apply Itoa_digits; (apply byte_val_range || lia)|]; apply digit_label_char). }
  assert (exists k x, label = k ++ [x] /\ is_digit x = true) as (k & x & Hk & Hx).
  { destruct (Itoa_last port ltac:(lia)) as (k & x & Hk & Hx). unfold label. rewrite dynamic_label.
    exists (agent ++ dash :: Join [Itoa (byte_val a); Itoa (byte_val a0); Itoa (byte_val a1); Itoa (byte_val a2)] dash
      ++ dash :: k), x. split; [|done].
    change (Join _ dash) with (Join ([Itoa (byte_val a); Itoa (byte_val a0); Itoa (byte_val a1);
      Itoa (byte_val a2)] ++ [Itoa port]) dash) at 1.
    rewrite Join_snoc, Hk by done. by rewrite <- (assoc_L (++)), <- app_comm_cons, <- (assoc_L (++)). }
  assert (exists y r, label = y :: r /\ y <> dash) as (y & r & Hy & Hyd).
  { destruct agent as [|y agent]; [done|]. exists y. unfold label. rewrite dynamic_label.
    eexists. split; [done|]. intros ->. cbn in Hpre. by rewrite beq_refl in Hpre. }
  apply (check_label_intro label y r k x); try done; [lia|by apply digit_not_dash].
Qed.

Lemma parse_octet_field_Itoa b : parse_octet_field (Itoa (byte_val b)) = Some (byte_val b).
Proof.
  pose proof (byte_val_range b). unfold parse_octet_field.
  rewrite Atoi_Itoa by (unfold max_int64; lia). by zbool.
Qed.

Lemma label_chars_no_dot l : Forall (fun c => label_char c = true) l -> dot ∉ l.
Proof.
  intros Hf Hin. rewrite Forall_forall in Hf. by apply Hf, label_char_not_dot in Hin.
Qed.

(** A host name made of an encodable label and domain reads unchanged. *)
Lemma dynamic_host_text `{GoUnicode} agent ip4 port domain :
  encodable agent ip4 port domain ->
  let label := DynamicHost_String (dynamic_host agent ip4 port domain) in
  let host := label ++ dot :: domain in
  TrimSuffix (ToLower (TrimSpace host)) [dot] = host /\ host <> [] /\ (length host <= 253)%nat /\
  Split host dot = label :: Split domain dot /\
  TrimSuffix (ToLower (TrimSpace domain)) [dot] = domain.
Proof.
  intros He. pose proof (dynamic_label_check _ _ _ _ He) as Hlab.
  destruct He as [_ _ _ _ Hdom Hlen]. cbn zeta in *.
  set (label := DynamicHost_String _) in *.
  apply check_label_Ok in Hlab as [_ Hlab]. destruct (domain_Ok domain Hdom) as (Hdb & Hds & Hdn).
  assert (forall s, Forall host_byte s -> HasSuffix s [dot] = false ->
    TrimSuffix (ToLower (TrimSpace s)) [dot] = s) as Hclean.
  { intros s Hs Hd. rewrite TrimSpace_Forall, ToLower_id, TrimSuffix_no; [done|done| |];
      (eapply Forall_impl; [exact Hs|]; intros c Hc; apply host_byte_plain in Hc; tauto). }
  split_and!.
  - apply Hclean.
    + apply Forall_app. split; [eapply Forall_impl; [exact Hlab|]; by left|]. constructor; [by right|done].
    + destruct (HasSuffix (label ++ dot :: domain) [dot]) eqn:E; [|done]. apply HasSuffix_spec in E as [k Hk].
      destruct domain as [|c domain _] using rev_ind; [done|].
      rewrite app_comm_cons, (assoc_L (++)) in Hk. apply app_inj_tail in Hk as [_ ->].
      by rewrite HasSuffix_app in Hds.
  - by destruct label.
  - rewrite length_app. cbn. lia.
  - by apply Split_app, label_chars_no_dot.
  - by apply Hclean.
Qed.

Lemma dynamic_host_parse `{GoUnicode} agent ip4 port domain :
  encodable agent ip4 port domain ->
  ParseDynamicHost (DynamicHost_String (dynamic_host agent ip4 port domain) ++ dot :: domain) (Some domain) =
  Ok (dynamic_host agent ip4 port domain).
Proof.
  intros He. destruct (dynamic_host_text _ _ _ _ He) as (H1 & H2 & H3 & H4 & H5).
  pose proof (dynamic_label_check _ _ _ _ He) as Hlab.
  destruct He as [Hc (Ha & Hpre & Hsuf) [Hl Hd] Hport Hdom Hlen]. cbn zeta in *.
  unfold ParseDynamicHost. rewrite H1, H4, H5. rewrite bool_decide_eq_false_2 by done.
  rewrite bool_decide_eq_false_2 by lia. cbn [orb check_labels]. rewrite Hlab, Hdom. cbn [rbind].
  do 5 (destruct ip4 as [|? ip4]; try done). rewrite dynamic_parts by lia.
  set (fields := [Itoa _; _; _; _; _]). set (ps := Split agent dash).
  assert (1 <= length ps)%nat as Hps.
  { pose proof (Split_not_nil agent dash). unfold ps. destruct (Split agent dash); [done|cbn; lia]. }
  rewrite length_app. change (length fields) with 5%nat. rewrite decide_False by lia.
  replace (length ps + 5 - 5)%nat with (length ps) by lia.
  replace (length ps + 5 - 1)%nat with (length ps + 4)%nat by lia.
  rewrite take_app_length. unfold slice. rewrite drop_app_length.
  replace (length ps + 4 - length ps)%nat with 4%nat by lia.
  cbn [take fields mapM]. rewrite !parse_octet_field_Itoa. cbn [mbind option_bind mret option_ret].
  rewrite app_nth2_plus. cbn [nth fields]. rewrite Atoi_Itoa by (unfold max_int64; lia).
  replace (port <? 1) with false by lia. replace (port >? 65535) with false by lia. cbn [orb].
  unfold ps. rewrite Join_Split. rewrite bool_decide_eq_false_2 by done.
  rewrite bool_decide_eq_false_2.
  2:{ rewrite dynamic_label, length_app in Hlen. lia. }
  rewrite Hpre, Hsuf. cbn [orb]. unfold IPv4. rewrite !byte_of_val.
  unfold IsDangerousAddress in *. rewrite To4_mapped by done. unfold To4 in Hd. cbn [length] in Hd.
  rewrite decide_True in Hd by done. rewrite Hd, Join_Split, seq_eqb_refl. done.
Qed.

(** ** Properties *)


Definition sample_route (id routeid domain prefix agent : bytes) : Route :=
  mkRoute id routeid domain prefix agent #"10.0.0.9" 80 #"http" [] [] [] [] [] false.

Definition sample_resolver : RouteResolver :=
  mkResolver [sample_route #"b" [] #"tm-*.example.com" [] #"wild";
              sample_route #"a" [] #"tm-x.example.com" #"/api" #"api"]
    #"apps.example.com" (mkPolicy [] [] false).


(** Explicit route precedence is independent of insertion order when the
    routes have distinct identifiers: permuting the table never changes the
    answer. *)
Theorem ResolveHTTP_order_independent `{GoUnicode} (rs rs' : list Route) (suffix : bytes) (p : Policy)
    (host path : bytes) (Hids : NoDup (ID <$> rs)) (Hperm : rs ≡ₚ rs') :
  ResolveHTTP (mkResolver rs suffix p) [] host path = ResolveHTTP (mkResolver rs' suffix p) [] host path.
Proof.
  unfold ResolveHTTP. rewrite bool_decide_eq_true_2 by done. cbn [routes].
  by rewrite (sorted_candidates_perm _ _ rs rs' Hids Hperm).
Qed.

Lemma ResolveHTTP_order_independent_witness :
  @ResolveHTTP ascii_unicode sample_resolver [] #"tm-x.example.com" #"/api" =
  @ResolveHTTP ascii_unicode (mkResolver (reverse (routes sample_resolver)) #"apps.example.com" (mkPolicy [] [] false)) []
    #"tm-x.example.com" #"/api".
Proof.
  apply (@ResolveHTTP_order_independent ascii_unicode (routes sample_resolver) (reverse (routes sample_resolver))).
  - by apply (bool_decide_unpack _); vm_compute.
  - symmetry. apply reverse_Permutation.
Defined.

(** Without distinct identifiers it is not: two routes for one domain that
    carry only the alias [RouteID] are answered in insertion order. *)
Theorem alias_routes_depend_on_order `{GoUnicode} :
  let a := sample_route [] #"r1" #"app.example.com" [] #"agent-1" in
  let b := sample_route [] #"r2" #"app.example.com" [] #"agent-2" in
  let resolve l := ResolveHTTP (mkResolver l [] (mkPolicy [] [] false)) [] #"app.example.com" #"/" in
  resolve [a; b] <> resolve [b; a].
Proof. cbn zeta. intros E. vm_compute in E. discriminate E. Qed.

(** A wildcard route [tm-*.base] exposes exactly the hosts whose first label
    is one DNS label starting with [tm-]: a host other than the pattern itself
    matches iff it is [label.base] with such a label (one redundant dot before
    [.base] is tolerated), so no deeper subdomain is ever matched. *)
Theorem wildcard_matches_one_label `{GoUnicode} (pattern base host : bytes)
    (Hp : normalizeHost pattern = wildcard ++ base) (Hne : host <> wildcard ++ base) :
  (domainMatch pattern host = true <->
   exists label dots, host = label ++ dots ++ dot :: base /\ (dots = [] \/ dots = [dot]) /\
     HasPrefix label tm_prefix = true /\ validDNSLabel label = true) /\
  (forall label, validDNSLabel label = true -> dot ∉ label).
Proof.
  split; [by apply domainMatch_wildcard|]. intros label. apply validDNSLabel_no_dot.
Qed.

Lemma wildcard_matches_one_label_witness :
  @domainMatch ascii_unicode #"tm-*.example.com" #"tm-a.example.com" = true.
Proof.
  apply (@wildcard_matches_one_label ascii_unicode #"tm-*.example.com" #"example.com" #"tm-a.example.com");
    [reflexivity|done|]. exists #"tm-a", []. split_and!; auto.
Defined.

(** The dynamic host encoding round-trips: for every agent identifier made
    of label characters (hyphens included) that neither starts nor ends with a
    hyphen, every IPv4 target that is not dangerous, port and valid domain for
    which the name fits DNS limits, parsing the rendered name with that domain
    as expected suffix returns the agent, address, port and domain. *)
Theorem dynamic_host_roundtrip `{GoUnicode} (agent ip4 : bytes) (port : Z) (domain : bytes)
    (He : encodable agent ip4 port domain) :
  let d := dynamic_host agent ip4 port domain in
  ParseDynamicHost (DynamicHost_String d ++ dot :: domain) (Some domain) = Ok d /\
  dh_AgentID d = agent /\ To4 (dh_IP d) = ip4 /\ dh_Port d = port /\ dh_Domain d = domain.
Proof.
  cbn zeta. split_and!; [by apply dynamic_host_parse|done| |done|done].
  unfold dynamic_host; cbn [dh_IP]. apply To4_mapped. apply He.
Qed.

Lemma dynamic_host_roundtrip_witness :
  @ParseDynamicHost ascii_unicode #"edge-7-10-0-0-9-8080.apps.example.com" (Some #"apps.example.com") =
    Ok (dynamic_host #"edge-7" (be_put 4 167772169) 8080 #"apps.example.com").
Proof.
  apply (@dynamic_host_roundtrip ascii_unicode #"edge-7" (be_put 4 167772169) 8080 #"apps.example.com").
  split; try ground. vm_compute. repeat constructor.
Defined.
