(* ===== verification/ProxyEntry.v ===== *)
(** * The policy kernel of the managed HTTP proxy entry

    internal/proxyentry: source allowlists (acl.go), route identity
    (identity.go), target policy (target.go) and Basic authentication with
    failure throttling (auth.go). *)

From stdpp Require Import base list gmap sets strings sorting.
From Stdlib Require Import Ascii.
From S2P Require Import Prelude GoStrings GoNet GoCrypto Routing.
Local Open Scope Z_scope.

Inductive entry_err :=
| ErrInvalidCIDR
| ErrRouteIdentityInvalid
| ErrAuthRequired
| ErrAuthFailed
| ErrAuthBackoff
| ErrTargetDenied
| ErrTargetInvalid
| ErrSecretUnavailable.

#[global] Instance entry_err_eq_dec : EqDecision entry_err.
Proof. solve_decision. Defined.

(** ** Source allowlists *)

Record SourceACL := mkACL { acl_networks : list IPNet; acl_broken : bool }.

Definition DenyAllSourceACL : SourceACL := mkACL [] true.

Section entry.
Context `{GoUnicode}.

(** [None] is the rendering of a network [IPNet.String] cannot print. *)
Definition NormalizeCIDR (raw : bytes) : result bytes entry_err :=
  match TrimSpace raw with
  | [] => Err ErrInvalidCIDR
  | value =>
      let value' :=
        if ContainsByte value slash then Some value
        else match ParseIP value with
        | [] => None
        | ip => Some (value ++ (if bool_decide (To4 ip = []) then #"/128" else #"/32"))
        end in
      match value' with
      | None => Err ErrInvalidCIDR
      | Some v =>
          match ParseCIDR v with
          | None => Err ErrInvalidCIDR
          | Some (_, n) => Ok (default #"<nil>" (IPNet_String n))
          end
      end
  end.

Fixpoint acl_parse (cidrs : list bytes) : result (list IPNet) entry_err :=
  match cidrs with
  | [] => Ok []
  | raw :: cidrs' =>
      match NormalizeCIDR raw with
      | Err e => Err e
      | Ok normalized =>
          match ParseCIDR normalized with
          | None => Err ErrInvalidCIDR
          | Some (_, n) => let! ns := acl_parse cidrs' in Ok (n :: ns)
          end
      end
  end.

Definition NewSourceACL (cidrs : list bytes) : SourceACL * option entry_err :=
  match acl_parse cidrs with
  | Ok ns => (mkACL ns false, None)
  | Err e => (DenyAllSourceACL, Some e)
  end.

Definition ACL_Allow (a : SourceACL) (ip : IP) : bool :=
  if acl_broken a || bool_decide (acl_networks a = []) || bool_decide (ip = []) then false
  else
    let ip := match To4 ip with [] => ip | v4 => v4 end in
    existsb (fun n => IPNet_Contains n ip) (acl_networks a).

Definition ParseClientIP (raw : bytes) : result IP entry_err :=
  match TrimSpace raw with
  | [] => Err ErrRouteIdentityInvalid
  | trimmed => match ParseIP trimmed with [] => Err ErrRouteIdentityInvalid | ip => Ok ip end
  end.

(** ** Route identity *)

Definition alnum (c : byte) : bool := is_lower c || is_digit c.

(** [^[a-z0-9]([a-z0-9-]{0,30}[a-z0-9])?$] *)
Definition proxyRouteName (name : bytes) : bool :=
  match name with
  | [] => false
  | c :: _ =>
      bool_decide (length name <= 32)%nat && alnum c && alnum (List.last name zero_byte) &&
      forallb (fun x => alnum x || beq x dash) name
  end.

Definition tp_prefix : bytes := #"tp-".

Definition normalizeEntrySuffix (raw : bytes) : bytes := ToLower (TrimSuffix (TrimSpace raw) [dot]).

Definition normalizeRouteKey (raw suffix : bytes) : result bytes entry_err :=
  let value := ToLower (TrimSpace raw) in
  if bool_decide (value = []) || bool_decide (suffix = []) then Err ErrRouteIdentityInvalid
  else
    let host :=
      if ContainsByte value dot then
        if HasSuffix value (dot :: suffix) then Some (TrimSuffix value (dot :: suffix)) else None
      else Some value in
    match host with
    | None => Err ErrRouteIdentityInvalid
    | Some host =>
        let name := TrimPrefix host tp_prefix in
        if bool_decide (name = []) || negb (proxyRouteName name) then Err ErrRouteIdentityInvalid
        else Ok (tp_prefix ++ name ++ dot :: suffix)
    end.

Definition RouteKey_Name (k : bytes) : bytes :=
  let host := TrimPrefix k tp_prefix in
  match IndexByte host dot with
  | Some (S i) => take (S i) host
  | _ => host
  end.

(** [HeaderRouteIdentity.Resolve] on the values of the trusted header. *)
Definition HeaderResolve (values : list bytes) (suffix : bytes) : result bytes entry_err :=
  match values with
  | [v] => normalizeRouteKey v suffix
  | _ => Err ErrRouteIdentityInvalid
  end.

(** [SNIRouteIdentity.Resolve]; [None] is a request without TLS state. *)
Definition SNIResolve (serverName : option bytes) (suffix : bytes) : result bytes entry_err :=
  match serverName with
  | None => Err ErrRouteIdentityInvalid
  | Some n => if bool_decide (TrimSpace n = []) then Err ErrRouteIdentityInvalid else normalizeRouteKey n suffix
  end.

(** ** Targets *)

Record TargetPolicy := mkTarget {
  tp_policy : Policy;
  tp_allowPrivate : bool;
  tp_restrictCIDRs : bool;
}.

Definition NewTargetPolicy (cidrs : list bytes) (ports : list Z) (allowPrivate : bool) :
    result TargetPolicy routing_err :=
  let! p := NewPolicy cidrs (PortsInts ports) in
  Ok (mkTarget p allowPrivate (negb (bool_decide (cidrs = [])))).

Definition host_alnum (c : byte) : bool := is_lower c || is_upper c || is_digit c.

(** [^[a-zA-Z0-9]([a-zA-Z0-9.-]{0,251}[a-zA-Z0-9])?$] *)
Definition proxyHostname (host : bytes) : bool :=
  match host with
  | [] => false
  | c :: _ =>
      bool_decide (length host <= 253)%nat && host_alnum c && host_alnum (List.last host zero_byte) &&
      forallb (fun x => host_alnum x || beq x dot || beq x dash) host
  end.

Definition validProxyHostname (host : bytes) : bool :=
  if Contains host [dot; dot] || HasSuffix host [dot] then false else proxyHostname host.

Definition ValidateIP (p : TargetPolicy) (ip : IP) (port : Z) : result unit entry_err :=
  if bool_decide (ip = []) then Err ErrTargetInvalid
  else if (port <? 1) || (port >? 65535) then Err ErrTargetInvalid
  else if IsDangerousAddress ip then Err ErrTargetDenied
  else if negb (tp_allowPrivate p) && IsPrivateTarget ip then Err ErrTargetDenied
  else match ValidatePolicy (tp_policy p) ip port with
  | Err _ => Err ErrTargetDenied
  | Ok _ => Ok tt
  end.

Definition portAllowed (p : TargetPolicy) (port : Z) : bool :=
  bool_decide (Ports (tp_policy p) = []) || bool_decide (port ∈ Ports (tp_policy p)).

(** The characters of [strings.ContainsAny(trimmed, " /\t\r\n")]. *)
Definition separator_char (c : byte) : bool :=
  bool_decide (byte_val c ∈ [32; 47; 9; 13; 10]).

Definition ValidateTarget (p : TargetPolicy) (host : bytes) (port : Z) : result unit entry_err :=
  if (port <? 1) || (port >? 65535) then Err ErrTargetInvalid
  else
    let trimmed := TrimSpace host in
    if bool_decide (trimmed = []) || bool_decide (253 < length trimmed)%nat || existsb separator_char trimmed
    then Err ErrTargetInvalid
    else match ParseIP trimmed with
    | [] =>
        if negb (validProxyHostname trimmed) then Err ErrTargetInvalid
        else if tp_restrictCIDRs p then Err ErrTargetDenied
        else if negb (portAllowed p port) then Err ErrTargetDenied
        else Ok tt
    | ip => ValidateIP p ip port
    end.

(** ** Basic authentication

    Times are nanoseconds; a zero [time.Time] is [None]. *)

Definition second : Z := 1000000000.
Definition backoffBase : Z := 30 * second.
Definition backoffMax : Z := 900 * second.
Definition attemptTTL : Z := 900 * second.
Definition sweepLimit : nat := 64.
Definition maxBackoffShift : Z := 5.

Record authAttempt := mkAttempt { failures : Z; until : option Z; lastFailure : Z }.

Record Authenticator := mkAuth { au_threshold : Z; au_attempts : gmap bytes authAttempt }.

Definition NewAuthenticator (backoffThreshold : Z) : Authenticator :=
  mkAuth (if backoffThreshold <=? 0 then 1 else backoffThreshold) ∅.

(** The fields of a route the check reads. *)
Record auth_route := mkAuthRoute { ar_ID : bytes; ar_AuthMode : bytes; ar_CredentialID : bytes }.

Definition RequiresAuth (r : auth_route) : bool := seq_eqb (ar_AuthMode r) #"basic".

Definition attemptKey (routeID clientIP : bytes) : bytes := routeID ++ "|"%char :: clientIP.

(** [int64] nanoseconds: the shift is at most 5, so nothing overflows. *)
Definition backoffFor (failures threshold : Z) : Z :=
  let shift := if failures - threshold <? 0 then 0 else failures - threshold in
  if shift >? maxBackoffShift then backoffMax
  else
    let window := Z.shiftl backoffBase shift in
    if (window <=? 0) || (window >? backoffMax) then backoffMax else window.

Definition clearExpiredBackoff (e : authAttempt) (now : Z) : authAttempt :=
  match until e with
  | Some u => if now <? u then e else mkAttempt (failures e) None (lastFailure e)
  | None => e
  end.

(** Expire one entry, as both parts of [sweep] do. *)
Definition sweep_entry (now : Z) (m : gmap bytes authAttempt) (k : bytes) : gmap bytes authAttempt :=
  match m !! k with
  | None => m
  | Some e =>
      if now - lastFailure e >? attemptTTL then delete k m
      else <[k := clearExpiredBackoff e now]> m
  end.

(** [order] is the iteration order of the map. *)
Definition sweep (now : Z) (order : list bytes) (a : Authenticator) (key : bytes) : Authenticator :=
  let m := sweep_entry now (au_attempts a) key in
  mkAuth (au_threshold a)
    (foldl (fun m k => if bool_decide (k = key) then m else sweep_entry now m k) m (take sweepLimit order)).

Definition recordFailure (now : Z) (a : Authenticator) (key : bytes) : Authenticator :=
  let e := default (mkAttempt 0 None 0) (au_attempts a !! key) in
  let n := failures e + 1 in
  let u := if n >=? au_threshold a then Some (now + backoffFor n (au_threshold a)) else until e in
  mkAuth (au_threshold a) (<[key := mkAttempt n u now]> (au_attempts a)).

Definition inBackoff (now : Z) (a : Authenticator) (key : bytes) : bool :=
  match au_attempts a !! key with
  | Some e => match until e with Some u => now <? u | None => false end
  | None => false
  end.

Definition clearAttempts (a : Authenticator) (key : bytes) : Authenticator :=
  mkAuth (au_threshold a) (delete key (au_attempts a)).

Definition parseBasicHeader (header : bytes) : option (bytes * bytes) :=
  let prefix := #"Basic " in
  if bool_decide (length header < length prefix)%nat || negb (ascii_EqualFold (take (length prefix) header) prefix)
  then None
  else match DecodeString (TrimSpace (drop (length prefix) header)) with
  | None => None
  | Some decoded =>
      match Cut decoded colon with
      | (user, pass, found) => if negb found || bool_decide (user = []) then None else Some (user, pass)
      end
  end.

Definition constantTimeEqual (a b : bytes) : bool := seq_eqb (Sum256 a) (Sum256 b).

(** The answer of the [SecretResolver]. *)
Inductive secret_answer :=
| Secret (username password : bytes)
| SecretStoreUnavailable
| SecretOtherError.

(** [clientIP.String()], or the empty string for nil. *)
Definition client_text (clientIP : IP) : bytes :=
  match clientIP with [] => [] | _ => IP_String clientIP end.

Definition Authorize (now : Z) (order : list bytes) (resolver : bytes -> secret_answer)
    (a : Authenticator) (route : auth_route) (clientIP : IP) (header : bytes) :
    result unit entry_err * Authenticator :=
  if negb (RequiresAuth route) then (Ok tt, a)
  else
    let key := attemptKey (ar_ID route) (client_text clientIP) in
    let a := sweep now order a key in
    if bool_decide (ar_CredentialID route = []) then (Err ErrAuthFailed, recordFailure now a key)
    else if inBackoff now a key then (Err ErrAuthBackoff, a)
    else match parseBasicHeader header with
    | None => (Err ErrAuthRequired, recordFailure now a key)
    | Some (username, password) =>
        match resolver (ar_CredentialID route) with
        | SecretStoreUnavailable => (Err ErrSecretUnavailable, a)
        | SecretOtherError => (Err ErrAuthFailed, recordFailure now a key)
        | Secret u p =>
            if negb (constantTimeEqual username u) || negb (constantTimeEqual password p)
            then (Err ErrAuthFailed, recordFailure now a key)
            else (Ok tt, clearAttempts a key)
        end
    end.

(** A request as the authenticator sees it. *)
Record auth_request := mkRequest {
  rq_now : Z;
  rq_order : list bytes;
  rq_route : auth_route;
  rq_client : IP;
  rq_header : bytes;
}.

Definition rq_key (q : auth_request) : bytes :=
  attemptKey (ar_ID (rq_route q)) (client_text (rq_client q)).

Definition auth_step (resolver : bytes -> secret_answer) (a : Authenticator) (q : auth_request) :
    result unit entry_err * Authenticator :=
  Authorize (rq_now q) (rq_order q) resolver a (rq_route q) (rq_client q) (rq_header q).

Fixpoint auth_run (resolver : bytes -> secret_answer) (a : Authenticator) (qs : list auth_request) :
    list (result unit entry_err) * Authenticator :=
  match qs with
  | [] => ([], a)
  | q :: qs' =>
      let '(r, a1) := auth_step resolver a q in
      let '(rs, a2) := auth_run resolver a1 qs' in
      (r :: rs, a2)
  end.
End entry.

(** ** Lemmas *)

(** *** Source allowlists *)

Lemma cidr_has_slash v k : ContainsByte (cidr4_string v k) slash = true.
Proof. apply ContainsByte_spec. unfold cidr4_string. rewrite elem_of_app. right. left. Qed.

Lemma NormalizeCIDR_cidr4 `{GoUnicode} v k : is_addr4 v -> 0 <= k <= 32 ->
  NormalizeCIDR (cidr4_string v k) = Ok (cidr4_string (block k v) k).
Proof.
  intros Hv Hk. unfold NormalizeCIDR. rewrite cidr4_TrimSpace by done.
  destruct (cidr4_nonempty v k) as (c & s & E). rewrite E at 1. rewrite <- E, cidr_has_slash. rewrite ParseCIDR_string by done. by rewrite IPNet_String_net4.
Qed.

Lemma acl_parse_cidr4 `{GoUnicode} (l : list (Z * Z)) :
  Forall (fun e => is_addr4 e.1 /\ 0 <= e.2 <= 32) l ->
  acl_parse ((fun e => cidr4_string e.1 e.2) <$> l) = Ok ((fun e => net4 (block e.2 e.1) e.2) <$> l).
Proof.
  induction 1 as [|[v k] l [Hv Hk] _ IH]; [done|]. rewrite !fmap_cons. cbn [acl_parse fst snd] in *.
  rewrite NormalizeCIDR_cidr4, ParseCIDR_string by (try apply block_addr4; done).
  rewrite IH. by rewrite block_idemp.
Qed.

Lemma acl_parse_bad `{GoUnicode} cidrs raw e :
  raw ∈ cidrs -> NormalizeCIDR raw = Err e -> exists e', acl_parse cidrs = Err e'.
Proof.
  intros Hin He. induction cidrs as [|c cidrs IH]; [set_solver|]. cbn [acl_parse].
  apply elem_of_cons in Hin as [<-|Hin]; [rewrite He; eauto|].
  destruct (NormalizeCIDR c) as [n|]; [|eauto]. destruct (ParseCIDR n) as [[? ?]|]; [|eauto].
  destruct (IH Hin) as [e' ->]. eauto.
Qed.

Lemma existsb_net4 l u : Forall (fun e => is_addr4 e.1 /\ 0 <= e.2 <= 32) l -> is_addr4 u ->
  existsb (fun n => IPNet_Contains n (be_put 4 u)) ((fun e => net4 (block e.2 e.1) e.2) <$> l) =
  existsb (fun e => bool_decide (block e.2 u = block e.2 e.1)) l.
Proof.
  intros Hl Hu. induction Hl as [|[v k] l [Hv Hk] _ IH]; [done|]. rewrite fmap_cons. cbn [existsb fst snd] in *.
  rewrite IH, IPNet_Contains_net4, block_idemp by (try apply block_addr4; done). done.
Qed.

(** *** Throttling *)

Lemma backoffFor_range f t : backoffBase <= backoffFor f t <= backoffMax.
Proof.
  unfold backoffFor. set (s := if f - t <? 0 then 0 else f - t).
  assert (0 <= s) by (unfold s; case_goal; split_bools; lia).
  destruct (s >? maxBackoffShift) eqn:E; [done|]. unfold maxBackoffShift in E. split_bools.
  assert (s = 0 \/ s = 1 \/ s = 2 \/ s = 3 \/ s = 4 \/ s = 5) as Hs by lia.
  by destruct Hs as [->|[->|[->|[->|[->| ->]]]]].
Qed.

Lemma backoffFor_mono f f' t : f <= f' -> backoffFor f t <= backoffFor f' t.
Proof.
  intros Hf. pose proof (backoffFor_range f t). unfold backoffFor.
  set (s := if f - t <? 0 then 0 else f - t). set (s' := if f' - t <? 0 then 0 else f' - t).
  assert (0 <= s <= s') by (unfold s, s'; repeat case_goal; split_bools; lia).
  unfold maxBackoffShift. destruct (s' >? 5) eqn:E'; split_bools.
  - pose proof (backoffFor_range f t) as [_ Hr]. unfold backoffFor in Hr. fold s in Hr. exact Hr.
  - replace (s >? 5) with false by lia.
    assert (s = 0 \/ s = 1 \/ s = 2 \/ s = 3 \/ s = 4 \/ s = 5) as Hs by lia.
    assert (s' = 0 \/ s' = 1 \/ s' = 2 \/ s' = 3 \/ s' = 4 \/ s' = 5) as Hs' by lia.
    destruct Hs as [E|[E|[E|[E|[E|E]]]]], Hs' as [F|[F|[F|[F|[F|F]]]]]; rewrite E, F in *; try lia; done.
Qed.

(** Sweeping treats every key on its own. *)
Lemma sweep_entry_ne now m k j : j <> k -> sweep_entry now m k !! j = m !! j.
Proof.
  intros Hj. unfold sweep_entry. destruct (m !! k); [|done].
  case_goal; [by rewrite lookup_delete_ne|by rewrite lookup_insert_ne].
Qed.

Lemma sweep_others_key now key l m :
  foldl (fun m k => if bool_decide (k = key) then m else sweep_entry now m k) m l !! key = m !! key.
Proof.
  revert m. induction l as [|k l IH]; intros m; [done|]. cbn [foldl]. rewrite IH.
  case_goal; [done|]. split_bools. by apply sweep_entry_ne.
Qed.

Lemma sweep_key now order a key :
  au_attempts (sweep now order a key) !! key = sweep_entry now (au_attempts a) key !! key.
Proof. unfold sweep; cbn. apply sweep_others_key. Qed.

Lemma sweep_entry_local now m m' k : m !! k = m' !! k -> sweep_entry now m k !! k = sweep_entry now m' k !! k.
Proof.
  intros E. unfold sweep_entry. rewrite <- E. destruct (m !! k) as [e|] eqn:Em; [|by rewrite Em, <- E].
  case_goal; [by rewrite !lookup_delete_eq|by rewrite !lookup_insert_eq].
Qed.

(** An entry that is neither stale nor expired survives a sweep unchanged. *)
Lemma sweep_entry_live now m k e u :
  m !! k = Some e -> until e = Some u -> now < u -> now - lastFailure e <= attemptTTL ->
  sweep_entry now m k !! k = Some e.
Proof.
  intros Hm Hu Hlt Httl. unfold sweep_entry. rewrite Hm.
  replace (now - lastFailure e >? attemptTTL) with false by lia. rewrite lookup_insert_eq.
  unfold clearExpiredBackoff. rewrite Hu. by replace (now <? u) with true by lia.
Qed.

Lemma sweep_live now order a key k e u :
  au_attempts a !! k = Some e -> until e = Some u -> now < u -> now - lastFailure e <= attemptTTL ->
  au_attempts (sweep now order a key) !! k = Some e.
Proof.
  intros Hm Hu Hlt Httl. unfold sweep; cbn [au_attempts].
  assert (sweep_entry now (au_attempts a) key !! k = Some e) as H0.
  { destruct (decide (k = key)) as [->|Hne]; [by eapply sweep_entry_live|by rewrite sweep_entry_ne]. }
  revert H0. generalize (sweep_entry now (au_attempts a) key).
  generalize (take sweepLimit order). intros l. induction l as [|j l IH]; intros m Hk; [exact Hk|]. cbn [foldl]. apply IH.
  case_goal; [done|]. destruct (decide (k = j)) as [->|Hne]; [by eapply sweep_entry_live|].
  by rewrite sweep_entry_ne.
Qed.

(** A key under penalty since [t0], for at least [n0] failures. *)
Definition penalized (a : Authenticator) (key : bytes) (t0 n0 : Z) : Prop :=
  exists e, au_attempts a !! key = Some e /\ t0 <= lastFailure e /\ n0 <= failures e /\
    until e = Some (lastFailure e + backoffFor (failures e) (au_threshold a)).

Lemma penalized_deadline a t0 n0 e :
  t0 <= lastFailure e -> n0 <= failures e ->
  t0 + backoffFor n0 (au_threshold a) <= lastFailure e + backoffFor (failures e) (au_threshold a).
Proof. intros Ht Hn. pose proof (backoffFor_mono _ _ (au_threshold a) Hn). lia. Qed.

Lemma sweep_penalized now order a key k t0 n0 :
  penalized a k t0 n0 -> now < t0 + backoffFor n0 (au_threshold a) ->
  penalized (sweep now order a key) k t0 n0.
Proof.
  intros (e & He & Ht & Hn & Hu) Hlt. exists e. split_and!; try done.
  pose proof (penalized_deadline a t0 n0 e Ht Hn). pose proof (backoffFor_range n0 (au_threshold a)).
  unfold backoffMax, attemptTTL in *. eapply sweep_live; [done|done|lia|].
  unfold attemptTTL. lia.
Qed.

Lemma recordFailure_penalized now a key k t0 n0 :
  penalized a k t0 n0 -> t0 <= now -> au_threshold a <= n0 ->
  penalized (recordFailure now a key) k t0 n0.
Proof.
  intros (e & He & Ht & Hn & Hu) Hnow Hthr. unfold penalized, recordFailure; cbn [au_attempts au_threshold].
  destruct (decide (key = k)) as [->|Hne].
  - rewrite lookup_insert_eq, He. cbn [default from_option id]. eexists. split; [reflexivity|].
    cbn [failures until lastFailure]. replace (failures e + 1 >=? au_threshold a) with true by lia.
    split_and!; [lia|lia|done].
  - exists e. rewrite lookup_insert_ne by done. done.
Qed.

Lemma penalized_inBackoff now a key t0 n0 :
  penalized a key t0 n0 -> now < t0 + backoffFor n0 (au_threshold a) -> inBackoff now a key = true.
Proof.
  intros (e & He & Ht & Hn & Hu) Hlt. unfold inBackoff. rewrite He, Hu.
  pose proof (penalized_deadline a t0 n0 e Ht Hn). apply Z.ltb_lt. lia.
Qed.

(** One request by anyone, during the window. *)
Lemma auth_step_penalized `{GoUnicode} resolver a q key t0 n0 r a' :
  auth_step resolver a q = (r, a') ->
  penalized a key t0 n0 -> au_threshold a <= n0 ->
  t0 <= rq_now q < t0 + backoffFor n0 (au_threshold a) ->
  penalized a' key t0 n0 /\ au_threshold a' = au_threshold a /\
  (rq_key q = key -> RequiresAuth (rq_route q) = true -> exists e, r = Err e).
Proof.
  intros E Hpen Hthr Hnow. unfold auth_step, Authorize in E.
  destruct (RequiresAuth (rq_route q)) eqn:Er; cbn [negb] in E.
  2:{ injection E as <- <-. by split_and!. }
  fold (rq_key q) in E. set (a1 := sweep (rq_now q) (rq_order q) a (rq_key q)) in *.
  assert (penalized a1 key t0 n0) as Hp1 by (apply sweep_penalized; [done|lia]).
  assert (au_threshold a1 = au_threshold a) as Ht1 by done.
  assert (forall k, penalized (recordFailure (rq_now q) a1 k) key t0 n0) as Hrec.
  { intros k. apply recordFailure_penalized; [done|lia|by rewrite Ht1]. }
  destruct (bool_decide (ar_CredentialID (rq_route q) = [])).
  { injection E as <- <-. split_and!; [apply Hrec|done|eauto]. }
  destruct (decide (rq_key q = key)) as [Hk|Hk].
  { rewrite Hk in *. rewrite (penalized_inBackoff (rq_now q) a1 key t0 n0) in E by (done || rewrite Ht1; lia).
    injection E as <- <-. split_and!; [done|done|eauto]. }
  destruct (inBackoff (rq_now q) a1 (rq_key q)); [injection E as <- <-; by split_and!|].
  destruct (parseBasicHeader (rq_header q)) as [[u p]|].
  2:{ injection E as <- <-. split_and!; [apply Hrec|done|done]. }
  destruct (resolver _).
  - destruct (_ || _); injection E as <- <-; (split_and!; [|done|done]); [apply Hrec|].
    destruct Hp1 as (e & He & Hrest). exists e. split; [|done]. cbn. by rewrite lookup_delete_ne.
  - injection E as <- <-. by split_and!.
  - injection E as <- <-. split_and!; [apply Hrec|done|done].
Qed.

(** ** Properties *)

(** A source allowlist fails closed and means what it says: with an invalid
    entry, or with no entry, no address is admitted; for IPv4 entries, an address,
    given in 4-byte or IPv4-mapped form, is admitted exactly when its leading bits
    agree with those of some entry. *)
Theorem source_acl_correct `{GoUnicode} (l : list (Z * Z)) (u : Z)
    (Hl : Forall (fun e => is_addr4 e.1 /\ 0 <= e.2 <= 32) l) (Hu : is_addr4 u) :
  (forall cidrs raw e ip, raw ∈ cidrs -> NormalizeCIDR raw = Err e ->
     ACL_Allow (NewSourceACL cidrs).1 ip = false) /\
  (forall ip, ACL_Allow (NewSourceACL []).1 ip = false) /\
  (let acl := (NewSourceACL ((fun e => cidr4_string e.1 e.2) <$> l)).1 in
   ACL_Allow acl (be_put 4 u) = existsb (fun e => bool_decide (u / 2 ^ (32 - e.2) = e.1 / 2 ^ (32 - e.2))) l /\
   ACL_Allow acl (v4InV6Prefix ++ be_put 4 u) = ACL_Allow acl (be_put 4 u)).
Proof.
  split_and!; [|done|].
  - intros cidrs raw e ip Hin He. unfold NewSourceACL.
    by destruct (acl_parse_bad cidrs raw e Hin He) as [e' ->].
  - cbn zeta. unfold NewSourceACL. rewrite acl_parse_cidr4 by done. cbn [fst]. unfold ACL_Allow.
    cbn [acl_broken acl_networks orb]. rewrite To4_put, To4_mapped by apply length_be_put.
    destruct (be_put4_cons u) as (b & t & Eb). rewrite (bool_decide_eq_false_2 (be_put 4 u = [])) by by rewrite Eb.
    rewrite (bool_decide_eq_false_2 (v4InV6Prefix ++ be_put 4 u = [])) by done. rewrite orb_false_r.
    assert (forall d : bytes, match be_put 4 u with [] => d | v4 => v4 end = be_put 4 u) as Hm by by rewrite Eb.
    rewrite !Hm. split; [|done].
    destruct (decide (l = [])) as [->|Hne]; [done|].
    rewrite bool_decide_eq_false_2 by by destruct l. rewrite existsb_net4 by done.
    clear Hne. induction Hl as [|[v k] l [Hv Hk] _ IH]; [done|]. cbn [existsb fst snd] in *. rewrite IH. f_equal.
    apply bool_decide_ext. by apply block_eq_iff.
Qed.

Lemma source_acl_correct_witness :
  @ACL_Allow (@NewSourceACL ascii_unicode [ #"10.1.0.0/16"; #"192.0.2.7/32"]).1 (be_put 4 167837953) = true.
Proof.
  destruct (@source_acl_correct ascii_unicode [(167837696, 16); (3221225991, 32)] 167837953)
    as (_ & _ & H & _); [repeat constructor; done|done|]. exact H.
Defined.

(** [NormalizeCIDR] mistreats a bare IPv4-mapped address: because [To4]
    accepts it, [/32] is appended to the 128-bit text, so [::ffff:192.0.2.1] is
    stored as [::/32]; the resulting allowlist denies 192.0.2.1 and admits [::1]. *)
Theorem mapped_address_widens_acl `{GoUnicode} :
  NormalizeCIDR #"::ffff:192.0.2.1" = Ok #"::/32" /\
  let acl := (NewSourceACL [ #"::ffff:192.0.2.1" ]).1 in
  ACL_Allow acl (ParseIP #"192.0.2.1") = false /\ ACL_Allow acl (ParseIP #"::1") = true.
Proof. split; [|cbn zeta; split]; vm_compute; reflexivity. Qed.


Definition sample_auth_request (t : Z) : auth_request :=
  mkRequest t [] (mkAuthRoute #"r1" #"basic" #"c1") (be_put 4 1) #"Basic dTpw".


(** Throttling is isolated per route and client: the decision on a request
    depends on the authenticator only through the attempt record of its own
    pair, so no other client's failures can lock it out. *)
Theorem throttling_is_per_client `{GoUnicode} (resolver : bytes -> secret_answer) (a a' : Authenticator)
    (q : auth_request) (Hthr : au_threshold a = au_threshold a')
    (Hkey : au_attempts a !! rq_key q = au_attempts a' !! rq_key q) :
  (auth_step resolver a q).1 = (auth_step resolver a' q).1 /\
  au_attempts (auth_step resolver a q).2 !! rq_key q = au_attempts (auth_step resolver a' q).2 !! rq_key q.
Proof.
  unfold auth_step, Authorize. fold (rq_key q). destruct (negb _); [done|].
  set (b := sweep _ _ a _). set (b' := sweep _ _ a' _).
  assert (au_attempts b !! rq_key q = au_attempts b' !! rq_key q) as Hb.
  { unfold b, b'. rewrite !sweep_key. by apply sweep_entry_local. }
  assert (au_threshold b = au_threshold b') as Ht by done.
  assert (au_attempts (recordFailure (rq_now q) b (rq_key q)) !! rq_key q =
    au_attempts (recordFailure (rq_now q) b' (rq_key q)) !! rq_key q) as Hrec.
  { unfold recordFailure; cbn [au_attempts]. by rewrite !lookup_insert_eq, Hb, Ht. }
  assert (inBackoff (rq_now q) b (rq_key q) = inBackoff (rq_now q) b' (rq_key q)) as -> by (unfold inBackoff; by rewrite Hb).
  repeat case_goal; cbn [fst snd]; try done. split; [done|]. cbn. by rewrite !lookup_delete_eq.
Qed.

Lemma throttling_is_per_client_witness :
  (@auth_step ascii_unicode (fun _ => Secret #"u" #"p")
     (recordFailure 0 (NewAuthenticator 1) #"r1|9.9.9.9") (sample_auth_request 5)).1 = Ok tt.
Proof.
  rewrite (proj1 (@throttling_is_per_client ascii_unicode (fun _ => Secret #"u" #"p")
    (recordFailure 0 (NewAuthenticator 1) #"r1|9.9.9.9") (NewAuthenticator 1) (sample_auth_request 5)
    eq_refl eq_refl)). by vm_compute.
Defined.
