(* ===== verification/VpnPool.v ===== *)
(** * VPN address pools

    internal/vpn/ippool.go: the pool carved into node subnets, and the
    allocation of peer addresses. *)

From stdpp Require Import base list sets strings sorting.
From Stdlib Require Import Ascii.
From S2P Require Import Prelude GoStrings GoNet Routing.
Local Open Scope Z_scope.

Inductive pool_err := ErrIPPoolInvalid | ErrIPPoolExhausted.

#[global] Instance pool_err_eq_dec : EqDecision pool_err.
Proof. solve_decision. Defined.

Definition maxNodeSubnets : Z := 4096.
Definition maxNodeSubnetBits : Z := 30.
Definition maxPoolBits : Z := 24.
Definition ipv4Bits : Z := 32.

Record Pool := mkPool { p_network : IPNet; p_size : Z; p_subnets : list IPNet }.

(** [uint32] addition on the four bytes. *)
Definition addIPv4 (base : IP) (offset : Z) : IP :=
  be_put 4 (uint 32 (be_get (take 4 base) + uint 32 offset)).

Section pool.
Context `{GoUnicode}.

Definition parseIPv4Network (cidr : bytes) : result (IP * IPNet * Z) pool_err :=
  match TrimSpace cidr with
  | [] => Err ErrIPPoolInvalid
  | trimmed =>
      match ParseCIDR trimmed with
      | None => Err ErrIPPoolInvalid
      | Some (literal, network) =>
          let '(ones, bits) := mask_Size (n_Mask network) in
          if negb (bits =? ipv4Bits) || bool_decide (To4 (n_IP network) = []) then Err ErrIPPoolInvalid
          else
            let mask := CIDRMask ones ipv4Bits in
            Ok (To4 literal, mkIPNet (ip_Mask (To4 (n_IP network)) mask) mask, ones)
      end
  end.

Definition ParsePool (cidr : bytes) (nodeSubnetSize : Z) : result Pool pool_err :=
  let! (_, network, size) := parseIPv4Network cidr in
  if size >? maxPoolBits then Err ErrIPPoolInvalid
  else if nodeSubnetSize <=? size then Err ErrIPPoolInvalid
  else if nodeSubnetSize >? maxNodeSubnetBits then Err ErrIPPoolInvalid
  else
    let count := Z.shiftl 1 (nodeSubnetSize - size) in
    if count >? maxNodeSubnets then Err ErrIPPoolInvalid
    else if IsDangerousAddress (n_IP network) then Err ErrIPPoolInvalid
    else
      let step := Z.shiftl 1 (ipv4Bits - nodeSubnetSize) in
      Ok (mkPool network nodeSubnetSize
        ((fun i => mkIPNet (addIPv4 (n_IP network) (Z.of_nat i * step)) (CIDRMask nodeSubnetSize ipv4Bits))
           <$> seq 0 (Z.to_nat count))).

Definition NodeSubnet (p : Pool) (cidr : bytes) : result IPNet pool_err :=
  let! (literal, network, size) := parseIPv4Network cidr in
  if negb (IPEqual literal (n_IP network)) then Err ErrIPPoolInvalid
  else if negb (size =? p_size p) then Err ErrIPPoolInvalid
  else if negb (IPNet_Contains (p_network p) (n_IP network)) then Err ErrIPPoolInvalid
  else Ok network.

(** The caller's subnet goes through its text form. *)
Definition validatedSubnet (p : Pool) (subnet : IPNet) : result IPNet pool_err :=
  NodeSubnet p (default #"<nil>" (IPNet_String subnet)).

Definition NodeAddress (p : Pool) (subnet : IPNet) : result IP pool_err :=
  let! n := validatedSubnet p subnet in Ok (addIPv4 (n_IP n) 1).

(** The probing loop; [n] candidates are left, the next at [offset]. *)
Fixpoint allocate_loop (n : nat) (offset : Z) (base : IP) (taken : IP -> bool) : result IP pool_err :=
  match n with
  | O => Err ErrIPPoolExhausted
  | S n' =>
      let candidate := addIPv4 base offset in
      if taken candidate then allocate_loop n' (offset + 1) base taken else Ok candidate
  end.

(** [taken] as nil is the function that answers false. *)
Definition AllocateAddress (p : Pool) (subnet : IPNet) (taken : IP -> bool) : result IP pool_err :=
  let! n := validatedSubnet p subnet in
  let hosts := Z.shiftl 1 (ipv4Bits - p_size p) in
  allocate_loop (Z.to_nat (hosts - 2 - 2 + 1)) 2 (n_IP n) taken.

Definition Pool_Contains (p : Pool) (ip : IP) : bool :=
  match To4 ip with
  | [] => false
  | four => IPNet_Contains (p_network p) four
  end.
End pool.

(** ** Lemmas *)

Lemma parseIPv4Network_inv `{GoUnicode} cidr lit n k :
  parseIPv4Network cidr = Ok (lit, n, k) ->
  exists v, is_addr4 v /\ 0 <= k <= 32 /\ lit = be_put 4 v /\ n = net4 (block k v) k.
Proof.
  unfold parseIPv4Network. destruct (TrimSpace cidr) as [|c s]; [done|].
  destruct (ParseCIDR (c :: s)) as [[l0 n0]|] eqn:Ep; [|done].
  destruct (mask_Size (n_Mask n0)) as [ones bits] eqn:Em.
  destruct (bits =? ipv4Bits) eqn:Eb; [|done]. split_bools. subst bits. cbn [negb orb].
  apply ParseCIDR_inv4 in Ep as (v & k' & Hv & Hk & -> & ->); [|by rewrite Em].
  unfold net4 in Em. cbn [n_Mask] in Em. rewrite mask_Size_CIDR in Em by done. injection Em as <-.
  cbn [net4 n_IP n_Mask]. destruct (bool_decide _); [done|].
  rewrite To4_put, To4_mapped by apply length_be_put.
  change ipv4Bits with 32. rewrite ip_Mask_put, block_idemp by (try apply block_addr4; done).
  intros E. assert (k' = k) as <- by congruence.
  exists v. split_and!; [done|lia|lia|congruence|unfold net4; congruence].
Qed.

Lemma parseIPv4Network_string `{GoUnicode} v k : is_addr4 v -> 0 <= k <= 32 ->
  parseIPv4Network (cidr4_string v k) = Ok (be_put 4 v, net4 (block k v) k, k).
Proof.
  intros Hv Hk. unfold parseIPv4Network. rewrite cidr4_TrimSpace by done.
  destruct (cidr4_nonempty v k) as (c & s & E). rewrite E. rewrite <- E, ParseCIDR_string by done.
  cbn [net4 n_IP n_Mask]. rewrite mask_Size_CIDR by done. cbn [negb Z.eqb ipv4Bits Pos.eqb orb].
  rewrite To4_put, To4_mapped by apply length_be_put.
  rewrite bool_decide_eq_false_2 by (destruct (be_put4_cons (block k v)) as (? & ? & ->); done).
  rewrite ip_Mask_put, block_idemp by (try apply block_addr4; done). done.
Qed.

Lemma addIPv4_put v o : is_addr4 v -> 0 <= o -> v + o < 2 ^ 32 -> addIPv4 (be_put 4 v) o = be_put 4 (v + o).
Proof.
  intros Hv Ho Hs. unfold addIPv4, is_addr4 in *.
  rewrite take_ge by (rewrite length_be_put; lia).
  by rewrite be_get_put4, (uint_small 32 o), uint_small by (unfold is_addr4; lia).
Qed.

(** What a parsed pool looks like: base [v], prefix [k], node prefix [s]. *)
Record pool_shape (p : Pool) (v k s : Z) : Prop := {
  ps_addr : is_addr4 v /\ block k v = v;
  ps_bits : 0 <= k <= 24 /\ k < s <= 30 /\ s - k <= 12;
  ps_net : p_network p = net4 v k;
  ps_size : p_size p = s;
  ps_subnets : p_subnets p =
    (fun i => net4 (v + Z.of_nat i * 2 ^ (32 - s)) s) <$> seq 0 (Z.to_nat (2 ^ (s - k)));
}.

(** A block base leaves room for its block. *)
Lemma block_room k v : 0 <= k <= 32 -> is_addr4 v -> block k v = v -> v + 2 ^ (32 - k) <= 2 ^ 32.
Proof.
  intros Hk Hv Hb. unfold block, is_addr4 in *.
  assert (0 < 2 ^ (32 - k)) as Hp by (apply Z.pow_pos_nonneg; lia).
  assert (2 ^ 32 = 2 ^ k * 2 ^ (32 - k)) as E by (rewrite <- Z.pow_add_r by lia; f_equal; lia).
  pose proof (Z.div_mod v (2 ^ (32 - k)) ltac:(lia)).
  assert (v / 2 ^ (32 - k) < 2 ^ k) by (apply Z.div_lt_upper_bound; lia). nia.
Qed.

Lemma pow_split k s : k <= s <= 32 -> 2 ^ (32 - k) = 2 ^ (s - k) * 2 ^ (32 - s).
Proof. intros H. destruct (decide (k <= s)); [|lia]. rewrite <- Z.pow_add_r by lia. f_equal. lia. Qed.

Lemma ParsePool_shape `{GoUnicode} cidr s p :
  ParsePool cidr s = Ok p -> exists v k, pool_shape p v k s.
Proof.
  unfold ParsePool. destruct (parseIPv4Network cidr) as [[[lit n] k]|] eqn:E; [|done]. cbn [rbind].
  apply parseIPv4Network_inv in E as (v & Hv & Hk & -> & ->).
  unfold maxPoolBits, maxNodeSubnetBits, maxNodeSubnets, ipv4Bits.
  destruct (k >? 24) eqn:E1; [done|]. destruct (s <=? k) eqn:E2; [done|]. destruct (s >? 30) eqn:E3; [done|].
  rewrite !Z.shiftl_1_l. destruct (2 ^ (s - k) >? 4096) eqn:E4; [done|]. destruct (IsDangerousAddress _); [done|].
  intros E%Ok_inj. subst p. split_bools. exists (block k v), k.
  assert (s - k <= 12) as Hsk.
  { destruct (decide (s - k <= 12)); [done|]. assert (2 ^ 13 <= 2 ^ (s - k)) by (apply Z.pow_le_mono_r; lia). lia. }
  split; cbn [p_network p_size p_subnets n_IP net4]; try done;
    [split; [by apply block_addr4|by apply block_idemp]|lia|].
  apply list_fmap_ext. intros i j Hj. apply lookup_seq in Hj as [-> Hj]. unfold net4. f_equal.
  assert (0 < 2 ^ (32 - s)) by (apply Z.pow_pos_nonneg; lia).
  pose proof (block_room k (block k v) ltac:(lia) ltac:(by apply block_addr4) ltac:(by apply block_idemp)).
  rewrite (pow_split k s) in * by lia. rewrite addIPv4_put by (by apply block_addr4 || nia). done.
Qed.

Section shape.
Context (p : Pool) (v k s : Z) (Hp : pool_shape p v k s).

Lemma shape_pos : 0 < 2 ^ (32 - s) /\ 0 < 2 ^ (s - k).
Proof. destruct Hp as [_ (Hk & Hs & _) _ _ _]. split; apply Z.pow_pos_nonneg; lia. Qed.

(** The base is a multiple of both block sizes. *)
Lemma shape_base : exists w, v = w * 2 ^ (s - k) * 2 ^ (32 - s) /\ v / 2 ^ (32 - k) = w.
Proof.
  destruct Hp as [[Hv Hb] (Hk & Hs & _) _ _ _]. exists (v / 2 ^ (32 - k)).
  split; [|done]. rewrite <- Z.mul_assoc, <- pow_split by lia. unfold block in Hb.
  assert (0 < 2 ^ (32 - k)) by (apply Z.pow_pos_nonneg; lia).
  pose proof (Z.div_mod v (2 ^ (32 - k)) ltac:(lia)). lia.
Qed.

Lemma shape_sub_addr i : 0 <= i < 2 ^ (s - k) ->
  is_addr4 (v + i * 2 ^ (32 - s)) /\ v + i * 2 ^ (32 - s) + 2 ^ (32 - s) <= 2 ^ 32 /\
  block s (v + i * 2 ^ (32 - s)) = v + i * 2 ^ (32 - s).
Proof.
  intros Hi. pose proof shape_pos as [Hq Hm]. destruct shape_base as (w & Hw & _).
  destruct Hp as [[Hv Hb] (Hk & Hs & _) _ _ _].
  pose proof (block_room k v ltac:(lia) Hv Hb) as Hroom. rewrite (pow_split k s) in Hroom by lia.
  split_and!.
  - unfold is_addr4 in *. nia.
  - nia.
  - unfold block. rewrite Hw.
    replace (w * 2 ^ (s - k) * 2 ^ (32 - s) + i * 2 ^ (32 - s)) with ((w * 2 ^ (s - k) + i) * 2 ^ (32 - s)) by ring.
    rewrite Z.mod_mul by lia. lia.
Qed.

Lemma shape_subnet_lookup i n :
  p_subnets p !! i = Some n ->
  n = net4 (v + Z.of_nat i * 2 ^ (32 - s)) s /\ 0 <= Z.of_nat i < 2 ^ (s - k).
Proof.
  pose proof shape_pos. destruct Hp as [_ _ _ _ ->]. intros Hn.
  apply list_lookup_fmap_Some in Hn as (j & -> & Hj). apply lookup_seq in Hj as [-> Hj].
  split; [done|]. lia.
Qed.

Lemma shape_subnet_contains i n u :
  p_subnets p !! i = Some n -> is_addr4 u ->
  IPNet_Contains n (be_put 4 u) = true <-> u / 2 ^ (32 - s) = v / 2 ^ (32 - s) + Z.of_nat i.
Proof.
  intros Hn Hu. apply shape_subnet_lookup in Hn as [-> Hi].
  destruct (shape_sub_addr _ Hi) as (Ha & _ & _). pose proof shape_pos as [Hq _].
  pose proof Hp as [_ (Hk & Hs & _) _ _ _].
  rewrite IPNet_Contains_net4, bool_decide_eq_true, block_eq_iff by (done || lia).
  rewrite Z.div_add by lia. done.
Qed.

Lemma shape_pool_contains u : is_addr4 u ->
  Pool_Contains p (be_put 4 u) = true <->
  v / 2 ^ (32 - s) <= u / 2 ^ (32 - s) < v / 2 ^ (32 - s) + 2 ^ (s - k).
Proof.
  intros Hu. unfold Pool_Contains. rewrite To4_put. destruct (be_put4_cons u) as (b & t & Eb).
  rewrite Eb. rewrite <- Eb. pose proof shape_pos as [Hq Hm]. destruct shape_base as (w & Hw & Hdiv).
  destruct Hp as [[Hv Hb] (Hk & Hs & _) -> _ _].
  rewrite IPNet_Contains_net4, bool_decide_eq_true, block_eq_iff by (done || lia).
  rewrite Hdiv, (pow_split k s), Z.mul_comm, <- Z.div_div by lia.
  rewrite Hw, Z.div_mul by lia. set (x := u / 2 ^ (32 - s)).
  pose proof (Z.div_mod x (2 ^ (s - k)) ltac:(lia)). pose proof (Z.mod_pos_bound x (2 ^ (s - k)) ltac:(lia)).
  split; [intros; nia|]. intros Hx. symmetry. apply (Z.div_unique _ _ _ (x - w * 2 ^ (s - k))); lia.
Qed.
End shape.

(** *** Allocation *)

Lemma allocate_loop_spec n o base taken :
  match allocate_loop n o base taken with
  | Ok ip => exists i, 0 <= i < Z.of_nat n /\ ip = addIPv4 base (o + i) /\ taken ip = false /\
               forall j, 0 <= j < i -> taken (addIPv4 base (o + j)) = true
  | Err e => e = ErrIPPoolExhausted /\ forall j, 0 <= j < Z.of_nat n -> taken (addIPv4 base (o + j)) = true
  end.
Proof.
  revert o. induction n as [|n IH]; intros o; cbn [allocate_loop]; [split; [done|lia]|].
  destruct (taken (addIPv4 base o)) eqn:Et.
  - specialize (IH (o + 1)). destruct (allocate_loop n (o + 1) base taken) as [ip|e].
    + destruct IH as (i & Hi & -> & Hf & Hall). exists (i + 1). split_and!; [lia|lia|f_equal; lia|done|].
      intros j Hj. destruct (decide (j = 0)) as [->|]; [by rewrite Z.add_0_r|].
      replace (o + j) with (o + 1 + (j - 1)) by lia. apply Hall. lia.
    + destruct IH as [-> Hall]. split; [done|]. intros j Hj.
      destruct (decide (j = 0)) as [->|]; [by rewrite Z.add_0_r|].
      replace (o + j) with (o + 1 + (j - 1)) by lia. apply Hall. lia.
  - exists 0. rewrite Z.add_0_r. split_and!; [lia|lia|done|done|lia].
Qed.

(** A carved subnet validates to itself. *)
Lemma validatedSubnet_shape `{GoUnicode} p v k s i n :
  pool_shape p v k s -> p_subnets p !! i = Some n ->
  validatedSubnet p n = Ok (net4 (v + Z.of_nat i * 2 ^ (32 - s)) s).
Proof.
  intros Hp Hn. pose proof Hn as Hn'. apply (shape_subnet_lookup _ _ _ _ Hp) in Hn' as [-> Hi].
  destruct (shape_sub_addr _ _ _ _ Hp _ Hi) as (Ha & Hroom & Hb).
  pose proof (shape_pool_contains _ _ _ _ Hp _ Ha) as Hc. pose proof (shape_pos _ _ _ _ Hp) as [Hq Hm].
  pose proof Hp as [[Hv Hbv] (Hk & Hs & _) Hnet Hsize _].
  unfold validatedSubnet. rewrite IPNet_String_net4 by lia. cbn [default from_option id].
  unfold NodeSubnet. rewrite parseIPv4Network_string by (done || lia). cbn [rbind]. rewrite Hb.
  cbn [n_IP net4]. unfold IPEqual. rewrite decide_True, seq_eqb_refl by done. cbn [negb].
  rewrite Hsize, Z.eqb_refl. cbn [negb].
  assert (IPNet_Contains (p_network p) (be_put 4 (v + Z.of_nat i * 2 ^ (32 - s))) = true) as ->; [|done].
  unfold Pool_Contains in Hc. rewrite To4_put in Hc.
  destruct (be_put4_cons (v + Z.of_nat i * 2 ^ (32 - s))) as (b & t & Eb).
  rewrite Eb in Hc. rewrite <- Eb in Hc. apply Hc. rewrite Z.div_add by lia. lia.
Qed.

(** ** Properties *)

(** Carving a pool partitions it: whenever [ParsePool] accepts a
    configuration, it yields at most 4096 node subnets, every subnet lies inside
    the pool, every pool address lies in some subnet, and no address lies in two. *)
Theorem pool_subnets_partition `{GoUnicode} (cidr : bytes) (size : Z) (p : Pool) (u : Z)
    (Hp : ParsePool cidr size = Ok p) (Hu : is_addr4 u) :
  Z.of_nat (length (p_subnets p)) <= maxNodeSubnets /\
  (Pool_Contains p (be_put 4 u) = true <->
   exists i n, p_subnets p !! i = Some n /\ IPNet_Contains n (be_put 4 u) = true) /\
  (forall i j n n', p_subnets p !! i = Some n -> p_subnets p !! j = Some n' ->
     IPNet_Contains n (be_put 4 u) = true -> IPNet_Contains n' (be_put 4 u) = true -> i = j).
Proof.
  apply ParsePool_shape in Hp as (v & k & Hs). pose proof (shape_pos _ _ _ _ Hs) as [Hq Hm].
  pose proof (shape_pool_contains _ _ _ _ Hs u Hu) as Hpc.
  pose proof (fun i n Hn => shape_subnet_contains _ _ _ _ Hs i n u Hn Hu) as Hsc. split_and!.
  - destruct Hs as [_ (_ & _ & Hb) _ _ ->]. rewrite length_fmap, length_seq, Z2Nat.id by lia.
    change maxNodeSubnets with (2 ^ 12). apply Z.pow_le_mono_r; lia.
  - rewrite Hpc. split.
    + intros Hr. set (i := Z.to_nat (u / 2 ^ (32 - size) - v / 2 ^ (32 - size))).
      assert (is_Some (p_subnets p !! i)) as [n Hn].
      { apply lookup_lt_is_Some. destruct Hs as [_ _ _ _ ->]. rewrite length_fmap, length_seq. unfold i. lia. }
      exists i, n. split; [done|]. apply (Hsc _ _ Hn). unfold i. lia.
    + intros (i & n & Hn & Hc). apply (Hsc _ _ Hn) in Hc.
      apply (shape_subnet_lookup _ _ _ _ Hs) in Hn as [_ Hi]. lia.
  - intros i j n n' Hi Hj Hci Hcj. apply (Hsc _ _ Hi) in Hci. apply (Hsc _ _ Hj) in Hcj. lia.
Qed.

Lemma pool_subnets_partition_witness :
  exists p, @ParsePool ascii_unicode #"10.64.7.0/22" 24 = Ok p /\
    Z.of_nat (length (p_subnets p)) <= maxNodeSubnets.
Proof.
  destruct (@ParsePool ascii_unicode #"10.64.7.0/22" 24) as [p|e] eqn:E; [|by vm_compute in E].
  exists p. split; [reflexivity|].
  apply (@pool_subnets_partition ascii_unicode #"10.64.7.0/22" 24 p 0 E). split; done.
Defined.

(** [AllocateAddress] on a carved subnet returns the lowest free host
    address: an address of the subnet that is not taken and is neither its
    network address, nor the node's own address, nor its broadcast address, all
    lower host addresses being taken; and it reports exhaustion exactly when every
    host address is taken, never another error. *)
Theorem allocate_lowest_free `{GoUnicode} (cidr : bytes) (size : Z) (p : Pool) (i : nat) (n : IPNet)
    (taken : IP -> bool)
    (Hp : ParsePool cidr size = Ok p) (Hn : p_subnets p !! i = Some n) :
  exists base, n = net4 base size /\ is_addr4 base /\
  NodeAddress p n = Ok (be_put 4 (base + 1)) /\
  match AllocateAddress p n taken with
  | Ok ip => exists o, 2 <= o <= 2 ^ (32 - size) - 2 /\ ip = be_put 4 (base + o) /\ taken ip = false /\
      IPNet_Contains n ip = true /\ ip <> be_put 4 (base + 1) /\
      (forall o', 2 <= o' < o -> taken (be_put 4 (base + o')) = true)
  | Err e => e = ErrIPPoolExhausted /\
      forall o, 2 <= o <= 2 ^ (32 - size) - 2 -> taken (be_put 4 (base + o)) = true
  end.
Proof.
  apply ParsePool_shape in Hp as (v & k & Hs).
  pose proof (validatedSubnet_shape _ _ _ _ _ _ Hs Hn) as Hval.
  pose proof Hn as Hn'. apply (shape_subnet_lookup _ _ _ _ Hs) in Hn' as [-> Hi].
  destruct (shape_sub_addr _ _ _ _ Hs _ Hi) as (Ha & Hroom & Hb).
  set (base := v + Z.of_nat i * 2 ^ (32 - size)) in *. exists base.
  pose proof Hs as [_ (Hk & Hsz & _) _ Hsize _].
  assert (2 ^ 2 <= 2 ^ (32 - size)) as H4 by (apply Z.pow_le_mono_r; lia).
  assert (forall o, 0 <= o < 2 ^ (32 - size) -> addIPv4 (be_put 4 base) o = be_put 4 (base + o)) as Hadd.
  { intros o Ho. apply addIPv4_put; [done|lia|lia]. }
  split_and!; [done|done| |].
  { unfold NodeAddress. rewrite Hval. cbn [rbind n_IP net4]. by rewrite Hadd by lia. }
  unfold AllocateAddress. rewrite Hval. cbn [rbind n_IP net4]. rewrite Hsize, Z.shiftl_1_l. unfold ipv4Bits.
  set (cnt := Z.to_nat _). assert (Z.of_nat cnt = 2 ^ (32 - size) - 3) as Hcnt by (unfold cnt; lia).
  pose proof (allocate_loop_spec cnt 2 (be_put 4 base) taken) as Hl.
  destruct (allocate_loop cnt 2 (be_put 4 base) taken) as [ip|e].
  - destruct Hl as (j & Hj & -> & Ht & Hall). rewrite Hadd in * by lia. exists (2 + j).
    assert (is_addr4 (base + (2 + j))) as Ha' by (unfold is_addr4 in *; lia).
    split_and!; [lia|lia|done|done| | |].
    + rewrite IPNet_Contains_net4, bool_decide_eq_true, block_eq_iff by (done || lia).
      unfold block in Hb. symmetry. apply (Z.div_unique _ _ _ (2 + j)); [lia|].
      pose proof (Z.div_mod base (2 ^ (32 - size)) ltac:(lia)). lia.
    + intros E. apply be_put4_inj in E; [lia|done|unfold is_addr4 in *; lia].
    + intros o' Ho'. replace (base + o') with (base + (2 + (o' - 2))) by lia. rewrite <- Hadd by lia. apply Hall. lia.
  - destruct Hl as [-> Hall]. split; [done|]. intros o Ho.
    replace (base + o) with (base + (2 + (o - 2))) by lia. rewrite <- Hadd by lia. apply Hall. lia.
Qed.

Lemma allocate_lowest_free_witness :
  exists p n base, @ParsePool ascii_unicode #"10.64.0.0/24" 26 = Ok p /\ p_subnets p !! 1%nat = Some n /\
    n = net4 base 26 /\ @NodeAddress ascii_unicode p n = Ok (be_put 4 (base + 1)).
Proof.
  destruct (@ParsePool ascii_unicode #"10.64.0.0/24" 26) as [p|e] eqn:E; [|by vm_compute in E].
  destruct (p_subnets p !! 1%nat) as [n|] eqn:En; [|by vm_compute in E; injection E as <-].
  destruct (@allocate_lowest_free ascii_unicode #"10.64.0.0/24" 26 p 1 n (fun _ => false) E En)
    as (base & H1 & _ & H2 & _).
  exists p, n, base. by split_and!.
Defined.

(** The danger check of [ParsePool] looks only at the network address: it
    accepts 169.0.0.0/8, a pool that contains the metadata address, which the
    egress policy denies. *)
Theorem pool_may_contain_dangerous `{GoUnicode} :
  exists p, ParsePool #"169.0.0.0/8" 12 = Ok p /\
    Pool_Contains p (ParseIP #"169.254.169.254") = true /\
    IsDangerousAddress (ParseIP #"169.254.169.254") = true.
Proof.
  destruct (ParsePool #"169.0.0.0/8" 12) as [p|e] eqn:E; [|by vm_compute in E].
  exists p. split; [done|]. vm_compute in E. injection E as <-. split; by vm_compute.
Qed.
