(* ===== verification/VpnPolicy.v ===== *)
(** * VPN peers and their egress policy

    internal/vpn/peerspec.go (peer specifications and the canonical text of
    their allowlists), internal/vpn/policy.go (the per-packet decision) and the
    key validation of internal/vpn/keys.go. *)

From stdpp Require Import base list sets strings sorting finite.
From Stdlib Require Import Ascii.
From S2P Require Import Prelude GoStrings GoNet GoCrypto Routing VpnPool.
Local Open Scope Z_scope.

(** Every refusal of this file carries the one code [vpn_peer_invalid]. *)
Inductive peer_err := ErrPeerInvalid | ErrBadMTU.

(** ** Runes *)

Definition cont (lo hi : Z) (c : byte) : bool := (lo <=? byte_val c) && (byte_val c <=? hi).

(** [utf8.DecodeRune]: the rune and its width; an invalid byte is U+FFFD. *)
Definition decode_rune (s : bytes) : Z * nat :=
  match s with
  | [] => (65533, 0%nat)
  | a :: s' =>
      let x := byte_val a in
      if x <? 128 then (x, 1%nat)
      else if (194 <=? x) && (x <=? 223) then
        match s' with
        | b :: _ => if cont 128 191 b then (x mod 32 * 64 + byte_val b mod 64, 2%nat) else (65533, 1%nat)
        | _ => (65533, 1%nat)
        end
      else if (224 <=? x) && (x <=? 239) then
        match s' with
        | b :: c :: _ =>
            if cont (if x =? 224 then 160 else 128) (if x =? 237 then 159 else 191) b && cont 128 191 c
            then (x mod 16 * 4096 + byte_val b mod 64 * 64 + byte_val c mod 64, 3%nat) else (65533, 1%nat)
        | _ => (65533, 1%nat)
        end
      else if (240 <=? x) && (x <=? 244) then
        match s' with
        | b :: c :: d :: _ =>
            if cont (if x =? 240 then 144 else 128) (if x =? 244 then 143 else 191) b &&
               cont 128 191 c && cont 128 191 d
            then (x mod 8 * 262144 + byte_val b mod 64 * 4096 + byte_val c mod 64 * 64 + byte_val d mod 64, 4%nat)
            else (65533, 1%nat)
        | _ => (65533, 1%nat)
        end
      else (65533, 1%nat)
  end.

(** [for _, r := range s]; [fuel] is the length in bytes. *)
Fixpoint runes (fuel : nat) (s : bytes) : list Z :=
  match fuel, s with
  | S fuel', _ :: _ => let '(r, n) := decode_rune s in r :: runes fuel' (drop n s)
  | _, _ => []
  end.

Definition runes_of (s : bytes) : list Z := runes (length s) s.

(** [unicode.IsControl]. *)
Definition IsControl (r : Z) : bool := ((0 <=? r) && (r <=? 31)) || ((127 <=? r) && (r <=? 159)).

(** ** Keys *)

Definition keySize : nat := 32.

Definition decodeKey (encoded : bytes) : option bytes :=
  match DecodeString encoded with
  | None => None
  | Some raw => if bool_decide (length raw = keySize) then Some raw else None
  end.

Definition isAllZero (raw : bytes) : bool := forallb (beq zero_byte) raw.

(** [crypto/ecdh] imports any 32 bytes as a public point. *)
Definition ValidatePublicKey (encoded : bytes) : result unit peer_err :=
  match decodeKey encoded with
  | None => Err ErrPeerInvalid
  | Some raw => if isAllZero raw then Err ErrPeerInvalid else Ok tt
  end.

(** ** Peer specifications *)

Definition MaxPeerNameLength : Z := 255.
Definition MaxPeerDescriptionLength : Z := 255.
Definition minPort : Z := 1.
Definition maxPort : Z := 65535.

(** A nil network of the allowlist is [None]; [ExpiresAt] is in nanoseconds. *)
Record PeerSpec := mkPeer {
  pe_Name : bytes;
  pe_Description : bytes;
  pe_PublicKey : bytes;
  pe_VPNIP : IP;
  pe_NodeID : bytes;
  pe_AgentID : bytes;
  pe_AllowedIPs : list (option IPNet);
  pe_AllowedPorts : list Z;
  pe_AllowPrivateTargets : bool;
  pe_ICMPEnabled : bool;
  pe_MaxConcurrentFlows : Z;
  pe_PacketRateLimit : Z;
  pe_ExpiresAt : option Z;
}.

Definition validateLabel (value : bytes) (max : Z) : result unit peer_err :=
  if Z.of_nat (length (runes_of value)) >? max then Err ErrPeerInvalid
  else if existsb IsControl (runes_of value) then Err ErrPeerInvalid
  else Ok tt.

Definition allowed_net_ok (n : option IPNet) : bool :=
  match n with
  | None => false
  | Some n =>
      let '(ones, bits) := mask_Size (n_Mask n) in
      (bits =? ipv4Bits) && negb (bool_decide (To4 (n_IP n) = [])) && (0 <=? ones) && (ones <=? ipv4Bits)
  end.

Section spec.
Context `{GoUnicode}.

Definition ValidateFields (s : PeerSpec) : result unit peer_err :=
  if bool_decide (TrimSpace (pe_Name s) = []) then Err ErrPeerInvalid
  else
    let! _ := validateLabel (pe_Name s) MaxPeerNameLength in
    let! _ := validateLabel (pe_Description s) MaxPeerDescriptionLength in
    if bool_decide (TrimSpace (pe_AgentID s) = []) then Err ErrPeerInvalid
    else if negb (forallb allowed_net_ok (pe_AllowedIPs s)) then Err ErrPeerInvalid
    else if negb (forallb (fun p => (minPort <=? p) && (p <=? maxPort)) (pe_AllowedPorts s)) then Err ErrPeerInvalid
    else if pe_MaxConcurrentFlows s <? 0 then Err ErrPeerInvalid
    else if pe_PacketRateLimit s <? 0 then Err ErrPeerInvalid
    else Ok tt.

Definition ValidateRequest (s : PeerSpec) (now : Z) : result unit peer_err :=
  let! _ := ValidateFields s in
  match pe_ExpiresAt s with
  | Some t => if t <=? now then Err ErrPeerInvalid else Ok tt
  | None => Ok tt
  end.

Definition ValidatePeer (s : PeerSpec) (now : Z) : result unit peer_err :=
  let! _ := ValidateRequest s now in
  let! _ := ValidatePublicKey (pe_PublicKey s) in
  if bool_decide (pe_VPNIP s = []) || bool_decide (To4 (pe_VPNIP s) = []) then Err ErrPeerInvalid
  else if bool_decide (TrimSpace (pe_NodeID s) = []) then Err ErrPeerInvalid
  else Ok tt.

(** ** Canonical allowlist text *)

(** The canonical text of one entry; [None] entries are skipped. *)
Definition canonical_net (n : option IPNet) : option bytes :=
  match n with
  | None => None
  | Some n =>
      match To4 (n_IP n) with
      | [] => None
      | four =>
          let '(ones, bits) := mask_Size (n_Mask n) in
          if negb (bits =? ipv4Bits) then None
          else
            let mask := CIDRMask ones ipv4Bits in
            Some (default #"<nil>" (IPNet_String (mkIPNet (ip_Mask four mask) mask)))
      end
  end.

(** Append unless already present: the [seen] map. *)
Definition add_unseen {A} `{EqDecision A} (l : list A) (x : A) : list A :=
  if bool_decide (x ∈ l) then l else l ++ [x].

Definition EncodeAllowedIPs (networks : list (option IPNet)) : bytes :=
  Join (sort_by str_ltb (foldl add_unseen [] (omap canonical_net networks))) comma.

Definition EncodeAllowedPorts (ports : list Z) : bytes :=
  let valid := List.filter (fun p => (minPort <=? p) && (p <=? maxPort)) ports in
  Join (Itoa <$> sort_by Z.ltb (foldl add_unseen [] valid)) comma.

Definition parse_allowed_token (token : bytes) : result IPNet peer_err :=
  match TrimSpace token with
  | [] => Err ErrPeerInvalid
  | t =>
      match ParseCIDR t with
      | None => Err ErrPeerInvalid
      | Some (_, n) =>
          let '(ones, bits) := mask_Size (n_Mask n) in
          if negb (bits =? ipv4Bits) || bool_decide (To4 (n_IP n) = []) then Err ErrPeerInvalid
          else Ok (mkIPNet (To4 (n_IP n)) (CIDRMask ones ipv4Bits))
      end
  end.

Fixpoint parse_all {A} (f : bytes -> result A peer_err) (tokens : list bytes) : result (list A) peer_err :=
  match tokens with
  | [] => Ok []
  | t :: ts => let! x := f t in let! xs := parse_all f ts in Ok (x :: xs)
  end.

Definition ParseAllowedIPs (encoded : bytes) : result (list IPNet) peer_err :=
  match TrimSpace encoded with
  | [] => Ok []
  | trimmed => parse_all parse_allowed_token (Split trimmed comma)
  end.

Fixpoint ParseAllowedIPList (values : list bytes) : result (list IPNet) peer_err :=
  match values with
  | [] => Ok []
  | v :: vs =>
      match TrimSpace v with
      | [] => Err ErrPeerInvalid
      | trimmed =>
          if ContainsByte trimmed comma then Err ErrPeerInvalid
          else
            let! ns := ParseAllowedIPs trimmed in
            let! rest := ParseAllowedIPList vs in
            Ok (ns ++ rest)
      end
  end.

Definition parse_port_token (token : bytes) : result Z peer_err :=
  match TrimSpace token with
  | [] => Err ErrPeerInvalid
  | t =>
      match Atoi t with
      | None => Err ErrPeerInvalid
      | Some p => if (p <? minPort) || (p >? maxPort) then Err ErrPeerInvalid else Ok p
      end
  end.

Definition ParseAllowedPorts (encoded : bytes) : result (list Z) peer_err :=
  match TrimSpace encoded with
  | [] => Ok []
  | trimmed => parse_all parse_port_token (Split trimmed comma)
  end.
End spec.

(** ** The packet policy *)

Definition ProtocolICMP : Z := 1.
Definition ProtocolTCP : Z := 6.
Definition ProtocolUDP : Z := 17.

Inductive ErrorClass :=
| ClassPeerUnknown | ClassPeerRevoked | ClassPeerExpired | ClassTargetDenied | ClassMetadataDenied
| ClassPortDenied | ClassProtocolUnsupported | ClassFragmentDropped | ClassOversizeDropped
| ClassCapacityExhausted | ClassRateLimited | ClassEgressUnavailable | ClassEgressTimeout
| ClassICMPUnsupported | ClassICMPTimeout | ClassStackError.

#[global] Instance ErrorClass_eq_dec : EqDecision ErrorClass.
Proof. solve_decision. Defined.

Definition allErrorClasses : list ErrorClass :=
  [ClassPeerUnknown; ClassPeerRevoked; ClassPeerExpired; ClassTargetDenied; ClassMetadataDenied;
   ClassPortDenied; ClassProtocolUnsupported; ClassFragmentDropped; ClassOversizeDropped;
   ClassCapacityExhausted; ClassRateLimited; ClassEgressUnavailable; ClassEgressTimeout;
   ClassICMPUnsupported; ClassICMPTimeout; ClassStackError].

(** The published label of a class. *)
Definition class_label (c : ErrorClass) : bytes :=
  match c with
  | ClassPeerUnknown => #"peer_unknown" | ClassPeerRevoked => #"peer_revoked"
  | ClassPeerExpired => #"peer_expired" | ClassTargetDenied => #"target_denied"
  | ClassMetadataDenied => #"metadata_denied" | ClassPortDenied => #"port_denied"
  | ClassProtocolUnsupported => #"protocol_unsupported" | ClassFragmentDropped => #"fragment_dropped"
  | ClassOversizeDropped => #"oversize_dropped" | ClassCapacityExhausted => #"capacity_exhausted"
  | ClassRateLimited => #"rate_limited" | ClassEgressUnavailable => #"egress_unavailable"
  | ClassEgressTimeout => #"egress_timeout" | ClassICMPUnsupported => #"icmp_unsupported"
  | ClassICMPTimeout => #"icmp_timeout" | ClassStackError => #"stack_error"
  end.

#[global] Instance ErrorClass_finite : Finite ErrorClass.
Proof.
  refine {| enum := allErrorClasses |}; [by apply (bool_decide_unpack _); vm_compute|].
  by intros []; apply (bool_decide_unpack _); vm_compute.
Defined.

Record Packet := mkPacket {
  pk_Protocol : Z;
  pk_Source : IP;
  pk_Dest : IP;
  pk_Port : Z;
  pk_Size : Z;
  pk_Fragment : bool;
}.

Record PacketPolicy := mkPacketPolicy {
  pp_allowedIPs : list (option IPNet);
  pp_ports : list Z;
  pp_allowPrivate : bool;
  pp_icmpEnabled : bool;
  pp_mtu : Z;
}.

Definition NewPacketPolicy `{GoUnicode} (s : PeerSpec) (mtu now : Z) : result PacketPolicy peer_err :=
  let! _ := ValidatePeer s now in
  if mtu <? 1 then Err ErrBadMTU
  else Ok (mkPacketPolicy (pe_AllowedIPs s) (pe_AllowedPorts s) (pe_AllowPrivateTargets s) (pe_ICMPEnabled s) mtu).

Definition containsDest (p : PacketPolicy) (dest : IP) : bool :=
  match To4 dest with
  | [] => false
  | four => existsb (fun n => match n with Some n => IPNet_Contains n four | None => false end) (pp_allowedIPs p)
  end.

(** A refusal: the published class and the operator-facing reason. *)
Record PacketError := denied { pe_class : ErrorClass; pe_reason : bytes }.

(** [None] admits the packet. *)
Definition Allow (p : PacketPolicy) (pkt : Packet) : option PacketError :=
  if pk_Fragment pkt then Some (denied ClassFragmentDropped #"fragmented packets are not forwarded")
  else if pk_Size pkt >? pp_mtu p then
    Some (denied ClassOversizeDropped
      (#"packet of " ++ Itoa (pk_Size pkt) ++ #" bytes exceeds the " ++ Itoa (pp_mtu p) ++ #" byte tunnel mtu"))
  else
    let proto := pk_Protocol pkt in
    let refused :=
      if (proto =? ProtocolTCP) || (proto =? ProtocolUDP) then None
      else if proto =? ProtocolICMP then
        if negb (pp_icmpEnabled p) then Some (denied ClassICMPUnsupported #"icmp is not enabled for this peer")
        else None
      else Some (denied ClassProtocolUnsupported (#"ip protocol " ++ Itoa proto ++ #" is not forwarded")) in
    match refused with
    | Some c => Some c
    | None =>
        if bool_decide (pk_Dest pkt = []) || bool_decide (To4 (pk_Dest pkt) = []) then
          Some (denied ClassTargetDenied #"destination must be an ipv4 address")
        else if IsDangerousAddress (pk_Dest pkt) then
          Some (denied ClassMetadataDenied #"destination is in a reserved, multicast or metadata range")
        else if negb (pp_allowPrivate p) && IsPrivateTarget (pk_Dest pkt) then
          Some (denied ClassTargetDenied
            #"destination is a private address and this peer may not reach private targets")
        else if negb (containsDest p (pk_Dest pkt)) then
          Some (denied ClassTargetDenied #"destination is outside the peer allowed_ips")
        else if proto =? ProtocolICMP then None
        else if (pk_Port pkt <? minPort) || (pk_Port pkt >? maxPort) then
          Some (denied ClassPortDenied (#"port " ++ Itoa (pk_Port pkt) ++ #" is not a valid tcp/udp port"))
        else if negb (bool_decide (pp_ports p = [])) && negb (bool_decide (pk_Port pkt ∈ pp_ports p)) then
          Some (denied ClassPortDenied (#"port " ++ Itoa (pk_Port pkt) ++ #" is not in the peer allowed_ports"))
        else None
    end.

(** ** Denotations *)

(** The network an IPv4 entry denotes: its block and prefix length. *)
Definition net_key (n : option IPNet) : option (Z * Z) :=
  match n with
  | None => None
  | Some n =>
      match To4 (n_IP n) with
      | [] => None
      | four =>
          let '(ones, bits) := mask_Size (n_Mask n) in
          if bits =? ipv4Bits then Some (block ones (be_get four), ones) else None
      end
  end.

(** [u] lies in the /[k] network of [v]. *)
Definition in_net (u : Z) (key : Z * Z) : bool := u / 2 ^ (32 - key.2) =? key.1 / 2 ^ (32 - key.2).

Definition addr4 (a b c d : Z) : Z := ((a * 256 + b) * 256 + c) * 256 + d.

(** "This network", link local (the cloud metadata service is 169.254.169.254),
    multicast and reserved. *)
Definition dangerous_nets : list (Z * Z) := [(addr4 0 0 0 0, 8); (addr4 169 254 0 0, 16); (addr4 224 0 0 0, 3)].

Definition private_nets : list (Z * Z) :=
  [(addr4 10 0 0 0, 8); (addr4 172 16 0 0, 12); (addr4 192 168 0 0, 16); (addr4 127 0 0 0, 8);
   (addr4 169 254 0 0, 16); (addr4 224 0 0 0, 24); (addr4 0 0 0 0, 32)].

(** ** Address classes as numeric ranges *)

Lemma be_put4_octets u : is_addr4 u ->
  be_put 4 u = [byte_of (u / 2 ^ 24); byte_of (u / 2 ^ 16); byte_of (u / 2 ^ 8); byte_of u].
Proof. intros Hu. cbn [be_put app]. by rewrite !Z.div_div by lia. Qed.

Lemma land_240 x : 0 <= x < 256 -> (Z.land x 240 =? 16) = (x / 16 =? 1).
Proof.
  intros Hx. assert (forallb (fun x => Bool.eqb (Z.land x 240 =? 16) (x / 16 =? 1)) (z_range 0 255) = true) as H
    by by vm_compute.
  rewrite List.forallb_forall in H. apply Bool.eqb_prop, H. apply list_elem_of_In.
  unfold z_range. apply list_elem_of_fmap. exists (Z.to_nat x). split; [lia|]. apply elem_of_seq. lia.
Qed.

(** The leading octets of an address as quotients. *)
Lemma octet_facts u : is_addr4 u ->
  let a := u / 2 ^ 24 in let b := u / 2 ^ 16 mod 256 in
  0 <= a < 256 /\ 0 <= b < 256 /\ u / 2 ^ 16 = 256 * a + b /\ u / 2 ^ 29 = a / 32 /\
  u / 2 ^ 20 = 16 * a + b / 16.
Proof.
  intros [H0 H1] a b. subst a b. change (2 ^ 32) with 4294967296 in H1.
  change (2 ^ 29) with (16777216 * 32). change (2 ^ 24) with 16777216. change (2 ^ 20) with 1048576.
  change (2 ^ 16) with 65536. rewrite <- Z.div_div by lia. pose proof (Z.mod_pos_bound (u / 65536) 256).
  split_and!; zify; Z.div_mod_to_equations; lia.
Qed.

Lemma IPEqual_metadata a b c d : byte_val a <> 169 \/ byte_val b <> 254 ->
  IPEqual [a; b; c; d] (IPv4 169 254 169 254) = false.
Proof.
  intros H. unfold IPEqual. cbn -[seq_eqb]. apply seq_eqb_neq. intros [= -> -> _ _]. by destruct H as [[]|[]].
Qed.

Lemma IsDangerousAddress_nets u : is_addr4 u ->
  IsDangerousAddress (be_put 4 u) = existsb (in_net u) dangerous_nets.
Proof.
  intros Hu. pose proof (octet_facts u Hu) as (Ha & Hb & H16 & H29 & _).
  unfold IsDangerousAddress, nth_val. rewrite To4_put, be_put4_octets by done. cbn [nth].
  assert (byte_val (byte_of (u / 2 ^ 24)) = u / 2 ^ 24) as E0 by (rewrite byte_val_of; by apply Z.mod_small).
  assert (byte_val (byte_of (u / 2 ^ 16)) = u / 2 ^ 16 mod 256) as E1 by apply byte_val_of.
  unfold dangerous_nets, in_net. cbn [existsb fst snd].
  change (32 - 8) with 24; change (32 - 16) with 16; change (32 - 3) with 29.
  change (addr4 0 0 0 0 / 2 ^ 24) with 0. change (addr4 169 254 0 0 / 2 ^ 16) with 43518.
  change (addr4 224 0 0 0 / 2 ^ 29) with 7.
  destruct (decide (byte_val (byte_of (u / 2 ^ 24)) = 169 /\ byte_val (byte_of (u / 2 ^ 16)) = 254)) as [[D1 D2]|D].
  - rewrite D1, D2, H16. rewrite E0 in D1. rewrite E1 in D2. rewrite D1, D2. done.
  - rewrite IPEqual_metadata by lia. rewrite E0, E1 in *. rewrite H16, H29. apply Bool.eq_iff_eq_true.
    zify; Z.div_mod_to_equations; lia.
Qed.

Lemma IsUnspecified_put u : is_addr4 u -> IsUnspecified (be_put 4 u) = (u =? 0).
Proof.
  intros Hu. unfold IsUnspecified, IPEqual. rewrite length_be_put.
  change (length (IPv4 0 0 0 0)) with 16%nat. change (length (replicate 16 zero_byte)) with 16%nat.
  cbn [decide_rel]. repeat (case_decide; [try (exfalso; lia)|try (exfalso; lia)]).
  change (seq_eqb (take 12 (IPv4 0 0 0 0)) v4InV6Prefix) with true.
  change (seq_eqb (take 12 (replicate 16 zero_byte)) v4InV6Prefix) with false.
  change (drop 12 (IPv4 0 0 0 0)) with (be_put 4 0). cbn [andb]. rewrite orb_false_r.
  apply Bool.eq_iff_eq_true. rewrite seq_eqb_eq, Z.eqb_eq. split; [|by intros ->].
  apply be_put4_inj; [done|by split].
Qed.

Lemma IsPrivateTarget_nets u : is_addr4 u ->
  IsPrivateTarget (be_put 4 u) = existsb (in_net u) private_nets.
Proof.
  intros Hu. pose proof (octet_facts u Hu) as (Ha & Hb & H16 & _ & H20).
  assert (IsPrivateTarget (be_put 4 u) = IsPrivate (be_put 4 u) || IsLoopback (be_put 4 u) ||
    IsLinkLocalUnicast (be_put 4 u) || IsLinkLocalMulticast (be_put 4 u) || (u =? 0)) as ->.
  { rewrite <- IsUnspecified_put by done. unfold IsPrivateTarget. by destruct (be_put4_cons u) as (? & ? & ->). }
  unfold IsPrivate, IsLoopback, IsLinkLocalUnicast, IsLinkLocalMulticast, nth_val.
  rewrite To4_put, be_put4_octets by done. cbn [nth]. rewrite !byte_val_of, (Z.mod_small (u / 2 ^ 24)) by done.
  rewrite land_240 by done. unfold private_nets, in_net. cbn [existsb fst snd].
  change (32 - 8) with 24; change (32 - 16) with 16; change (32 - 12) with 20; change (32 - 24) with 8;
  change (32 - 32) with 0. change (2 ^ 0) with 1. rewrite (Z.div_1_r u).
  change (addr4 10 0 0 0 / 2 ^ 24) with 10. change (addr4 127 0 0 0 / 2 ^ 24) with 127.
  change (addr4 172 16 0 0 / 2 ^ 20) with 2753. change (addr4 192 168 0 0 / 2 ^ 16) with 49320.
  change (addr4 169 254 0 0 / 2 ^ 16) with 43518. change (addr4 224 0 0 0 / 2 ^ 8) with 14680064.
  change (addr4 0 0 0 0 / 1) with 0.
  assert (u / 2 ^ 8 = 256 * (u / 2 ^ 16) + u / 2 ^ 8 mod 256) as H8.
  { change (2 ^ 16) with (2 ^ 8 * 256). rewrite <- Z.div_div by lia. apply Z.div_mod. lia. }
  pose proof (Z.mod_pos_bound (u / 2 ^ 8) 256). apply Bool.eq_iff_eq_true.
  set (a := u / 2 ^ 24) in *. set (b := u / 2 ^ 16 mod 256) in *. set (c := u / 2 ^ 8 mod 256) in *.
  set (d := u / 2 ^ 8) in *. set (e := u / 2 ^ 16) in *. set (f := u / 2 ^ 20) in *. clearbody a b c d e f.
  zify; Z.div_mod_to_equations; lia.
Qed.

(** An IPv4 address is stored in four or in sixteen bytes; the classes agree. *)
Lemma To4_forms ip : To4 ip <> [] ->
  exists u, is_addr4 u /\ To4 ip = be_put 4 u /\ (ip = be_put 4 u \/ ip = v4InV6Prefix ++ be_put 4 u).
Proof.
  intros Hne. destruct (To4_length ip) as [Hl|]; [|done]. destruct (addr4_put _ Hl) as (u & Hu & E).
  exists u. split_and!; [done..|]. unfold To4 in E. case_decide; [by left|]. case_decide.
  - destruct (seq_eqb (take 12 ip) v4InV6Prefix) eqn:Et.
    + apply seq_eqb_eq in Et. right. by rewrite <- E, <- Et, take_drop.
    + by destruct (be_put4_cons u) as (? & ? & E'); rewrite E' in E.
  - by destruct (be_put4_cons u) as (? & ? & E'); rewrite E' in E.
Qed.

Lemma IsUnspecified_mapped u : is_addr4 u ->
  IsUnspecified (v4InV6Prefix ++ be_put 4 u) = IsUnspecified (be_put 4 u).
Proof.
  intros Hu. rewrite IsUnspecified_put by done. unfold IsUnspecified, IPEqual.
  rewrite !decide_True by (by rewrite length_app, length_be_put).
  change (IPv4 0 0 0 0) with (v4InV6Prefix ++ be_put 4 0).
  rewrite (proj2 (seq_eqb_neq (v4InV6Prefix ++ be_put 4 u) (replicate 16 zero_byte))) by (intros [=]).
  rewrite orb_false_r. apply Bool.eq_iff_eq_true. rewrite seq_eqb_eq, Z.eqb_eq. split; [|by intros ->].
  intros E. apply (inj (app v4InV6Prefix)) in E. apply be_put4_inj; [done|by split|done].
Qed.

Lemma classes_of_To4 ip : To4 ip <> [] ->
  IsDangerousAddress ip = IsDangerousAddress (To4 ip) /\ IsPrivateTarget ip = IsPrivateTarget (To4 ip).
Proof.
  intros Hne. destruct (To4_forms ip Hne) as (u & Hu & E & [->| ->]); [by rewrite To4_put|]. rewrite E.
  destruct (be_put4_cons u) as (b & l & Eb). split.
  - unfold IsDangerousAddress. by rewrite E, To4_put.
  - assert (forall x y : IP, x <> [] -> y <> [] -> To4 x = To4 y -> To4 x <> [] ->
      IsUnspecified x = IsUnspecified y -> IsPrivateTarget x = IsPrivateTarget y) as Hgen.
    { intros x y Hx Hy Hxy Hx4 Hun. unfold IsPrivateTarget. destruct x; [done|]. destruct y; [done|].
      rewrite Hun. unfold IsPrivate, IsLoopback, IsLinkLocalUnicast, IsLinkLocalMulticast. rewrite Hxy in *.
      by destruct (To4 (_ :: y)). }
    apply Hgen; [done|by rewrite Eb|by rewrite E, To4_put|done|by apply IsUnspecified_mapped].
Qed.

(** ** Allowlists *)

Lemma allowed_net_inv n : allowed_net_ok n = true ->
  exists m v k, n = Some m /\ is_addr4 v /\ 0 <= k <= 32 /\ To4 (n_IP m) = be_put 4 v /\
    mask_Size (n_Mask m) = (k, 32) /\ net_key n = Some (block k v, k).
Proof.
  destruct n as [m|]; [|done]. unfold allowed_net_ok, net_key.
  destruct (mask_Size (n_Mask m)) as [k bits] eqn:Em. intros H. split_bools. unfold ipv4Bits in *. subst bits.
  destruct (To4_forms (n_IP m)) as (v & Hv & E & _); [done|].
  exists m, v, k. rewrite E. split_and!; try done; try lia.
  destruct (be_put4_cons v) as (b & l & Eb). rewrite <- (be_get_put4 v Hv) at 2. by rewrite Eb.
Qed.

Lemma in_net_block u v k : 0 <= k <= 32 -> in_net u (block k v, k) = bool_decide (block k u = block k v).
Proof.
  intros Hk. unfold in_net. cbn [fst snd]. apply Bool.eq_iff_eq_true.
  rewrite Z.eqb_eq, bool_decide_eq_true. rewrite <- block_eq_iff, block_idemp by done. done.
Qed.

Lemma containsDest_nets p ip u : is_addr4 u -> To4 ip = be_put 4 u ->
  forallb allowed_net_ok (pp_allowedIPs p) = true ->
  containsDest p ip = existsb (in_net u) (omap net_key (pp_allowedIPs p)).
Proof.
  intros Hu E Hok. unfold containsDest. rewrite E. destruct (be_put4_cons u) as (b & l & Eb).
  rewrite Eb, <- Eb. clear b l Eb. induction (pp_allowedIPs p) as [|n ns IH]; [done|].
  cbn [forallb] in Hok. apply andb_true_iff in Hok as [Hn Hns]. specialize (IH Hns).
  destruct (allowed_net_inv n Hn) as (m & v & k & -> & Hv & Hk & Hip & Hm & Hkey).
  cbn [existsb]. rewrite IH, (IPNet_Contains_To4 m v k u) by done. cbn [omap list_omap]. rewrite Hkey.
  cbn [existsb]. by rewrite in_net_block.
Qed.

Lemma ValidateFields_inv `{GoUnicode} s : ValidateFields s = Ok tt ->
  forallb allowed_net_ok (pe_AllowedIPs s) = true /\
  Forall (fun p => minPort <= p <= maxPort) (pe_AllowedPorts s).
Proof.
  unfold ValidateFields. case_goal; [done|]. destruct (validateLabel _ MaxPeerNameLength); [|done]. cbn [rbind].
  destruct (validateLabel _ MaxPeerDescriptionLength); [|done]. cbn [rbind]. case_goal; [done|].
  destruct (forallb allowed_net_ok _); [|done]. cbn [negb].
  destruct (forallb _ (pe_AllowedPorts s)) eqn:Ep; [|done]. intros _. split; [done|].
  rewrite List.forallb_forall in Ep. apply Forall_forall. intros p Hp. apply list_elem_of_In in Hp.
  specialize (Ep p Hp). cbn in Ep. split_bools. lia.
Qed.

Lemma NewPacketPolicy_inv `{GoUnicode} s mtu now p : NewPacketPolicy s mtu now = Ok p ->
  ValidatePeer s now = Ok tt /\ ValidateFields s = Ok tt /\ 1 <= mtu /\
  p = mkPacketPolicy (pe_AllowedIPs s) (pe_AllowedPorts s) (pe_AllowPrivateTargets s) (pe_ICMPEnabled s) mtu.
Proof.
  unfold NewPacketPolicy. destruct (ValidatePeer s now) as [[]|] eqn:Ev; [|done]. cbn [rbind].
  destruct (mtu <? 1) eqn:Em; [done|]. split_bools. intros E%Ok_inj. split_and!; [done| |lia|done].
  unfold ValidatePeer, ValidateRequest in Ev. by destruct (ValidateFields s) as [[]|].
Qed.

(** ** Canonical text *)

(** [seen] maps keep the first occurrence of each element. *)
Lemma add_unseen_spec {A} `{EqDecision A} (l acc : list A) : NoDup acc ->
  NoDup (foldl add_unseen acc l) /\ forall x, x ∈ foldl add_unseen acc l <-> x ∈ acc \/ x ∈ l.
Proof.
  revert acc. induction l as [|a l IH]; intros acc Hacc; cbn [foldl]; [split; [done|set_solver]|].
  destruct (IH (add_unseen acc a)) as [Hnd Hel].
  { unfold add_unseen. case_bool_decide; [done|]. apply NoDup_app. split_and!; [done|set_solver|apply NoDup_singleton]. }
  split; [done|]. intros x. rewrite Hel. unfold add_unseen. case_bool_decide; set_solver.
Qed.

Lemma add_unseen_NoDup {A} `{EqDecision A} (l acc : list A) : NoDup (acc ++ l) -> foldl add_unseen acc l = acc ++ l.
Proof.
  revert acc. induction l as [|a l IH]; intros acc Hnd; cbn [foldl]; [by rewrite app_nil_r|].
  assert (a ∉ acc) as Ha by (apply NoDup_app in Hnd as (_ & Hd & _); set_solver).
  unfold add_unseen at 2. rewrite bool_decide_eq_false_2 by done.
  rewrite IH by by rewrite <- (assoc_L (++)). by rewrite <- (assoc_L (++)).
Qed.

Definition canon {A} `{EqDecision A} (less : A -> A -> bool) (l : list A) : list A :=
  sort_by less (foldl add_unseen [] l).

Section canon.
Context {A : Type} `{EqDecision A} (less : A -> A -> bool).

Lemma canon_elem l x : x ∈ canon less l <-> x ∈ l.
Proof.
  unfold canon. rewrite sort_by_perm. rewrite (proj2 (add_unseen_spec l [] (NoDup_nil_2))). set_solver.
Qed.

Lemma canon_NoDup l : NoDup (canon less l).
Proof. unfold canon. rewrite sort_by_perm. apply add_unseen_spec, NoDup_nil_2. Qed.

Context (less_asym : forall a b, less a b = true -> less b a = false).
Context (less_trans_false : forall a b c, less b a = false -> less c b = false -> less c a = false).
Context (less_total : forall a b, less a b = false -> less b a = false -> a = b).

Lemma canon_ext l k : (forall x, x ∈ l <-> x ∈ k) -> canon less l = canon less k.
Proof.
  intros Heq. apply sort_by_unique; [done..|by auto|].
  apply NoDup_Permutation; [apply add_unseen_spec, NoDup_nil_2..|].
  intros x. rewrite !(proj2 (add_unseen_spec _ [] (NoDup_nil_2))). set_solver.
Qed.

Lemma canon_idemp l : canon less (canon less l) = canon less l.
Proof. apply canon_ext. intros x. apply canon_elem. Qed.
End canon.

(** *** Networks *)

Definition key_text (key : Z * Z) : bytes := cidr4_string key.1 key.2.
Definition key_net (key : Z * Z) : IPNet := net4 key.1 key.2.
Definition key_ok (key : Z * Z) : Prop := is_addr4 key.1 /\ 0 <= key.2 <= 32 /\ block key.2 key.1 = key.1.

Lemma net_key_ok n key : net_key n = Some key -> key_ok key.
Proof.
  destruct n as [n|]; [|done]. unfold net_key. destruct (decide (To4 (n_IP n) = [])) as [->|Hne]; [done|].
  destruct (To4_forms _ Hne) as (v & Hv & -> & _). destruct (be_put4_cons v) as (b & l & Eb).
  rewrite Eb, <- Eb. destruct (mask_Size (n_Mask n)) as [k bits] eqn:Em.
  destruct (bits =? ipv4Bits) eqn:Eb32; [|done]. split_bools. unfold ipv4Bits in *. subst bits.
  apply mask_Size_inv in Em as [Hk _]. rewrite be_get_put4 by done. intros E.
  assert (key = (block k v, k)) as -> by congruence.
  split_and!; cbn; [by apply block_addr4|lia|lia|by apply block_idemp].
Qed.

Lemma net_key_net key : key_ok key -> net_key (Some (key_net key)) = Some key.
Proof.
  destruct key as [v k]. intros (Hv & Hk & Hb); cbn [fst snd] in *. unfold net_key, key_net, net4. cbn [n_IP n_Mask fst snd].
  rewrite To4_put. destruct (be_put4_cons v) as (b & l & Eb). rewrite Eb, <- Eb.
  rewrite mask_Size_CIDR, be_get_put4, Hb by done. done.
Qed.

Lemma canonical_net_key n : canonical_net n = key_text <$> net_key n.
Proof.
  destruct n as [n|]; [|done]. unfold canonical_net, net_key.
  destruct (decide (To4 (n_IP n) = [])) as [->|Hne]; [done|].
  destruct (To4_forms _ Hne) as (v & Hv & -> & _). destruct (be_put4_cons v) as (b & l & Eb).
  rewrite Eb, <- Eb. destruct (mask_Size (n_Mask n)) as [k bits] eqn:Em.
  destruct (bits =? ipv4Bits) eqn:Eb32; [|done]. split_bools. unfold ipv4Bits in *. subst bits.
  apply mask_Size_inv in Em as [Hk _]. cbn [negb]. rewrite ip_Mask_put, be_get_put4 by done.
  fold (net4 (block k v) k). by rewrite IPNet_String_net4.
Qed.

Lemma key_text_inj a b : key_ok a -> key_ok b -> key_text a = key_text b -> a = b.
Proof.
  intros Ha Hb E. pose proof Ha as (Ha1 & Ha2 & Ha3). pose proof Hb as (Hb1 & Hb2 & Hb3).
  apply (f_equal ParseCIDR) in E. unfold key_text in E. rewrite !ParseCIDR_string in E by done.
  assert (key_net a = key_net b) as En by (unfold key_net; congruence).
  apply (f_equal Some), (f_equal net_key) in En. rewrite !net_key_net in En by done. congruence.
Qed.

Lemma EncodeAllowedIPs_keys nets :
  EncodeAllowedIPs nets = Join (canon str_ltb (key_text <$> omap net_key nets)) comma.
Proof.
  unfold EncodeAllowedIPs, canon. do 3 f_equal. induction nets as [|n nets IH]; [done|].
  cbn [omap list_omap]. rewrite canonical_net_key. destruct (net_key n); cbn [fmap option_fmap option_map list_fmap];
  by rewrite IH.
Qed.

Lemma keys_ok nets : Forall key_ok (omap net_key nets).
Proof.
  apply Forall_forall. intros key Hk. apply list_elem_of_omap in Hk as (n & _ & Hn). by eapply net_key_ok.
Qed.

(** Printed keys read back one by one. *)
Lemma parse_key_text `{GoUnicode} keys : Forall key_ok keys ->
  parse_all parse_allowed_token (key_text <$> keys) = Ok (key_net <$> keys).
Proof.
  induction 1 as [|[v k] keys (Hv & Hk & Hb) _ IH]; [done|]. cbn [fst snd] in *.
  rewrite !fmap_cons. cbn [parse_all]. rewrite IH.
  unfold parse_allowed_token, key_text, key_net. cbn [fst snd]. rewrite cidr4_TrimSpace by done.
  destruct (cidr4_nonempty v k) as (c & t & E). rewrite E, <- E. rewrite ParseCIDR_string, Hb by done.
  cbn [n_Mask n_IP net4]. rewrite mask_Size_CIDR, To4_put by done.
  rewrite bool_decide_eq_false_2; [done|]. by destruct (be_put4_cons v) as (? & ? & ->).
Qed.

Definition plain (c : byte) : Prop := is_ascii_byte c = true /\ is_space c = false.

Lemma digit_plain c : is_digit c = true -> plain c.
Proof.
  unfold plain, is_digit, is_ascii_byte, is_space. intros. split_bools. split; [zbool; done|].
  repeat (apply orb_false_iff; split); lia.
Qed.

Lemma key_text_plain key : 0 <= key.2 -> Forall plain (key_text key) /\ comma ∉ key_text key.
Proof.
  intros Hk. assert (Forall (fun c => is_digit c = true \/ c = dot \/ c = slash) (key_text key)) as Hf.
  { unfold key_text, cidr4_string, ip4_string. apply Forall_app. split.
    - apply Join_bytes; [by auto|]. apply Forall_fmap, Forall_forall. intros b _. cbn.
      eapply Forall_impl; [apply Itoa_digits, byte_val_range|]. auto.
    - cbn [app]. constructor; [by auto|]. eapply Forall_impl; [by apply Itoa_digits|]. auto. }
  split.
  - eapply Forall_impl; [exact Hf|]. intros c [Hd|[->| ->]]; [by apply digit_plain|by vm_compute..].
  - intros Hin. rewrite Forall_forall in Hf. destruct (Hf _ Hin) as [|[|]]; done.
Qed.

(** Splitting what [Join] wrote: the fields come back, and trimming the text
    changes nothing. *)
Lemma Join_fields `{GoUnicode} texts :
  Forall (fun t => Forall plain t /\ comma ∉ t /\ t <> []) texts -> texts <> [] ->
  TrimSpace (Join texts comma) = Join texts comma /\ Join texts comma <> [] /\
  Split (Join texts comma) comma = texts.
Proof.
  intros Ht Hne. split_and!.
  - apply TrimSpace_Forall, Join_bytes; [by vm_compute|]. eapply Forall_impl; [exact Ht|]. by intros t [? _].
  - destruct texts as [|t texts]; [done|]. apply Forall_cons in Ht as [(_ & _ & Ht) _].
    destruct t; [done|]. destruct texts; done.
  - apply Split_Join; [done|]. eapply Forall_impl; [exact Ht|]. by intros t (_ & ? & _).
Qed.

Lemma key_fields keys : Forall key_ok keys ->
  Forall (fun t => Forall plain t /\ comma ∉ t /\ t <> []) (key_text <$> keys).
Proof.
  intros Hok. apply Forall_fmap. eapply Forall_impl; [exact Hok|]. intros key (_ & Hk & _).
  destruct (key_text_plain key) as [? ?]; [lia|]. split_and!; [done..|].
  unfold compose, key_text. by destruct (cidr4_nonempty key.1 key.2) as (? & ? & ->).
Qed.

(** Reading back an encoded allowlist gives the networks it denotes, once each. *)
Lemma Parse_EncodeAllowedIPs `{GoUnicode} nets : exists keys,
  ParseAllowedIPs (EncodeAllowedIPs nets) = Ok (key_net <$> keys) /\ Forall key_ok keys /\
  (forall key, key ∈ keys <-> key ∈ omap net_key nets) /\
  key_text <$> keys = canon str_ltb (key_text <$> omap net_key nets).
Proof.
  assert (exists keys, key_text <$> keys = canon str_ltb (key_text <$> omap net_key nets) /\
    Forall (fun key => key ∈ omap net_key nets) keys) as (keys & Ek & Hin).
  { assert (Forall (fun t => exists key, t = key_text key /\ key ∈ omap net_key nets)
      (canon str_ltb (key_text <$> omap net_key nets))) as Hf.
    { apply Forall_forall. intros t. rewrite canon_elem. intros (key & -> & Hkey)%list_elem_of_fmap. by exists key. }
    apply Forall_exists_Forall2_l in Hf as (keys & Hf). exists keys. split.
    - symmetry. apply list_eq_Forall2, Forall2_fmap_r. eapply Forall2_impl; [exact Hf|]. by intros ? ? [-> _].
    - eapply Forall2_Forall_r; [exact Hf|]. apply Forall_true. by intros ? ? [_ ?]. }
  pose proof (keys_ok nets) as Hall. rewrite Forall_forall in Hall.
  assert (Forall key_ok keys) as Hok by (eapply Forall_impl; [exact Hin|exact Hall]).
  exists keys. split_and!; [|done| |done].
  - rewrite EncodeAllowedIPs_keys, <- Ek. destruct (decide (keys = [])) as [->|Hne]; [done|].
    destruct (Join_fields (key_text <$> keys)) as (Et & Hj & Es); [by apply key_fields|by destruct keys|].
    unfold ParseAllowedIPs. rewrite Et. destruct (Join _ _); [done|]. rewrite Es. by apply parse_key_text.
  - intros key. split; [by rewrite Forall_forall in Hin; apply Hin|]. intros Hk.
    assert (key_text key ∈ key_text <$> keys) as Ht by (rewrite Ek, canon_elem; by apply list_elem_of_fmap_2).
    apply list_elem_of_fmap in Ht as (key' & Et & Hk'). rewrite Forall_forall in Hok.
    apply key_text_inj in Et as ->; auto.
Qed.


(** *** Ports *)

Definition port_ok (p : Z) : bool := (minPort <=? p) && (p <=? maxPort).

Lemma port_ok_range p : port_ok p = true <-> 1 <= p <= 65535.
Proof. unfold port_ok, minPort, maxPort. rewrite andb_true_iff, !Z.leb_le. lia. Qed.

Lemma Zltb_asym a b : (a <? b) = true -> (b <? a) = false.
Proof. lia. Qed.

Lemma Zltb_trans_false a b c : (b <? a) = false -> (c <? b) = false -> (c <? a) = false.
Proof. lia. Qed.

Lemma Zltb_total a b : (a <? b) = false -> (b <? a) = false -> a = b.
Proof. lia. Qed.

Lemma EncodeAllowedPorts_canon ports :
  EncodeAllowedPorts ports = Join (Itoa <$> canon Z.ltb (List.filter port_ok ports)) comma.
Proof. done. Qed.

Lemma port_fields ports : Forall (fun p => port_ok p = true) ports ->
  Forall (fun t => Forall plain t /\ comma ∉ t /\ t <> []) (Itoa <$> ports).
Proof.
  intros Hok. apply Forall_fmap. eapply Forall_impl; [exact Hok|]. intros p Hp%port_ok_range. unfold compose.
  split_and!; [|apply Itoa_not_elem; [lia|done]|apply Itoa_not_nil; lia].
  eapply Forall_impl; [apply Itoa_digits; lia|]. apply digit_plain.
Qed.

Lemma parse_port_texts `{GoUnicode} ports : Forall (fun p => port_ok p = true) ports ->
  parse_all parse_port_token (Itoa <$> ports) = Ok ports.
Proof.
  intros Hok. pose proof (port_fields ports Hok) as Hf. induction Hok as [|p ports Hp Hok IH]; [done|].
  rewrite fmap_cons in *. apply Forall_cons in Hf as [(Hpl & _ & Hne) Hf]. cbn [parse_all]. rewrite IH by done.
  unfold parse_port_token. rewrite TrimSpace_Forall by done. apply port_ok_range in Hp.
  destruct (Itoa p) as [|c t] eqn:E; [done|]. rewrite <- E, Atoi_Itoa by (unfold max_int64; lia).
  destruct (_ || _) eqn:Er; [|done]. unfold minPort, maxPort in Er. apply orb_true_iff in Er as [Er|Er]; lia.
Qed.

Lemma canon_ports_ok ports : Forall (fun p => port_ok p = true) (canon Z.ltb (List.filter port_ok ports)).
Proof. apply Forall_forall. intros p. rewrite canon_elem, list_elem_of_In, List.filter_In. by intros [_ ?]. Qed.

Lemma Parse_EncodeAllowedPorts `{GoUnicode} ports :
  ParseAllowedPorts (EncodeAllowedPorts ports) = Ok (canon Z.ltb (List.filter port_ok ports)).
Proof.
  rewrite EncodeAllowedPorts_canon. pose proof (canon_ports_ok ports) as Hok.
  destruct (decide (canon Z.ltb (List.filter port_ok ports) = [])) as [->|Hne]; [done|].
  destruct (Join_fields (Itoa <$> canon Z.ltb (List.filter port_ok ports))) as (Et & Hj & Es);
    [by apply port_fields|by destruct (canon _ _)|].
  unfold ParseAllowedPorts. rewrite Et. destruct (Join _ _); [done|]. rewrite Es. by apply parse_port_texts.
Qed.

(** ** The packet decision *)

(** What [Allow] admits, read from the peer specification alone. *)
Definition may_leave (s : PeerSpec) (mtu : Z) (pkt : Packet) : Prop :=
  pk_Fragment pkt = false /\ pk_Size pkt <= mtu /\
  (exists u, is_addr4 u /\ To4 (pk_Dest pkt) = be_put 4 u /\
     existsb (in_net u) dangerous_nets = false /\
     (pe_AllowPrivateTargets s = true \/ existsb (in_net u) private_nets = false) /\
     existsb (in_net u) (omap net_key (pe_AllowedIPs s)) = true) /\
  (pk_Protocol pkt = ProtocolICMP /\ pe_ICMPEnabled s = true \/
   (pk_Protocol pkt = ProtocolTCP \/ pk_Protocol pkt = ProtocolUDP) /\ minPort <= pk_Port pkt <= maxPort /\
   (pe_AllowedPorts s = [] \/ pk_Port pkt ∈ pe_AllowedPorts s)).

(** The destination tests of [Allow], in numbers. *)
Lemma Allow_dest `{GoUnicode} s mtu now p ip :
  NewPacketPolicy s mtu now = Ok p -> To4 ip <> [] ->
  exists u, is_addr4 u /\ To4 ip = be_put 4 u /\
    IsDangerousAddress ip = existsb (in_net u) dangerous_nets /\
    IsPrivateTarget ip = existsb (in_net u) private_nets /\
    containsDest p ip = existsb (in_net u) (omap net_key (pe_AllowedIPs s)).
Proof.
  intros (_ & [Hok _]%ValidateFields_inv & _ & ->)%NewPacketPolicy_inv Hne.
  destruct (To4_forms ip Hne) as (u & Hu & E & _). exists u.
  destruct (classes_of_To4 ip Hne) as [-> ->]. rewrite E, IsDangerousAddress_nets, IsPrivateTarget_nets by done.
  split_and!; try done. by apply containsDest_nets.
Qed.

Lemma port_check {A} ports port (a b : A) :
  (if (port <? minPort) || (port >? maxPort) then Some a
   else if negb (bool_decide (ports = [])) && negb (bool_decide (port ∈ ports)) then Some b
   else None) =
  (if decide (minPort <= port <= maxPort /\ (ports = [] \/ port ∈ ports)) then None
   else Some (if (port <? minPort) || (port >? maxPort) then a else b)).
Proof.
  destruct ((port <? minPort) || (port >? maxPort)) eqn:Er.
  { rewrite decide_False; [done|]. intros [Hr _]. apply orb_true_iff in Er as [Er|Er]; lia. }
  apply orb_false_iff in Er as [E1 E2]. split_bools.
  destruct (decide (ports = [])) as [->|Hne]; [by rewrite decide_True by (split; [lia|by left])|].
  rewrite (bool_decide_eq_false_2 _ Hne). destruct (decide (port ∈ ports)) as [Hin|Hin].
  - rewrite (bool_decide_eq_true_2 _ Hin). by rewrite decide_True by (split; [lia|by right]).
  - rewrite (bool_decide_eq_false_2 _ Hin). rewrite decide_False; [done|]. naive_solver.
Qed.

Lemma Allow_may_leave `{GoUnicode} s mtu now p pkt :
  NewPacketPolicy s mtu now = Ok p -> Allow p pkt = None <-> may_leave s mtu pkt.
Proof.
  intros Hp. pose proof (Allow_dest s mtu now p (pk_Dest pkt) Hp) as Hd.
  apply NewPacketPolicy_inv in Hp as (_ & _ & _ & ->). unfold Allow, may_leave.
  cbn [pp_mtu pp_icmpEnabled pp_allowPrivate pp_ports].
  destruct (pk_Fragment pkt); [split; [done|by intros [? _]]|].
  destruct (_ >? mtu) eqn:Es; split_bools; [split; [done|intros (_ & ? & _); lia]|].
  destruct (decide (To4 (pk_Dest pkt) = [])) as [E4|E4].
  { split; [|intros (_ & _ & (u & _ & E & _) & _); by destruct (be_put4_cons u) as (? & ? & E'); rewrite E4, E' in E].
    rewrite (bool_decide_eq_true_2 _ E4), orb_true_r. by repeat case_goal. }
  destruct (Hd E4) as (u & Hu & E & -> & -> & ->). clear Hd.
  rewrite (bool_decide_eq_false_2 _ E4).
  assert (pk_Dest pkt <> []) as E0 by (by intros E0; rewrite E0 in E4).
  rewrite (bool_decide_eq_false_2 _ E0). cbn [orb].
  assert (forall P : Z -> Prop, (exists u', is_addr4 u' /\ To4 (pk_Dest pkt) = be_put 4 u' /\ P u') <-> P u) as Hex.
  { intros P. split; [|by eauto]. intros (u' & Hu' & E' & HP). rewrite E in E'. apply be_put4_inj in E'; [|done..]. by subst. }
  rewrite Hex, port_check. clear Hex E0 E4 E Hu. unfold ProtocolICMP, ProtocolTCP, ProtocolUDP.
  destruct (existsb _ dangerous_nets), (existsb _ private_nets), (existsb _ (omap _ _)), (pe_AllowPrivateTargets s),
    (pe_ICMPEnabled s); cbn [negb andb];
  destruct (_ =? 6) eqn:E6, (_ =? 17) eqn:E17, (_ =? 1) eqn:E1; cbn [orb]; split_bools; try lia;
  try case_decide; split; (done || naive_solver lia).
Qed.

(** C29. A packet leaves the gateway exactly when it is whole, fits the tunnel,
    uses an enabled protocol, and its destination is an IPv4 address that is in
    no dangerous range (whatever the peer was granted), in no private range
    unless the peer may reach those, and in one of the networks of the peer's
    allowlist, so that an empty allowlist admits nothing; for TCP and UDP the
    port is also one of the listed ones, where any are listed. *)
Theorem packet_allowed_iff `{GoUnicode} s mtu now p pkt :
  NewPacketPolicy s mtu now = Ok p -> Allow p pkt = None <-> may_leave s mtu pkt.
Proof. apply Allow_may_leave. Qed.

Definition with_allowlists (s : PeerSpec) (ips : list (option IPNet)) (ports : list Z) : PeerSpec :=
  mkPeer (pe_Name s) (pe_Description s) (pe_PublicKey s) (pe_VPNIP s) (pe_NodeID s) (pe_AgentID s) ips ports
    (pe_AllowPrivateTargets s) (pe_ICMPEnabled s) (pe_MaxConcurrentFlows s) (pe_PacketRateLimit s) (pe_ExpiresAt s).

Lemma ValidateFields_allowlists `{GoUnicode} s ips ports : ValidateFields s = Ok tt ->
  forallb allowed_net_ok ips = true -> forallb port_ok ports = true ->
  ValidateFields (with_allowlists s ips ports) = Ok tt.
Proof.
  unfold ValidateFields. cbn [with_allowlists pe_Name pe_Description pe_AgentID pe_AllowedIPs pe_AllowedPorts
    pe_MaxConcurrentFlows pe_PacketRateLimit]. intros Hs Hi Hp. fold port_ok in *. rewrite Hi, Hp. cbn [negb].
  case_hyp Hs; [done|]. destruct (validateLabel (pe_Name s) _); [|done]. cbn [rbind] in *.
  destruct (validateLabel (pe_Description s) _); [|done]. cbn [rbind] in *. case_hyp Hs; [done|].
  destruct (forallb _ (pe_AllowedIPs s)); [|done]. destruct (forallb _ (pe_AllowedPorts s)); [|done]. done.
Qed.

Lemma ValidatePeer_allowlists `{GoUnicode} s ips ports now : ValidatePeer s now = Ok tt ->
  forallb allowed_net_ok ips = true -> forallb port_ok ports = true ->
  ValidatePeer (with_allowlists s ips ports) now = Ok tt.
Proof.
  intros Hs Hi Hp. unfold ValidatePeer, ValidateRequest in *.
  destruct (ValidateFields s) as [[]|] eqn:E; [|done]. by rewrite (ValidateFields_allowlists s ips ports).
Qed.

Lemma key_nets_ok keys : Forall key_ok keys -> forallb allowed_net_ok (Some <$> (key_net <$> keys)) = true.
Proof.
  induction 1 as [|[v k] keys (Hv & Hk & _) _ IH]; [done|]. rewrite !fmap_cons. cbn [forallb]. rewrite IH.
  unfold allowed_net_ok, key_net, net4. cbn [n_IP n_Mask fst snd] in *. rewrite mask_Size_CIDR, To4_put by done.
  rewrite bool_decide_eq_false_2 by (by destruct (be_put4_cons v) as (? & ? & ->)). unfold ipv4Bits. zbool. done.
Qed.

Lemma key_nets_keys keys : Forall key_ok keys -> omap net_key (Some <$> (key_net <$> keys)) = keys.
Proof.
  induction 1 as [|key keys Hk _ IH]; [done|]. rewrite !fmap_cons. cbn [omap list_omap].
  rewrite net_key_net by done. f_equal. exact IH.
Qed.

Lemma existsb_ext {A} (f : A -> bool) l k : (forall x, x ∈ l <-> x ∈ k) -> existsb f l = existsb f k.
Proof.
  intros Heq. apply Bool.eq_iff_eq_true. rewrite !List.existsb_exists.
  split; intros (x & Hx%list_elem_of_In & Hf); exists x; (split; [apply list_elem_of_In; set_solver|done]).
Qed.

Lemma filter_port_ok ports : Forall (fun p => minPort <= p <= maxPort) ports -> List.filter port_ok ports = ports.
Proof.
  induction 1 as [|p ports Hp _ IH]; [done|]. cbn [List.filter]. rewrite IH.
  by rewrite (proj2 (port_ok_range p) Hp).
Qed.

(** Only the denotation of the allowlists matters. *)
Lemma Allow_ext p p' pkt :
  (forall ip, containsDest p' ip = containsDest p ip) -> (forall q, q ∈ pp_ports p' <-> q ∈ pp_ports p) ->
  pp_allowPrivate p' = pp_allowPrivate p -> pp_icmpEnabled p' = pp_icmpEnabled p -> pp_mtu p' = pp_mtu p ->
  Allow p' pkt = Allow p pkt.
Proof.
  intros Hc Hp Hpr Hi Hm. unfold Allow. rewrite Hc, Hpr, Hi, Hm.
  assert (bool_decide (pp_ports p' = []) = bool_decide (pp_ports p = [])) as ->.
  { apply bool_decide_ext. split; intros E; rewrite E in Hp.
    - destruct (pp_ports p) as [|q]; [done|]. exfalso; specialize (Hp q); set_solver.
    - destruct (pp_ports p') as [|q]; [done|]. exfalso; specialize (Hp q); set_solver. }
  by rewrite (bool_decide_ext _ _ (Hp (pk_Port pkt))).
Qed.

(** Storing a peer's policy loses nothing.  The allowlists of a valid peer,
    written as the canonical column text and read back, give a peer that is
    again valid, whose policy decides every packet as before, and whose column
    text is the same, so that saving it again changes nothing. *)
Theorem stored_policy_equivalent `{GoUnicode} s mtu now p :
  NewPacketPolicy s mtu now = Ok p ->
  exists ips ports p',
    ParseAllowedIPs (EncodeAllowedIPs (pe_AllowedIPs s)) = Ok ips /\
    ParseAllowedPorts (EncodeAllowedPorts (pe_AllowedPorts s)) = Ok ports /\
    NewPacketPolicy (with_allowlists s (Some <$> ips) ports) mtu now = Ok p' /\
    (forall pkt, Allow p' pkt = Allow p pkt) /\
    EncodeAllowedIPs (Some <$> ips) = EncodeAllowedIPs (pe_AllowedIPs s) /\
    EncodeAllowedPorts ports = EncodeAllowedPorts (pe_AllowedPorts s).
Proof.
  intros (Hv & [Hips Hports]%ValidateFields_inv & Hm & ->)%NewPacketPolicy_inv.
  destruct (Parse_EncodeAllowedIPs (pe_AllowedIPs s)) as (keys & Hpi & Hok & Hel & Htxt).
  set (ports := canon Z.ltb (List.filter port_ok (pe_AllowedPorts s))).
  assert (forallb port_ok ports = true) as Hpo.
  { apply List.forallb_forall. intros q Hq%list_elem_of_In.
    exact (proj1 (Forall_forall _ _) (canon_ports_ok (pe_AllowedPorts s)) q Hq). }
  exists (key_net <$> keys), ports. eexists. split_and!.
  - exact Hpi.
  - apply Parse_EncodeAllowedPorts.
  - unfold NewPacketPolicy. rewrite ValidatePeer_allowlists by (done || by apply key_nets_ok). cbn [rbind].
    destruct (mtu <? 1) eqn:E; [lia|reflexivity].
  - intros pkt. apply Allow_ext; cbn; try done.
    + intros ip. destruct (decide (To4 ip = [])) as [E|E]; [by unfold containsDest; rewrite E|].
      destruct (To4_forms ip E) as (u & Hu & Eu & _). rewrite !(containsDest_nets _ ip u) by (done || by apply key_nets_ok).
      cbn [pp_allowedIPs]. rewrite key_nets_keys by done. by apply existsb_ext.
    + intros q. unfold ports. rewrite canon_elem, filter_port_ok by done. done.
  - rewrite !EncodeAllowedIPs_keys, key_nets_keys, Htxt by done. f_equal.
    apply canon_idemp; [apply str_ltb_asym|apply str_ltb_trans_false|apply str_ltb_trichotomy].
  - rewrite !EncodeAllowedPorts_canon. do 2 f_equal. apply canon_ext; [apply Zltb_asym|apply Zltb_trans_false|apply Zltb_total|].
    intros q. unfold ports. rewrite !list_elem_of_In, !List.filter_In, <- !list_elem_of_In, canon_elem.
    rewrite !list_elem_of_In, !List.filter_In. tauto.
Qed.

(** The column text is canonical: two allowlists get the same text exactly
    when they denote the same set of networks, whatever the order, repetitions,
    host bits or byte representation of their entries; two port lists exactly
    when they have the same valid ports. *)
Theorem policy_text_canonical :
  (forall a b, EncodeAllowedIPs a = EncodeAllowedIPs b <->
     forall key, key ∈ omap net_key a <-> key ∈ omap net_key b) /\
  (forall a b, EncodeAllowedPorts a = EncodeAllowedPorts b <->
     forall p, minPort <= p <= maxPort -> p ∈ a <-> p ∈ b).
Proof.
  split; intros a b; split.
  - intros E key. destruct (@Parse_EncodeAllowedIPs ascii_unicode a) as (ka & Ha & Oka & <- & _).
    destruct (@Parse_EncodeAllowedIPs ascii_unicode b) as (kb & Hb & Okb & <- & _).
    rewrite E, Hb in Ha. apply Ok_inj in Ha.
    by rewrite <- (key_nets_keys ka Oka), <- (key_nets_keys kb Okb), Ha.
  - intros Heq. rewrite !EncodeAllowedIPs_keys. f_equal.
    apply canon_ext; [apply str_ltb_asym|apply str_ltb_trans_false|apply str_ltb_trichotomy|].
    intros t. rewrite !list_elem_of_fmap. by setoid_rewrite Heq.
  - intros E p Hp%port_ok_range. apply (f_equal (@ParseAllowedPorts ascii_unicode)) in E.
    rewrite !Parse_EncodeAllowedPorts in E. apply Ok_inj in E.
    assert (p ∈ List.filter port_ok a <-> p ∈ List.filter port_ok b) as Hf
      by (by rewrite <- (canon_elem Z.ltb (List.filter port_ok a)), E, canon_elem).
    rewrite !list_elem_of_In, !List.filter_In in Hf. rewrite !list_elem_of_In. tauto.
  - intros Heq. rewrite !EncodeAllowedPorts_canon. do 2 f_equal.
    apply canon_ext; [apply Zltb_asym|apply Zltb_trans_false|apply Zltb_total|].
    intros p. rewrite !list_elem_of_In, !List.filter_In, <- !list_elem_of_In.
    split; intros [Hin Hp]; (split; [|done]); apply Heq; try done; by apply port_ok_range.
Qed.

(** ** A sample peer *)

Definition sample_peer : PeerSpec :=
  mkPeer #"laptop" [] #"AQEBAQEBAQEBAQEBAQEBAQEBAQEBAQEBAQEBAQEBAQE=" (be_put 4 (addr4 100 64 0 2)) #"node-1" #"agent-1"
    [Some (net4 (addr4 10 2 3 4) 16); Some (net4 0 0); Some (net4 (addr4 10 2 0 0) 16)] [443; 80; 443]
    false true 0 0 (Some 1000).

Definition sample_policy : PacketPolicy :=
  mkPacketPolicy (pe_AllowedIPs sample_peer) (pe_AllowedPorts sample_peer) false true 1420.

Definition sample_packet : Packet := mkPacket 6 [] (be_put 4 (addr4 93 184 216 34)) 443 1000 false.

Lemma packet_allowed_iff_witness :
  @NewPacketPolicy ascii_unicode sample_peer 1420 7 = Ok sample_policy /\
  (Allow sample_policy sample_packet = None <-> may_leave sample_peer 1420 sample_packet) /\
  Allow sample_policy sample_packet = None /\
  Allow sample_policy (mkPacket 6 [] (be_put 4 (addr4 169 254 169 254)) 443 1000 false) =
    Some (denied ClassMetadataDenied #"destination is in a reserved, multicast or metadata range").
Proof.
  assert (@NewPacketPolicy ascii_unicode sample_peer 1420 7 = Ok sample_policy) as Hp by by vm_compute.
  split_and!; [exact Hp| |by vm_compute..].
  apply (@packet_allowed_iff ascii_unicode sample_peer 1420 7 sample_policy sample_packet). exact Hp.
Defined.

Lemma stored_policy_equivalent_witness :
  @NewPacketPolicy ascii_unicode sample_peer 1420 7 = Ok sample_policy /\
  EncodeAllowedIPs (pe_AllowedIPs sample_peer) = #"0.0.0.0/0,10.2.0.0/16" /\
  exists ips, @ParseAllowedIPs ascii_unicode (EncodeAllowedIPs (pe_AllowedIPs sample_peer)) = Ok ips.
Proof.
  assert (@NewPacketPolicy ascii_unicode sample_peer 1420 7 = Ok sample_policy) as Hp by by vm_compute.
  split_and!; [exact Hp|by vm_compute|].
  destruct (@stored_policy_equivalent ascii_unicode sample_peer 1420 7 sample_policy Hp) as (ips & _ & _ & E & _).
  by exists ips.
Defined.
