(* ===== verification/VpnWire.v ===== *)
(** * Tunnel datagrams

    internal/server/vpn_wire.go (the parser of decrypted datagrams) and the
    datagrams the gateway builds itself (buildIPv4UDP of vpn_udp.go,
    buildIPv4ICMPEchoReply of vpn_icmp.go) with their checksums.

    Go indexes and slices with a bounds check that panics.  The parser is
    written in the option monad whose [None] is that panic, so that "a truncated
    datagram never panics" is a theorem. *)

From stdpp Require Import base list strings.
From Stdlib Require Import Ascii.
From S2P Require Import Prelude GoStrings GoNet GoCrypto Routing VpnPool VpnPolicy.
Local Open Scope Z_scope.

Definition vpnWireIPv4HeaderMinimum : Z := 20.
Definition vpnWireTCPHeaderMinimum : Z := 20.
Definition vpnWireUDPHeader : Z := 8.
Definition vpnWireICMPHeader : Z := 8.
Definition vpnWireTCPSYN : Z := 2.
Definition vpnWireTCPACK : Z := 16.

Inductive wire_err := errVPNWireNotIPv4 | errVPNWireShortPacket | errVPNWireTruncatedTransport.

#[global] Instance wire_err_eq_dec : EqDecision wire_err.
Proof. solve_decision. Defined.

(** A [netip.Addr] built by [AddrFrom4] is its four bytes. *)
Record vpnWirePacket := mkWire {
  w_Version : Z;
  w_Protocol : Z;
  w_Src : bytes;
  w_Dst : bytes;
  w_Size : Z;
  w_Fragment : bool;
  w_Malformed : bool;
  w_SrcPort : Z;
  w_DstPort : Z;
  w_TCPFlags : Z;
  w_ICMPType : Z;
  w_ICMPCode : Z;
  w_ICMPID : Z;
  w_ICMPSeq : Z;
  w_Payload : bytes;
}.

(** ** Indexing *)

Definition zlen (l : bytes) : Z := Z.of_nat (length l).

(** [l[i]] *)
Definition index (l : bytes) (i : Z) : option Z :=
  if 0 <=? i then byte_val <$> l !! Z.to_nat i else None.

(** [l[lo:hi]]; the capacity of the slices here is their length. *)
Definition subslice (l : bytes) (lo hi : Z) : option bytes :=
  if (0 <=? lo) && (lo <=? hi) && (hi <=? zlen l) then Some (slice (Z.to_nat lo) (Z.to_nat hi) l) else None.

(** [binary.BigEndian.Uint16(l[lo:lo+2])] *)
Definition Uint16 (l : bytes) (lo : Z) : option Z := be_get <$> subslice l lo (lo + 2).

(** A step that may panic, returning a value or an error. *)
Definition wire_outcome := option (result vpnWirePacket wire_err).

(** ** Transport headers *)

Definition set_ports (p : vpnWirePacket) (src dst : Z) (malformed : bool) (flags : Z) (payload : bytes) : vpnWirePacket :=
  mkWire (w_Version p) (w_Protocol p) (w_Src p) (w_Dst p) (w_Size p) (w_Fragment p) malformed src dst flags
    (w_ICMPType p) (w_ICMPCode p) (w_ICMPID p) (w_ICMPSeq p) payload.

Definition set_icmp (p : vpnWirePacket) (typ code id seq : Z) (payload : bytes) : vpnWirePacket :=
  mkWire (w_Version p) (w_Protocol p) (w_Src p) (w_Dst p) (w_Size p) (w_Fragment p) (w_Malformed p) (w_SrcPort p)
    (w_DstPort p) (w_TCPFlags p) typ code id seq payload.

Definition parseVPNTCP (parsed : vpnWirePacket) (body : bytes) : wire_outcome :=
  if zlen body <? vpnWireTCPHeaderMinimum then Some (Err errVPNWireTruncatedTransport)
  else
    b12 ← index body 12;
    let dataOffset := Z.shiftr b12 4 * 4 in
    if (dataOffset <? vpnWireTCPHeaderMinimum) || (zlen body <? dataOffset)
    then Some (Err errVPNWireTruncatedTransport)
    else
      src ← Uint16 body 0;
      dst ← Uint16 body 2;
      flags ← index body 13;
      payload ← subslice body dataOffset (zlen body);
      Some (Ok (set_ports parsed src dst (w_Malformed parsed) flags payload)).

Definition parseVPNUDP (parsed : vpnWirePacket) (body : bytes) : wire_outcome :=
  if zlen body <? vpnWireUDPHeader then Some (Err errVPNWireTruncatedTransport)
  else
    src ← Uint16 body 0;
    dst ← Uint16 body 2;
    len ← Uint16 body 4;
    payload ← subslice body vpnWireUDPHeader (zlen body);
    Some (Ok (set_ports parsed src dst (w_Malformed parsed || negb (len =? zlen body)) (w_TCPFlags parsed) payload)).

Definition parseVPNICMP (parsed : vpnWirePacket) (body : bytes) : wire_outcome :=
  if zlen body <? vpnWireICMPHeader then Some (Err errVPNWireTruncatedTransport)
  else
    typ ← index body 0;
    code ← index body 1;
    id ← Uint16 body 4;
    seq ← Uint16 body 6;
    payload ← subslice body vpnWireICMPHeader (zlen body);
    Some (Ok (set_icmp parsed typ code id seq payload)).

(** ** The datagram *)

Definition parseVPNWirePacket (packet : bytes) : wire_outcome :=
  if zlen packet <? vpnWireIPv4HeaderMinimum then Some (Err errVPNWireShortPacket)
  else
    b0 ← index packet 0;
    if negb (Z.shiftr b0 4 =? 4) then Some (Err errVPNWireNotIPv4)
    else
      let headerLength := Z.land b0 15 * 4 in
      if (headerLength <? vpnWireIPv4HeaderMinimum) || (zlen packet <? headerLength)
      then Some (Err errVPNWireShortPacket)
      else
        totalLength ← Uint16 packet 2;
        if totalLength <? headerLength then Some (Err errVPNWireShortPacket)
        else
          protocol ← index packet 9;
          src ← subslice packet 12 16;
          dst ← subslice packet 16 20;
          flagsAndOffset ← Uint16 packet 6;
          let fragment := negb (Z.land flagsAndOffset 8192 =? 0) || negb (Z.land flagsAndOffset 8191 =? 0) in
          let end' := if totalLength >? zlen packet then zlen packet else totalLength in
          let malformed := totalLength >? zlen packet in
          let parsed := mkWire 4 protocol src dst end' fragment malformed 0 0 0 0 0 0 0 [] in
          body ← subslice packet headerLength end';
          if fragment then Some (Ok parsed)
          else if protocol =? ProtocolTCP then parseVPNTCP parsed body
          else if protocol =? ProtocolUDP then parseVPNUDP parsed body
          else if protocol =? ProtocolICMP then parseVPNICMP parsed body
          else Some (Ok (set_ports parsed 0 0 malformed 0 body)).

Definition isTCPSYN (p : vpnWirePacket) : bool :=
  (w_Protocol p =? ProtocolTCP) && negb (Z.land (w_TCPFlags p) vpnWireTCPSYN =? 0) &&
  (Z.land (w_TCPFlags p) vpnWireTCPACK =? 0).

Definition isICMPEchoRequest (p : vpnWirePacket) : bool :=
  (w_Protocol p =? ProtocolICMP) && (w_ICMPType p =? 8) && (w_ICMPCode p =? 0).

Definition isICMPEchoReply (p : vpnWirePacket) : bool :=
  (w_Protocol p =? ProtocolICMP) && (w_ICMPType p =? 0) && (w_ICMPCode p =? 0).

Definition policyPacket (p : vpnWirePacket) : Packet :=
  mkPacket (w_Protocol p) (w_Src p) (w_Dst p) (w_DstPort p) (w_Size p) (w_Fragment p).

(** ** Checksums *)

(** The accumulation loop over 16-bit words, in [uint32]. *)
Fixpoint sum_words (sum : Z) (l : bytes) : Z :=
  match l with
  | [] => sum
  | [a] => uint 32 (sum + Z.shiftl (byte_val a) 8)
  | a :: b :: l' => sum_words (uint 32 (sum + be_get [a; b])) l'
  end.

(** [for sum > 0xffff]; three rounds reduce any [uint32]. *)
Fixpoint fold_sum (fuel : nat) (sum : Z) : Z :=
  match fuel with
  | O => sum
  | S fuel' => if sum >? 65535 then fold_sum fuel' (uint 32 (Z.shiftr sum 16 + Z.land sum 65535)) else sum
  end.

(** [^uint16(sum)] *)
Definition not16 (sum : Z) : Z := 65535 - uint 16 sum.

Definition vpnIPv4Checksum (header : bytes) : Z := not16 (fold_sum 3 (sum_words 0 header)).

Definition vpnUDPChecksum (source destination body : bytes) : Z :=
  let sum := sum_words 0 source in
  let sum := sum_words sum destination in
  let sum := uint 32 (sum + ProtocolUDP) in
  let sum := uint 32 (sum + zlen body) in
  let checksum := not16 (fold_sum 3 (sum_words sum body)) in
  if checksum =? 0 then 65535 else checksum.

(** ** Datagrams the gateway builds *)

(** [copy(l[i:], src)] *)
Definition copy_at (i : nat) (src l : bytes) : bytes :=
  take i l ++ take (length l - i) src ++ drop (i + length src) l.

(** [binary.BigEndian.PutUint16(l[i:i+2], v)] *)
Definition PutUint16 (i : nat) (v : Z) (l : bytes) : bytes := copy_at i (be_put 2 v) l.

(** The IPv4 header both builders write, its checksum last. *)
Definition ipv4_header (total protocol : Z) (source destination : bytes) : bytes :=
  let header := replicate 20 zero_byte in
  let header := <[0%nat := byte_of (Z.lor (Z.shiftl 4 4) (vpnWireIPv4HeaderMinimum / 4))]> header in
  let header := PutUint16 2 total header in
  let header := <[8%nat := byte_of 64]> header in
  let header := <[9%nat := byte_of protocol]> header in
  let header := copy_at 12 (take 4 source) header in
  let header := copy_at 16 (take 4 destination) header in
  PutUint16 10 (vpnIPv4Checksum header) header.

(** An address and a port. *)
Definition AddrPort : Type := bytes * Z.

Definition buildIPv4UDP (source destination : AddrPort) (payload : bytes) : bytes :=
  let total := vpnWireIPv4HeaderMinimum + vpnWireUDPHeader + zlen payload in
  let header := ipv4_header total ProtocolUDP source.1 destination.1 in
  let body := replicate (Z.to_nat (vpnWireUDPHeader + zlen payload)) zero_byte in
  let body := PutUint16 0 source.2 body in
  let body := PutUint16 2 destination.2 body in
  let body := PutUint16 4 (vpnWireUDPHeader + zlen payload) body in
  let body := copy_at 8 payload body in
  let body := PutUint16 6 (vpnUDPChecksum (slice 12 16 header) (slice 16 20 header) body) body in
  header ++ body.

Definition buildIPv4ICMPEchoReply (source destination : bytes) (identifier sequence : Z) (payload : bytes) : bytes :=
  let total := vpnWireIPv4HeaderMinimum + vpnWireICMPHeader + zlen payload in
  let header := ipv4_header total ProtocolICMP source destination in
  let message := replicate (Z.to_nat (vpnWireICMPHeader + zlen payload)) zero_byte in
  let message := <[0%nat := byte_of 0]> message in
  let message := <[1%nat := byte_of 0]> message in
  let message := PutUint16 4 identifier message in
  let message := PutUint16 6 sequence message in
  let message := copy_at 8 payload message in
  let message := PutUint16 2 (vpnIPv4Checksum message) message in
  header ++ message.

(** ** Bounds *)

Lemma zlen_nonneg l : 0 <= zlen l.
Proof. unfold zlen. lia. Qed.

Lemma index_some l i : 0 <= i < zlen l -> index l i = Some (byte_val (nth (Z.to_nat i) l zero_byte)).
Proof.
  unfold index, zlen. intros Hi. replace (0 <=? i) with true by lia.
  destruct (l !! Z.to_nat i) as [b|] eqn:E; [|apply lookup_ge_None in E; lia].
  cbn. by rewrite (nth_lookup_Some _ _ _ _ E).
Qed.

Lemma subslice_some l lo hi : 0 <= lo <= hi -> hi <= zlen l ->
  subslice l lo hi = Some (slice (Z.to_nat lo) (Z.to_nat hi) l).
Proof. intros. unfold subslice. by replace ((0 <=? lo) && (lo <=? hi) && (hi <=? zlen l)) with true by lia. Qed.

Lemma Uint16_some l lo : 0 <= lo -> lo + 2 <= zlen l ->
  Uint16 l lo = Some (be_get (slice (Z.to_nat lo) (Z.to_nat lo + 2) l)).
Proof.
  intros. unfold Uint16. rewrite subslice_some by lia. cbn. do 3 f_equal. lia.
Qed.

Lemma slice_slice {A} (l : list A) i j lo hi : (lo + j <= hi)%nat ->
  slice i j (slice lo hi l) = slice (lo + i) (lo + j) l.
Proof.
  intros H. unfold slice. rewrite List.skipn_firstn_comm, drop_drop, take_take. f_equal. lia.
Qed.

Lemma zlen_slice l lo hi : (lo <= hi <= length l)%nat -> zlen (slice lo hi l) = Z.of_nat hi - Z.of_nat lo.
Proof. intros. unfold zlen, slice. rewrite length_take, length_drop. lia. Qed.

Lemma be_get2_range l lo : 0 <= be_get (slice lo (lo + 2) l) < 65536.
Proof.
  pose proof (be_get_range (slice lo (lo + 2) l)) as [H0 H1]. split; [done|].
  eapply Z.lt_le_trans; [exact H1|]. change 65536 with (256 ^ 2). apply Z.pow_le_mono_r; [lia|].
  unfold slice. rewrite length_take. lia.
Qed.

Lemma land_pow2 f n : 0 <= n -> Z.land f (2 ^ n) = if Z.testbit f n then 2 ^ n else 0.
Proof.
  intros Hn. apply Z.bits_inj'. intros m Hm. rewrite Z.land_spec, Z.pow2_bits_eqb by done.
  destruct (n =? m) eqn:E; [apply Z.eqb_eq in E; subst m|]; destruct (Z.testbit f n) eqn:Ef;
    rewrite ?Z.pow2_bits_eqb, ?Z.bits_0, ?E, ?Ef, ?Z.eqb_refl by done; by rewrite ?andb_false_r.
Qed.

(** Both fragment tests together: the low fourteen bits. *)
Lemma fragment_bits f : 0 <= f < 65536 ->
  negb (Z.land f 8192 =? 0) || negb (Z.land f 8191 =? 0) = negb (f mod 16384 =? 0).
Proof.
  intros Hf. change 8191 with (Z.ones 13). rewrite Z.land_ones by lia. change (2 ^ 13) with 8192.
  assert (Z.land f 8192 = 0 <-> f / 8192 mod 2 = 0) as H13.
  { change 8192 with (2 ^ 13). rewrite land_pow2, Z.testbit_odd, Z.shiftr_div_pow2, Zmod_odd by lia.
    by destruct (Z.odd _). }
  apply Bool.eq_iff_eq_true. rewrite orb_true_iff, !negb_true_iff, !Z.eqb_neq, H13.
  zify; Z.div_mod_to_equations; lia.
Qed.

(** ** What a reading of a datagram says *)

Definition octet (l : bytes) (i : nat) : Z := byte_val (nth i l zero_byte).
Definition word (l : bytes) (i : nat) : Z := be_get (slice i (i + 2) l).

(** The header length, the declared length and the end of the datagram. *)
Definition ihl (packet : bytes) : nat := Z.to_nat (4 * (octet packet 0 mod 16)).
Definition total (packet : bytes) : Z := word packet 2.
Definition stop (packet : bytes) : nat := Z.to_nat (Z.min (total packet) (zlen packet)).
Definition fragmented (packet : bytes) : bool := negb (word packet 6 mod 16384 =? 0).
Definition tcp_offset (packet : bytes) : nat := Z.to_nat (4 * (octet packet (ihl packet + 12) / 16)).

(** [p] is the datagram with an IP header of [ihl] bytes, its transport header
    of [t] bytes and the rest as payload. *)
Definition transport_reading (packet : bytes) (p : vpnWirePacket) : Prop :=
  let h := ihl packet in
  let ports := w_SrcPort p = word packet h /\ w_DstPort p = word packet (h + 2) in
  exists t, (h + t <= stop packet)%nat /\ w_Payload p = slice (h + t) (stop packet) packet /\
    if w_Protocol p =? ProtocolTCP then
      t = tcp_offset packet /\ (20 <= t)%nat /\ ports /\ w_TCPFlags p = octet packet (h + 13)
    else if w_Protocol p =? ProtocolUDP then t = 8%nat /\ ports
    else if w_Protocol p =? ProtocolICMP then
      t = 8%nat /\ w_ICMPType p = octet packet h /\ w_ICMPCode p = octet packet (h + 1) /\
      w_ICMPID p = word packet (h + 4) /\ w_ICMPSeq p = word packet (h + 6)
    else t = 0%nat.

Definition wire_reading (packet : bytes) (p : vpnWirePacket) : Prop :=
  octet packet 0 / 16 = 4 /\ (20 <= ihl packet <= stop packet)%nat /\ (stop packet <= length packet)%nat /\
  w_Size p = Z.of_nat (stop packet) /\ w_Protocol p = octet packet 9 /\
  w_Src p = slice 12 16 packet /\ w_Dst p = slice 16 20 packet /\
  w_Fragment p = fragmented packet /\ (zlen packet < total packet -> w_Malformed p = true) /\
  if fragmented packet then w_Payload p = [] /\ w_SrcPort p = 0 /\ w_DstPort p = 0
  else transport_reading packet p.

(** Why a datagram is refused. *)
Definition wire_refused (packet : bytes) (e : wire_err) : Prop :=
  let room := (stop packet - ihl packet)%nat in
  match e with
  | errVPNWireShortPacket =>
      (length packet < 20)%nat \/ (ihl packet < 20)%nat \/ (length packet < ihl packet)%nat \/
      total packet < Z.of_nat (ihl packet)
  | errVPNWireNotIPv4 => (20 <= length packet)%nat /\ octet packet 0 / 16 <> 4
  | errVPNWireTruncatedTransport =>
      octet packet 9 = ProtocolTCP /\ (room < 20 \/ tcp_offset packet < 20 \/ room < tcp_offset packet)%nat \/
      (octet packet 9 = ProtocolUDP \/ octet packet 9 = ProtocolICMP) /\ (room < 8)%nat
  end.

Section body.
Context (packet : bytes) (h e : nat) (Hhe : (h <= e <= length packet)%nat).

Lemma zlen_body : zlen (slice h e packet) = Z.of_nat (e - h).
Proof. rewrite zlen_slice by lia. lia. Qed.

Lemma body_word i : (i + 2 <= e - h)%nat ->
  Uint16 (slice h e packet) (Z.of_nat i) = Some (word packet (h + i)).
Proof.
  intros Hi. rewrite Uint16_some by (rewrite ?zlen_body; lia). rewrite Nat2Z.id, slice_slice by lia.
  unfold word. do 3 f_equal. lia.
Qed.

Lemma body_octet i : (i < e - h)%nat -> index (slice h e packet) (Z.of_nat i) = Some (octet packet (h + i)).
Proof.
  intros Hi. rewrite index_some by (rewrite zlen_body; lia). rewrite Nat2Z.id. unfold octet. do 2 f_equal.
  unfold slice. apply nth_lookup_Some. rewrite lookup_take_lt, lookup_drop by lia.
  destruct (packet !! (h + i)%nat) as [b|] eqn:E; [|apply lookup_ge_None in E; lia].
  by rewrite (nth_lookup_Some _ _ _ _ E).
Qed.

Lemma body_tail t : (t <= e - h)%nat ->
  subslice (slice h e packet) (Z.of_nat t) (Z.of_nat (e - h)) = Some (slice (h + t) e packet).
Proof.
  intros Ht. rewrite subslice_some by (rewrite ?zlen_body; lia). rewrite !Nat2Z.id, slice_slice by lia.
  do 2 f_equal. lia.
Qed.
End body.

Lemma shiftr4 x : Z.shiftr x 4 = x / 16.
Proof. by rewrite Z.shiftr_div_pow2 by lia. Qed.

Lemma land15 x : Z.land x 15 = x mod 16.
Proof. change 15 with (Z.ones 4). by rewrite Z.land_ones by lia. Qed.

Lemma octet_range l i : 0 <= octet l i < 256.
Proof. apply byte_val_range. Qed.

Section transport.
Context (packet : bytes) (Hh : (ihl packet <= stop packet <= length packet)%nat).
Context (parsed : vpnWirePacket).
Let body := slice (ihl packet) (stop packet) packet.
Let room := (stop packet - ihl packet)%nat.

Lemma parseVPNTCP_reading : exists r, parseVPNTCP parsed body = Some r /\
  match r with
  | Err e => e = errVPNWireTruncatedTransport /\ (room < 20 \/ tcp_offset packet < 20 \/ room < tcp_offset packet)%nat
  | Ok p => (20 <= tcp_offset packet <= room)%nat /\
      p = set_ports parsed (word packet (ihl packet)) (word packet (ihl packet + 2)) (w_Malformed parsed)
            (octet packet (ihl packet + 13)) (slice (ihl packet + tcp_offset packet) (stop packet) packet)
  end.
Proof.
  unfold parseVPNTCP, body. rewrite zlen_body by done. fold room. unfold vpnWireTCPHeaderMinimum.
  destruct (_ <? 20) eqn:E1; [eexists; split; [done|]; cbn; split; [done|]; lia|]. split_bools.
  change 12 with (Z.of_nat 12). rewrite body_octet by (done || lia). cbn [mbind option_bind]. rewrite shiftr4.
  pose proof (octet_range packet (ihl packet + 12)) as Ho.
  replace (octet packet (ihl packet + 12) / 16 * 4) with (Z.of_nat (tcp_offset packet))
    by (unfold tcp_offset; rewrite Z2Nat.id; [lia|zify; Z.div_mod_to_equations; lia]).
  destruct (_ || _) eqn:E2; [eexists; split; [done|]; cbn; split; [done|]; apply orb_true_iff in E2; lia|].
  apply orb_false_iff in E2 as [E2 E3]. split_bools.
  change 0 with (Z.of_nat 0) at 1. change 2 with (Z.of_nat 2) at 1. change 13 with (Z.of_nat 13).
  rewrite !body_word, body_octet by (done || lia). cbn [mbind option_bind].
  rewrite body_tail by (done || lia). cbn [mbind option_bind].
  eexists. split; [done|]. cbn. split; [lia|]. by rewrite Nat.add_0_r.
Qed.

Lemma parseVPNUDP_reading : exists r, parseVPNUDP parsed body = Some r /\
  match r with
  | Err e => e = errVPNWireTruncatedTransport /\ (room < 8)%nat
  | Ok p => (8 <= room)%nat /\
      p = set_ports parsed (word packet (ihl packet)) (word packet (ihl packet + 2))
            (w_Malformed parsed || negb (word packet (ihl packet + 4) =? Z.of_nat room))
            (w_TCPFlags parsed) (slice (ihl packet + 8) (stop packet) packet)
  end.
Proof.
  unfold parseVPNUDP, body. rewrite zlen_body by done. fold room. unfold vpnWireUDPHeader.
  destruct (_ <? 8) eqn:E1; [eexists; split; [done|]; cbn; split; [done|]; lia|]. split_bools.
  change 0 with (Z.of_nat 0) at 1. change 2 with (Z.of_nat 2) at 1. change 4 with (Z.of_nat 4) at 1.
  rewrite !body_word by (done || lia). cbn [mbind option_bind].
  change 8 with (Z.of_nat 8) at 1. rewrite body_tail by (done || lia).
  cbn [mbind option_bind]. eexists. split; [done|]. cbn -[Z.of_nat]. split; [lia|]. by rewrite Nat.add_0_r.
Qed.

Lemma parseVPNICMP_reading : exists r, parseVPNICMP parsed body = Some r /\
  match r with
  | Err e => e = errVPNWireTruncatedTransport /\ (room < 8)%nat
  | Ok p => (8 <= room)%nat /\
      p = set_icmp parsed (octet packet (ihl packet)) (octet packet (ihl packet + 1))
            (word packet (ihl packet + 4)) (word packet (ihl packet + 6)) (slice (ihl packet + 8) (stop packet) packet)
  end.
Proof.
  unfold parseVPNICMP, body. rewrite zlen_body by done. fold room. unfold vpnWireICMPHeader.
  destruct (_ <? 8) eqn:E1; [eexists; split; [done|]; cbn; split; [done|]; lia|]. split_bools.
  change 0 with (Z.of_nat 0) at 1. change 1 with (Z.of_nat 1) at 1. change 4 with (Z.of_nat 4) at 1.
  change 6 with (Z.of_nat 6) at 1.
  rewrite !body_octet, !body_word by (done || lia). cbn [mbind option_bind].
  change 8 with (Z.of_nat 8) at 1. rewrite body_tail by (done || lia).
  cbn [mbind option_bind]. eexists. split; [done|]. cbn. split; [lia|]. by rewrite Nat.add_0_r.
Qed.
End transport.

(** What the IP header alone determines. *)
Definition base_reading (packet : bytes) : vpnWirePacket :=
  mkWire 4 (octet packet 9) (slice 12 16 packet) (slice 16 20 packet) (Z.of_nat (stop packet)) (fragmented packet)
    (total packet >? zlen packet) 0 0 0 0 0 0 0 [].

Definition parse_transport (packet : bytes) : wire_outcome :=
  let parsed := base_reading packet in
  let body := slice (ihl packet) (stop packet) packet in
  if fragmented packet then Some (Ok parsed)
  else if octet packet 9 =? ProtocolTCP then parseVPNTCP parsed body
  else if octet packet 9 =? ProtocolUDP then parseVPNUDP parsed body
  else if octet packet 9 =? ProtocolICMP then parseVPNICMP parsed body
  else Some (Ok (set_ports parsed 0 0 (total packet >? zlen packet) 0 body)).

Lemma parse_header packet :
  (exists e, parseVPNWirePacket packet = Some (Err e) /\ wire_refused packet e /\ e <> errVPNWireTruncatedTransport) \/
  (parseVPNWirePacket packet = parse_transport packet /\ octet packet 0 / 16 = 4 /\
   (20 <= ihl packet <= stop packet)%nat /\ (stop packet <= length packet)%nat).
Proof.
  unfold parseVPNWirePacket, vpnWireIPv4HeaderMinimum.
  destruct (_ <? 20) eqn:E1; [left; eexists; split; [done|]; split; [|done]; unfold wire_refused, zlen in *; lia|]. split_bools.
  rewrite (index_some packet 0) by lia. cbn [mbind option_bind]. change (Z.to_nat 0) with 0%nat. fold (octet packet 0).
  rewrite shiftr4, land15. destruct (negb _) eqn:E2; split_bools.
  { left; eexists; split; [done|]; split; [|done]; unfold wire_refused, zlen in *; split; lia. }
  assert (octet packet 0 mod 16 * 4 = Z.of_nat (ihl packet)) as ->
    by (unfold ihl; pose proof (Z.mod_pos_bound (octet packet 0) 16); lia).
  destruct (_ || _) eqn:E3.
  { left; eexists; split; [done|]; split; [|done]; unfold wire_refused, zlen in *; apply orb_true_iff in E3; lia. }
  apply orb_false_iff in E3 as [E3 E4]. split_bools.
  rewrite (Uint16_some packet 2) by lia. cbn [mbind option_bind]. change (Z.to_nat 2) with 2%nat.
  fold (word packet 2). fold (total packet).
  destruct (total packet <? _) eqn:E5; [left; eexists; split; [done|]; split; [|done]; unfold wire_refused; lia|]. split_bools.
  rewrite (index_some packet 9), (subslice_some packet 12), (subslice_some packet 16), (Uint16_some packet 6) by lia.
  cbn [mbind option_bind]. change (be_get (slice (Z.to_nat 6) (Z.to_nat 6 + 2) packet)) with (word packet 6).
  rewrite fragment_bits by apply be_get2_range. fold (fragmented packet).
  assert ((if total packet >? zlen packet then zlen packet else total packet) = Z.of_nat (stop packet)) as ->
    by (unfold stop; destruct (_ >? _) eqn:E; unfold zlen in *; split_bools; lia).
  assert ((ihl packet <= stop packet <= length packet)%nat) as Hs by (unfold stop, zlen in *; lia).
  rewrite subslice_some by (unfold zlen; lia). cbn [mbind option_bind]. rewrite !Nat2Z.id.
  right. split_and!; [reflexivity|lia..].
Qed.

Lemma parse_reading packet :
  exists r, parseVPNWirePacket packet = Some r /\
    match r with
    | Ok p => wire_reading packet p
    | Err e => wire_refused packet e
    end.
Proof.
  destruct (parse_header packet) as [(e & -> & He & _)|(-> & Hv & Hh & Hs)]; [by eexists|].
  assert (forall p, w_Size p = Z.of_nat (stop packet) -> w_Protocol p = octet packet 9 ->
    w_Src p = slice 12 16 packet -> w_Dst p = slice 16 20 packet -> w_Fragment p = fragmented packet ->
    (total packet >? zlen packet = true -> w_Malformed p = true) ->
    (if fragmented packet then w_Payload p = [] /\ w_SrcPort p = 0 /\ w_DstPort p = 0 else transport_reading packet p) ->
    wire_reading packet p) as Hread.
  { intros p ? ? ? ? ? Hm ?. unfold wire_reading. split_and!; try done; try lia. intros. apply Hm. lia. }
  unfold parse_transport. destruct (fragmented packet) eqn:Ef.
  { eexists. split; [done|]. by apply Hread. }
  destruct (octet packet 9 =? ProtocolTCP) eqn:Et.
  { destruct (parseVPNTCP_reading packet ltac:(lia) (base_reading packet)) as ([p|e] & -> & Hp); eexists; (split; [done|]).
    - destruct Hp as [Ht ->]. apply Hread; try done. exists (tcp_offset packet). cbn -[Nat.add].
      rewrite Et. split_and!; done || lia.
    - destruct Hp as [-> Hp]. left. split; [lia|done]. }
  destruct (octet packet 9 =? ProtocolUDP) eqn:Eu.
  { destruct (parseVPNUDP_reading packet ltac:(lia) (base_reading packet)) as ([p|e] & -> & Hp); eexists; (split; [done|]).
    - destruct Hp as [Ht ->]. apply Hread; try done; [by intros H; cbn [set_ports base_reading w_Malformed]; rewrite H|]. exists 8%nat.
      cbn -[Nat.add]. rewrite Et, Eu. split_and!; done || lia.
    - destruct Hp as [-> Hp]. right. split; [left; lia|done]. }
  destruct (octet packet 9 =? ProtocolICMP) eqn:Ei.
  { destruct (parseVPNICMP_reading packet ltac:(lia) (base_reading packet)) as ([p|e] & -> & Hp); eexists; (split; [done|]).
    - destruct Hp as [Ht ->]. apply Hread; try done. exists 8%nat. cbn -[Nat.add]. rewrite Et, Eu, Ei.
      split_and!; done || lia.
    - destruct Hp as [-> Hp]. right. split; [right; lia|done]. }
  eexists. split; [done|]. apply Hread; try done. exists 0%nat. cbn -[Nat.add]. rewrite Et, Eu, Ei.
  rewrite Nat.add_0_r. split_and!; done || lia.
Qed.

(** C28. The parser of tunnel datagrams never panics, and reads what is there.
    On every byte string it returns a refusal that names a defect the bytes
    have, or a description whose addresses, protocol, fragment flag and length
    are those of the IP header, whose ports and ICMP fields are those of the
    transport header, and whose payload is exactly the rest of the datagram
    inside the bytes received; a fragment exposes neither ports nor payload. *)
Theorem parse_reads_datagram packet :
  exists r, parseVPNWirePacket packet = Some r /\
    match r with
    | Ok p => wire_reading packet p
    | Err e => wire_refused packet e
    end.
Proof. apply parse_reading. Qed.

(** ** Checksums *)

(** The sum of the 16-bit words of RFC 1071, an odd last byte padded with zero. *)
Fixpoint word_sum (l : bytes) : Z :=
  match l with
  | [] => 0
  | [a] => 256 * byte_val a
  | a :: b :: l' => 256 * byte_val a + byte_val b + word_sum l'
  end.

(** The one's complement sum is all ones: a receiver accepts. *)
Definition checksum_ok (l : bytes) : Prop := 0 < word_sum l /\ word_sum l mod 65535 = 0.

(** The pseudo-header a UDP checksum covers. *)
Definition udp_pseudo (source destination : bytes) (len : Z) : bytes :=
  source ++ destination ++ [zero_byte; byte_of ProtocolUDP] ++ be_put 2 len.

Lemma two_ind (P : bytes -> Prop) :
  P [] -> (forall a, P [a]) -> (forall a b l, P l -> P (a :: b :: l)) -> forall l, P l.
Proof.
  intros H0 H1 H2. fix IH 1. intros [|a [|b l]]; [exact H0|apply H1|]. apply H2, IH.
Qed.

Lemma word_sum_bound l : 0 <= word_sum l <= 65535 * (zlen l / 2 + 1).
Proof.
  induction l as [|a|a b l IH] using two_ind; [by vm_compute| |].
  - pose proof (byte_val_range a). change (zlen [a] / 2) with 0. cbn [word_sum]. lia.
  - pose proof (byte_val_range a). pose proof (byte_val_range b). cbn [word_sum].
    replace (zlen (a :: b :: l)) with (zlen l + 1 * 2) by (unfold zlen; cbn [length]; lia).
    rewrite Z.div_add by lia. lia.
Qed.

Lemma sum_words_exact l sum : 0 <= sum -> sum + word_sum l < 2 ^ 32 -> sum_words sum l = sum + word_sum l.
Proof.
  revert sum. induction l as [|a|a b l IH] using two_ind; intros sum H0 H1; cbn [sum_words word_sum] in *.
  - lia.
  - rewrite Z.shiftl_mul_pow2 by lia. pose proof (byte_val_range a). rewrite uint_small; lia.
  - pose proof (byte_val_range a). pose proof (byte_val_range b). pose proof (word_sum_bound l).
    replace (be_get [a; b]) with (256 * byte_val a + byte_val b) by (unfold be_get; cbn [foldl]; lia).
    rewrite uint_small by lia. rewrite IH; lia.
Qed.

Lemma fold_round x : 65535 < x < 2 ^ 32 ->
  let y := uint 32 (Z.shiftr x 16 + Z.land x 65535) in
  y = x / 65536 + x mod 65536 /\ 0 < y /\ y mod 65535 = x mod 65535.
Proof.
  intros Hx. cbn zeta.
  assert (Z.land x 65535 = x mod 65536) as -> by (change 65535 with (Z.ones 16); by rewrite Z.land_ones by lia).
  rewrite Z.shiftr_div_pow2 by lia. change (2 ^ 16) with 65536. change (2 ^ 32) with 4294967296 in *.
  assert (0 < x / 65536 < 65536) by (zify; Z.div_mod_to_equations; lia).
  assert (0 <= x mod 65536 < 65536) by (apply Z.mod_pos_bound; lia).
  rewrite uint_small by (change (2 ^ 32) with 4294967296; lia). split_and!; [done|lia|].
  replace x with (x / 65536 + x mod 65536 + x / 65536 * 65535) at 3 by (zify; Z.div_mod_to_equations; lia).
  by rewrite Z.mod_add by lia.
Qed.

Lemma fold_sum_spec s : 0 <= s < 2 ^ 32 ->
  let r := fold_sum 3 s in 0 <= r <= 65535 /\ r mod 65535 = s mod 65535 /\ (r = 0 <-> s = 0).
Proof.
  intros Hs. cbn zeta. cbn [fold_sum].
  destruct (s >? 65535) eqn:E1; [|split_bools; split_and!; lia]. split_bools.
  destruct (fold_round s) as (B1 & P1 & M1); [lia|]. set (s1 := uint 32 _) in *. clearbody s1.
  change (2 ^ 32) with 4294967296 in *.
  assert (s1 <= 131070) by (zify; Z.div_mod_to_equations; lia).
  destruct (s1 >? 65535) eqn:E2; [|split_bools; split_and!; lia]. split_bools.
  destruct (fold_round s1) as (B2 & P2 & M2); [lia|]. set (s2 := uint 32 _) in *. clearbody s2.
  assert (s2 <= 65535) by (zify; Z.div_mod_to_equations; lia).
  destruct (s2 >? 65535) eqn:E3; split_bools; [lia|]. split_and!; lia.
Qed.

Lemma word_sum_put v l : word_sum (be_put 2 v ++ l) = v mod 65536 + word_sum l.
Proof.
  pose proof (be_get_put 2 v) as H. change (256 ^ Z.of_nat 2) with 65536 in H. rewrite <- H. clear H.
  change (be_put 2 v) with [byte_of (v / 256); byte_of v]. unfold be_get. cbn [foldl app word_sum]. lia.
Qed.

(** The complement of a folded sum, added to the sum, gives all ones. *)
Lemma complement_fills s : 0 <= s < 2 ^ 32 ->
  let c := not16 (fold_sum 3 s) in 0 <= c <= 65535 /\ 0 < s + c /\ (s + c) mod 65535 = 0.
Proof.
  intros Hs. destruct (fold_sum_spec s Hs) as (Hr & Hm & H0). cbn zeta in *. set (r := fold_sum 3 s) in *.
  unfold not16. rewrite (uint_small 16) by (change (2 ^ 16) with 65536; lia). split_and!; [lia..|lia|].
  replace (s + (65535 - r)) with (s - r + 1 * 65535) by lia. rewrite Z.mod_add by lia.
  rewrite Zminus_mod, Hm, Z.sub_diag. done.
Qed.

Lemma vpnIPv4Checksum_fills l : zlen l <= 65535 ->
  let c := vpnIPv4Checksum l in 0 <= c <= 65535 /\ 0 < word_sum l + c /\ (word_sum l + c) mod 65535 = 0.
Proof.
  intros Hl. pose proof (word_sum_bound l) as Hb. assert (zlen l / 2 <= 32768) by (apply Z.div_le_upper_bound; lia).
  unfold vpnIPv4Checksum. rewrite sum_words_exact by (change (2 ^ 32) with 4294967296; lia).
  apply complement_fills. change (2 ^ 32) with 4294967296. lia.
Qed.

Lemma vpnUDPChecksum_fills src dst body : length src = 4%nat -> length dst = 4%nat -> zlen body <= 65535 ->
  let c := vpnUDPChecksum src dst body in
  let s := word_sum (udp_pseudo src dst (zlen body)) + word_sum body in
  0 < c <= 65535 /\ 0 < s + c /\ (s + c) mod 65535 = 0.
Proof.
  intros Hs Hd Hl. pose proof (word_sum_bound body) as Hb. pose proof (zlen_nonneg body).
  assert (zlen body / 2 <= 32768) by (apply Z.div_le_upper_bound; lia).
  assert (word_sum src <= 65535 * 3) by (pose proof (word_sum_bound src) as B; unfold zlen in B; rewrite Hs in B; exact (proj2 B)).
  assert (word_sum dst <= 65535 * 3) by (pose proof (word_sum_bound dst) as B; unfold zlen in B; rewrite Hd in B; exact (proj2 B)).
  pose proof (word_sum_bound src). pose proof (word_sum_bound dst).
  assert (word_sum (udp_pseudo src dst (zlen body)) = word_sum src + word_sum dst + 17 + zlen body) as ->.
  { destruct src as [|a0 [|a1 [|a2 [|a3 []]]]]; try done. destruct dst as [|d0 [|d1 [|d2 [|d3 []]]]]; try done.
    unfold udp_pseudo. cbn [app word_sum]. rewrite <- (app_nil_r (be_put 2 _)), word_sum_put.
    rewrite Z.mod_small by lia. change (byte_val zero_byte) with 0. change (byte_val (byte_of ProtocolUDP)) with 17.
    cbn [word_sum]. lia. }
  cbn zeta. unfold vpnUDPChecksum, ProtocolUDP. change (2 ^ 32) with 4294967296.
  rewrite (sum_words_exact src), (sum_words_exact dst) by (change (2 ^ 32) with 4294967296; lia).
  rewrite (uint_small 32 (_ + 17)) by (change (2 ^ 32) with 4294967296; lia).
  rewrite uint_small by (change (2 ^ 32) with 4294967296; lia).
  rewrite sum_words_exact by (change (2 ^ 32) with 4294967296; lia). rewrite Z.add_0_l.
  set (s := word_sum src + word_sum dst + 17 + zlen body + word_sum body).
  destruct (complement_fills s) as (Hc & Hp & Hm); [change (2 ^ 32) with 4294967296; lia|].
  destruct (_ =? 0) eqn:E; split_bools; [|split_and!; done || lia].
  rewrite E, Z.add_0_r in *. split_and!; [lia..|].
  replace (s + 65535) with (s + 1 * 65535) by lia. by rewrite Z.mod_add.
Qed.

(** ** The layout of built datagrams *)

Definition bare_header (tot proto c : Z) (src dst : bytes) : bytes :=
  [byte_of 69; zero_byte] ++ be_put 2 tot ++ replicate 4 zero_byte ++ [byte_of 64; byte_of proto] ++
  be_put 2 c ++ src ++ dst.

(** Writing over a field of the same length replaces it. *)
Lemma copy_at_field l old new r i : length l = i -> length old = length new ->
  copy_at i new (l ++ old ++ r) = l ++ new ++ r.
Proof.
  intros <- Hn. unfold copy_at. rewrite take_app_length, !length_app. f_equal.
  rewrite (take_ge new) by lia. f_equal. by rewrite drop_app_add, <- Hn, drop_app_length.
Qed.

Lemma PutUint16_field l x y r i v : length l = i ->
  PutUint16 i v (l ++ [x; y] ++ r) = l ++ be_put 2 v ++ r.
Proof. intros. unfold PutUint16. by apply copy_at_field; [|rewrite length_be_put]. Qed.

Lemma ipv4_header_bare tot proto src dst : length src = 4%nat -> length dst = 4%nat ->
  ipv4_header tot proto src dst =
  bare_header tot proto (vpnIPv4Checksum (bare_header tot proto 0 src dst)) src dst.
Proof.
  destruct src as [|a0 [|a1 [|a2 [|a3 []]]]]; try done. by destruct dst as [|d0 [|d1 [|d2 [|d3 []]]]].
Qed.

Lemma bare_header_sum tot proto c src dst :
  word_sum (bare_header tot proto c src dst) = word_sum (bare_header tot proto 0 src dst) + c mod 65536.
Proof.
  unfold bare_header. cbn [app]. cbn [word_sum replicate app]. rewrite !word_sum_put. cbn [app word_sum].
  rewrite !word_sum_put. change (0 mod 65536) with 0. lia.
Qed.

Lemma ipv4_header_ok tot proto src dst : length src = 4%nat -> length dst = 4%nat ->
  checksum_ok (ipv4_header tot proto src dst).
Proof.
  intros Hs Hd. rewrite ipv4_header_bare by done.
  destruct (vpnIPv4Checksum_fills (bare_header tot proto 0 src dst)) as (Hc & Hp & Hm).
  { unfold zlen, bare_header. rewrite !length_app, !length_be_put, Hs, Hd. done. }
  unfold checksum_ok. rewrite bare_header_sum, Z.mod_small by lia. done.
Qed.

(** The UDP and ICMP bodies, with the checksum field [c]. *)
Definition udp_body (sp dp c : Z) (payload : bytes) : bytes :=
  be_put 2 sp ++ be_put 2 dp ++ be_put 2 (vpnWireUDPHeader + zlen payload) ++ be_put 2 c ++ payload.

Definition icmp_body (id seq c : Z) (payload : bytes) : bytes :=
  [byte_of 0; byte_of 0] ++ be_put 2 c ++ be_put 2 id ++ be_put 2 seq ++ payload.

Lemma blank_body payload :
  replicate (Z.to_nat (8 + zlen payload)) zero_byte =
  [zero_byte; zero_byte] ++ [zero_byte; zero_byte] ++ [zero_byte; zero_byte] ++ [zero_byte; zero_byte] ++
  replicate (length payload) zero_byte ++ [].
Proof.
  replace (Z.to_nat (8 + zlen payload)) with (8 + length payload)%nat by (unfold zlen; lia).
  by rewrite app_nil_r.
Qed.

Lemma be_put2 v : be_put 2 v = [byte_of (v / 256); byte_of v].
Proof. done. Qed.

Lemma PutUint16_head x y r v : PutUint16 0 v ([x; y] ++ r) = be_put 2 v ++ r.
Proof. apply (PutUint16_field [] x y r 0 v). done. Qed.

Lemma buildIPv4UDP_layout src dst payload : length src.1 = 4%nat -> length dst.1 = 4%nat -> exists c,
  c = vpnUDPChecksum src.1 dst.1 (udp_body src.2 dst.2 0 payload) /\
  buildIPv4UDP src dst payload =
    ipv4_header (28 + zlen payload) ProtocolUDP src.1 dst.1 ++ udp_body src.2 dst.2 c payload.
Proof.
  destruct src as [sa sp], dst as [da dp]. cbn [fst snd]. intros Hs Hd. eexists. split; [reflexivity|].
  unfold buildIPv4UDP, vpnWireIPv4HeaderMinimum, vpnWireUDPHeader. cbn [fst snd].
  change (20 + 8) with 28. f_equal. rewrite blank_body.
  rewrite PutUint16_head.
  rewrite (PutUint16_field (be_put 2 sp) _ _ _ 2) by done.
  rewrite (assoc_L (++) (be_put 2 sp)), (PutUint16_field (be_put 2 sp ++ be_put 2 dp) _ _ _ 4) by done.
  set (n := 8 + zlen payload).
  assert (copy_at 8 payload ((be_put 2 sp ++ be_put 2 dp) ++ be_put 2 n ++ [zero_byte; zero_byte] ++
    replicate (length payload) zero_byte ++ []) = udp_body sp dp 0 payload) as ->.
  { rewrite !(assoc_L (++)). rewrite <- (assoc_L (++) _ (replicate _ _) []).
    rewrite copy_at_field; [|done|by rewrite length_replicate]. rewrite app_nil_r. unfold udp_body, n.
    by rewrite !(assoc_L (++)). }
  assert (slice 12 16 (ipv4_header (28 + zlen payload) ProtocolUDP sa da) = sa /\
          slice 16 20 (ipv4_header (28 + zlen payload) ProtocolUDP sa da) = da) as [-> ->].
  { rewrite ipv4_header_bare by done. unfold bare_header. destruct sa as [|a0 [|a1 [|a2 [|a3 []]]]]; try done.
    by destruct da as [|d0 [|d1 [|d2 [|d3 []]]]]. }
  generalize (vpnUDPChecksum sa da (udp_body sp dp 0 payload)). intros c. unfold udp_body.
  rewrite (assoc_L (++) (be_put 2 sp)), (assoc_L (++) _ (be_put 2 (vpnWireUDPHeader + zlen payload))).
  change (be_put 2 0) with [zero_byte; zero_byte]. rewrite PutUint16_field by done. by rewrite !(assoc_L (++)).
Qed.

Lemma udp_body_sum sp dp c payload : word_sum (udp_body sp dp c payload) = word_sum (udp_body sp dp 0 payload) + c mod 65536.
Proof. unfold udp_body. rewrite !word_sum_put. change (0 mod 65536) with 0. lia. Qed.

Lemma length_udp_body sp dp c payload : zlen (udp_body sp dp c payload) = 8 + zlen payload.
Proof. unfold zlen, udp_body. rewrite !length_app, !length_be_put. lia. Qed.

Lemma buildIPv4ICMPEchoReply_layout sa da id seq payload : length sa = 4%nat -> length da = 4%nat -> exists c,
  c = vpnIPv4Checksum (icmp_body id seq 0 payload) /\
  buildIPv4ICMPEchoReply sa da id seq payload =
    ipv4_header (28 + zlen payload) ProtocolICMP sa da ++ icmp_body id seq c payload.
Proof.
  intros Hs Hd. eexists. split; [reflexivity|].
  unfold buildIPv4ICMPEchoReply, vpnWireIPv4HeaderMinimum, vpnWireICMPHeader.
  change (20 + 8) with 28. f_equal. rewrite blank_body.
  change (<[1%nat := byte_of 0]> (<[0%nat := byte_of 0]> ([zero_byte; zero_byte] ++ [zero_byte; zero_byte] ++
    [zero_byte; zero_byte] ++ [zero_byte; zero_byte] ++ replicate (length payload) zero_byte ++ []))) with
    (([byte_of 0; byte_of 0] ++ [zero_byte; zero_byte]) ++ [zero_byte; zero_byte] ++ [zero_byte; zero_byte] ++
     replicate (length payload) zero_byte ++ []).
  rewrite PutUint16_field by done.
  rewrite (assoc_L (++) _ (be_put 2 id)), PutUint16_field by done.
  rewrite !(assoc_L (++)), <- (assoc_L (++) _ (replicate _ _) []).
  rewrite copy_at_field; [|done|by rewrite length_replicate]. rewrite app_nil_r, <- !(assoc_L (++)).
  fold (icmp_body id seq 0 payload). unfold icmp_body at 1.
  change (be_put 2 0) with [zero_byte; zero_byte]. by rewrite PutUint16_field.
Qed.

Lemma icmp_body_sum id seq c payload :
  word_sum (icmp_body id seq c payload) = word_sum (icmp_body id seq 0 payload) + c mod 65536.
Proof. unfold icmp_body. cbn [app word_sum]. rewrite !word_sum_put. change (0 mod 65536) with 0. lia. Qed.

Lemma length_icmp_body id seq c payload : zlen (icmp_body id seq c payload) = 8 + zlen payload.
Proof. unfold zlen, icmp_body. rewrite !length_app, !length_be_put. cbn [length]. lia. Qed.

(** ** Reading back a built datagram *)

Section built.
Context (sa da body : bytes) (proto : Z).
Context (Hsa : length sa = 4%nat) (Hda : length da = 4%nat).
Context (Hproto : 0 <= proto < 256) (Hlen : 20 + zlen body <= 65535).
Let packet := ipv4_header (20 + zlen body) proto sa da ++ body.

Lemma length_ipv4_header tot : length (ipv4_header tot proto sa da) = 20%nat.
Proof. rewrite ipv4_header_bare by done. unfold bare_header. rewrite !length_app, !length_be_put, Hsa, Hda. done. Qed.

Lemma built_octets : octet packet 0 = 69 /\ octet packet 9 = proto /\ word packet 2 = 20 + zlen body /\
  word packet 6 = 0 /\ slice 12 16 packet = sa /\ slice 16 20 packet = da.
Proof using Hsa Hda Hproto Hlen.
  unfold packet. rewrite ipv4_header_bare by done. generalize (vpnIPv4Checksum (bare_header (20 + zlen body) proto 0 sa da)).
  intros c. unfold bare_header. destruct sa as [|a0 [|a1 [|a2 [|a3 []]]]]; try done.
  destruct da as [|d0 [|d1 [|d2 [|d3 []]]]]; try done. pose proof (zlen_nonneg body). split_and!; try done.
  - change (byte_val (byte_of proto) = proto). rewrite byte_val_of. by apply Z.mod_small.
  - change (be_get (be_put 2 (20 + zlen body)) = 20 + zlen body). rewrite be_get_put. apply Z.mod_small. cbn. lia.
Qed.
Lemma built_shape : parseVPNWirePacket packet = parse_transport packet /\ ihl packet = 20%nat /\
  stop packet = (20 + length body)%nat /\ fragmented packet = false /\ (total packet >? zlen packet) = false.
Proof using Hsa Hda Hproto Hlen.
  destruct built_octets as (H0 & _ & H2 & H6 & _ & _).
  assert (zlen packet = 20 + zlen body) as Hl by (unfold packet, zlen; rewrite length_app, length_ipv4_header; lia).
  assert (ihl packet = 20%nat) as Hi by (unfold ihl; by rewrite H0).
  assert (total packet = zlen packet) as Ht by (unfold total; by rewrite H2).
  assert (stop packet = (20 + length body)%nat) as Hs by (unfold stop; rewrite Ht, Z.min_id, Hl; unfold zlen; lia).
  assert (fragmented packet = false) as Hf by (unfold fragmented; by rewrite H6).
  split_and!; try done; [|by rewrite Ht, Z.gtb_ltb, Z.ltb_irrefl].
  destruct (parse_header packet) as [(e & _ & He & Hne)|(H & _)]; [|done]. exfalso.
  assert (length packet = (20 + length body)%nat) as Hl' by (unfold zlen in Hl; lia).
  destruct e; unfold wire_refused in He; rewrite ?Hi, ?Ht, ?Hl, ?Hs, ?Hl' in He; unfold zlen in *;
    [by rewrite H0 in He; destruct He|lia|done].
Qed.

Lemma built_field i j : (i <= j)%nat -> slice (20 + i) (20 + j) packet = slice i j body.
Proof using Hsa Hda.
  intros Hij. unfold packet. rewrite slice_app_r by (rewrite length_ipv4_header; lia). rewrite length_ipv4_header.
  f_equal; lia.
Qed.

Lemma built_word i : word packet (20 + i) = word body i.
Proof using Hsa Hda. unfold word. rewrite <- Nat.add_assoc, built_field by lia. done. Qed.

Lemma built_octet i : octet packet (20 + i) = octet body i.
Proof using Hsa Hda.
  unfold octet, packet. rewrite app_nth2; rewrite length_ipv4_header; [|lia]. do 2 f_equal. lia.
Qed.
End built.

Lemma word_put v l : 0 <= v < 65536 -> word (be_put 2 v ++ l) 0 = v.
Proof.
  intros Hv. unfold word. rewrite slice_app_l by (rewrite ?length_be_put; lia).
  rewrite slice_full' by apply length_be_put. by apply be_get_put_small.
Qed.

Lemma word_skip2 a l i : length a = 2%nat -> word (a ++ l) (2 + i) = word l i.
Proof.
  intros Ha. unfold word. rewrite slice_app_r by lia. rewrite Ha. do 2 f_equal; lia.
Qed.

Lemma tail_body (a payload : bytes) : length a = 8%nat -> slice 8 (8 + length payload) (a ++ payload) = payload.
Proof.
  intros Ha. rewrite slice_app_r by lia. rewrite Ha. apply slice_full'. lia.
Qed.

Lemma udp_body_fields sp dp c payload : 0 <= sp < 65536 -> 0 <= dp < 65536 -> 8 + zlen payload < 65536 ->
  let body := udp_body sp dp c payload in
  word body 0 = sp /\ word body 2 = dp /\ word body 4 = zlen body /\
  slice 8 (length body) body = payload.
Proof.
  intros Hs Hd Hl body. pose proof (length_udp_body sp dp c payload) as Hb. pose proof (zlen_nonneg payload).
  split_and!.
  - unfold body, udp_body. by rewrite word_put.
  - unfold body, udp_body. by rewrite (word_skip2 _ _ 0), word_put by (done || apply length_be_put).
  - unfold body, udp_body at 1. rewrite (word_skip2 _ _ 2), (word_skip2 _ _ 0) by apply length_be_put.
    rewrite word_put; unfold vpnWireUDPHeader; lia.
  - replace (length body) with (8 + length payload)%nat by (unfold zlen in Hb; unfold body; lia).
    unfold body, udp_body. rewrite !(assoc_L (++)). apply tail_body. by rewrite !length_app, !length_be_put.
Qed.

Lemma icmp_body_fields id seq c payload : 0 <= id < 65536 -> 0 <= seq < 65536 ->
  let body := icmp_body id seq c payload in
  octet body 0 = 0 /\ octet body 1 = 0 /\ word body 4 = id /\ word body 6 = seq /\
  slice 8 (length body) body = payload.
Proof.
  intros Hi Hs body. pose proof (length_icmp_body id seq c payload) as Hb.
  split_and!; [done..| | |].
  - unfold body, icmp_body. by rewrite (word_skip2 _ _ 2), (word_skip2 _ _ 0), word_put by (done || apply length_be_put).
  - unfold body, icmp_body.
    by rewrite (word_skip2 _ _ 4), (word_skip2 _ _ 2), (word_skip2 _ _ 0), word_put by (done || apply length_be_put).
  - replace (length body) with (8 + length payload)%nat by (unfold zlen in Hb; unfold body; lia).
    unfold body, icmp_body. rewrite !(assoc_L (++)). apply tail_body. by rewrite !length_app, !length_be_put.
Qed.

Lemma buildIPv4UDP_parse src dst payload :
  length src.1 = 4%nat -> length dst.1 = 4%nat -> 0 <= src.2 < 65536 -> 0 <= dst.2 < 65536 ->
  28 + zlen payload <= 65535 ->
  parseVPNWirePacket (buildIPv4UDP src dst payload) =
    Some (Ok (mkWire 4 ProtocolUDP src.1 dst.1 (28 + zlen payload) false false src.2 dst.2 0 0 0 0 0 payload)).
Proof.
  intros Hs Hd Hsp Hdp Hl. destruct (buildIPv4UDP_layout src dst payload Hs Hd) as (c & _ & ->).
  destruct src as [sa sp], dst as [da dp]. cbn [fst snd] in *.
  destruct (udp_body_fields sp dp c payload) as (W0 & W2 & W4 & Wp); [done..|lia|].
  pose proof (length_udp_body sp dp c payload) as Hb. set (body := udp_body sp dp c payload) in *.
  replace (28 + zlen payload) with (20 + zlen body) in * by lia. pose proof (zlen_nonneg payload).
  destruct (built_octets sa da body ProtocolUDP Hs Hd ltac:(done) Hl) as (_ & H9 & _ & _ & H12 & H16).
  destruct (built_shape sa da body ProtocolUDP Hs Hd ltac:(done) Hl) as (-> & Hi & Hst & Hf & Ht).
  rewrite <- (built_word sa da body ProtocolUDP) in W0, W2, W4 by done. change (20 + 0)%nat with 20%nat in W0.
  rewrite <- (built_field sa da body ProtocolUDP) in Wp by (done || unfold zlen in Hb; lia).
  set (packet := ipv4_header _ _ _ _ ++ body) in *.
  unfold parse_transport. rewrite Hf, H9. change (ProtocolUDP =? ProtocolTCP) with false.
  change (ProtocolUDP =? ProtocolUDP) with true.
  assert ((ihl packet <= stop packet <= length packet)%nat) as Hbd.
  { rewrite Hi, Hst. unfold packet. rewrite length_app, length_ipv4_header by done. lia. }
  destruct (parseVPNUDP_reading packet Hbd (base_reading packet)) as ([p|e] & -> & Hp); rewrite Hi, Hst in Hp.
  - destruct Hp as [_ ->]. rewrite W0, W2, W4, Wp. unfold set_ports, base_reading.
    cbn [w_Version w_Protocol w_Src w_Dst w_Size w_Fragment w_Malformed w_TCPFlags w_ICMPType w_ICMPCode w_ICMPID w_ICMPSeq].
    rewrite H9, H12, H16, Hf, Ht, Hst, Nat.add_sub'. fold (zlen body). rewrite Z.eqb_refl.
    do 3 f_equal. unfold zlen. lia.
  - destruct Hp as [_ Hp]. unfold zlen in Hb. lia.
Qed.

Lemma buildIPv4ICMPEchoReply_parse sa da id seq payload :
  length sa = 4%nat -> length da = 4%nat -> 0 <= id < 65536 -> 0 <= seq < 65536 -> 28 + zlen payload <= 65535 ->
  parseVPNWirePacket (buildIPv4ICMPEchoReply sa da id seq payload) =
    Some (Ok (mkWire 4 ProtocolICMP sa da (28 + zlen payload) false false 0 0 0 0 0 id seq payload)).
Proof.
  intros Hs Hd Hid Hsq Hl. destruct (buildIPv4ICMPEchoReply_layout sa da id seq payload Hs Hd) as (c & _ & ->).
  destruct (icmp_body_fields id seq c payload) as (W0 & W1 & W4 & W6 & Wp); [done..|].
  pose proof (length_icmp_body id seq c payload) as Hb. set (body := icmp_body id seq c payload) in *.
  replace (28 + zlen payload) with (20 + zlen body) in * by lia. pose proof (zlen_nonneg payload).
  destruct (built_octets sa da body ProtocolICMP Hs Hd ltac:(done) Hl) as (_ & H9 & _ & _ & H12 & H16).
  destruct (built_shape sa da body ProtocolICMP Hs Hd ltac:(done) Hl) as (-> & Hi & Hst & Hf & Ht).
  rewrite <- (built_word sa da body ProtocolICMP) in W4, W6 by done.
  rewrite <- (built_octet sa da body ProtocolICMP) in W0, W1 by done. change (20 + 0)%nat with 20%nat in W0.
  rewrite <- (built_field sa da body ProtocolICMP) in Wp by (done || unfold zlen in Hb; lia).
  set (packet := ipv4_header _ _ _ _ ++ body) in *.
  unfold parse_transport. rewrite Hf, H9. change (ProtocolICMP =? ProtocolTCP) with false.
  change (ProtocolICMP =? ProtocolUDP) with false. change (ProtocolICMP =? ProtocolICMP) with true.
  assert ((ihl packet <= stop packet <= length packet)%nat) as Hbd.
  { rewrite Hi, Hst. unfold packet. rewrite length_app, length_ipv4_header by done. lia. }
  destruct (parseVPNICMP_reading packet Hbd (base_reading packet)) as ([p|e] & -> & Hp); rewrite Hi, Hst in Hp.
  - destruct Hp as [_ ->]. rewrite W0, W1, W4, W6, Wp. unfold set_icmp, base_reading.
    cbn [w_Version w_Protocol w_Src w_Dst w_Size w_Fragment w_Malformed w_SrcPort w_DstPort w_TCPFlags].
    rewrite H9, H12, H16, Hf, Ht, Hst. do 3 f_equal. unfold zlen. lia.
  - destruct Hp as [_ Hp]. unfold zlen in Hb. lia.
Qed.

Lemma word_sum_pseudo src dst len l : length src = 4%nat -> length dst = 4%nat ->
  word_sum (udp_pseudo src dst len ++ l) = word_sum (udp_pseudo src dst len) + word_sum l.
Proof.
  destruct src as [|a0 [|a1 [|a2 [|a3 []]]]]; try done. destruct dst as [|d0 [|d1 [|d2 [|d3 []]]]]; try done.
  intros _ _. unfold udp_pseudo. cbn [app]. rewrite be_put2. cbn [app word_sum]. lia.
Qed.

Lemma buildIPv4UDP_checksums src dst payload :
  length src.1 = 4%nat -> length dst.1 = 4%nat -> 28 + zlen payload <= 65535 ->
  let udp := buildIPv4UDP src dst payload in
  zlen udp = 28 + zlen payload /\ checksum_ok (take 20 udp) /\
  checksum_ok (udp_pseudo src.1 dst.1 (zlen (drop 20 udp)) ++ drop 20 udp) /\ word udp 26 <> 0.
Proof.
  intros Hs Hd Hl udp. pose proof (zlen_nonneg payload).
  destruct (buildIPv4UDP_layout src dst payload Hs Hd) as (c & Hc & Eu). fold udp in Eu.
  destruct (vpnUDPChecksum_fills src.1 dst.1 (udp_body src.2 dst.2 0 payload)) as (C1 & C2 & C3);
    [done..|rewrite length_udp_body; lia|]. rewrite <- Hc in C1, C2, C3. rewrite length_udp_body in C2, C3.
  pose proof (length_udp_body src.2 dst.2 c payload) as Hb. rewrite Eu.
  rewrite take_app_length', drop_app_length', Hb by (by rewrite length_ipv4_header). split_and!.
  - unfold zlen in *. rewrite length_app, length_ipv4_header by done. lia.
  - by apply ipv4_header_ok.
  - unfold checksum_ok. rewrite word_sum_pseudo, udp_body_sum, (Z.mod_small c) by (done || lia).
    rewrite Z.add_assoc. done.
  - replace (28 + zlen payload) with (20 + zlen (udp_body src.2 dst.2 c payload)) by lia.
    change 26%nat with (20 + 6)%nat. rewrite (built_word src.1 dst.1 (udp_body src.2 dst.2 c payload) ProtocolUDP Hs Hd 6).
    unfold udp_body. rewrite (word_skip2 _ _ 4), (word_skip2 _ _ 2), (word_skip2 _ _ 0) by apply length_be_put.
    rewrite word_put; lia.
Qed.

Lemma buildIPv4ICMPEchoReply_checksums sa da id seq payload :
  length sa = 4%nat -> length da = 4%nat -> 28 + zlen payload <= 65535 ->
  let icmp := buildIPv4ICMPEchoReply sa da id seq payload in
  zlen icmp = 28 + zlen payload /\ checksum_ok (take 20 icmp) /\ checksum_ok (drop 20 icmp).
Proof.
  intros Hs Hd Hl icmp. pose proof (zlen_nonneg payload).
  destruct (buildIPv4ICMPEchoReply_layout sa da id seq payload Hs Hd) as (k & Hk & Ei). fold icmp in Ei.
  destruct (vpnIPv4Checksum_fills (icmp_body id seq 0 payload)) as (K1 & K2 & K3); [rewrite length_icmp_body; lia|].
  rewrite <- Hk in K1, K2, K3. pose proof (length_icmp_body id seq k payload) as Hb. rewrite Ei.
  rewrite take_app_length', drop_app_length' by (by rewrite length_ipv4_header). split_and!.
  - unfold zlen in *. rewrite length_app, length_ipv4_header by done. lia.
  - by apply ipv4_header_ok.
  - unfold checksum_ok. by rewrite icmp_body_sum, (Z.mod_small k) by lia.
Qed.

(** What the gateway builds is well formed.  The UDP datagram and the ICMP
    echo reply it forges towards a peer, whenever they fit an IP packet, are
    read back by the parser with exactly the addresses, ports, identifiers and
    payload they were built from, and nothing in them is malformed; a receiver's
    one's complement check succeeds on the IP header, on the UDP datagram with
    its pseudo-header (whose checksum field is never the "not computed" zero)
    and on the ICMP message. *)
Theorem built_datagrams_roundtrip (src dst : AddrPort) id seq payload :
  length src.1 = 4%nat -> length dst.1 = 4%nat -> 0 <= src.2 < 65536 -> 0 <= dst.2 < 65536 ->
  0 <= id < 65536 -> 0 <= seq < 65536 -> 28 + zlen payload <= 65535 ->
  let udp := buildIPv4UDP src dst payload in
  let icmp := buildIPv4ICMPEchoReply src.1 dst.1 id seq payload in
  parseVPNWirePacket udp =
    Some (Ok (mkWire 4 ProtocolUDP src.1 dst.1 (zlen udp) false false src.2 dst.2 0 0 0 0 0 payload)) /\
  checksum_ok (take 20 udp) /\ checksum_ok (udp_pseudo src.1 dst.1 (zlen (drop 20 udp)) ++ drop 20 udp) /\
  word udp 26 <> 0 /\
  parseVPNWirePacket icmp =
    Some (Ok (mkWire 4 ProtocolICMP src.1 dst.1 (zlen icmp) false false 0 0 0 0 0 id seq payload)) /\
  checksum_ok (take 20 icmp) /\ checksum_ok (drop 20 icmp).
Proof.
  intros Hs Hd Hsp Hdp Hid Hsq Hl udp icmp.
  destruct (buildIPv4UDP_checksums src dst payload Hs Hd Hl) as (Lu & Cu1 & Cu2 & Cu3).
  destruct (buildIPv4ICMPEchoReply_checksums src.1 dst.1 id seq payload Hs Hd Hl) as (Li & Ci1 & Ci2).
  fold udp in Lu, Cu1, Cu2, Cu3. fold icmp in Li, Ci1, Ci2. rewrite Lu, Li.
  split; [by apply buildIPv4UDP_parse|]. do 3 (split; [done|]).
  split; [by apply buildIPv4ICMPEchoReply_parse|done].
Qed.

Lemma built_datagrams_roundtrip_witness :
  parseVPNWirePacket (buildIPv4UDP (be_put 4 167772161, 53) (be_put 4 1681915906, 40000) #"odd") =
    Some (Ok (mkWire 4 ProtocolUDP (be_put 4 167772161) (be_put 4 1681915906) 31 false false 53 40000 0 0 0 0 0 #"odd")) /\
  buildIPv4UDP (be_put 4 167772161, 53) (be_put 4 1681915906, 40000) #"odd" <> [].
Proof.
  split; [|by vm_compute].
  destruct (built_datagrams_roundtrip (be_put 4 167772161, 53) (be_put 4 1681915906, 40000) 7 1 #"odd") as [H _];
    [by vm_compute..|]. exact H.
Defined.
