(* ===== verification/VpnFlows.v ===== *)
(** * The gateway's flow table

    internal/server/vpn_flows.go.  Flows are shared objects: the table, the
    protocol relays and the management API hold pointers to them.  They live in
    a heap, and the table maps a key to a heap address.  Running a flow's
    [OnClose] is recorded in a log, in order.

    Go's map iteration order is unspecified, so the operations that iterate take
    the order as an argument. *)

From stdpp Require Import base list gmap sets strings.
From Stdlib Require Import Ascii.
From S2P Require Import Prelude GoStrings.
Local Open Scope Z_scope.

Record vpnFlowKey := mkKey {
  k_PeerID : bytes;
  k_Protocol : bytes;
  k_Src : bytes * Z;
  k_Dst : bytes * Z;
}.

#[global] Instance vpnFlowKey_eq_dec : EqDecision vpnFlowKey.
Proof. solve_decision. Defined.

#[global] Instance vpnFlowKey_countable : Countable vpnFlowKey.
Proof.
  apply (inj_countable' (fun k => (k_PeerID k, k_Protocol k, k_Src k, k_Dst k))
    (fun '(p, q, s, d) => mkKey p q s d)). by intros [].
Defined.

Record vpnFlowRegistration := mkReg {
  r_Key : vpnFlowKey;
  r_Target : bytes;
  r_Port : Z;
  r_PeerLimit : Z;
}.

Record vpnFlow := mkFlow {
  f_id : bytes;
  f_key : vpnFlowKey;
  f_target : bytes;
  f_port : Z;
  f_startedAt : Z;
  f_lastSeen : Z;
  f_bytesSent : Z;
  f_bytesRecv : Z;
  f_closed : bool;
}.

Inductive flow_err := errVPNFlowCapacity | errVPNFlowTableClosed.

#[global] Instance flow_err_eq_dec : EqDecision flow_err.
Proof. solve_decision. Defined.

(** [t_heap], [t_next] and [t_runs] are the memory the pointers point to and the
    log of [OnClose] calls; the other fields are those of [vpnFlowTable]. *)
Record vpnFlowTable := mkTable {
  t_perPeerLimit : Z;
  t_totalLimit : Z;
  t_idle : Z;
  t_draining : bool;
  t_flows : gmap vpnFlowKey nat;
  t_byPeer : gmap bytes (gset vpnFlowKey);
  t_closed : bool;
  t_heap : gmap nat vpnFlow;
  t_next : nat;
  t_runs : list nat;
}.

Definition newVPNFlowTable (MaxFlowsPerPeer MaxFlowsTotal IdleTimeout : Z) : vpnFlowTable :=
  mkTable (if MaxFlowsPerPeer <? 0 then 0 else MaxFlowsPerPeer) (if MaxFlowsTotal <? 0 then 0 else MaxFlowsTotal)
    (if IdleTimeout <? 0 then 0 else IdleTimeout) false ∅ ∅ false ∅ 0 [].

Definition with_flows (t : vpnFlowTable) (flows : gmap vpnFlowKey nat) (byPeer : gmap bytes (gset vpnFlowKey)) :
  vpnFlowTable :=
  mkTable (t_perPeerLimit t) (t_totalLimit t) (t_idle t) (t_draining t) flows byPeer (t_closed t)
    (t_heap t) (t_next t) (t_runs t).

Definition with_heap (t : vpnFlowTable) (heap : gmap nat vpnFlow) (next : nat) (runs : list nat) : vpnFlowTable :=
  mkTable (t_perPeerLimit t) (t_totalLimit t) (t_idle t) (t_draining t) (t_flows t) (t_byPeer t) (t_closed t)
    heap next runs.

Definition peer_flows (t : vpnFlowTable) (peer : bytes) : gset vpnFlowKey := default ∅ (t_byPeer t !! peer).

(** The ceiling that applies to a registration: the tighter of the two. *)
Definition peer_limit (t : vpnFlowTable) (reg : vpnFlowRegistration) : Z :=
  let limit := t_perPeerLimit t in
  if (r_PeerLimit reg >? 0) && ((limit <=? 0) || (r_PeerLimit reg <? limit)) then r_PeerLimit reg else limit.

(** The flow's address and whether the caller created it. *)
Definition register (t : vpnFlowTable) (reg : vpnFlowRegistration) (now : Z) (newID : bytes) :
  vpnFlowTable * result (nat * bool) flow_err :=
  if t_closed t then (t, Err errVPNFlowTableClosed)
  else match t_flows t !! r_Key reg with
  | Some a => (t, Ok (a, false))
  | None =>
      if t_draining t then (t, Err errVPNFlowCapacity)
      else
        let limit := peer_limit t reg in
        let peer := k_PeerID (r_Key reg) in
        if (limit >? 0) && (Z.of_nat (size (peer_flows t peer)) >=? limit) then (t, Err errVPNFlowCapacity)
        else if (t_totalLimit t >? 0) && (Z.of_nat (size (t_flows t)) >=? t_totalLimit t) then (t, Err errVPNFlowCapacity)
        else
          let a := t_next t in
          let flow := mkFlow newID (r_Key reg) (r_Target reg) (r_Port reg) now now 0 0 false in
          let t := with_heap t (<[a := flow]> (t_heap t)) (S a) (t_runs t) in
          (with_flows t (<[r_Key reg := a]> (t_flows t))
             (<[peer := {[r_Key reg]} ∪ peer_flows t peer]> (t_byPeer t)), Ok (a, true))
  end.

(** [vpnFlow.Close]: [closeOnce]. *)
Definition flow_Close (t : vpnFlowTable) (a : nat) : vpnFlowTable :=
  match t_heap t !! a with
  | Some f =>
      if f_closed f then t
      else with_heap t (<[a := mkFlow (f_id f) (f_key f) (f_target f) (f_port f) (f_startedAt f) (f_lastSeen f)
                               (f_bytesSent f) (f_bytesRecv f) true]> (t_heap t)) (t_next t) (t_runs t ++ [a])
  | None => t
  end.

Definition detachLocked (t : vpnFlowTable) (key : vpnFlowKey) : vpnFlowTable * option nat :=
  match t_flows t !! key with
  | None => (t, None)
  | Some a =>
      let byPeer :=
        match t_byPeer t !! k_PeerID key with
        | None => t_byPeer t
        | Some peers =>
            let peers := peers ∖ {[key]} in
            if decide (peers = ∅) then delete (k_PeerID key) (t_byPeer t) else <[k_PeerID key := peers]> (t_byPeer t)
        end in
      (with_flows t (delete key (t_flows t)) byPeer, Some a)
  end.

(** Detach the keys in turn, collecting the flows. *)
Fixpoint detach_all (t : vpnFlowTable) (keys : list vpnFlowKey) : vpnFlowTable * list nat :=
  match keys with
  | [] => (t, [])
  | k :: ks =>
      let '(t, o) := detachLocked t k in
      let '(t, rest) := detach_all t ks in
      (t, match o with Some a => a :: rest | None => rest end)
  end.

Definition close_all (t : vpnFlowTable) (flows : list nat) : vpnFlowTable := foldl flow_Close t flows.

Definition remove (t : vpnFlowTable) (key : vpnFlowKey) : vpnFlowTable :=
  let '(t, o) := detachLocked t key in
  match o with Some a => flow_Close t a | None => t end.

(** The part of [closePeer] under the lock: the flows left to close.  [order] is
    the iteration order over the peer's flows. *)
Definition closePeer_locked (t : vpnFlowTable) (peer : bytes) (order : list vpnFlowKey) : vpnFlowTable * list nat :=
  match t_byPeer t !! peer with
  | None => (t, [])
  | Some _ =>
      let '(t, flows) := detach_all t order in
      (with_flows t (t_flows t) (delete peer (t_byPeer t)), flows)
  end.

Definition closePeer (t : vpnFlowTable) (peer : bytes) (order : list vpnFlowKey) : vpnFlowTable * Z :=
  let '(t, flows) := closePeer_locked t peer order in
  (close_all t flows, Z.of_nat (length flows)).

Definition idleFor (f : vpnFlow) (now : Z) : Z := now - f_lastSeen f.

Definition is_idle (t : vpnFlowTable) (now : Z) (key : vpnFlowKey) : bool :=
  match t_flows t !! key with
  | Some a => match t_heap t !! a with Some f => idleFor f now >=? t_idle t | None => false end
  | None => false
  end.

(** [order] is the iteration order over the table. *)
Definition reapIdle_locked (t : vpnFlowTable) (now : Z) (order : list vpnFlowKey) : vpnFlowTable * list nat :=
  if t_idle t <=? 0 then (t, []) else detach_all t (List.filter (is_idle t now) order).

Definition reapIdle (t : vpnFlowTable) (now : Z) (order : list vpnFlowKey) : vpnFlowTable * Z :=
  let '(t, expired) := reapIdle_locked t now order in
  (close_all t expired, Z.of_nat (length expired)).

Definition drain (t : vpnFlowTable) : vpnFlowTable :=
  mkTable (t_perPeerLimit t) (t_totalLimit t) (t_idle t) true (t_flows t) (t_byPeer t) (t_closed t)
    (t_heap t) (t_next t) (t_runs t).

Definition table_close_locked (t : vpnFlowTable) (order : list vpnFlowKey) : vpnFlowTable * list nat :=
  if t_closed t then (t, [])
  else
    detach_all (mkTable (t_perPeerLimit t) (t_totalLimit t) (t_idle t) true (t_flows t) (t_byPeer t) true
                  (t_heap t) (t_next t) (t_runs t)) order.

Definition table_close (t : vpnFlowTable) (order : list vpnFlowKey) : vpnFlowTable * Z :=
  let '(t, flows) := table_close_locked t order in
  (close_all t flows, Z.of_nat (length flows)).

(** The counters a relay updates through its pointer. *)
Definition update_flow (t : vpnFlowTable) (a : nat) (g : vpnFlow -> vpnFlow) : vpnFlowTable :=
  match t_heap t !! a with
  | Some f => with_heap t (<[a := g f]> (t_heap t)) (t_next t) (t_runs t)
  | None => t
  end.

Definition Touch (now : Z) (f : vpnFlow) : vpnFlow :=
  mkFlow (f_id f) (f_key f) (f_target f) (f_port f) (f_startedAt f) now (f_bytesSent f) (f_bytesRecv f) (f_closed f).

Definition AddSent (n : Z) (f : vpnFlow) : vpnFlow :=
  if n >? 0 then mkFlow (f_id f) (f_key f) (f_target f) (f_port f) (f_startedAt f) (f_lastSeen f)
                   (f_bytesSent f + n) (f_bytesRecv f) (f_closed f) else f.

Definition AddReceived (n : Z) (f : vpnFlow) : vpnFlow :=
  if n >? 0 then mkFlow (f_id f) (f_key f) (f_target f) (f_port f) (f_startedAt f) (f_lastSeen f)
                   (f_bytesSent f) (f_bytesRecv f + n) (f_closed f) else f.

Definition count (t : vpnFlowTable) : nat := size (t_flows t).
Definition countPeer (t : vpnFlowTable) (peer : bytes) : nat := size (peer_flows t peer).

(** The order of [snapshot]: start time, then identifier. *)
Definition flow_before (f g : vpnFlow) : bool :=
  if f_startedAt f =? f_startedAt g then str_ltb (f_id f) (f_id g) else f_startedAt f <? f_startedAt g.

(** [order] is the iteration order over the peer's index. *)
Definition snapshot (t : vpnFlowTable) (order : list vpnFlowKey) : list vpnFlow :=
  let flows := omap (fun key => t_flows t !! key ≫= fun a => t_heap t !! a) order in
  sort_by flow_before flows.

(** ** Interleavings

    The teardown of detached flows runs after the lock is released, so other
    operations come in between.  [pending] are the flows some goroutine has
    detached and not closed yet. *)

Inductive flow_step : vpnFlowTable * list nat -> vpnFlowTable * list nat -> Prop :=
| step_register t pending reg now id :
    flow_step (t, pending) ((register t reg now id).1, pending)
| step_remove t pending key :
    flow_step (t, pending) ((detachLocked t key).1, pending ++ option_list (detachLocked t key).2)
| step_closePeer t pending peer order :
    order ≡ₚ elements (peer_flows t peer) ->
    flow_step (t, pending) ((closePeer_locked t peer order).1, pending ++ (closePeer_locked t peer order).2)
| step_reapIdle t pending now order :
    order ≡ₚ elements (dom (t_flows t)) ->
    flow_step (t, pending) ((reapIdle_locked t now order).1, pending ++ (reapIdle_locked t now order).2)
| step_drain t pending : flow_step (t, pending) (drain t, pending)
| step_close t pending order :
    order ≡ₚ elements (dom (t_flows t)) ->
    flow_step (t, pending) ((table_close_locked t order).1, pending ++ (table_close_locked t order).2)
| step_flow_Close t before a after :
    flow_step (t, before ++ a :: after) (flow_Close t a, before ++ after)
| step_Touch t pending a now : flow_step (t, pending) (update_flow t a (Touch now), pending)
| step_AddSent t pending a n : flow_step (t, pending) (update_flow t a (AddSent n), pending)
| step_AddReceived t pending a n : flow_step (t, pending) (update_flow t a (AddReceived n), pending).

(** ** The invariant *)

Record flow_inv (t : vpnFlowTable) (pending : list nat) : Prop := {
  inv_index : forall p k, k ∈ peer_flows t p <-> k_PeerID k = p /\ is_Some (t_flows t !! k);
  inv_nonempty : forall p s, t_byPeer t !! p = Some s -> s <> ∅;
  inv_flow : forall k a, t_flows t !! k = Some a -> exists f, t_heap t !! a = Some f /\ f_key f = k;
  inv_next : forall a f, t_heap t !! a = Some f -> (a < t_next t)%nat;
  inv_runs : NoDup (t_runs t);
  inv_closed : forall a, a ∈ t_runs t <-> exists f, t_heap t !! a = Some f /\ f_closed f = true;
  inv_open : forall a f, t_heap t !! a = Some f ->
    f_closed f = false <-> t_flows t !! f_key f = Some a \/ a ∈ pending;
  inv_pending : NoDup pending /\ forall a, a ∈ pending -> exists f, t_heap t !! a = Some f /\ t_flows t !! f_key f <> Some a;
  inv_total : 0 < t_totalLimit t -> Z.of_nat (size (t_flows t)) <= t_totalLimit t;
  inv_peer : 0 < t_perPeerLimit t -> forall p, Z.of_nat (size (peer_flows t p)) <= t_perPeerLimit t;
}.

Lemma inv_init perPeer total idle : flow_inv (newVPNFlowTable perPeer total idle) [].
Proof.
  constructor; unfold newVPNFlowTable, peer_flows; cbn [t_flows t_byPeer t_heap t_next t_runs t_totalLimit t_perPeerLimit].
  - intros p k. rewrite !lookup_empty. cbn. split; [set_solver|]. intros [_ [? [=]]].
  - intros p s. by rewrite lookup_empty.
  - intros k a. by rewrite lookup_empty.
  - intros a f. by rewrite lookup_empty.
  - constructor.
  - intros a. rewrite lookup_empty. set_solver.
  - intros a f. by rewrite lookup_empty.
  - split; [constructor|set_solver].
  - intros. rewrite map_size_empty. lia.
  - intros. rewrite lookup_empty. cbn [from_option default]. rewrite size_empty. lia.
Qed.

(** *** Registration *)

Lemma peer_limit_le t reg : 0 < t_perPeerLimit t -> 0 < peer_limit t reg <= t_perPeerLimit t.
Proof.
  intros Hpos. unfold peer_limit. destruct (_ && _) eqn:E; [|lia]. apply andb_true_iff in E as [E1 E2].
  apply orb_true_iff in E2. lia.
Qed.

Lemma register_inv t pending reg now id : flow_inv t pending -> flow_inv (register t reg now id).1 pending.
Proof.
  intros Hi. unfold register. destruct (t_closed t); [done|].
  destruct (t_flows t !! r_Key reg) as [a|] eqn:Ek; [done|]. destruct (t_draining t); [done|].
  destruct (_ && _) eqn:El; [done|]. destruct (_ && _) eqn:Et in |- *; [done|].
  assert (t_heap t !! t_next t = None) as Hfresh.
  { destruct (t_heap t !! t_next t) as [f|] eqn:E; [|done]. apply (inv_next _ _ Hi) in E. lia. }
  set (key := r_Key reg) in *. set (peer := k_PeerID key) in *.
  assert (forall t' p, t_byPeer t' = <[peer := {[key]} ∪ peer_flows t peer]> (t_byPeer t) ->
    peer_flows t' p = if decide (p = peer) then {[key]} ∪ peer_flows t peer else peer_flows t p) as Hpf.
  { intros t' p E. unfold peer_flows at 1. rewrite E. case_decide as Ep; [subst; by rewrite lookup_insert_eq|]. by rewrite lookup_insert_ne. }
  assert (key ∉ peer_flows t peer) as Hnk.
  { rewrite (inv_index _ _ Hi). intros [_ [a Ha]]. by rewrite Ek in Ha. }
  assert (t_next t ∉ pending) as Hnp.
  { intros Hin. destruct (inv_pending _ _ Hi) as [_ Hp]. destruct (Hp _ Hin) as (f & Hf & _). by rewrite Hfresh in Hf. }
  assert (t_next t ∉ t_runs t) as Hnr.
  { rewrite (inv_closed _ _ Hi). intros (f & Hf & _). by rewrite Hfresh in Hf. }
  constructor; cbn [fst with_flows with_heap t_flows t_byPeer t_heap t_next t_runs t_totalLimit t_perPeerLimit].
  - intros p k. rewrite Hpf by done. case_decide as Ep; [subst p|]; rewrite lookup_insert_is_Some', ?elem_of_union,
      ?elem_of_singleton, (inv_index _ _ Hi); unfold peer in *; naive_solver.
  - intros p s. rewrite lookup_insert_Some. intros [[<- <-]|[_ Hs]]; [set_solver|by eapply inv_nonempty].
  - intros k a. rewrite lookup_insert_Some. intros [[<- <-]|[Hne Hk]].
    + eexists. by rewrite lookup_insert_eq.
    + destruct (inv_flow _ _ Hi _ _ Hk) as (f & Hf & Hkey). exists f. split; [|done].
      rewrite lookup_insert_ne; [done|]. intros <-. by rewrite Hfresh in Hf.
  - intros a f. rewrite lookup_insert_Some. intros [[<- _]|[_ Hf]]; [lia|]. apply (inv_next _ _ Hi) in Hf. lia.
  - apply (inv_runs _ _ Hi).
  - intros a. rewrite (inv_closed _ _ Hi). setoid_rewrite lookup_insert_Some. split.
    + intros (f & Hf & Hc). exists f. split; [right; split; [|done]|done]. intros <-. by rewrite Hfresh in Hf.
    + intros (f & [[_ <-]|[_ Hf]] & Hc); [done|by exists f].
  - intros a f. rewrite lookup_insert_Some. intros [[<- <-]|[Hne Hf]]; cbn [f_closed f_key].
    + rewrite lookup_insert_eq. naive_solver.
    + rewrite (inv_open _ _ Hi _ _ Hf). rewrite lookup_insert_Some. split; [|naive_solver].
      intros [Hk|Hp]; [|by right]. left. right. split; [|done]. intros Ekk. rewrite <- Ekk, Ek in Hk. done.
  - destruct (inv_pending _ _ Hi) as [Hnd Hp]. split; [done|]. intros a Ha. destruct (Hp a Ha) as (f & Hf & Hk).
    exists f. rewrite lookup_insert_ne by (by intros <-). split; [done|].
    rewrite lookup_insert_Some. intros [[_ E]|[_ E]]; [by subst a|done].
  - intros Hpos. rewrite map_size_insert_None by done.
    apply andb_false_iff in Et as [Et|Et]; lia.
  - intros Hpos p. rewrite Hpf by done. case_decide as Ep; [subst p|by apply (inv_peer _ _ Hi)].
    rewrite size_union by set_solver. rewrite size_singleton. pose proof (peer_limit_le t reg Hpos).
    apply andb_false_iff in El as [El|El]; lia.
Qed.

(** *** Detaching *)

Lemma detach_peer_flows t key p a : t_flows t !! key = Some a ->
  peer_flows (detachLocked t key).1 p = if decide (p = k_PeerID key) then peer_flows t p ∖ {[key]} else peer_flows t p.
Proof.
  intros Hk. unfold detachLocked. rewrite Hk. unfold peer_flows. cbn [fst with_flows t_byPeer].
  destruct (decide (p = k_PeerID key)) as [->|Hp].
  - destruct (t_byPeer t !! k_PeerID key) as [peers|] eqn:Ep; cbn [default from_option id].
    + destruct (decide (peers ∖ {[key]} = ∅)) as [E|E]; [by rewrite lookup_delete_eq, E|by rewrite lookup_insert_eq].
    + rewrite Ep. cbn. set_solver.
  - destruct (t_byPeer t !! k_PeerID key) as [peers|]; [|done].
    destruct (decide (peers ∖ {[key]} = ∅)); [by rewrite lookup_delete_ne|by rewrite lookup_insert_ne].
Qed.

Lemma detach_inv t pending key : flow_inv t pending ->
  flow_inv (detachLocked t key).1 (pending ++ option_list (detachLocked t key).2).
Proof.
  intros Hi. destruct (t_flows t !! key) as [a|] eqn:Ek.
  2:{ unfold detachLocked. rewrite Ek. cbn. by rewrite app_nil_r. }
  pose proof (fun p => detach_peer_flows t key p a Ek) as Hpf.
  destruct (inv_flow _ _ Hi _ _ Ek) as (f0 & Hf0 & Hk0).
  assert (a ∉ pending) as Hnp.
  { intros Hin. destruct (inv_pending _ _ Hi) as [_ Hp]. destruct (Hp _ Hin) as (f & Hf & Hne).
    assert (f = f0) as -> by congruence. by rewrite Hk0 in Hne. }
  assert (option_list (detachLocked t key).2 = [a]) as -> by (unfold detachLocked; by rewrite Ek).
  assert (t_flows (detachLocked t key).1 = delete key (t_flows t)) as Hfl by (unfold detachLocked; by rewrite Ek).
  assert (forall p s, t_byPeer (detachLocked t key).1 !! p = Some s -> s <> ∅) as Hne.
  { intros p s. unfold detachLocked. rewrite Ek. cbn [fst with_flows t_byPeer].
    destruct (t_byPeer t !! k_PeerID key) as [peers|] eqn:Ep; [|by apply (inv_nonempty _ _ Hi)].
    case_decide; [rewrite lookup_delete_Some; intros [_ Hs]; by eapply inv_nonempty|].
    rewrite lookup_insert_Some. intros [[_ <-]|[_ Hs]]; [done|by eapply inv_nonempty]. }
  assert (t_heap (detachLocked t key).1 = t_heap t /\ t_next (detachLocked t key).1 = t_next t /\
    t_runs (detachLocked t key).1 = t_runs t /\ t_totalLimit (detachLocked t key).1 = t_totalLimit t /\
    t_perPeerLimit (detachLocked t key).1 = t_perPeerLimit t) as (Hh & Hn & Hr & Htl & Hpl)
    by (unfold detachLocked; by rewrite Ek).
  constructor; rewrite ?Hh, ?Hn, ?Hr, ?Htl, ?Hpl, ?Hfl; try by apply Hi.
  - intros p k. rewrite Hpf, lookup_delete_is_Some. case_decide as Ep; [subst p|];
      rewrite ?elem_of_difference, ?elem_of_singleton, (inv_index _ _ Hi); naive_solver.
  - done.
  - intros k b. rewrite lookup_delete_Some. intros [_ Hk]. by apply (inv_flow _ _ Hi).
  - intros b f Hf. rewrite (inv_open _ _ Hi _ _ Hf), lookup_delete_Some, elem_of_app, list_elem_of_singleton.
    split.
    + intros [Hk|Hp]; [|by right; left]. destruct (decide (key = f_key f)) as [->|Hkk]; [right; right; congruence|by left].
    + intros [[_ Hk]|[Hp| ->]]; [by left|by right|]. assert (f = f0) as -> by congruence. left. by rewrite Hk0.
  - destruct (inv_pending _ _ Hi) as [Hnd Hp]. split.
    { apply NoDup_app. split_and!; [done|set_solver|apply NoDup_singleton]. }
    intros b. rewrite elem_of_app, list_elem_of_singleton. intros [Hb| ->].
    + destruct (Hp b Hb) as (f & Hf & Hkb). exists f. split; [done|]. rewrite lookup_delete_Some. naive_solver.
    + exists f0. split; [done|]. rewrite Hk0, lookup_delete_eq. done.
  - intros Hpos. rewrite map_size_delete_Some by (by eexists). pose proof (inv_total _ _ Hi Hpos). lia.
  - intros Hpos p. rewrite Hpf. pose proof (inv_peer _ _ Hi Hpos p).
    assert (size (peer_flows t p ∖ {[key]}) <= size (peer_flows t p))%nat by (apply subseteq_size; set_solver).
    case_decide; lia.
Qed.

(** What detaching leaves alone. *)
Definition same_memory (t u : vpnFlowTable) : Prop :=
  t_heap u = t_heap t /\ t_next u = t_next t /\ t_runs u = t_runs t /\ t_closed u = t_closed t /\
  t_draining u = t_draining t /\ t_perPeerLimit u = t_perPeerLimit t /\ t_totalLimit u = t_totalLimit t /\
  t_idle u = t_idle t.

#[global] Instance same_memory_preorder : PreOrder same_memory.
Proof. split; unfold same_memory; [done|]. intros t u v. naive_solver congruence. Qed.

Lemma detach_memory t key : same_memory t (detachLocked t key).1.
Proof. unfold detachLocked. by destruct (t_flows t !! key). Qed.

Lemma detach_lookup t key k : t_flows (detachLocked t key).1 !! k = if decide (k = key) then None else t_flows t !! k.
Proof.
  unfold detachLocked. destruct (t_flows t !! key) eqn:E; cbn [fst with_flows t_flows]; case_decide as Ek; subst; try done.
  - by rewrite lookup_delete_eq.
  - by rewrite lookup_delete_ne.
Qed.

Lemma detach_all_memory t keys : same_memory t (detach_all t keys).1.
Proof.
  revert t. induction keys as [|k keys IH]; intros t; cbn [detach_all]; [done|].
  pose proof (detach_memory t k) as Hd. destruct (detachLocked t k) as [t1 o]. cbn in Hd.
  pose proof (IH t1) as Ha. destruct (detach_all t1 keys) as [t2 rest]. cbn in *. by etrans.
Qed.

Lemma detach_all_lookup t keys k :
  t_flows (detach_all t keys).1 !! k = if decide (k ∈ keys) then None else t_flows t !! k.
Proof.
  revert t. induction keys as [|key keys IH]; intros t; cbn [detach_all]; [by rewrite decide_False by set_solver|].
  pose proof (detach_lookup t key k) as Hd. destruct (detachLocked t key) as [t1 o]. cbn in Hd.
  specialize (IH t1). destruct (detach_all t1 keys) as [t2 rest]. cbn in *. rewrite IH, Hd.
  destruct (decide (k ∈ keys)), (decide (k = key)), (decide (k ∈ key :: keys)); set_solver.
Qed.

(** The flows detached are those the keys were registered for. *)
Lemma detach_all_flows t keys : NoDup keys -> (detach_all t keys).2 = omap (fun k => t_flows t !! k) keys.
Proof.
  revert t. induction keys as [|key keys IH]; intros t Hnd; cbn [detach_all]; [done|].
  apply NoDup_cons in Hnd as [Hk Hnd]. pose proof (detach_lookup t key) as Hd.
  assert ((detachLocked t key).2 = t_flows t !! key) as Ho by (unfold detachLocked; by destruct (t_flows t !! key)).
  destruct (detachLocked t key) as [t1 o]. cbn in Hd, Ho. specialize (IH t1 Hnd).
  destruct (detach_all t1 keys) as [t2 rest]. cbn in *. subst o rest.
  assert (omap (fun k => t_flows t1 !! k) keys = omap (fun k => t_flows t !! k) keys) as ->.
  { clear Hnd. induction keys as [|k keys IHk]; [done|]. apply not_elem_of_cons in Hk as [Hne Hk].
    cbn. rewrite Hd, decide_False by done. by rewrite IHk. }
  by destruct (t_flows t !! key).
Qed.

Lemma detach_all_inv t pending keys : flow_inv t pending ->
  flow_inv (detach_all t keys).1 (pending ++ (detach_all t keys).2).
Proof.
  revert t pending. induction keys as [|key keys IH]; intros t pending Hi; cbn [detach_all].
  { by rewrite app_nil_r. }
  apply (detach_inv _ _ key) in Hi. destruct (detachLocked t key) as [t1 o]. cbn in Hi.
  apply IH in Hi. destruct (detach_all t1 keys) as [t2 rest]. cbn in *.
  rewrite <- (assoc_L (++)) in Hi. by destruct o.
Qed.

(** *** The other operations *)

Lemma closePeer_locked_inv t pending peer order :
  order ≡ₚ elements (peer_flows t peer) -> flow_inv t pending ->
  flow_inv (closePeer_locked t peer order).1 (pending ++ (closePeer_locked t peer order).2).
Proof.
  intros Ho Hi. unfold closePeer_locked. destruct (t_byPeer t !! peer) as [s|]; [|by cbn; rewrite app_nil_r].
  pose proof (detach_all_inv t pending order Hi) as Hd. pose proof (detach_all_lookup t order) as Hl.
  destruct (detach_all t order) as [t1 flows]. cbn [fst snd] in *.
  assert (peer_flows t1 peer = ∅) as He.
  { apply set_eq. intros k. rewrite (inv_index _ _ Hd). split; [|set_solver]. intros [Hp [a Ha]].
    rewrite Hl in Ha. case_decide as Hk; [done|]. destruct Hk. rewrite Ho, elem_of_elements, (inv_index _ _ Hi).
    split; [done|by eexists]. }
  assert (delete peer (t_byPeer t1) = t_byPeer t1) as Ed.
  { apply delete_id. destruct (t_byPeer t1 !! peer) as [s'|] eqn:E; [|done].
    unfold peer_flows in He. rewrite E in He. by apply (inv_nonempty _ _ Hd) in E. }
  rewrite Ed. by destruct t1.
Qed.

Lemma reapIdle_locked_inv t pending now order : flow_inv t pending ->
  flow_inv (reapIdle_locked t now order).1 (pending ++ (reapIdle_locked t now order).2).
Proof.
  intros Hi. unfold reapIdle_locked. destruct (_ <=? 0); [cbn; by rewrite app_nil_r|]. by apply detach_all_inv.
Qed.

Lemma table_close_locked_inv t pending order : flow_inv t pending ->
  flow_inv (table_close_locked t order).1 (pending ++ (table_close_locked t order).2).
Proof.
  intros Hi. unfold table_close_locked. destruct (t_closed t); [cbn; by rewrite app_nil_r|]. apply detach_all_inv.
  by destruct Hi; constructor.
Qed.

Lemma flow_Close_inv t before a after :
  flow_inv t (before ++ a :: after) -> flow_inv (flow_Close t a) (before ++ after).
Proof.
  intros Hi. destruct (inv_pending _ _ Hi) as [Hnd Hp].
  destruct (Hp a) as (f0 & Hf0 & Hne0); [set_solver|].
  assert (a ∉ before ++ after) as Ha.
  { apply NoDup_app in Hnd as (H1 & H2 & H3). apply NoDup_cons in H3 as [H3 _]. set_solver. }
  assert (f_closed f0 = false) as Hopen by (apply (inv_open _ _ Hi _ _ Hf0); right; set_solver).
  assert (a ∉ t_runs t) as Hnr.
  { rewrite (inv_closed _ _ Hi). intros (f & Hf & Hc). congruence. }
  unfold flow_Close. rewrite Hf0, Hopen. set (f1 := mkFlow _ _ _ _ _ _ _ _ true).
  constructor; cbn [with_heap t_flows t_byPeer t_heap t_next t_runs t_totalLimit t_perPeerLimit]; try by apply Hi.
  - intros k b Hk. destruct (inv_flow _ _ Hi _ _ Hk) as (f & Hf & Hkey).
    destruct (decide (a = b)) as [<-|Hab]; [|by exists f; rewrite lookup_insert_ne].
    exists f1. rewrite lookup_insert_eq. split; [done|]. cbn. congruence.
  - intros b f. rewrite lookup_insert_Some. intros [[<- _]|[_ Hf]]; by eapply inv_next.
  - apply NoDup_app. split_and!; [apply Hi|set_solver|apply NoDup_singleton].
  - intros b. rewrite elem_of_app, list_elem_of_singleton, (inv_closed _ _ Hi). setoid_rewrite lookup_insert_Some. split.
    + intros [(f & Hf & Hc)| ->]; [|by exists f1; auto]. exists f. split; [right; split; [congruence|done]|done].
    + intros (f & [[<- _]|[_ Hf]] & Hc); [by right|left; by exists f].
  - intros b f. rewrite lookup_insert_Some. intros [[<- <-]|[Hab Hf]].
    + cbn [f_closed f_key f1]. split; [done|]. intros [Hk|Hk]; [by apply Hne0 in Hk|done].
    + rewrite (inv_open _ _ Hi _ _ Hf). set_solver.
  - split; [apply NoDup_app in Hnd as (H1 & H2 & H3); apply NoDup_cons in H3 as [H3 H4]; apply NoDup_app; set_solver|].
    intros b Hb. destruct (Hp b) as (f & Hf & Hk); [set_solver|]. exists f. rewrite lookup_insert_ne; [done|]. by intros <-.
Qed.

Lemma update_inv t pending a g : flow_inv t pending ->
  (forall f, f_key (g f) = f_key f /\ f_closed (g f) = f_closed f) -> flow_inv (update_flow t a g) pending.
Proof.
  intros Hi Hg. unfold update_flow. destruct (t_heap t !! a) as [f0|] eqn:Hf0; [|done].
  destruct (Hg f0) as [Hgk Hgc].
  constructor; cbn [with_heap t_flows t_byPeer t_heap t_next t_runs t_totalLimit t_perPeerLimit]; try by apply Hi.
  - intros k b Hk. destruct (inv_flow _ _ Hi _ _ Hk) as (f & Hf & Hkey).
    destruct (decide (a = b)) as [<-|Hab]; [|by exists f; rewrite lookup_insert_ne].
    exists (g f0). rewrite lookup_insert_eq. split; congruence.
  - intros b f. rewrite lookup_insert_Some. intros [[<- _]|[_ Hf]]; by eapply inv_next.
  - intros b. rewrite (inv_closed _ _ Hi). setoid_rewrite lookup_insert_Some. split.
    + intros (f & Hf & Hc). destruct (decide (a = b)) as [<-|Hab]; [exists (g f0)|exists f; auto].
      split; [by left|]. congruence.
    + intros (f & [[<- <-]|[_ Hf]] & Hc); [exists f0; split; [done|congruence]|by exists f].
  - intros b f. rewrite lookup_insert_Some. intros [[<- <-]|[Hab Hf]]; [|by apply (inv_open _ _ Hi)].
    rewrite Hgk, Hgc. by apply (inv_open _ _ Hi).
  - destruct (inv_pending _ _ Hi) as [Hnd Hp]. split; [done|]. intros b Hb. destruct (Hp b Hb) as (f & Hf & Hk).
    destruct (decide (a = b)) as [<-|Hab]; [|by exists f; rewrite lookup_insert_ne].
    exists (g f0). rewrite lookup_insert_eq. split; [done|]. rewrite Hgk. congruence.
Qed.

Definition closed_empty (t : vpnFlowTable) : Prop := t_closed t = true -> t_flows t = ∅.

Lemma detach_all_closed t keys : closed_empty t -> closed_empty (detach_all t keys).1.
Proof.
  intros He Hc. destruct (detach_all_memory t keys) as (_ & _ & _ & E & _). rewrite E in Hc. apply He in Hc.
  apply map_eq. intros k. rewrite detach_all_lookup, Hc, lookup_empty. by case_decide.
Qed.

Lemma table_close_empty t order : order ≡ₚ elements (dom (t_flows t)) -> closed_empty t ->
  closed_empty (table_close_locked t order).1.
Proof.
  intros Ho He. unfold table_close_locked. destruct (t_closed t) eqn:Ec; [done|]. intros _.
  apply map_eq. intros k. rewrite detach_all_lookup, lookup_empty. case_decide as Hk; [done|].
  rewrite Ho, elem_of_elements in Hk. cbn [t_flows]. by apply not_elem_of_dom.
Qed.

Lemma flow_step_inv s s' : flow_step s s' -> flow_inv s.1 s.2 -> flow_inv s'.1 s'.2.
Proof.
  intros Hs Hi. destruct Hs; cbn [fst snd] in *.
  - by apply register_inv.
  - by apply detach_inv.
  - by apply closePeer_locked_inv.
  - by apply reapIdle_locked_inv.
  - by destruct Hi; constructor.
  - by apply table_close_locked_inv.
  - by apply flow_Close_inv.
  - by apply update_inv.
  - apply update_inv; [done|]. intros f. unfold AddSent. by destruct (n >? 0).
  - apply update_inv; [done|]. intros f. unfold AddReceived. by destruct (n >? 0).
Qed.

Lemma update_closed t a g : closed_empty t -> closed_empty (update_flow t a g).
Proof. unfold update_flow. by destruct (t_heap t !! a). Qed.

Lemma flow_step_closed s s' : flow_step s s' -> closed_empty s.1 -> closed_empty s'.1.
Proof.
  intros Hs He. destruct Hs; cbn [fst snd] in *; try done; try by apply update_closed.
  - unfold register. destruct (t_closed t) eqn:Ec; [done|]. intros Hc. repeat case_hyp Hc; cbn in Hc; congruence.
  - pose proof (detach_all_closed t [key] He) as H. cbn [detach_all] in H. by destruct (detachLocked t key).
  - unfold closePeer_locked. destruct (t_byPeer t !! peer); [|done].
    pose proof (detach_all_closed t order He) as H'. by destruct (detach_all t order).
  - unfold reapIdle_locked. destruct (_ <=? 0); [done|]. by apply detach_all_closed.
  - by apply table_close_empty.
  - unfold flow_Close. destruct (t_heap t !! a) as [f|]; [|done]. by destruct (f_closed f).
Qed.

Lemma flow_steps_limits s s' : rtc flow_step s s' ->
  t_totalLimit s'.1 = t_totalLimit s.1 /\ t_perPeerLimit s'.1 = t_perPeerLimit s.1.
Proof.
  induction 1 as [|s1 s2 s3 Hs _ [IH1 IH2]]; [done|]. rewrite IH1, IH2. clear -Hs.
  assert (forall t u, same_memory t u -> t_totalLimit u = t_totalLimit t /\ t_perPeerLimit u = t_perPeerLimit t) as Hm
    by (unfold same_memory; naive_solver).
  destruct Hs; cbn [fst]; try done.
  - unfold register. by repeat case_goal.
  - apply Hm, detach_memory.
  - unfold closePeer_locked. destruct (t_byPeer t !! peer); [|done].
    pose proof (detach_all_memory t order) as H'. destruct (detach_all t order). by apply Hm in H'.
  - unfold reapIdle_locked. destruct (_ <=? 0); [done|]. apply Hm, detach_all_memory.
  - unfold table_close_locked. destruct (t_closed t); [done|].
    set (u := mkTable _ _ _ _ _ _ _ _ _ _). by destruct (Hm _ _ (detach_all_memory u order)) as [-> ->].
  - unfold flow_Close. destruct (t_heap t !! a) as [f|]; [|done]. by destruct (f_closed f).
  - unfold update_flow. by destruct (t_heap t !! a).
  - unfold update_flow. by destruct (t_heap t !! a).
  - unfold update_flow. by destruct (t_heap t !! a).
Qed.

(** C24. Under every interleaving of registrations, removals, revocations, idle
    reaping, draining, shutdown and relay activity, with teardowns delayed as
    they are in the code: neither ceiling is exceeded; the per-peer index lists
    exactly the registered flows; no [OnClose] runs twice, and it has run exactly
    for the flows marked closed; every flow that is not closed is registered
    under its own key or waiting in some teardown; and a closed table is empty. *)
Theorem flow_table_sound perPeer total idle t pending :
  rtc flow_step (newVPNFlowTable perPeer total idle, []) (t, pending) ->
  (0 < total -> Z.of_nat (count t) <= total) /\
  (0 < perPeer -> forall p, Z.of_nat (countPeer t p) <= perPeer) /\
  (forall p k, k ∈ peer_flows t p <-> k_PeerID k = p /\ is_Some (t_flows t !! k)) /\
  NoDup (t_runs t) /\
  (forall a f, t_heap t !! a = Some f ->
     (f_closed f = true <-> a ∈ t_runs t) /\
     (f_closed f = false <-> t_flows t !! f_key f = Some a \/ a ∈ pending)) /\
  (t_closed t = true -> t_flows t = ∅).
Proof.
  intros Hr. destruct (flow_steps_limits _ _ Hr) as [El Ep]. cbn [fst newVPNFlowTable t_totalLimit t_perPeerLimit] in El, Ep.
  assert (forall s, rtc flow_step (newVPNFlowTable perPeer total idle, []) s ->
    flow_inv s.1 s.2 /\ closed_empty s.1) as Hall.
  { apply rtc_ind_r; [split; [apply inv_init|done]|].
    intros y z _ Hs [Hy1 Hy2]. split; [by eapply flow_step_inv|by eapply flow_step_closed]. }
  destruct (Hall (t, pending) Hr) as [Hi He]. cbn [fst snd] in Hi, He.
  split_and!; [..|done].
  - intros Hpos. unfold count. pose proof (inv_total _ _ Hi) as H. rewrite El in H. destruct (total <? 0) eqn:E; [lia|]. auto.
  - intros Hpos p. unfold countPeer. pose proof (inv_peer _ _ Hi) as H. rewrite Ep in H.
    destruct (perPeer <? 0) eqn:E; [lia|]. auto.
  - apply (inv_index _ _ Hi).
  - apply (inv_runs _ _ Hi).
  - intros a f Hf. split; [|by apply (inv_open _ _ Hi)]. rewrite (inv_closed _ _ Hi). split; [by eauto|].
    intros (f' & Hf' & Hc). congruence.
Qed.

(** *** Revocation *)

Lemma flow_Close_flows t a : t_flows (flow_Close t a) = t_flows t /\ t_byPeer (flow_Close t a) = t_byPeer t.
Proof. unfold flow_Close. destruct (t_heap t !! a) as [f|]; [|done]. by destruct (f_closed f). Qed.

Lemma close_all_flows t l : t_flows (close_all t l) = t_flows t /\ t_byPeer (close_all t l) = t_byPeer t.
Proof.
  revert t. induction l as [|a l IH]; intros t; [done|]. cbn [close_all foldl]. fold (close_all (flow_Close t a) l).
  destruct (IH (flow_Close t a)) as [-> ->]. apply flow_Close_flows.
Qed.

Lemma close_all_inv t pending l : flow_inv t (pending ++ l) -> flow_inv (close_all t l) pending.
Proof.
  revert t. induction l as [|a l IH]; intros t Hi; [by rewrite app_nil_r in Hi|].
  cbn [close_all foldl]. apply IH. by apply flow_Close_inv.
Qed.

Lemma flow_Close_heap t a b f : t_heap t !! b = Some f ->
  exists f', t_heap (flow_Close t a) !! b = Some f' /\ f_key f' = f_key f.
Proof.
  intros Hb. unfold flow_Close. destruct (t_heap t !! a) as [f0|] eqn:Ha; [|by exists f]. destruct (f_closed f0); [by exists f|].
  cbn [with_heap t_heap]. destruct (decide (a = b)) as [<-|Hne]; [|by exists f; rewrite lookup_insert_ne].
  rewrite lookup_insert_eq. eexists. split; [done|]. cbn. congruence.
Qed.

Lemma close_all_heap t l b f : t_heap t !! b = Some f ->
  exists f', t_heap (close_all t l) !! b = Some f' /\ f_key f' = f_key f.
Proof.
  revert t f. induction l as [|a l IH]; intros t f Hb; [by exists f|].
  cbn [close_all foldl]. destruct (flow_Close_heap t a b f Hb) as (f1 & Hf1 & Hk1).
  destruct (IH _ _ Hf1) as (f2 & Hf2 & Hk2). exists f2. split; [done|congruence].
Qed.

Lemma length_omap_total {A B} (g : A -> option B) l : (forall x, x ∈ l -> is_Some (g x)) -> length (omap g l) = length l.
Proof.
  induction l as [|x l IH]; intros Hall; [done|]. cbn. destruct (Hall x) as [y ->]; [by left|].
  cbn. f_equal. apply IH. intros z Hz. apply Hall. by right.
Qed.

Lemma closePeer_locked_spec t pending peer order :
  flow_inv t pending -> order ≡ₚ elements (peer_flows t peer) ->
  (forall k, k ∈ order <-> k_PeerID k = peer /\ is_Some (t_flows t !! k)) /\
  (forall k, t_flows (closePeer_locked t peer order).1 !! k = if decide (k_PeerID k = peer) then None else t_flows t !! k) /\
  (closePeer_locked t peer order).2 = omap (fun k => t_flows t !! k) order.
Proof.
  intros Hi Ho.
  assert (forall k, k ∈ order <-> k_PeerID k = peer /\ is_Some (t_flows t !! k)) as Hord
    by (intros k; by rewrite Ho, elem_of_elements, (inv_index _ _ Hi)).
  assert (NoDup order) as Hnd by (rewrite Ho; apply NoDup_elements).
  split; [done|]. unfold closePeer_locked. destruct (t_byPeer t !! peer) as [s|] eqn:Eb.
  - pose proof (detach_all_lookup t order) as Hd. pose proof (detach_all_flows t order Hnd) as Hf.
    destruct (detach_all t order) as [t1 fl]. cbn [fst snd with_flows t_flows] in *. split; [|done].
    intros k. rewrite Hd. destruct (decide (k ∈ order)) as [Hin|Hout], (decide (k_PeerID k = peer)) as [Hp|Hp]; try done.
    + by apply Hord in Hin as [? _].
    + destruct (t_flows t !! k) eqn:E; [|done]. destruct Hout. apply Hord. by rewrite E.
  - assert (order = []) as -> by (apply Permutation_nil_r; rewrite Ho; unfold peer_flows; by rewrite Eb).
    split; [|done]. cbn [fst]. intros k. case_decide as Hp; [|done]. destruct (t_flows t !! k) as [a|] eqn:E; [|done].
    assert (k ∈ @nil vpnFlowKey) as Hin by (apply Hord; by rewrite E). by apply not_elem_of_nil in Hin.
Qed.

(** The whole [closePeer]: nothing of the peer stays, nothing else changes. *)
Lemma closePeer_spec t pending peer order :
  flow_inv t pending -> order ≡ₚ elements (peer_flows t peer) ->
  let '(u, n) := closePeer t peer order in
  flow_inv u pending /\ n = Z.of_nat (countPeer t peer) /\
  (forall k, t_flows u !! k = if decide (k_PeerID k = peer) then None else t_flows t !! k) /\
  (forall k a, k_PeerID k = peer -> t_flows t !! k = Some a -> a ∈ t_runs u).
Proof.
  intros Hi Ho. unfold closePeer. pose proof (closePeer_locked_inv t pending peer order Ho Hi) as Hl.
  destruct (closePeer_locked_spec t pending peer order Hi Ho) as (Hord & Hk & Hfl).
  destruct (closePeer_locked t peer order) as [t1 fl]. cbn [fst snd] in *. subst fl.
  set (fl := omap (fun k => t_flows t !! k) order) in *. pose proof (close_all_inv t1 pending fl Hl) as Hu.
  destruct (close_all_flows t1 fl) as [Hcf _]. destruct (inv_pending _ _ Hl) as [Hnd Hpl].
  split_and!; [done| |by rewrite Hcf|].
  - unfold fl. rewrite length_omap_total by (intros x Hx; by apply Hord in Hx as [_ ?]). unfold countPeer.
    rewrite (Permutation_length Ho). done.
  - intros k a Hp Ha. assert (a ∈ fl) as Hin.
    { apply list_elem_of_omap. exists k. split; [apply Hord; by rewrite Ha|done]. }
    assert (a ∉ pending) as Hnp by (apply NoDup_app in Hnd as (_ & Hd & _); intros Hq; by apply (Hd a)).
    destruct (Hpl a) as (f & Hf & Hne); [set_solver|].
    destruct (close_all_heap t1 fl a f Hf) as (f' & Hf' & Hk'). rewrite (inv_closed _ _ Hu). exists f'. split; [done|].
    destruct (f_closed f') eqn:Ec; [done|]. apply (inv_open _ _ Hu _ _ Hf') in Ec as [Ec|Ec]; [|done].
    rewrite Hcf, Hk' in Ec. congruence.
Qed.

(** ** Sample runs *)

Definition sample_key (port : Z) : vpnFlowKey := mkKey #"p1" #"udp" (be_put 4 1, port) (be_put 4 2, 53).
Definition sample_reg (port : Z) : vpnFlowRegistration := mkReg (sample_key port) #"0.0.0.2" 53 0.

(** [remove] works by key, not by flow.  A relay whose flow was reaped calls it
    once more when its goroutine ends; when the peer has sent again in between,
    the call closes the flow that took the key over. *)
Lemma late_remove_closes_successor :
  let t0 := newVPNFlowTable 0 0 60 in
  let '(t1, r1) := register t0 (sample_reg 4000) 0 #"a" in
  let '(t2, n) := reapIdle t1 60 [sample_key 4000] in
  let '(t3, r3) := register t2 (sample_reg 4000) 61 #"b" in
  let t4 := remove t3 (sample_key 4000) in
  r1 = Ok (0%nat, true) /\ n = 1 /\ r3 = Ok (1%nat, true) /\ t_runs t4 = [0; 1]%nat /\ count t4 = 0%nat.
Proof. vm_compute. done. Qed.

Lemma flow_table_sound_witness :
  exists t, rtc flow_step (newVPNFlowTable 1 5 60, []) (t, []) /\ count t = 1%nat /\
    (0 < 5 -> Z.of_nat (count t) <= 5) /\
    (register t (sample_reg 4001) 1 #"b").2 = Err errVPNFlowCapacity.
Proof.
  exists (register (newVPNFlowTable 1 5 60) (sample_reg 4000) 0 #"a").1.
  assert (rtc flow_step (newVPNFlowTable 1 5 60, []) ((register (newVPNFlowTable 1 5 60) (sample_reg 4000) 0 #"a").1, []))
    as Hr by (eapply rtc_l; [apply step_register|apply rtc_refl]).
  split_and!; [exact Hr|by vm_compute| |by vm_compute].
  exact (proj1 (flow_table_sound 1 5 60 _ [] Hr)).
Defined.
