(* ===== verification/VpnRate.v ===== *)
(** * The packet rate limiter

    [packetBucket] of [internal/server/vpn_ratelimit.go]: a token bucket over
    float64, driven by clock readings in nanoseconds (an explicit argument of
    each call).  The products and sums are rounded separately, as on amd64. *)

From stdpp Require Import base list.
From Stdlib Require Import SpecFloat ZArith Lia.
From S2P Require Import Prelude GoFloat.
Local Open Scope Z_scope.

(** ** time.Duration *)

Definition Seconds (d : Z) : float64 :=
  f64_add (f64_of_int (Z.quot d Second)) (f64_div (f64_of_int (Z.rem d Second)) (f64_of_int Second)).

(** ** The bucket *)

Record packetBucket := mkBucket {
  pb_rate : float64;
  pb_capacity : float64;
  pb_tokens : float64;
  pb_last : Z;
}.

Definition newPacketBucket (rate now : Z) : packetBucket :=
  if rate >? 0 then mkBucket (f64_of_int rate) (f64_of_int rate) (f64_of_int rate) now
  else mkBucket f64_zero f64_zero f64_zero now.

Definition refillLocked (b : packetBucket) (now : Z) : packetBucket :=
  let elapsed := Sub now (pb_last b) in
  if elapsed >? 0 then
    let tokens := f64_add (pb_tokens b) (f64_mul (pb_rate b) (Seconds elapsed)) in
    mkBucket (pb_rate b) (pb_capacity b) (if f64_ltb (pb_capacity b) tokens then pb_capacity b else tokens) now
  else b.

Definition AllowN (b : packetBucket) (n now : Z) : bool * packetBucket :=
  if f64_leb (pb_rate b) f64_zero then (true, b)
  else if n <=? 0 then (true, b)
  else
    let b := refillLocked b now in
    let cost := f64_of_int n in
    if f64_ltb (pb_tokens b) cost then (false, b)
    else (true, mkBucket (pb_rate b) (pb_capacity b) (f64_sub (pb_tokens b) cost) (pb_last b)).

Definition bucket_Allow (b : packetBucket) (now : Z) : bool * packetBucket := AllowN b 1 now.

(** A sequence of packets, each with the clock reading it is judged at. *)
Fixpoint bucket_run (b : packetBucket) (times : list Z) : list bool * packetBucket :=
  match times with
  | [] => ([], b)
  | now :: times =>
      let '(ok, b) := bucket_Allow b now in
      let '(oks, b) := bucket_run b times in
      (ok :: oks, b)
  end.

Fixpoint admitted_count (l : list bool) : Z :=
  match l with
  | [] => 0
  | ok :: l => Z.b2z ok + admitted_count l
  end.

(** ** Elapsed time *)

Lemma near_upper u v : near u v -> 2 ^ 53 * u <= (2 ^ 53 + 1) * v.
Proof. unfold near. lia. Qed.

Lemma near_lower u v : near u v -> v <= 2 * u.
Proof. unfold near. lia. Qed.

Lemma unit64_range : 2 ^ 1040 <= unit64 < 2 ^ 1100 /\ 0 < unit64.
Proof. done. Qed.

Lemma f64_int_range z : 0 < z < 2 ^ 64 -> 2 ^ 674 <= z * unit64 < 2 ^ 1400.
Proof.
  pose proof unit64_range as [[Hl Hh] Hu]. intros Hz. split.
  - apply (Z.le_trans _ (2 ^ 1040)); [done|]. apply (Z.le_trans _ (1 * unit64)); [by rewrite Z.mul_1_l|]. apply Z.mul_le_mono_nonneg_r; lia.
  - apply (Z.lt_le_trans _ (2 ^ 64 * unit64)); [apply Z.mul_lt_mono_pos_r; [done|lia]|done].
Qed.

Lemma fraction_spec nsec : 0 <= nsec < Second ->
  exists u, is_f64 (f64_div (f64_of_int nsec) (f64_of_int Second)) u /\ near (u * Second) (nsec * unit64).
Proof.
  intros Hn. pose proof unit64_range as [_ Hu]. destruct (decide (nsec = 0)) as [->|Hne]; [by exists 0|].
  destruct (f64_div_spec (f64_of_int nsec) (f64_of_int Second) (nsec * unit64) (Second * unit64)) as (u & Hf & Hr);
    [apply f64_of_int_spec; unfold Second in *; lia|by apply f64_of_int_spec|apply f64_int_range; unfold Second in *; lia|by apply f64_int_range|].
  exists u. split; [done|]. apply (near_scale unit64); [done|]. by rewrite <- Z.mul_assoc.
Qed.

(** [Seconds] is within a relative error of about [2 ^ -52] of the duration. *)
Lemma Seconds_spec d : 0 < d < 2 ^ 63 ->
  exists w, is_f64 (Seconds d) w /\ 2 ^ 674 <= w < 2 ^ 1400 /\ 2 ^ 106 * (w * Second) <= (2 ^ 53 + 1) ^ 2 * (d * unit64).
Proof.
  intros Hd. pose proof unit64_range as [Hur Hu]. unfold Seconds.
  assert (0 <= Z.rem d Second < Second /\ d = Second * Z.quot d Second + Z.rem d Second /\ 0 <= Z.quot d Second) as (Hr & Ed & Hq).
  { unfold Second in *. Z.to_euclidean_division_equations. lia. }
  set (sec := Z.quot d Second) in *. set (nsec := Z.rem d Second) in *.
  destruct (fraction_spec nsec Hr) as (u & Hf & Hn). assert (0 <= u) by (by eapply is_f64_nonneg). pose proof (near_upper _ _ Hn). pose proof (near_lower _ _ Hn).
  assert (sec < 2 ^ 53) by (clear - Hd Ed Hr; unfold Second in *; lia).
  assert (u <= 2 * unit64) as Hu2 by (clear - Hr H0 H1 Hu; unfold Second in *; nia).
  assert (sec * unit64 + u <= 2 ^ 54 * unit64) as Hsum by (clear - H2 Hu2 Hu; nia).
  destruct (f64_add_spec _ _ _ _ (f64_of_int_spec sec ltac:(clear - Hq H2; lia)) Hf ltac:(by apply (Z.le_lt_trans _ _ _ Hsum))) as (w & Hw & Hwn).
  exists w. split; [done|]. pose proof (near_upper _ _ Hwn) as Hup. pose proof (near_lower _ _ Hwn) as Hlo.
  assert (unit64 <= 4 * Second * w) as Hlow by (clear - Hlo Hn H H0 H1 Hq Hd Ed Hr Hu; unfold Second in *; nia).
  split; [split|].
  - apply (Z.mul_le_mono_pos_l _ _ (4 * Second)); [done|]. eapply Z.le_trans; [|exact Hlow]. by apply (Z.le_trans _ (2 ^ 1040)).
  - apply (Z.le_lt_trans _ (2 ^ 55 * unit64)); [|done]. clear - Hup Hsum Hu. lia.
  - change (2 ^ 106) with (2 ^ 53 * 2 ^ 53).
    assert (2 ^ 53 * (sec * unit64 * Second + u * Second) <= (2 ^ 53 + 1) * (d * unit64)) by (rewrite Ed; clear - H0 Hn Hr Hq Hu; unfold Second in *; lia).
    assert (2 ^ 53 * (w * Second) <= (2 ^ 53 + 1) * (sec * unit64 * Second + u * Second)) by (clear - Hup; unfold Second in *; lia). clear - H3 H4. lia.
Qed.

(** ** The bucket's tokens *)

Section bucket.
Context (rate : Z) (Hrate : 0 < rate < 2 ^ 53).

(** The bucket of a peer with this rate, holding [v] (in units of [2 ^ -1074]). *)
Definition bucket_ok (b : packetBucket) (v : Z) : Prop :=
  pb_rate b = f64_of_int rate /\ pb_capacity b = f64_of_int rate /\ is_f64 (pb_tokens b) v /\ v <= rate * unit64.

Lemma rate_f64 : is_f64 (f64_of_int rate) (rate * unit64).
Proof using Hrate. apply f64_of_int_spec. lia. Qed.

Lemma newPacketBucket_ok now : bucket_ok (newPacketBucket rate now) (rate * unit64) /\ pb_last (newPacketBucket rate now) = now.
Proof using Hrate.
  unfold newPacketBucket. destruct (rate >? 0) eqn:E; [|lia]. split; [|done]. split_and!; [done|done|apply rate_f64|done].
Qed.

(** What a refill adds: the rate times the elapsed time, up to rounding. *)
Lemma earned_spec d : 0 < d < 2 ^ 63 ->
  exists inc, is_f64 (f64_mul (f64_of_int rate) (Seconds d)) inc /\ inc < 2 ^ 1990 /\
    2 ^ 53 * Second * inc <= (2 ^ 53 + 4) * (rate * unit64 * d).
Proof using Hrate.
  intros Hd. pose proof unit64_range as [_ Hu]. destruct (Seconds_spec d Hd) as (w & Hw & Hwr & Hwu).
  destruct (f64_mul_spec _ _ _ _ rate_f64 Hw (f64_int_range rate ltac:(lia)) Hwr) as (inc & Hi & Hn).
  exists inc. split; [done|]. replace (rate * unit64 * w) with (rate * w * unit64) in Hn by ring.
  rewrite near_scale in Hn by done. apply near_upper in Hn. split.
  - assert (rate * w <= 2 ^ 53 * 2 ^ 1400) by (apply Z.mul_le_mono_nonneg; lia). apply (Z.mul_lt_mono_pos_l (2 ^ 53)); [done|]. apply (Z.le_lt_trans _ _ _ Hn), (Z.le_lt_trans _ ((2 ^ 53 + 1) * (2 ^ 53 * 2 ^ 1400))); [|done]. by apply Z.mul_le_mono_nonneg_l.
  - assert (2 ^ 53 * (2 ^ 106 * (Second * inc)) <= (2 ^ 53 + 1) * (rate * (2 ^ 106 * (w * Second)))) by (unfold Second in *; lia).
    assert (rate * (2 ^ 106 * (w * Second)) <= rate * ((2 ^ 53 + 1) ^ 2 * (d * unit64))) by (apply Z.mul_le_mono_nonneg_l; lia).
    assert (2 ^ 106 * (2 ^ 53 * (Second * inc)) <= (2 ^ 53 + 1) ^ 3 * (rate * unit64 * d)) by lia.
    assert ((2 ^ 53 + 1) ^ 3 * (rate * unit64 * d) <= 2 ^ 106 * (2 ^ 53 + 4) * (rate * unit64 * d)) by (apply Z.mul_le_mono_nonneg_r; [|done]; nia).
    lia.
Qed.

Lemma tokens_below_max v : v <= rate * unit64 -> v < 2 ^ 2000.
Proof using Hrate.
  intros Hv. apply (Z.le_lt_trans _ _ _ Hv), (Z.lt_trans _ (2 ^ 1400)); [|done]. apply f64_int_range. lia.
Qed.

Lemma refill_sum v inc : v <= rate * unit64 -> inc < 2 ^ 1990 -> v + inc < 2 ^ 2000.
Proof using Hrate.
  intros Hv Hi. apply (Z.lt_trans _ (2 ^ 1400 + 2 ^ 1990)); [|done]. apply Z.add_lt_mono; [|done]. apply (Z.le_lt_trans _ _ _ Hv). apply f64_int_range. lia.
Qed.

Lemma refill_spec b v now : bucket_ok b v ->
  exists v', bucket_ok (refillLocked b now) v' /\ pb_last b <= pb_last (refillLocked b now) <= Z.max (pb_last b) now /\
    2 ^ 53 * Second * v' <= 2 ^ 53 * Second * v + (2 ^ 53 + 4) * (rate * unit64 * (pb_last (refillLocked b now) - pb_last b)) + Second * (rate * unit64).
Proof using Hrate.
  intros (Er & Ec & Ht & Hv). pose proof unit64_range as [_ Hu]. unfold refillLocked.
  assert (0 <= Second * (rate * unit64)) by (unfold Second; lia).
  destruct (Sub now (pb_last b) >? 0) eqn:Ed; [|exists v; split; [done|lia]].
  set (d := Sub now (pb_last b)) in *. assert (0 < d < 2 ^ 63 /\ d <= now - pb_last b) as [Hd Hdn] by (unfold d, Sub in *; lia).
  destruct (earned_spec d Hd) as (inc & Hi & Hib & Hinc). rewrite Er, Ec. pose proof (is_f64_nonneg _ _ Hi). pose proof (is_f64_nonneg _ _ Ht).
  destruct (f64_add_spec _ _ _ _ Ht Hi (refill_sum v inc Hv Hib)) as (s & Hs & Hn). clear Hib. apply near_upper in Hn.
  cbn [pb_last pb_tokens pb_rate pb_capacity]. rewrite (f64_ltb_spec _ _ _ _ rate_f64 Hs).
  assert ((2 ^ 53 + 4) * (rate * unit64 * d) <= (2 ^ 53 + 4) * (rate * unit64 * (now - pb_last b))) by (apply Z.mul_le_mono_nonneg_l; [done|]; apply Z.mul_le_mono_nonneg_l; lia).
  exists (if rate * unit64 <? s then rate * unit64 else s). split_and!; [|lia|lia|].
  - destruct (Z.ltb_spec (rate * unit64) s); (split_and!; [done|done| |]); [apply rate_f64|done|done|lia].
  - assert (2 ^ 53 * (if rate * unit64 <? s then rate * unit64 else s) <= 2 ^ 53 * (v + inc) + rate * unit64); [|unfold Second in *; lia].
    destruct (Z.ltb_spec (rate * unit64) s), (Z.le_gt_cases (v + inc) (rate * unit64)); lia.
Qed.

Lemma Allow_spec b v now : bucket_ok b v ->
  exists v', bucket_ok (bucket_Allow b now).2 v' /\ pb_last b <= pb_last (bucket_Allow b now).2 <= Z.max (pb_last b) now /\
    2 ^ 53 * Second * (v' + Z.b2z (bucket_Allow b now).1 * unit64) <=
      2 ^ 53 * Second * v + (2 ^ 53 + 4) * (rate * unit64 * (pb_last (bucket_Allow b now).2 - pb_last b)) + 2 * (Second * (rate * unit64)).
Proof using Hrate.
  intros Hb. pose proof unit64_range as [_ Hu]. destruct (refill_spec b v now Hb) as (v1 & (Er & Ec & Ht & Hv) & Hl & Hr).
  assert (0 <= Second * (rate * unit64)) by (unfold Second; lia). destruct Hb as (Er0 & _).
  unfold bucket_Allow, AllowN. rewrite Er0, (f64_leb_spec _ f64_zero _ 0 rate_f64) by done.
  destruct (Z.leb_spec (rate * unit64) 0); [lia|]. cbn [Z.leb Z.compare]. change (1 <=? 0) with false. cbn iota.
  pose proof (f64_of_int_spec 1 ltac:(lia)) as H1. rewrite Z.mul_1_l in H1. rewrite (f64_ltb_spec _ _ _ _ Ht H1).
  destruct (Z.ltb_spec v1 unit64); cbn [fst snd pb_last Z.b2z].
  - exists v1. split; [done|]. split; [done|]. lia.
  - assert (rate * unit64 < 2 ^ 1400) by (apply f64_int_range; lia). assert (2 ^ 1400 < 2 ^ 2000) by done.
    destruct (f64_sub_spec _ _ _ _ Ht H1 ltac:(lia) ltac:(lia)) as (v2 & Hv2 & Hn & _). apply near_upper in Hn.
    assert (rate * unit64 <= 2 ^ 53 * unit64) by (apply Z.mul_le_mono_nonneg_r; lia).
    exists v2. split; [split_and!; [done|done|done|lia]|split; [done|unfold Second in *; lia]].
Qed.
End bucket.

Lemma bucket_run_spec rate b v times t1 : 0 < rate < 2 ^ 53 -> bucket_ok rate b v -> pb_last b <= t1 -> Forall (fun t => t <= t1) times ->
  exists v', bucket_ok rate (bucket_run b times).2 v' /\
    2 ^ 53 * Second * (v' + admitted_count (bucket_run b times).1 * unit64) <=
      2 ^ 53 * Second * v + (2 ^ 53 + 4) * (rate * unit64 * (t1 - pb_last b)) + 2 * (Z.of_nat (length times) * (Second * (rate * unit64))).
Proof.
  intros Hrate. pose proof unit64_range as [_ Hu]. revert b v. induction times as [|now times IH]; intros b v Hb Hl Hts.
  - exists v. split; [done|]. cbn [bucket_run fst admitted_count length]. change (Z.of_nat 0) with 0.
    assert (0 <= rate * unit64 * (t1 - pb_last b)) by (apply Z.mul_nonneg_nonneg; lia). lia.
  - apply Forall_cons in Hts as [Ht Hts]. destruct (Allow_spec rate Hrate b v now Hb) as (v1 & H1 & Hl1 & Hr1).
    cbn [bucket_run length]. destruct (bucket_Allow b now) as [ok b1]. cbn [fst snd] in *.
    destruct (IH b1 v1 H1 ltac:(lia) Hts) as (v2 & H2 & Hr2). destruct (bucket_run b1 times) as [oks b2]. cbn [fst snd admitted_count] in *.
    exists v2. split; [done|]. rewrite Nat2Z.inj_succ. lia.
Qed.

(** The limiter enforces its rate whatever the clock does.  For any packets
    judged at any clock readings up to [t1] (out of order or stepped backwards
    included), a bucket created at [t0] admits at most one second's worth of
    packets, plus the rate times the elapsed time, up to a rounding slack of
    [2 ^ -51] of the elapsed share and [2 ^ -52] of the rate per packet judged;
    and the token count is never negative, infinite or not a number, and never
    exceeds the capacity. *)
Theorem rate_limit_enforced rate t0 t1 times :
  0 < rate < 2 ^ 53 -> t0 <= t1 -> Forall (fun t => t <= t1) times ->
  let b := (bucket_run (newPacketBucket rate t0) times).2 in
  Second * 2 ^ 52 * admitted_count (bucket_run (newPacketBucket rate t0) times).1 <=
    rate * (Second * 2 ^ 52 + (2 ^ 52 + 2) * (t1 - t0) + Second * Z.of_nat (length times)) /\
  f64_leb f64_zero (pb_tokens b) = true /\ f64_leb (pb_tokens b) (pb_capacity b) = true.
Proof.
  intros Hrate Ht Hts b. pose proof unit64_range as [_ Hu]. destruct (newPacketBucket_ok rate Hrate t0) as [Hok Hl].
  destruct (bucket_run_spec rate _ _ times t1 Hrate Hok ltac:(lia) Hts) as (v & (_ & Ec & Hv & Hc) & Hr). fold b in Ec, Hv.
  pose proof (is_f64_nonneg _ _ Hv). split_and!.
  - rewrite Hl in Hr. set (n := admitted_count _) in *. apply (Z.mul_le_mono_pos_r _ _ (2 * unit64)); [lia|].
    assert (0 <= 2 ^ 53 * Second * v) by (unfold Second; lia). lia.
  - rewrite (f64_leb_spec _ _ 0 v); [by apply Z.leb_le|done|done].
  - rewrite Ec, (f64_leb_spec _ _ _ _ Hv (rate_f64 rate Hrate)). by apply Z.leb_le.
Qed.

Lemma rate_limit_enforced_witness :
  Second * 2 ^ 52 * admitted_count (bucket_run (newPacketBucket 2 0) [0; 0; 0; 500000000; 400000000; 600000000]).1 <=
    2 * (Second * 2 ^ 52 + (2 ^ 52 + 2) * (600000000 - 0) + Second * 6) /\
  admitted_count (bucket_run (newPacketBucket 2 0) [0; 0; 0; 500000000; 400000000; 600000000]).1 = 3.
Proof.
  split; [|by vm_compute].
  apply (rate_limit_enforced 2 0 600000000 [0; 0; 0; 500000000; 400000000; 600000000]); [lia|lia|].
  repeat constructor; lia.
Defined.

(** The burst allowance is exactly one second of the rate: while the clock has
    not advanced past the bucket's creation, the first [rate] packets are
    admitted and every later one is refused, with no rounding error. *)
Theorem burst_is_one_second rate t0 times :
  0 < rate < 2 ^ 53 -> Forall (fun t => t <= t0) times ->
  (bucket_run (newPacketBucket rate t0) times).1 =
    (fun i => bool_decide (Z.of_nat i < rate)) <$> seq 0 (length times).
Proof.
  intros Hrate Hts. pose proof unit64_range as [_ Hu]. destruct (newPacketBucket_ok rate Hrate t0) as [Hok Hl].
  assert (forall k b, 0 <= Z.of_nat k -> bucket_ok rate b (Z.max 0 (rate - Z.of_nat k) * unit64) -> pb_last b = t0 ->
    (bucket_run b times).1 = (fun i => bool_decide (Z.of_nat i < rate)) <$> seq k (length times)) as Hgen.
  2: { apply (Hgen 0%nat); [done| |done]. change (Z.of_nat 0) with 0. by rewrite Z.max_r, Z.sub_0_r by lia. }
  clear Hok Hl. induction Hts as [|t ts Ht _ IH]; intros k b Hk Hok Hl; [done|].
  cbn [bucket_run length seq fmap list_fmap]. unfold bucket_Allow, AllowN, refillLocked. destruct Hok as (Er & Ec & Hv & Hc).
  rewrite Er, (f64_leb_spec _ f64_zero _ 0 (rate_f64 rate Hrate)) by done. destruct (Z.leb_spec (rate * unit64) 0); [lia|].
  change (1 <=? 0) with false. cbn iota. replace (Sub t (pb_last b) >? 0) with false by (unfold Sub; lia).
  pose proof (f64_of_int_spec 1 ltac:(lia)) as H1. rewrite (f64_ltb_spec _ _ _ _ Hv H1).
  rewrite (bool_decide_ext _ (1 * unit64 <= Z.max 0 (rate - Z.of_nat k) * unit64)) by nia.
  destruct (Z.ltb_spec (Z.max 0 (rate - Z.of_nat k) * unit64) (1 * unit64)) as [Hlt|Hge].
  - specialize (IH (S k) b ltac:(lia)). destruct (bucket_run b ts) as [oks b2]. cbn [fst] in *.
    rewrite bool_decide_eq_false_2 by lia. f_equal. apply IH; [|done]. split_and!; [done|done| |nia]. 
    replace (Z.max 0 (rate - Z.of_nat (S k))) with (Z.max 0 (rate - Z.of_nat k)) by nia. done.
  - destruct (f64_sub_spec _ _ _ _ Hv H1 Hge (tokens_below_max rate Hrate _ Hc)) as (v & Hv' & _ & Hx).
    specialize (Hx _ _ eq_refl eq_refl ltac:(lia)). subst v.
    specialize (IH (S k) (mkBucket (pb_rate b) (pb_capacity b) (f64_sub (pb_tokens b) (f64_of_int 1)) (pb_last b)) ltac:(lia)).
    destruct (bucket_run _ ts) as [oks b2]. cbn [fst] in *. rewrite bool_decide_eq_true_2 by lia. f_equal.
    assert (Z.max 0 (rate - Z.of_nat (S k)) * unit64 = Z.max 0 (rate - Z.of_nat k) * unit64 - 1 * unit64) as Ev by nia.
    apply IH; [|done]. rewrite Ev. split_and!; [done|done|done|lia].
Qed.

Lemma burst_is_one_second_witness :
  (bucket_run (newPacketBucket 3 10) [10; 7; 10; 10; 9]).1 = [true; true; true; false; false].
Proof.
  apply (burst_is_one_second 3 10 [10; 7; 10; 10; 9]); [lia|]. repeat constructor; lia.
Defined.
