(* ===== verification/VpnDenials.v ===== *)
(** * The audit aggregator for refused packets

    internal/server/vpn_denials.go: refusals are folded into windowed buckets,
    at most [maxKeys] of them, and past that into one overflow bucket per class.
    Clock readings are explicit (nanoseconds; Go subtracts monotonic readings),
    and so is the order in which a sweep visits Go's maps.  The calls of the
    audit repository's [Create] are recorded in [ag_writes]; the arguments of
    [json.Marshal] are kept as a record. *)

From stdpp Require Import base list gmap sets strings finite relations.
From Stdlib Require Import Ascii.
From S2P Require Import Prelude GoStrings GoNet VpnPolicy.
Local Open Scope Z_scope.

Definition vpnDenialSubnetBits : Z := 24.
Definition vpnDenialIPv6SubnetBits : Z := 48.
Definition vpnDenialDefaultWindow : Z := 60 * 1000000000.
Definition vpnDenialDefaultMaxKeys : Z := 4096.

(** [dn_Dest] is a [netip.Addr] as its bytes; the zero [Addr] is empty. *)
Record vpnDenial := mkDenial {
  dn_PeerID : bytes;
  dn_Class : ErrorClass;
  dn_Reason : bytes;
  dn_Protocol : bytes;
  dn_Dest : bytes;
  dn_Port : Z;
}.

Record denialKey := mkDenialKey {
  dk_peerID : bytes;
  dk_class : ErrorClass;
  dk_subnet : bytes;
  dk_protocol : bytes;
}.

#[global] Instance denialKey_eq_dec : EqDecision denialKey.
Proof. solve_decision. Defined.

#[global] Instance denialKey_countable : Countable denialKey.
Proof.
  apply (inj_countable' (fun k => (dk_peerID k, dk_class k, dk_subnet k, dk_protocol k))
    (fun '(p, c, s, q) => mkDenialKey p c s q)). by intros [].
Defined.

Record denialBucket := mkDenialBucket {
  bk_key : denialKey;
  bk_reason : bytes;
  bk_port : Z;
  bk_count : Z;
  bk_peers : gset bytes;
  bk_windowStart : Z;
}.

(** What an audit row says of its bucket: the number of peers of an aggregated
    one, or the peer, protocol, range and port. *)
Inductive denialSubject :=
| AggregatedPeers (peers : Z)
| OnePeer (peerID protocol subnet : bytes) (port : Z).

Record denialDetails := mkDetails {
  dd_errorClass : ErrorClass;
  dd_count : Z;
  dd_windowMs : Z;
  dd_aggregated : bool;
  dd_reason : option bytes;
  dd_subject : denialSubject;
}.

Record denialEntry := mkAudit {
  en_resourceID : bytes;
  en_details : denialDetails;
}.

Record denialAggregator := mkAggregator {
  ag_audits : bool;
  ag_window : Z;
  ag_maxKeys : Z;
  ag_buckets : gmap denialKey denialBucket;
  ag_overflow : gmap ErrorClass denialBucket;
  ag_closed : bool;
  ag_failureLogged : bool;
  ag_writes : list denialEntry;
}.

(** [audits] tells whether there is a repository. *)
Definition newDenialAggregator (audits : bool) (window maxKeys : Z) : denialAggregator :=
  mkAggregator audits (if window <=? 0 then vpnDenialDefaultWindow else window)
    (if maxKeys <=? 0 then vpnDenialDefaultMaxKeys else maxKeys) ∅ ∅ false false [].

Definition with_buckets (a : denialAggregator) (bs : gmap denialKey denialBucket)
    (os : gmap ErrorClass denialBucket) : denialAggregator :=
  mkAggregator (ag_audits a) (ag_window a) (ag_maxKeys a) bs os (ag_closed a) (ag_failureLogged a) (ag_writes a).

(** [netip.Prefix.Masked().String()] of the address cut to its range. *)
Definition vpnDenialSubnet (dest : bytes) : bytes :=
  match length dest with
  | 4%nat => ip4_string (zip_with byte_and dest (CIDRMask vpnDenialSubnetBits 32)) ++ #"/24"
  | 16%nat => ip6_string (zip_with byte_and dest (CIDRMask vpnDenialIPv6SubnetBits 128)) ++ #"/48"
  | _ => #"unknown"
  end.

Definition renderLocked (a : denialAggregator) (b : denialBucket) : denialEntry :=
  let aggregated := bool_decide (dk_peerID (bk_key b) = []) in
  mkAudit (dk_peerID (bk_key b))
    (mkDetails (dk_class (bk_key b)) (bk_count b) (Z.quot (ag_window a) 1000000) aggregated
      (if bool_decide (bk_reason b = []) then None else Some (bk_reason b))
      (if aggregated then AggregatedPeers (Z.of_nat (size (bk_peers b)))
       else OnePeer (dk_peerID (bk_key b)) (dk_protocol (bk_key b)) (dk_subnet (bk_key b)) (bk_port b))).

Section sweeps.
Context {K : Type} `{Countable K}.

(** One loop of a sweep: render and remove the buckets that are [due], in the
    order the map is visited. *)
Definition sweep_map (a : denialAggregator) (due : denialBucket -> bool) (order : list K)
    (m : gmap K denialBucket) : list denialEntry * gmap K denialBucket :=
  foldl (fun acc k =>
    match acc.2 !! k with
    | Some b => if due b then (acc.1 ++ [renderLocked a b], delete k acc.2) else acc
    | None => acc
    end) ([], m) order.
End sweeps.

Definition expired (a : denialAggregator) (now : Z) (b : denialBucket) : bool :=
  now - bk_windowStart b >=? ag_window a.

Definition sweep_both (a : denialAggregator) (due : denialBucket -> bool) (ko : list denialKey) (co : list ErrorClass) :
    list denialEntry * denialAggregator :=
  let '(e1, bs) := sweep_map a due ko (ag_buckets a) in
  let '(e2, os) := sweep_map a due co (ag_overflow a) in
  (e1 ++ e2, with_buckets a bs os).

Definition sweepExpiredLocked (a : denialAggregator) (now : Z) (ko : list denialKey) (co : list ErrorClass) :
    list denialEntry * denialAggregator :=
  sweep_both a (expired a now) ko co.

Definition sweepAllLocked (a : denialAggregator) (ko : list denialKey) (co : list ErrorClass) :
    list denialEntry * denialAggregator :=
  sweep_both a (fun _ => true) ko co.

Definition overflow_bucket (d : vpnDenial) (now : Z) : denialBucket :=
  mkDenialBucket (mkDenialKey [] (dn_Class d) [] []) (dn_Reason d) 0 1 {[dn_PeerID d]} now.

Definition overflowLocked (a : denialAggregator) (d : vpnDenial) (now : Z) : list denialEntry * denialAggregator :=
  match ag_overflow a !! dn_Class d with
  | None => ([], with_buckets a (ag_buckets a) (<[dn_Class d := overflow_bucket d now]> (ag_overflow a)))
  | Some b =>
      if now - bk_windowStart b >=? ag_window a then
        ([renderLocked a b], with_buckets a (ag_buckets a) (<[dn_Class d := overflow_bucket d now]> (delete (dn_Class d) (ag_overflow a))))
      else
        ([], with_buckets a (ag_buckets a)
          (<[dn_Class d := mkDenialBucket (bk_key b) (bk_reason b) (bk_port b) (bk_count b + 1)
              (if bool_decide (dn_PeerID d = []) then bk_peers b else {[dn_PeerID d]} ∪ bk_peers b)
              (bk_windowStart b)]> (ag_overflow a)))
  end.

Definition denial_key (d : vpnDenial) : denialKey :=
  mkDenialKey (dn_PeerID d) (dn_Class d) (vpnDenialSubnet (dn_Dest d)) (dn_Protocol d).

Definition full (a : denialAggregator) : bool := Z.of_nat (size (ag_buckets a)) >=? ag_maxKeys a.

(** The end of [recordLocked]: a new bucket, or overflow when there is no room. *)
Definition record_new (a : denialAggregator) (d : vpnDenial) (now : Z) : list denialEntry * denialAggregator :=
  if full a then overflowLocked a d now
  else ([], with_buckets a (<[denial_key d := mkDenialBucket (denial_key d) (dn_Reason d) (dn_Port d) 1 ∅ now]> (ag_buckets a)) (ag_overflow a)).

Definition recordLocked (a : denialAggregator) (d : vpnDenial) (now : Z) (ko : list denialKey) (co : list ErrorClass) :
    list denialEntry * denialAggregator :=
  let '(due, a) := if full a then sweepExpiredLocked a now ko co else ([], a) in
  let key := denial_key d in
  match ag_buckets a !! key with
  | Some b =>
      if now - bk_windowStart b <? ag_window a then
        (due, with_buckets a
          (<[key := mkDenialBucket (bk_key b) (bk_reason b) (bk_port b) (bk_count b + 1) (bk_peers b) (bk_windowStart b)]> (ag_buckets a))
          (ag_overflow a))
      else
        let '(more, a') := record_new (with_buckets a (delete key (ag_buckets a)) (ag_overflow a)) d now in
        (due ++ [renderLocked a b] ++ more, a')
  | None => let '(more, a') := record_new a d now in (due ++ more, a')
  end.

(** [create] is the answer of the repository to each write. *)
Definition write (a : denialAggregator) (create : denialEntry -> bool) (due : list denialEntry) : denialAggregator :=
  mkAggregator (ag_audits a) (ag_window a) (ag_maxKeys a) (ag_buckets a) (ag_overflow a) (ag_closed a)
    (ag_failureLogged a || existsb (fun e => negb (create e)) due) (ag_writes a ++ due).

Definition Record_ (a : denialAggregator) (d : vpnDenial) (now : Z) (ko : list denialKey) (co : list ErrorClass)
    (create : denialEntry -> bool) : denialAggregator :=
  if negb (ag_audits a) then a
  else if ag_closed a then a
  else let '(due, a) := recordLocked a d now ko co in write a create due.

Definition Flush (a : denialAggregator) (ko : list denialKey) (co : list ErrorClass) (create : denialEntry -> bool) : denialAggregator :=
  if negb (ag_audits a) then a
  else let '(due, a) := sweepAllLocked a ko co in write a create due.

Definition set_closed (a : denialAggregator) : denialAggregator :=
  mkAggregator (ag_audits a) (ag_window a) (ag_maxKeys a) (ag_buckets a) (ag_overflow a) true (ag_failureLogged a) (ag_writes a).

Definition AggClose (a : denialAggregator) (ko : list denialKey) (co : list ErrorClass) (create : denialEntry -> bool) : denialAggregator :=
  if negb (ag_audits a) then set_closed a
  else if ag_closed a then a
  else let '(due, a) := sweepAllLocked a ko co in write (set_closed a) create due.

Definition pending (a : denialAggregator) : Z := Z.of_nat (size (ag_buckets a)) + Z.of_nat (size (ag_overflow a)).

(** ** Sweeps *)

Section sweep_lemmas.
Context {K : Type} `{Countable K} (a : denialAggregator) (due : denialBucket -> bool).

Lemma sweep_map_sub order (m : gmap K denialBucket) : (sweep_map a due order m).2 ⊆ m.
Proof.
  unfold sweep_map. induction order as [|k order IH] using rev_ind; [done|]. rewrite foldl_app. cbn [foldl].
  destruct (foldl _ _ order) as [es m']. cbn [snd] in *. destruct (m' !! k); [|done]. destruct (due _); [|done].
  cbn [snd]. etrans; [apply delete_subseteq|done].
Qed.

(** A measure that rendering does not increase is not increased by a sweep. *)
Lemma sweep_map_measure (me : denialEntry -> Z) (mb : denialBucket -> Z) order (m : gmap K denialBucket) :
  (forall k b, m !! k = Some b -> due b = true -> me (renderLocked a b) <= mb b) ->
  zsum me (sweep_map a due order m).1 + msum mb (sweep_map a due order m).2 <= msum mb m.
Proof.
  intros Hr. induction order as [|k order IH] using rev_ind; [unfold sweep_map; cbn; rewrite zsum_nil; lia|].
  pose proof (sweep_map_sub order m) as Hs. unfold sweep_map in *. rewrite foldl_app. cbn [foldl].
  destruct (foldl _ _ order) as [es m']. cbn [fst snd] in *. destruct (m' !! k) as [b|] eqn:Ek; [|done]. destruct (due b) eqn:Ed; [|done].
  cbn [fst snd]. rewrite zsum_app, zsum_cons, zsum_nil. rewrite (msum_delete mb m' k b Ek) in IH.
  specialize (Hr k b (lookup_weaken _ _ _ _ Ek Hs) Ed). lia.
Qed.

(** A sweep of everything empties the map. *)
Lemma sweep_map_all order (m : gmap K denialBucket) : (forall b, due b = true) -> order ≡ₚ elements (dom m) ->
  (sweep_map a due order m).2 = ∅.
Proof.
  intros Hd Hp. apply map_empty. intros k.
  destruct ((sweep_map a due order m).2 !! k) as [b|] eqn:Ek; [|done]. exfalso.
  assert (k ∈ order) as Hin.
  { rewrite Hp, elem_of_elements. apply elem_of_dom_2 with b. eapply lookup_weaken; [exact Ek|apply sweep_map_sub]. }
  clear Hp. revert Ek. apply list_elem_of_split in Hin as (l1 & l2 & ->). unfold sweep_map.
  induction l2 as [|k' l2 IH] using rev_ind.
  - rewrite foldl_app. cbn [foldl]. destruct (foldl _ _ l1) as [es m']. cbn [snd].
    destruct (m' !! k) as [b'|] eqn:E; [rewrite Hd; cbn [snd]; by rewrite lookup_delete_eq|]. cbn [snd]. by rewrite E.
  - rewrite app_comm_cons, app_assoc, foldl_app. cbn [foldl]. destruct (foldl _ _ (l1 ++ _)) as [es m']. cbn [snd] in *.
    destruct (m' !! k') as [b'|]; [rewrite Hd; cbn [snd]|done]. destruct (decide (k' = k)) as [->|]; [by rewrite lookup_delete_eq|].
    by rewrite lookup_delete_ne.
Qed.
End sweep_lemmas.

(** ** Invariant *)

Definition bucket_fresh (b : denialBucket) : Prop := 1 <= bk_count b.

(** Each bucket is filed under its own key, an overflow bucket names no peer, and
    there are no more keyed buckets than allowed. *)
Record agg_wf (a : denialAggregator) : Prop := {
  wf_key : forall k b, ag_buckets a !! k = Some b -> bk_key b = k /\ bucket_fresh b;
  wf_over : forall c b, ag_overflow a !! c = Some b -> bk_key b = mkDenialKey [] c [] [] /\ bucket_fresh b;
  wf_size : Z.of_nat (size (ag_buckets a)) <= ag_maxKeys a;
  wf_config : 0 < ag_window a /\ 0 < ag_maxKeys a;
}.

Definition weight (mb : denialBucket -> Z) (a : denialAggregator) : Z := msum mb (ag_buckets a) + msum mb (ag_overflow a).

(** What a recorded denial may add to a measure: the cost of a new bucket, or of
    one more packet in an existing one. *)
Record measure_ok (a : denialAggregator) (d : vpnDenial) (now gain : Z) (me : denialEntry -> Z) (mb : denialBucket -> Z) : Prop := {
  mo_render : forall b, bucket_fresh b -> expired a now b = true -> me (renderLocked a b) <= mb b;
  mo_new : mb (mkDenialBucket (denial_key d) (dn_Reason d) (dn_Port d) 1 ∅ now) <= gain;
  mo_overflow : mb (overflow_bucket d now) <= gain;
  mo_more : forall b ps, bk_key b = denial_key d \/ bk_key b = mkDenialKey [] (dn_Class d) [] [] ->
    mb (mkDenialBucket (bk_key b) (bk_reason b) (bk_port b) (bk_count b + 1) ps (bk_windowStart b)) <= mb b + gain;
}.

Lemma size_sub {K A} `{Countable K} (m m' : gmap K A) : m' ⊆ m -> (size m' <= size m)%nat.
Proof. intros Hs. rewrite <- !size_dom. apply subseteq_size, subseteq_dom, Hs. Qed.

Lemma sweep_both_wf a due ko co : agg_wf a -> agg_wf (sweep_both a due ko co).2.
Proof.
  intros [Hk Ho Hs Hc]. unfold sweep_both. pose proof (sweep_map_sub a due ko (ag_buckets a)) as S1. pose proof (sweep_map_sub a due co (ag_overflow a)) as S2.
  destruct (sweep_map a due ko _) as [e1 bs], (sweep_map a due co _) as [e2 os]. cbn [snd] in *. split; cbn; [| | |done].
  - intros k b Hb. apply Hk. by eapply lookup_weaken.
  - intros c b Hb. apply Ho. by eapply lookup_weaken.
  - pose proof (size_sub _ _ S1). lia.
Qed.

Lemma sweep_both_measure a due ko co me mb :
  (forall b, bucket_fresh b -> due b = true -> me (renderLocked a b) <= mb b) -> agg_wf a ->
  zsum me (sweep_both a due ko co).1 + weight mb (sweep_both a due ko co).2 <= weight mb a.
Proof.
  intros Hr Hw. unfold sweep_both, weight.
  pose proof (sweep_map_measure a due me mb ko (ag_buckets a)) as M1. pose proof (sweep_map_measure a due me mb co (ag_overflow a)) as M2.
  destruct (sweep_map a due ko _) as [e1 bs], (sweep_map a due co _) as [e2 os]. cbn [fst snd with_buckets ag_buckets ag_overflow] in *.
  rewrite zsum_app. apply Z.le_trans with (zsum me e1 + msum mb bs + (zsum me e2 + msum mb os)); [lia|]. apply Z.add_le_mono.
  - apply M1. intros k b Hb. apply Hr. by apply (wf_key a Hw k).
  - apply M2. intros c b Hb. apply Hr. by apply (wf_over a Hw c).
Qed.

(** ** Recording *)

Lemma overflowLocked_wf a d now : agg_wf a -> agg_wf (overflowLocked a d now).2.
Proof.
  intros [Hk Ho Hs Hc]. unfold overflowLocked.
  assert (forall os, (forall c b, os !! c = Some b -> bk_key b = mkDenialKey [] c [] [] /\ bucket_fresh b) ->
    agg_wf (with_buckets a (ag_buckets a) os)) as Hos by (intros os Hos; by split).
  destruct (ag_overflow a !! dn_Class d) as [b|] eqn:Eb; [destruct (_ >=? _)|]; apply Hos; intros c b';
    (destruct (decide (c = dn_Class d)) as [->|Hne]; [rewrite lookup_insert_eq; intros [= <-]|rewrite lookup_insert_ne by done]);
    try (split; [done|unfold bucket_fresh; cbn; lia]); try exact (Ho c b').
  - rewrite lookup_delete_ne by done. apply Ho.
  - destruct (Ho _ _ Eb) as [-> Hf]. split; [done|]. unfold bucket_fresh in *. cbn. lia.
Qed.

Lemma overflowLocked_measure a d now gain me mb : agg_wf a -> measure_ok a d now gain me mb ->
  zsum me (overflowLocked a d now).1 + weight mb (overflowLocked a d now).2 <= weight mb a + gain.
Proof.
  intros Hw [Hr _ Hn Hm]. unfold overflowLocked, weight. destruct (ag_overflow a !! dn_Class d) as [b|] eqn:Eb; [destruct (_ >=? _) eqn:Ee|];
    cbn [fst snd with_buckets ag_buckets ag_overflow]; rewrite ?zsum_cons, ?zsum_nil.
  - rewrite (msum_delete mb _ _ _ Eb), msum_fresh by apply lookup_delete_eq.
    specialize (Hr b ltac:(by apply (wf_over a Hw (dn_Class d))) Ee). lia.
  - rewrite (msum_insert mb _ _ _ _ Eb). destruct (wf_over a Hw _ _ Eb) as [Ek _].
    specialize (Hm b (if bool_decide (dn_PeerID d = []) then bk_peers b else {[dn_PeerID d]} ∪ bk_peers b) (or_intror Ek)). lia.
  - rewrite msum_fresh by done. lia.
Qed.

Lemma record_new_wf a d now : agg_wf a -> agg_wf (record_new a d now).2.
Proof.
  intros Hw. unfold record_new. destruct (full a) eqn:Ef; [by apply overflowLocked_wf|]. unfold full in Ef. destruct Hw as [Hk Ho Hs Hc].
  split; cbn; [|done| |done].
  - intros k b. destruct (decide (k = denial_key d)) as [->|Hne]; [rewrite lookup_insert_eq; intros [= <-]|rewrite lookup_insert_ne by done; apply Hk].
    split; [done|]. unfold bucket_fresh. cbn. lia.
  - rewrite map_size_insert. destruct (ag_buckets a !! denial_key d); cbn; lia.
Qed.

Lemma record_new_measure a d now gain me mb : agg_wf a -> measure_ok a d now gain me mb -> ag_buckets a !! denial_key d = None ->
  zsum me (record_new a d now).1 + weight mb (record_new a d now).2 <= weight mb a + gain.
Proof.
  intros Hw Hm Hk. unfold record_new. destruct (full a); [by apply overflowLocked_measure|]. destruct Hm as [_ Hn _ _].
  unfold weight. cbn [fst snd with_buckets ag_buckets ag_overflow]. rewrite zsum_nil, msum_fresh by done. lia.
Qed.

Lemma delete_bucket_wf a k : agg_wf a -> agg_wf (with_buckets a (delete k (ag_buckets a)) (ag_overflow a)).
Proof.
  intros [Hk Ho Hs Hc]. split; cbn; [|done| |done].
  - intros k' b [_ Hb]%lookup_delete_Some. by apply Hk.
  - pose proof (size_sub _ _ (delete_subseteq (ag_buckets a) k)). lia.
Qed.

(** The sweep at the start of [recordLocked] keeps the configuration. *)
Lemma record_sweep a now ko co : agg_wf a ->
  let s := if full a then sweepExpiredLocked a now ko co else ([], a) in
  agg_wf s.2 /\ ag_window s.2 = ag_window a /\ ag_closed s.2 = ag_closed a /\
  forall gain d me mb, measure_ok a d now gain me mb -> zsum me s.1 + weight mb s.2 <= weight mb a.
Proof.
  intros Hw. destruct (full a); cbn [fst snd]; [|split_and!; [done..|intros; rewrite zsum_nil; lia]]. unfold sweepExpiredLocked. split_and!.
  - by apply sweep_both_wf.
  - unfold sweep_both. by destruct (sweep_map _ _ ko _), (sweep_map _ _ co _).
  - unfold sweep_both. by destruct (sweep_map _ _ ko _), (sweep_map _ _ co _).
  - intros gain d me mb [Hr _ _ _]. by apply sweep_both_measure.
Qed.

Lemma measure_ok_window a a1 d now gain me mb : ag_window a1 = ag_window a ->
  measure_ok a d now gain me mb -> measure_ok a1 d now gain me mb.
Proof.
  intros Ew [Hr Hn Ho Hm]. split; [|done..]. intros b Hf He. unfold expired in He. rewrite Ew in He. specialize (Hr b Hf He).
  unfold renderLocked in *. by rewrite Ew.
Qed.

Lemma recordLocked_spec a d now ko co : agg_wf a ->
  agg_wf (recordLocked a d now ko co).2 /\
  forall gain me mb, measure_ok a d now gain me mb ->
    zsum me (recordLocked a d now ko co).1 + weight mb (recordLocked a d now ko co).2 <= weight mb a + gain.
Proof.
  intros Hw. unfold recordLocked. destruct (record_sweep a now ko co Hw) as (W1 & Ew & _ & M1).
  destruct (if full a then _ else _) as [due a1]. cbn [fst snd] in *.
  assert (forall gain me mb, measure_ok a d now gain me mb -> measure_ok a1 d now gain me mb) as Hmo.
  { intros gain me mb. by apply measure_ok_window. }
  destruct (ag_buckets a1 !! denial_key d) as [b|] eqn:Eb; [destruct (_ <? _) eqn:Ee|].
  - split.
    + destruct W1 as [Hk Ho Hs Hc]. split; cbn; [|done| |done].
      * intros k b'. destruct (decide (k = denial_key d)) as [->|Hne]; [rewrite lookup_insert_eq; intros [= <-]|rewrite lookup_insert_ne by done; apply Hk].
        destruct (Hk _ _ Eb). split; [done|]. unfold bucket_fresh in *. cbn. lia.
      * by rewrite map_size_insert_Some by (by exists b).
    + intros gain me mb Hm. specialize (M1 _ _ _ _ Hm). apply Hmo in Hm as [_ _ _ Hmore]. unfold weight in *.
      cbn [fst snd with_buckets ag_buckets ag_overflow]. rewrite (msum_insert mb _ _ _ _ Eb).
      specialize (Hmore b (bk_peers b) (or_introl (proj1 (wf_key a1 W1 _ _ Eb)))). lia.
  - set (a2 := with_buckets a1 (delete (denial_key d) (ag_buckets a1)) (ag_overflow a1)).
    assert (agg_wf a2) as W2 by (by apply delete_bucket_wf). pose proof (record_new_wf a2 d now W2) as W3.
    pose proof (record_new_measure a2 d now) as M2. destruct (record_new a2 d now) as [more a3]. cbn [fst snd] in *. split; [done|].
    intros gain me mb Hm. specialize (M1 _ _ _ _ Hm). apply Hmo in Hm. specialize (M2 gain me mb W2 (measure_ok_window a1 a2 _ _ _ _ _ eq_refl Hm) (lookup_delete_eq _ _)).
    rewrite !zsum_app, zsum_cons, zsum_nil. unfold weight in *. cbn [a2 with_buckets ag_buckets ag_overflow] in M2.
    rewrite (msum_delete mb (ag_buckets a1) _ _ Eb) in M1.
    assert (expired a1 now b = true) as Hx by (unfold expired; lia).
    pose proof (mo_render _ _ _ _ _ _ Hm b (proj2 (wf_key a1 W1 _ _ Eb)) Hx). lia.
  - pose proof (record_new_wf a1 d now W1) as W3. pose proof (record_new_measure a1 d now) as M2.
    destruct (record_new a1 d now) as [more a3]. cbn [fst snd] in *. split; [done|].
    intros gain me mb Hm. specialize (M1 _ _ _ _ Hm). apply Hmo in Hm. specialize (M2 gain me mb W1 Hm Eb). rewrite zsum_app. lia.
Qed.

(** ** Runs of the aggregator *)

(** A run state: the aggregator, the last clock reading, and the denials handed
    to it while it was open. *)
Definition agg_state : Type := denialAggregator * Z * list vpnDenial.

Inductive record_step : agg_state -> agg_state -> Prop :=
| agg_record a t ds d now ko co create :
    t <= now -> ko ≡ₚ elements (dom (ag_buckets a)) -> co ≡ₚ elements (dom (ag_overflow a)) ->
    record_step (a, t, ds) (Record_ a d now ko co create, now, if ag_closed a then ds else ds ++ [d]).

Inductive agg_step : agg_state -> agg_state -> Prop :=
| agg_one x y : record_step x y -> agg_step x y
| agg_flush a t ds ko co create :
    ko ≡ₚ elements (dom (ag_buckets a)) -> co ≡ₚ elements (dom (ag_overflow a)) ->
    agg_step (a, t, ds) (Flush a ko co create, t, ds)
| agg_close a t ds ko co create :
    ko ≡ₚ elements (dom (ag_buckets a)) -> co ≡ₚ elements (dom (ag_overflow a)) ->
    agg_step (a, t, ds) (AggClose a ko co create, t, ds).

Definition class_count (c : ErrorClass) (b : denialBucket) : Z := if decide (dk_class (bk_key b) = c) then bk_count b else 0.
Definition class_written (c : ErrorClass) (e : denialEntry) : Z :=
  if decide (dd_errorClass (en_details e) = c) then dd_count (en_details e) else 0.
Definition peer_count (p : bytes) (b : denialBucket) : Z := if decide (dk_peerID (bk_key b) = p) then bk_count b else 0.
Definition peer_written (p : bytes) (e : denialEntry) : Z :=
  if decide (en_resourceID e = p) then dd_count (en_details e) else 0.
Definition tally {A} (P : A -> Prop) `{!forall x, Decision (P x)} (l : list A) : Z := zsum (fun x => if decide (P x) then 1 else 0) l.

(** What is held and written, for a measure of buckets and of rows. *)
Definition held (me : denialEntry -> Z) (mb : denialBucket -> Z) (a : denialAggregator) : Z := weight mb a + zsum me (ag_writes a).

Lemma recordLocked_writes a d now ko co : ag_writes (recordLocked a d now ko co).2 = ag_writes a /\
  ag_closed (recordLocked a d now ko co).2 = ag_closed a /\ ag_audits (recordLocked a d now ko co).2 = ag_audits a /\
  ag_window (recordLocked a d now ko co).2 = ag_window a /\ ag_maxKeys (recordLocked a d now ko co).2 = ag_maxKeys a.
Proof.
  unfold recordLocked, sweepExpiredLocked, sweep_both, record_new, overflowLocked.
  destruct (full a); [destruct (sweep_map _ _ ko _), (sweep_map _ _ co _)|];
    repeat (case_match; simplify_eq/=); done.
Qed.

(** ** Accounting *)

Lemma Record_spec a d now ko co create : agg_wf a -> ag_audits a = true -> ag_closed a = false ->
  let a' := Record_ a d now ko co create in
  agg_wf a' /\ ag_audits a' = true /\ ag_closed a' = false /\ ag_window a' = ag_window a /\ ag_maxKeys a' = ag_maxKeys a /\
  forall gain me mb, measure_ok a d now gain me mb -> held me mb a' <= held me mb a + gain.
Proof.
  intros Hw Ha Hc a'. unfold a', Record_. rewrite Ha, Hc. cbn [negb].
  destruct (recordLocked_spec a d now ko co Hw) as [W M]. destruct (recordLocked_writes a d now ko co) as (E1 & E2 & E3 & E4 & E5).
  destruct (recordLocked a d now ko co) as [due a1]. cbn [fst snd] in *. split_and!; [by destruct W|cbn; congruence..|].
  intros gain me mb Hm. specialize (M _ _ _ Hm). unfold held, weight in *. cbn [write ag_buckets ag_overflow ag_writes].
  rewrite zsum_app, E1. lia.
Qed.

Lemma sweepAll_spec a ko co : agg_wf a -> ko ≡ₚ elements (dom (ag_buckets a)) -> co ≡ₚ elements (dom (ag_overflow a)) ->
  exists due, sweepAllLocked a ko co = (due, with_buckets a ∅ ∅) /\
    forall me mb, (forall b, bucket_fresh b -> me (renderLocked a b) <= mb b) -> zsum me due <= weight mb a.
Proof.
  intros Hw Hk Hc. unfold sweepAllLocked. pose proof (sweep_both_measure a (fun _ => true) ko co) as M. unfold sweep_both in *.
  pose proof (sweep_map_all a (fun _ => true) ko (ag_buckets a) ltac:(done) Hk) as E1.
  pose proof (sweep_map_all a (fun _ => true) co (ag_overflow a) ltac:(done) Hc) as E2.
  destruct (sweep_map _ _ ko _) as [e1 bs], (sweep_map _ _ co _) as [e2 os]. cbn [fst snd] in *. subst. exists (e1 ++ e2). split; [done|].
  intros me mb Hr. specialize (M me mb (fun b Hb _ => Hr b Hb) Hw). unfold weight in M at 1. cbn [with_buckets ag_buckets ag_overflow] in M.
  rewrite !msum_empty in M. lia.
Qed.

Lemma empty_wf a : agg_wf a -> agg_wf (with_buckets a ∅ ∅).
Proof. intros [_ _ _ Hc]. split; cbn; [done|done|rewrite map_size_empty; lia|done]. Qed.

(** Flushing and closing move everything held into the audit log. *)
Lemma flushed_spec a ko co create (closed : bool) : agg_wf a -> ag_audits a = true ->
  ko ≡ₚ elements (dom (ag_buckets a)) -> co ≡ₚ elements (dom (ag_overflow a)) ->
  let a' := if closed then AggClose a ko co create else Flush a ko co create in
  agg_wf a' /\ ag_audits a' = true /\ ag_window a' = ag_window a /\ ag_maxKeys a' = ag_maxKeys a /\
  ag_closed a' = (closed || ag_closed a) /\ (ag_closed a = true -> pending a = 0 -> pending a' = 0) /\
  (ag_closed a = false -> ag_closed a' = true -> pending a' = 0) /\
  forall me mb, (forall b, bucket_fresh b -> me (renderLocked a b) <= mb b) -> held me mb a' <= held me mb a.
Proof.
  intros Hw Ha Hk Hc. destruct (sweepAll_spec a ko co Hw Hk Hc) as (due & E & M). pose proof (empty_wf a Hw) as [W1 W2 W3 W4].
  assert (forall me mb, (forall b, bucket_fresh b -> me (renderLocked a b) <= mb b) ->
    weight mb (with_buckets a ∅ ∅) + zsum me (ag_writes a ++ due) <= held me mb a) as Hh.
  { intros me mb Hr. specialize (M me mb Hr). unfold held. rewrite zsum_app. unfold weight at 1. cbn. rewrite !msum_empty. lia. }
  destruct closed; cbn zeta.
  - unfold AggClose. rewrite Ha. cbn [negb]. destruct (ag_closed a) eqn:Ecl; [split_and!; try done; by intros; apply Z.le_refl|].
    rewrite E. split_and!; try done; by split.
  - unfold Flush. rewrite Ha, E. cbn [negb]. split_and!; try done; by split.
Qed.

Definition opp {A} (f : A -> Z) : A -> Z := fun x => - f x.

Lemma held_opp me mb a : held (opp me) (opp mb) a = - held me mb a.
Proof.
  unfold held, weight, opp. rewrite !msum_opp. replace (zsum (fun x => - me x) (ag_writes a)) with (- zsum me (ag_writes a)); [lia|].
  induction (ag_writes a) as [|e l IH]; [done|]. rewrite !zsum_cons, <- IH. lia.
Qed.

Definition one_if (P : Prop) `{Decision P} : Z := if decide P then 1 else 0.

Lemma class_measure a d now c :
  measure_ok a d now (one_if (dn_Class d = c)) (class_written c) (class_count c) /\
  measure_ok a d now (- one_if (dn_Class d = c)) (opp (class_written c)) (opp (class_count c)).
Proof.
  unfold one_if, opp, class_written, class_count.
  split; (split; [intros b _ _; cbn; lia|cbn; lia|cbn; lia|intros b ps [Hk|Hk]; cbn; rewrite Hk; cbn; case_decide; lia]).
Qed.

Lemma peer_measure a d now p : p <> [] -> measure_ok a d now (one_if (dn_PeerID d = p)) (peer_written p) (peer_count p).
Proof.
  intros Hp. unfold one_if, peer_written, peer_count. split; [intros b _ _; cbn; lia|cbn; lia| |].
  - cbn. rewrite decide_False by congruence. case_decide; lia.
  - intros b ps [Hk|Hk]; cbn; rewrite Hk; cbn; [case_decide; lia|]. rewrite !(decide_False (P := [] = p)) by congruence. case_decide; lia.
Qed.

(** Rows that claim no packet. *)
Definition empty_row (e : denialEntry) : Z := one_if (dd_count (en_details e) < 1).

Lemma render_row a b : bucket_fresh b -> empty_row (renderLocked a b) <= 0.
Proof. intros Hf. unfold empty_row, one_if, bucket_fresh in *. cbn. case_decide; lia. Qed.

Lemma row_measure a d now : measure_ok a d now 0 empty_row (fun _ => 0).
Proof. split; [|done..]. intros b Hf _. by apply render_row. Qed.

Lemma size_classes {A} (m : gmap ErrorClass A) : (size m <= 16)%nat.
Proof.
  rewrite <- size_dom. unfold size, set_size. change 16%nat with (length allErrorClasses). apply submseteq_length, NoDup_submseteq; [apply NoDup_elements|].
  intros c _. unfold allErrorClasses. destruct c; set_solver.
Qed.

Record agg_inv (w m : Z) (x : agg_state) : Prop := {
  ai_wf : agg_wf x.1.1;
  ai_config : ag_audits x.1.1 = true /\ ag_window x.1.1 = w /\ ag_maxKeys x.1.1 = m;
  ai_closed : ag_closed x.1.1 = true -> pending x.1.1 = 0;
  ai_class : forall c, held (class_written c) (class_count c) x.1.1 = tally (fun d => dn_Class d = c) x.2;
  ai_peer : forall p, p <> [] -> held (peer_written p) (peer_count p) x.1.1 <= tally (fun d => dn_PeerID d = p) x.2;
  ai_rows : held empty_row (fun _ => 0) x.1.1 <= 0;
}.

Lemma tally_snoc {A} (P : A -> Prop) `{!forall x, Decision (P x)} l x : tally P (l ++ [x]) = tally P l + one_if (P x).
Proof. unfold tally. rewrite zsum_app, zsum_cons, zsum_nil. unfold one_if. lia. Qed.

Lemma record_step_inv w m x y : agg_inv w m x -> record_step x y -> agg_inv w m y.
Proof.
  intros Hi Hs. destruct Hs as [a t ds d now ko co create _ _ _]. destruct Hi as [Hw (Ha & Hwin & Hm) Hc Hcl Hp Hr]. cbn [fst snd] in *.
  destruct (ag_closed a) eqn:Ecl.
  { replace (Record_ a d now ko co create) with a by (unfold Record_; by rewrite Ha, Ecl). by split; cbn [fst snd]; [| |auto|..]. }
  destruct (Record_spec a d now ko co create Hw Ha Ecl) as (W & A & C & Ew & Em & M). split; cbn [fst snd].
  - done.
  - split_and!; congruence.
  - congruence.
  - intros c. destruct (class_measure a d now c) as [M1 M2]. apply M in M1, M2. rewrite !held_opp in M2. rewrite tally_snoc, <- Hcl. lia.
  - intros p Hne. specialize (Hp p Hne). pose proof (M _ _ _ (peer_measure a d now p Hne)). rewrite tally_snoc. lia.
  - pose proof (M _ _ _ (row_measure a d now)). lia.
Qed.

Lemma agg_step_inv w m x y : agg_inv w m x -> agg_step x y -> agg_inv w m y.
Proof.
  intros Hi Hs. destruct Hs as [x y Hs|a t ds ko co create Hk Ho|a t ds ko co create Hk Ho]; [by eapply record_step_inv|..].
  all: destruct Hi as [Hw (Ha & Hwin & Hm) Hc Hcl Hp Hr]; cbn [fst snd] in *.
  1: destruct (flushed_spec a ko co create false Hw Ha Hk Ho) as (W & A & Ew & Em & Ec & C1 & C2 & M).
  2: destruct (flushed_spec a ko co create true Hw Ha Hk Ho) as (W & A & Ew & Em & Ec & C1 & C2 & M).
  all: split; cbn [fst snd]; [done|split_and!; congruence| | | |].
  all: try (intros E; destruct (ag_closed a) eqn:Ecl; by auto).
  all: try (intros c; pose proof (M (class_written c) (class_count c) ltac:(done));
    pose proof (M (opp (class_written c)) (opp (class_count c)) ltac:(done)) as M2; rewrite !held_opp in M2; rewrite <- Hcl; lia).
  all: try (intros p Hne; specialize (Hp p Hne); pose proof (M (peer_written p) (peer_count p) ltac:(done)); lia).
  all: pose proof (M _ _ (render_row a)); lia.
Qed.

Lemma new_inv window maxKeys t0 : let a := newDenialAggregator true window maxKeys in
  agg_inv (ag_window a) (ag_maxKeys a) (a, t0, []).
Proof.
  assert (forall me mb, held me mb (newDenialAggregator true window maxKeys) = 0) as Hz.
  { intros me mb. unfold held, weight. cbn. by rewrite !msum_empty. }
  intros a. unfold a. split; cbn [fst snd]; [|done|done|intros; by rewrite Hz|intros; by rewrite Hz|by rewrite Hz].
  split; cbn; [done|done|rewrite map_size_empty|]; unfold vpnDenialDefaultWindow, vpnDenialDefaultMaxKeys; repeat case_match; lia.
Qed.

(** The age of a live bucket, against the window of a written row. *)
Definition span (now : Z) (b : denialBucket) : Z := Z.max 0 (now - bk_windowStart b).

Lemma span_measure a d now : measure_ok a d now 0 (fun _ => ag_window a) (span now).
Proof. split; [intros b _ He; unfold expired, span in *; lia|unfold span; cbn; lia..]. Qed.

Definition volume_inv (w m t0 : Z) (x : agg_state) : Prop :=
  agg_inv w m x /\ ag_closed x.1.1 = false /\
  held (fun _ => w) (span x.1.2) x.1.1 <= (m + 16) * (x.1.2 - t0).

Lemma record_step_volume w m t0 x y : volume_inv w m t0 x -> record_step x y -> volume_inv w m t0 y.
Proof.
  intros (Hi & Hc & Hv) Hs. split; [by eapply record_step_inv|]. destruct Hs as [a t ds d now ko co create Ht _ _]. cbn [fst snd] in *.
  destruct Hi as [Hw (Ha & Hwin & Hm) _ _ _ _]. cbn [fst snd] in *.
  destruct (Record_spec a d now ko co create Hw Ha Hc) as (_ & _ & C & _ & _ & M). split; [done|].
  pose proof (M _ _ _ (span_measure a d now)) as Hg. rewrite Hwin in Hg.
  assert (held (fun _ => w) (span now) a <= held (fun _ => w) (span t) a + (m + 16) * (now - t)); [|lia].
  unfold held, weight. pose proof (msum_shift (span now) (span t) (ag_buckets a) (now - t) ltac:(intros; unfold span; lia)).
  pose proof (msum_shift (span now) (span t) (ag_overflow a) (now - t) ltac:(intros; unfold span; lia)).
  pose proof (wf_size a Hw). pose proof (size_classes (ag_overflow a)). nia.
Qed.

(** No refusal is lost or charged to the wrong peer.  After any run of records,
    flushes and closings, the packets of each class recorded while the
    aggregator was open are exactly those counted in the live buckets and in
    the audit rows written; no peer's rows count more packets than were
    recorded for that peer; every row counts at least one; what is held never
    exceeds [maxKeys] buckets and one per class; and a closed aggregator holds
    nothing. *)
Theorem denials_accounted window maxKeys t0 a t ds :
  rtc agg_step (newDenialAggregator true window maxKeys, t0, []) (a, t, ds) ->
  (forall c, msum (class_count c) (ag_buckets a) + msum (class_count c) (ag_overflow a) + zsum (class_written c) (ag_writes a) =
     tally (fun d => dn_Class d = c) ds) /\
  (forall p, p <> [] -> zsum (peer_written p) (ag_writes a) <= tally (fun d => dn_PeerID d = p) ds) /\
  Forall (fun e => 1 <= dd_count (en_details e)) (ag_writes a) /\
  pending a <= ag_maxKeys a + 16 /\
  (ag_closed a = true -> pending a = 0).
Proof.
  intros Hr. apply (rtc_preserve _ _ _ _ (fun x y => agg_step_inv _ _ x y) (new_inv window maxKeys t0)) in Hr.
  destruct Hr as [Hw _ Hc Hcl Hp Hrow]. cbn [fst snd] in *. split_and!.
  - exact Hcl.
  - intros p Hne. specialize (Hp p Hne). unfold held, weight in Hp.
    assert (forall b, bucket_fresh b -> 0 <= peer_count p b) as Hnn by (intros b; unfold peer_count, bucket_fresh; case_decide; lia).
    pose proof (msum_nonneg (peer_count p) (ag_buckets a) (fun k b Hb => Hnn b (proj2 (wf_key a Hw k b Hb)))).
    pose proof (msum_nonneg (peer_count p) (ag_overflow a) (fun k b Hb => Hnn b (proj2 (wf_over a Hw k b Hb)))). lia.
  - apply Forall_forall. intros e He. apply Z.nlt_ge. intros Hlt. unfold held, weight in Hrow.
    pose proof (msum_nonneg (fun _ => 0) (ag_buckets a) ltac:(done)). pose proof (msum_nonneg (fun _ => 0) (ag_overflow a) ltac:(done)).
    pose proof (zsum_elem_le empty_row (ag_writes a) e ltac:(intros; unfold empty_row, one_if; case_decide; lia) He) as Hle.
    unfold empty_row at 1, one_if in Hle. rewrite decide_True in Hle by done. lia.
  - unfold pending. pose proof (wf_size a Hw). pose proof (size_classes (ag_overflow a)). lia.
  - exact Hc.
Qed.

(** A scan cannot flood the audit log.  While packets are only recorded, the
    rows written up to a time [t] are at most [maxKeys + 16] per window elapsed
    since the start, however many packets were refused, from however many
    sources to however many destinations. *)
Theorem audit_volume_bounded window maxKeys t0 a t ds :
  rtc record_step (newDenialAggregator true window maxKeys, t0, []) (a, t, ds) ->
  0 < ag_window a /\ ag_window a * Z.of_nat (length (ag_writes a)) <= (ag_maxKeys a + 16) * (t - t0).
Proof.
  set (a0 := newDenialAggregator true window maxKeys). intros Hr.
  apply (rtc_preserve _ (volume_inv (ag_window a0) (ag_maxKeys a0) t0) _ _ (fun x y => record_step_volume _ _ _ x y)) in Hr.
  2: { split; [apply new_inv|]. split; [done|]. unfold held, weight. cbn. rewrite !msum_empty, zsum_nil. lia. }
  destruct Hr as ([Hw (_ & Ew & Em) _ _ _ _] & _ & Hv). cbn [fst snd] in *. rewrite Ew, Em. split; [rewrite <- Ew; apply (wf_config a Hw)|].
  unfold held, weight in Hv. pose proof (msum_nonneg (span t) (ag_buckets a) ltac:(intros; unfold span; lia)).
  pose proof (msum_nonneg (span t) (ag_overflow a) ltac:(intros; unfold span; lia)).
  assert (zsum (fun _ => ag_window a0) (ag_writes a) = ag_window a0 * Z.of_nat (length (ag_writes a))); [|lia].
  clear. induction (ag_writes a) as [|e l IH]; [rewrite zsum_nil; cbn; lia|]. rewrite zsum_cons, IH. cbn [length]. lia.
Qed.

(** ** Examples *)

Definition sample_denial (peer : bytes) : vpnDenial :=
  mkDenial peer ClassTargetDenied #"no" #"tcp" (be_put 4 167837962) 443.
Definition sample_aggregator : denialAggregator := newDenialAggregator true 10 1.
Definition sample_key : denialKey := mkDenialKey #"p1" ClassTargetDenied #"10.1.1.0/24" #"tcp".
Definition sample_first : denialAggregator := Record_ sample_aggregator (sample_denial #"p1") 0 [] [] (fun _ => true).
Definition sample_held : denialAggregator := Record_ sample_first (sample_denial #"p2") 5 [sample_key] [] (fun _ => true).

Lemma sample_held_reachable :
  rtc record_step (sample_aggregator, 0, []) (sample_held, 5, [sample_denial #"p1"; sample_denial #"p2"]).
Proof.
  apply rtc_l with (sample_first, 0, [sample_denial #"p1"]).
  - exact (agg_record sample_aggregator 0 [] (sample_denial #"p1") 0 [] [] (fun _ => true) ltac:(done) ltac:(done) ltac:(done)).
  - apply rtc_once. refine (agg_record sample_first 0 [sample_denial #"p1"] (sample_denial #"p2") 5 [sample_key] [] (fun _ => true) _ _ _);
      [done|by vm_compute..].
Qed.

Lemma denials_accounted_witness :
  tally (fun d => dn_Class d = ClassTargetDenied) [sample_denial #"p1"; sample_denial #"p2"] = 2 /\
  zsum (class_written ClassTargetDenied) (ag_writes (Flush sample_held [sample_key] [ClassTargetDenied] (fun _ => true))) = 2.
Proof.
  split; [done|].
  assert (rtc agg_step (newDenialAggregator true 10 1, 0, [])
    (Flush sample_held [sample_key] [ClassTargetDenied] (fun _ => true), 5, [sample_denial #"p1"; sample_denial #"p2"])) as Hr.
  { eapply rtc_r; [|apply agg_flush; by vm_compute]. eapply rtc_subrel; [|exact sample_held_reachable]. intros x y. apply agg_one. }
  pose proof (denials_accounted 10 1 0 _ _ _ Hr) as [Hc _]. specialize (Hc ClassTargetDenied). vm_compute in Hc. by vm_compute.
Defined.

Lemma audit_volume_bounded_witness :
  0 < ag_window sample_held /\ ag_window sample_held * Z.of_nat (length (ag_writes sample_held)) <= (ag_maxKeys sample_held + 16) * (5 - 0).
Proof. exact (audit_volume_bounded 10 1 0 _ _ _ sample_held_reachable). Defined.
