(* ===== verification/VpnPeers.v ===== *)
(** * The peer table of the VPN gateway

    internal/server/vpn_peers.go: the rows the gateway has loaded, indexed by
    identifier and by tunnel address, with the policy each was compiled to.  The
    hooks the table fires are returned as events, in order. *)

From stdpp Require Import base list gmap sets strings relations.
From Stdlib Require Import Ascii.
From S2P Require Import Prelude GoStrings GoNet GoCrypto Routing VpnPool VpnPolicy.
Local Open Scope Z_scope.

(** ** Rows and entries *)

Definition VPNPeerStatusActive : bytes := #"active".
Definition MinTunnelMTU : Z := 576.

(** The columns of a stored peer the gateway reads. *)
Record VPNPeer := mkRow {
  row_ID : bytes;
  row_Name : bytes;
  row_Description : bytes;
  row_PublicKey : bytes;
  row_VPNIP : bytes;
  row_NodeID : bytes;
  row_AgentID : bytes;
  row_AllowedIPs : bytes;
  row_AllowedPorts : bytes;
  row_AllowPrivateTargets : bool;
  row_ICMPEnabled : bool;
  row_MaxConcurrentFlows : Z;
  row_PacketRateLimit : Z;
  row_ExpiresAt : option Z;
  row_Status : bytes;
}.

Record vpnPeerEntry := mkEntry {
  e_PeerID : bytes;
  e_PublicKey : bytes;
  e_VPNIP : bytes;
  e_NodeID : bytes;
  e_AgentID : bytes;
  e_Status : bytes;
  e_Policy : PacketPolicy;
  e_PeerLimit : Z;
  e_RateLimit : Z;
  e_ICMPEnabled : bool;
  e_ExpiresAt : option Z;
}.

(** The zero [PacketPolicy]. *)
Definition zero_policy : PacketPolicy := mkPacketPolicy [] [] false false 0.

Definition zero_entry : vpnPeerEntry := mkEntry [] [] [] [] [] [] zero_policy 0 0 false None.

(** [None]: a packet of the peer may be served. *)
Definition usable (e : vpnPeerEntry) (now : Z) : option ErrorClass :=
  if negb (seq_eqb (e_Status e) VPNPeerStatusActive) then Some ClassPeerRevoked
  else match e_ExpiresAt e with
  | Some x => if x <=? now then Some ClassPeerExpired else None
  | None => None
  end.

Inductive row_err := errVPNPeerRowUnusable | errVPNPeerTableClosed.

Section rows.
Context `{GoUnicode}.

Definition unusable {A B} (r : result A B) : result A row_err :=
  match r with Ok a => Ok a | Err _ => Err errVPNPeerRowUnusable end.

(** [netip.ParseAddr] followed by [Is4]. *)
Definition parse_ipv4 (s : bytes) : result bytes row_err :=
  match ParseAddr (TrimSpace s) with
  | Some a => if bool_decide (length a = 4%nat) then Ok a else Err errVPNPeerRowUnusable
  | None => Err errVPNPeerRowUnusable
  end.

Definition vpnPeerSpecFromRow (row : VPNPeer) : result PeerSpec row_err :=
  if bool_decide (TrimSpace (row_ID row) = []) then Err errVPNPeerRowUnusable
  else
    let! _ := unusable (ValidatePublicKey (row_PublicKey row)) in
    if bool_decide (TrimSpace (row_VPNIP row) = []) then Err errVPNPeerRowUnusable
    else
      let! networks := unusable (ParseAllowedIPs (row_AllowedIPs row)) in
      if bool_decide (networks = []) then Err errVPNPeerRowUnusable
      else
        let! ports := unusable (ParseAllowedPorts (row_AllowedPorts row)) in
        let! address := parse_ipv4 (row_VPNIP row) in
        let spec := mkPeer (row_Name row) (row_Description row) (row_PublicKey row) address (row_NodeID row)
          (row_AgentID row) (Some <$> networks) ports (row_AllowPrivateTargets row) (row_ICMPEnabled row)
          (row_MaxConcurrentFlows row) (row_PacketRateLimit row) (row_ExpiresAt row) in
        let! _ := unusable (ValidateFields spec) in
        Ok spec.

(** ** The peer table *)

Record vpnPeerTable := mkPeers {
  pt_mtu : Z;
  pt_nodeID : bytes;
  pt_peers : gmap bytes vpnPeerEntry;
  pt_byIP : gmap bytes bytes;
  pt_closed : bool;
}.

(** What the hooks are called with, in order. *)
Inductive peer_event :=
| onApply (e : vpnPeerEntry)
| onRemove (e : vpnPeerEntry)
| onReplacePublicKey (oldKey newKey : bytes) (e : vpnPeerEntry).

Definition newVPNPeerTable (mtu : Z) (nodeID : bytes) : vpnPeerTable :=
  mkPeers (if mtu <=? 0 then MinTunnelMTU else mtu) nodeID ∅ ∅ false.

Definition entry_of (row : VPNPeer) (address : bytes) (policy : PacketPolicy) : vpnPeerEntry :=
  mkEntry (row_ID row) (row_PublicKey row) address (row_NodeID row) (row_AgentID row) (row_Status row) policy
    (row_MaxConcurrentFlows row) (row_PacketRateLimit row) (row_ICMPEnabled row) (row_ExpiresAt row).

(** The entry a row becomes.  [now] is the table's clock, [clock] the wall clock
    [NewPacketPolicy] reads. *)
Definition build_entry (t : vpnPeerTable) (row : VPNPeer) (now clock : Z) : result vpnPeerEntry row_err :=
  let! spec := vpnPeerSpecFromRow row in
  let! address := parse_ipv4 (row_VPNIP row) in
  match usable (entry_of row address zero_policy) now with
  | None =>
      let! policy := unusable (NewPacketPolicy spec (pt_mtu t) clock) in
      Ok (entry_of row address policy)
  | Some _ => Ok (entry_of row address zero_policy)
  end.

(** The two indexes after the entry is stored, and the entry it displaced. *)
Definition store_entry (t : vpnPeerTable) (e : vpnPeerEntry) : vpnPeerTable * option vpnPeerEntry :=
  let id := e_PeerID e in
  let address := e_VPNIP e in
  let previous := pt_peers t !! id in
  let holder := pt_byIP t !! address in
  let '(peers, displaced) :=
    match holder with
    | Some h => if bool_decide (h = id) then (pt_peers t, None) else (delete h (pt_peers t), pt_peers t !! h)
    | None => (pt_peers t, None)
    end in
  let byIP :=
    match previous with
    | Some p =>
        if negb (seq_eqb (e_VPNIP p) address) && bool_decide (pt_byIP t !! e_VPNIP p = Some id)
        then delete (e_VPNIP p) (pt_byIP t) else pt_byIP t
    | None => pt_byIP t
    end in
  (mkPeers (pt_mtu t) (pt_nodeID t) (<[id := e]> peers) (<[address := id]> byIP) (pt_closed t), displaced).

(** [later] is the clock of the second [usable] check. *)
Definition table_ApplyPeer (t : vpnPeerTable) (row : VPNPeer) (now clock later : Z) :
  vpnPeerTable * list peer_event * result unit row_err :=
  if pt_closed t then (t, [], Err errVPNPeerTableClosed)
  else if negb (bool_decide (pt_nodeID t = [])) && negb (seq_eqb (row_NodeID row) (pt_nodeID t))
  then (t, [], Err errVPNPeerRowUnusable)
  else match build_entry t row now clock with
  | Err err => (t, [], Err err)
  | Ok e =>
      let '(u, displaced) := store_entry t e in
      let replacedKey :=
        match pt_peers t !! row_ID row with
        | Some p => if seq_eqb (e_PublicKey p) (e_PublicKey e) then [] else e_PublicKey p
        | None => []
        end in
      (u, match displaced with Some d => [onRemove d] | None => [] end ++
          match replacedKey with [] => [] | k => [onReplacePublicKey k (e_PublicKey e) e] end ++
          match usable e later with Some _ => [onRemove e] | None => [onApply e] end, Ok tt)
  end.

Definition table_RemovePeer (t : vpnPeerTable) (peerID : bytes) : vpnPeerTable * list peer_event :=
  match pt_peers t !! peerID with
  | None => (t, [])
  | Some e =>
      let byIP := if bool_decide (pt_byIP t !! e_VPNIP e = Some peerID) then delete (e_VPNIP e) (pt_byIP t) else pt_byIP t in
      (mkPeers (pt_mtu t) (pt_nodeID t) (delete peerID (pt_peers t)) byIP (pt_closed t), [onRemove e])
  end.

(** The entry, and the class that refuses it. *)
Definition lookupByIP (t : vpnPeerTable) (address : bytes) (now : Z) : vpnPeerEntry * option ErrorClass :=
  if pt_closed t then (zero_entry, Some ClassPeerUnknown)
  else match pt_byIP t !! address with
  | None => (zero_entry, Some ClassPeerUnknown)
  | Some id => let e := default zero_entry (pt_peers t !! id) in (e, usable e now)
  end.

Definition peers_close (t : vpnPeerTable) : vpnPeerTable := mkPeers (pt_mtu t) (pt_nodeID t) ∅ ∅ true.

End rows.


(** ** The table over time *)

Section table.
Context `{GoUnicode}.

(** Management writes in the order the writer lock gives them, the clock not
    running backwards: the state carries the time of the last write. *)
Inductive table_step : vpnPeerTable * Z -> vpnPeerTable * Z -> Prop :=
| step_apply t last row now clock later :
    last <= now -> now <= later ->
    table_step (t, last) ((table_ApplyPeer t row now clock later).1.1, later)
| step_peer_remove t last peerID :
    table_step (t, last) ((table_RemovePeer t peerID).1, last)
| step_peers_close t last : table_step (t, last) (peers_close t, last).

(** An entry that may be served at [last] or later came from a valid row. *)
Definition entry_sound (mtu last : Z) (e : vpnPeerEntry) : Prop :=
  (exists now, now <= last /\ usable e now <> None) \/
  exists row spec clock, vpnPeerSpecFromRow row = Ok spec /\ NewPacketPolicy spec mtu clock = Ok (e_Policy e) /\
    row_ID row = e_PeerID e /\ row_Status row = e_Status e /\ row_ExpiresAt row = e_ExpiresAt e /\
    pe_VPNIP spec = e_VPNIP e.

Record table_inv (t : vpnPeerTable) (last : Z) : Prop := {
  ti_index : forall ip id, pt_byIP t !! ip = Some id <-> exists e, pt_peers t !! id = Some e /\ e_VPNIP e = ip;
  ti_id : forall id e, pt_peers t !! id = Some e -> e_PeerID e = id;
  ti_sound : forall id e, pt_peers t !! id = Some e -> entry_sound (pt_mtu t) last e;
}.

(** *** The two indexes *)

Lemma store_entry_peers t last e x e' : table_inv t last ->
  pt_peers (store_entry t e).1 !! x = Some e' <->
  x = e_PeerID e /\ e' = e \/ x <> e_PeerID e /\ pt_peers t !! x = Some e' /\ e_VPNIP e' <> e_VPNIP e.
Proof.
  intros [Hix _ _]. unfold store_entry. destruct (pt_byIP t !! e_VPNIP e) as [h|] eqn:Eh.
  - apply Hix in Eh as Hh. destruct Hh as (eh & Hh & Hip). case_bool_decide as Ehid; cbn [fst pt_peers].
    + subst h. rewrite lookup_insert_Some. split; [|naive_solver]. intros [[<- <-]|[Hne Hx]]; [by left|right].
      split_and!; [done..|]. intros E. assert (pt_byIP t !! e_VPNIP e = Some x) as Ex by (apply Hix; eauto). congruence.
    + rewrite lookup_insert_Some, lookup_delete_Some. split.
      * intros [[<- <-]|[Hne [Hhx Hx]]]; [by left|right]. split_and!; [done..|]. intros E.
        assert (pt_byIP t !! e_VPNIP e = Some x) as Ex by (apply Hix; eauto). congruence.
      * intros [[-> ->]|(Hne & Hx & E)]; [by left|right]. split_and!; [done| |done]. intros <-. congruence.
  - cbn [fst pt_peers]. rewrite lookup_insert_Some. split; [|naive_solver]. intros [[<- <-]|[Hne Hx]]; [by left|right].
    split_and!; [done..|]. intros E. assert (pt_byIP t !! e_VPNIP e = Some x) as Ex by (apply Hix; eauto). congruence.
Qed.

Lemma store_entry_byIP t last e ip x : table_inv t last ->
  pt_byIP (store_entry t e).1 !! ip = Some x <->
  ip = e_VPNIP e /\ x = e_PeerID e \/ ip <> e_VPNIP e /\ pt_byIP t !! ip = Some x /\ x <> e_PeerID e.
Proof.
  intros [Hix _ _].
  set (byIP := match pt_peers t !! e_PeerID e with
    | Some p => if negb (seq_eqb (e_VPNIP p) (e_VPNIP e)) && bool_decide (pt_byIP t !! e_VPNIP p = Some (e_PeerID e))
                then delete (e_VPNIP p) (pt_byIP t) else pt_byIP t
    | None => pt_byIP t end).
  assert (pt_byIP (store_entry t e).1 = <[e_VPNIP e := e_PeerID e]> byIP) as ->.
  { unfold store_entry. destruct (pt_byIP t !! e_VPNIP e) as [h|]; [|done]. by case_bool_decide. }
  assert (ip <> e_VPNIP e -> byIP !! ip = Some x <-> pt_byIP t !! ip = Some x /\ x <> e_PeerID e) as Hb.
  { intros Hne. unfold byIP. destruct (pt_peers t !! e_PeerID e) as [p|] eqn:Ep.
    - assert (pt_byIP t !! e_VPNIP p = Some (e_PeerID e)) as Hp by (apply Hix; eauto).
      assert (forall i, pt_byIP t !! i = Some (e_PeerID e) -> i = e_VPNIP p) as Hu.
      { intros i (p' & Hp' & <-)%Hix. congruence. }
      rewrite (bool_decide_eq_true_2 _ Hp), andb_true_r. destruct (seq_eqb (e_VPNIP p) (e_VPNIP e)) eqn:E; cbn [negb].
      + apply seq_eqb_eq in E. split; [|naive_solver]. intros Hx. split; [done|]. intros ->. apply Hu in Hx. congruence.
      + rewrite lookup_delete_Some. split; [|intros [Hx Hxe]; split; [|done]; intros <-; congruence].
        intros [Hpi Hx]. split; [done|]. intros ->. by apply Hu in Hx.
    - split; [|naive_solver]. intros Hx. split; [done|]. intros ->. apply Hix in Hx as (e' & He' & _). congruence. }
  rewrite lookup_insert_Some. split.
  - intros [[<- <-]|[Hne Hx]]; [by left|right]. split; [done|]. apply Hb; done.
  - intros [[-> ->]|(Hne & Hx)]; [by left|right]. split; [done|]. by apply Hb.
Qed.

Lemma store_entry_inv t last last' e : table_inv t last -> last <= last' -> entry_sound (pt_mtu t) last' e ->
  table_inv (store_entry t e).1 last'.
Proof.
  intros Hi Hle He. pose proof Hi as [Hix Hid Hso].
  assert (pt_mtu (store_entry t e).1 = pt_mtu t) as Em.
  { unfold store_entry. destruct (pt_byIP t !! e_VPNIP e) as [h|]; [|done]. by case_bool_decide. }
  split.
  - intros ip id. rewrite (store_entry_byIP _ _ _ _ _ Hi). setoid_rewrite (store_entry_peers _ _ _ _ _ Hi).
    rewrite Hix. split.
    + intros [[-> ->]|(Hne & (e' & He' & <-) & Hidn)]; [by exists e; auto|]. exists e'. split; [by right|done].
    + intros (e' & [[-> ->]|(Hn & Hp & Hip)] & <-); [by left|right]. split_and!; [done| |done]. by exists e'.
  - intros id e'. rewrite (store_entry_peers _ _ _ _ _ Hi). intros [[-> ->]|(_ & Hp & _)]; [done|by apply Hid].
  - intros id e'. rewrite (store_entry_peers _ _ _ _ _ Hi), Em. intros [[-> ->]|(_ & Hp & _)]; [done|].
    destruct (Hso _ _ Hp) as [(now & Hn & Hu)|Hs]; [left; exists now; split; [lia|done]|by right].
Qed.

Lemma spec_address row spec : vpnPeerSpecFromRow row = Ok spec -> parse_ipv4 (row_VPNIP row) = Ok (pe_VPNIP spec).
Proof.
  unfold vpnPeerSpecFromRow. case_goal; [done|]. destruct (unusable (ValidatePublicKey _)); [|done]. cbn [rbind].
  case_goal; [done|]. destruct (unusable (ParseAllowedIPs _)); [|done]. cbn [rbind]. case_goal; [done|].
  destruct (unusable (ParseAllowedPorts _)); [|done]. cbn [rbind]. destruct (parse_ipv4 _); [|done]. cbn [rbind].
  destruct (unusable (ValidateFields _)); [|done]. cbn [rbind]. by intros <-%Ok_inj.
Qed.

Lemma build_entry_sound t row now clock later e : build_entry t row now clock = Ok e -> now <= later ->
  entry_sound (pt_mtu t) later e /\ e_PeerID e = row_ID row /\ e_Status e = row_Status row /\ e_ExpiresAt e = row_ExpiresAt row.
Proof.
  unfold build_entry. destruct (vpnPeerSpecFromRow row) as [spec|] eqn:Es; [|done]. cbn [rbind].
  destruct (parse_ipv4 (row_VPNIP row)) as [ad|] eqn:Ea; [|done]. cbn [rbind].
  destruct (usable (entry_of row ad zero_policy) now) as [c|] eqn:Eu.
  - intros <-%Ok_inj Hle. split; [left; exists now; split; [done|congruence]|done].
  - destruct (NewPacketPolicy spec (pt_mtu t) clock) as [pol|] eqn:Ep; [|done]. cbn [unusable rbind].
    intros <-%Ok_inj Hle. split; [right; exists row, spec, clock|done]. split_and!; try done. cbn.
    apply spec_address in Es. rewrite Ea in Es. by apply Ok_inj in Es.
Qed.

Lemma build_entry_key t row now clock e : build_entry t row now clock = Ok e -> e_PublicKey e = row_PublicKey row.
Proof.
  unfold build_entry. destruct (vpnPeerSpecFromRow row); [|done]. cbn [rbind]. destruct (parse_ipv4 _); [|done]. cbn [rbind].
  destruct (usable _ _); [by intros <-%Ok_inj|]. destruct (unusable _); [|done]. cbn [rbind]. by intros <-%Ok_inj.
Qed.

Lemma store_entry_closed t e : pt_closed (store_entry t e).1 = pt_closed t.
Proof. unfold store_entry. destruct (pt_byIP t !! e_VPNIP e) as [h|]; [|done]. by case_bool_decide. Qed.

Lemma table_step_inv s s' : table_step s s' -> table_inv s.1 s.2 -> table_inv s'.1 s'.2.
Proof.
  intros Hs Hi. destruct Hs as [t last row now clock later Hn Hl|t last id|t last]; cbn [fst snd] in *.
  - assert (table_inv t later) as Hkeep.
    { destruct Hi as [H1 H2 H3]. split; [done..|]. intros id e He.
      destruct (H3 _ _ He) as [(x & Hx & Hu)|?]; [left; exists x; split; [lia|done]|by right]. }
    unfold table_ApplyPeer. destruct (pt_closed t); [done|]. case_goal; [done|].
    destruct (build_entry t row now clock) as [e|] eqn:Eb; [|done].
    pose proof (store_entry_inv t later later e Hkeep) as Hs. destruct (store_entry t e) as [u d]. cbn [fst] in *.
    apply Hs; [lia|]. by eapply build_entry_sound.
  - unfold table_RemovePeer. destruct (pt_peers t !! id) as [e|] eqn:Ee; [|done]. pose proof Hi as [Hix Hid Hso].
    assert (pt_byIP t !! e_VPNIP e = Some id) as Hb by (apply Hix; eauto).
    rewrite (bool_decide_eq_true_2 _ Hb). split; cbn [fst pt_peers pt_byIP pt_mtu].
    + intros ip id'. rewrite lookup_delete_Some, Hix. setoid_rewrite lookup_delete_Some. split.
      * intros [Hne (e' & He' & <-)]. exists e'. split; [split; [|done]|done]. intros <-. congruence.
      * intros (e' & [Hne He'] & <-). split; [|by exists e']. intros E.
        assert (pt_byIP t !! e_VPNIP e = Some id') as Hb' by (rewrite E; apply Hix; eauto). congruence.
    + intros id' e'. rewrite lookup_delete_Some. intros [_ He']. by apply Hid.
    + intros id' e'. rewrite lookup_delete_Some. intros [_ He']. by eapply Hso.
  - split; cbn.
    + intros ip id. rewrite lookup_empty. split; [done|]. intros (e & He & _). by rewrite lookup_empty in He.
    + intros id e. by rewrite lookup_empty.
    + intros id e. by rewrite lookup_empty.
Qed.

Lemma table_reachable_inv mtu nodeID start t last :
  rtc table_step (newVPNPeerTable mtu nodeID, start) (t, last) -> table_inv t last.
Proof.
  intros Hr. change (table_inv (t, last).1 (t, last).2). revert Hr. generalize (t, last). clear t last.
  apply rtc_ind_r.
  - split; cbn.
    + intros ip id. rewrite lookup_empty. split; [done|]. intros (e & He & _). by rewrite lookup_empty in He.
    + intros id e. by rewrite lookup_empty.
    + intros id e. by rewrite lookup_empty.
  - intros y z _ Hs. by apply table_step_inv.
Qed.

(** Time only makes an entry unusable. *)
Lemma usable_mono e now later : now <= later -> usable e later = None -> usable e now = None.
Proof.
  unfold usable. intros Hle. case_goal; [done|]. destruct (e_ExpiresAt e) as [x|]; [|done].
  destruct (x <=? later) eqn:E1; [done|]. destruct (x <=? now) eqn:E2; [split_bools; lia|done].
Qed.

(** What a positive lookup is. *)
Lemma lookupByIP_entry t last now ip e : table_inv t last -> lookupByIP t ip now = (e, None) ->
  pt_peers t !! e_PeerID e = Some e /\ e_VPNIP e = ip /\ usable e now = None /\
  e_Status e = VPNPeerStatusActive /\ (forall x, e_ExpiresAt e = Some x -> now < x).
Proof.
  intros [Hix Hid _]. unfold lookupByIP. destruct (pt_closed t); [done|].
  destruct (pt_byIP t !! ip) as [pid|] eqn:Eb; [|done]. apply Hix in Eb as (e0 & He0 & Hip).
  rewrite He0. cbn [default from_option]. intros [= -> Hu]. pose proof (Hid _ _ He0) as <-. split_and!; try done.
  - unfold usable in Hu. destruct (seq_eqb _ _) eqn:E; [|done]. by apply seq_eqb_eq in E.
  - intros x Ex. unfold usable in Hu. destruct (negb _); [done|]. rewrite Ex in Hu. destruct (x <=? now) eqn:E; [done|]. lia.
Qed.

Lemma served_policy t last now e : table_inv t last -> last <= now ->
  pt_peers t !! e_PeerID e = Some e -> usable e now = None ->
  exists row spec clock, vpnPeerSpecFromRow row = Ok spec /\ NewPacketPolicy spec (pt_mtu t) clock = Ok (e_Policy e) /\
    row_ID row = e_PeerID e /\ pe_VPNIP spec = e_VPNIP e.
Proof.
  intros [_ _ Hso] Hle He Hu. destruct (Hso _ _ He) as [(n & Hn & Hnu)|(row & spec & clock & ? & ? & ? & ? & ? & ?)].
  - destruct Hnu. apply (usable_mono e n now); [lia|done].
  - by exists row, spec, clock.
Qed.

(** The tables management writes can produce. *)
Definition table_reachable (mtu : Z) (nodeID : bytes) (t : vpnPeerTable) (last : Z) : Prop :=
  exists start, rtc table_step (newVPNPeerTable mtu nodeID, start) (t, last).

(** The hooks an accepted write of an inactive row fires. *)
Lemma apply_inactive_events t last row now clock later u events : table_inv t last ->
  row_Status row <> VPNPeerStatusActive -> table_ApplyPeer t row now clock later = (u, events, Ok tt) ->
  exists evs e, events = evs ++ [onRemove e] /\ e_PeerID e = row_ID row /\ e_PublicKey e = row_PublicKey row /\
    pt_peers u !! row_ID row = Some e /\ e_Status e = row_Status row /\
    forall d, onRemove d ∈ evs -> e_PeerID d <> row_ID row.
Proof.
  intros Ht Hst. unfold table_ApplyPeer. destruct (pt_closed t); [done|]. case_goal; [done|].
  destruct (build_entry t row now clock) as [e|] eqn:Eb; [|done].
  destruct (build_entry_sound t row now clock now e Eb ltac:(lia)) as (_ & Eid & Est & _).
  pose proof (build_entry_key _ _ _ _ _ Eb) as Ek.
  assert (pt_peers (store_entry t e).1 !! row_ID row = Some e) as Hpe by (apply (store_entry_peers _ _ _ _ _ Ht); auto).
  assert (forall d, (store_entry t e).2 = Some d -> e_PeerID d <> row_ID row) as Hd.
  { intros d. unfold store_entry. destruct (pt_byIP t !! e_VPNIP e) as [h|]; [|done].
    destruct (bool_decide (h = e_PeerID e)) eqn:Eh; [done|]. apply bool_decide_eq_false in Eh. cbn [snd]. intros Hh. rewrite (ti_id _ _ Ht _ _ Hh). congruence. }
  destruct (store_entry t e) as [w d]. cbn [fst snd] in *.
  assert (usable e later = Some ClassPeerRevoked) as ->.
  { unfold usable. destruct (seq_eqb (e_Status e) VPNPeerStatusActive) eqn:E; [|done]. apply seq_eqb_eq in E. congruence. }
  intros [= <- <-]. rewrite (assoc_L (++)). eexists _, e. split; [done|]. split_and!; try done.
  intros d'. rewrite elem_of_app. intros [Hin|Hin].
  - destruct d as [d|]; [|by apply not_elem_of_nil in Hin]. apply list_elem_of_singleton in Hin. injection Hin as ->. by apply Hd.
  - exfalso. set (old := match pt_peers t !! row_ID row with Some _ => _ | None => _ end) in Hin. clearbody old.
    destruct old; [by apply not_elem_of_nil in Hin|by apply list_elem_of_singleton in Hin].
Qed.

(** Writes of other rows and removals never bring a peer back. *)
Lemma ApplyPeer_other t last row now clock later id e : table_inv t last -> row_ID row <> id ->
  pt_peers (table_ApplyPeer t row now clock later).1.1 !! id = Some e -> pt_peers t !! id = Some e.
Proof.
  intros Ht Hne. unfold table_ApplyPeer. destruct (pt_closed t); [done|]. case_goal; [done|].
  destruct (build_entry t row now clock) as [x|] eqn:Eb; [|done].
  destruct (build_entry_sound t row now clock now x Eb ltac:(lia)) as (_ & Eid & _).
  pose proof (store_entry_peers t last x id e Ht) as Hp. destruct (store_entry t x) as [w d]. cbn [fst] in *. intros He.
  apply Hp in He as [[-> _]|(_ & He & _)]; [congruence|done].
Qed.

Lemma RemovePeer_sub t peerID id e : pt_peers (table_RemovePeer t peerID).1 !! id = Some e -> pt_peers t !! id = Some e.
Proof. unfold table_RemovePeer. destruct (pt_peers t !! peerID); [|done]. cbn. by intros [_ He]%lookup_delete_Some. Qed.

(** C34. The two indexes of the peer table never disagree: after any sequence of
    writes, an address resolves to a peer exactly when that peer holds it, so no
    address has two peers and no displaced peer is left behind; and a row that
    was accepted is the one its address resolves to afterwards. *)
Theorem peer_indexes_agree mtu nodeID t last :
  table_reachable mtu nodeID t last ->
  (forall ip id, pt_byIP t !! ip = Some id <-> exists e, pt_peers t !! id = Some e /\ e_VPNIP e = ip) /\
  (forall id e, pt_peers t !! id = Some e -> e_PeerID e = id) /\
  (forall row now clock later u events, table_ApplyPeer t row now clock later = (u, events, Ok tt) ->
     exists e, pt_peers u !! row_ID row = Some e /\ pt_byIP u !! e_VPNIP e = Some (row_ID row) /\
       e_PublicKey e = row_PublicKey row /\ lookupByIP u (e_VPNIP e) later = (e, usable e later)).
Proof.
  intros (start & Hr%table_reachable_inv). pose proof Hr as [Hix Hid _]. split_and!; [done..|].
  intros row now clock later u events. unfold table_ApplyPeer. destruct (pt_closed t) eqn:Ec; [done|]. case_goal; [done|].
  destruct (build_entry t row now clock) as [e|] eqn:Eb; [|done].
  destruct (build_entry_sound t row now clock now e Eb ltac:(lia)) as (_ & Eid & _).
  assert (e_PublicKey e = row_PublicKey row) as Ek by by eapply build_entry_key.
  pose proof (store_entry_peers t last e (row_ID row) e Hr) as Hp.
  pose proof (store_entry_byIP t last e (e_VPNIP e) (row_ID row) Hr) as Hb.
  assert (pt_closed (store_entry t e).1 = false) as Hcl by (rewrite store_entry_closed; done).
  destruct (store_entry t e) as [w d]. cbn [fst] in *. intros [= <- _]. exists e.
  assert (pt_peers w !! row_ID row = Some e) as Hpe by (apply Hp; auto).
  assert (pt_byIP w !! e_VPNIP e = Some (row_ID row)) as Hbe by (apply Hb; auto).
  split_and!; try done. unfold lookupByIP. by rewrite Hcl, Hbe, Hpe.
Qed.
End table.

(** ** A sample table *)

Definition sample_row (status : bytes) : VPNPeer :=
  mkRow #"peer-1" #"laptop" [] #"AQEBAQEBAQEBAQEBAQEBAQEBAQEBAQEBAQEBAQEBAQE=" #"100.64.0.2" #"node-1" #"agent-1"
    #"0.0.0.0/0" #"443" false false 0 0 None status.

Definition sample_table : vpnPeerTable :=
  (@table_ApplyPeer ascii_unicode (newVPNPeerTable 1420 #"node-1") (sample_row VPNPeerStatusActive) 5 5 5).1.1.

Lemma sample_table_reachable : @table_reachable ascii_unicode 1420 #"node-1" sample_table 5.
Proof. exists 5. eapply rtc_l; [by apply (step_apply _ 5 (sample_row VPNPeerStatusActive) 5 5 5)|apply rtc_refl]. Qed.

Lemma peer_indexes_agree_witness :
  @table_reachable ascii_unicode 1420 #"node-1" sample_table 5 /\
  pt_byIP sample_table !! be_put 4 (addr4 100 64 0 2) = Some #"peer-1" /\
  forall id e, pt_peers sample_table !! id = Some e -> e_PeerID e = id.
Proof.
  split_and!; [exact sample_table_reachable|by vm_compute|].
  exact (proj1 (proj2 (@peer_indexes_agree ascii_unicode 1420 #"node-1" sample_table 5 sample_table_reachable))).
Defined.

