(* ===== verification/VpnGateway.v ===== *)
(** * The VPN gateway

    The hooks that keep the flow table, the rate buckets and the WireGuard device
    in step with the peer table (internal/server/vpn_gateway.go), and the packet
    pipeline (internal/server/vpn_packet.go) over the parser, the peer table, the
    rate limiter, the packet policy and the denial aggregator.

    The device is a third-party package; the gateway's calls into it are the
    recorded commands.  Calls of the metrics sink are recorded likewise. *)

From stdpp Require Import base list gmap sets strings relations.
From Stdlib Require Import Ascii.
From S2P Require Import Prelude GoStrings GoNet GoCrypto GoFloat Routing VpnPool VpnPolicy VpnWire VpnFlows VpnRate VpnDenials VpnPeers.
Local Open Scope Z_scope.

(** UAPI writes to the WireGuard device. *)
Inductive device_cmd :=
| DeviceInstall (publicKey address : bytes)
| DeviceRemove (publicKey : bytes).

(** [g_rate] is [Config.PacketRatePerPeer], [g_relays] the protocols whose relay
    is installed, [g_dropped] the calls of [metrics.Dropped]. *)
Record vpnGateway := mkGateway {
  g_peers : vpnPeerTable;
  g_flows : vpnFlowTable;
  g_buckets : gmap bytes packetBucket;
  g_rate : Z;
  g_self : bytes;
  g_relays : list Z;
  g_device : list device_cmd;
  g_dropped : list (bytes * ErrorClass);
  g_denials : denialAggregator;
}.

Definition with_peers (g : vpnGateway) (t : vpnPeerTable) : vpnGateway :=
  mkGateway t (g_flows g) (g_buckets g) (g_rate g) (g_self g) (g_relays g) (g_device g) (g_dropped g) (g_denials g).
Definition with_flow_table (g : vpnGateway) (t : vpnFlowTable) : vpnGateway :=
  mkGateway (g_peers g) t (g_buckets g) (g_rate g) (g_self g) (g_relays g) (g_device g) (g_dropped g) (g_denials g).
Definition with_rate_buckets (g : vpnGateway) (b : gmap bytes packetBucket) : vpnGateway :=
  mkGateway (g_peers g) (g_flows g) b (g_rate g) (g_self g) (g_relays g) (g_device g) (g_dropped g) (g_denials g).
Definition with_device (g : vpnGateway) (c : device_cmd) : vpnGateway :=
  mkGateway (g_peers g) (g_flows g) (g_buckets g) (g_rate g) (g_self g) (g_relays g) (g_device g ++ [c]) (g_dropped g) (g_denials g).

(** ** Rate buckets *)

Definition forgetBucket (g : vpnGateway) (peerID : bytes) : vpnGateway := with_rate_buckets g (delete peerID (g_buckets g)).

(** The rate that binds a peer; zero is unlimited. *)
Definition peer_rate (g : vpnGateway) (e : vpnPeerEntry) : Z :=
  if e_RateLimit e <=? 0 then g_rate g else e_RateLimit e.

Definition bucketFor (g : vpnGateway) (e : vpnPeerEntry) (now : Z) : packetBucket :=
  default (newPacketBucket (peer_rate g e) now) (g_buckets g !! e_PeerID e).

(** [bucketFor(entry).Allow()]: peers without a limit share a bucket that always
    admits and is never written. *)
Definition rate_admits (g : vpnGateway) (e : vpnPeerEntry) (now : Z) : bool * vpnGateway :=
  if peer_rate g e <=? 0 then (true, g)
  else
    let '(ok, b) := bucket_Allow (bucketFor g e now) now in
    (ok, with_rate_buckets g (<[e_PeerID e := b]> (g_buckets g))).

(** ** Peer hooks *)

Section hooks.
Context `{GoUnicode}.

(** The iteration order over a peer's flows. *)
Context (order : gset vpnFlowKey -> list vpnFlowKey).

Definition peerApplied (g : vpnGateway) (e : vpnPeerEntry) : vpnGateway :=
  with_device (forgetBucket g (e_PeerID e)) (DeviceInstall (e_PublicKey e) (e_VPNIP e)).

Definition peerKeyReplaced (g : vpnGateway) (oldKey : bytes) : vpnGateway := with_device g (DeviceRemove oldKey).

Definition peerRemoved (g : vpnGateway) (e : vpnPeerEntry) : vpnGateway :=
  let g := with_device (forgetBucket g (e_PeerID e)) (DeviceRemove (e_PublicKey e)) in
  with_flow_table g (closePeer (g_flows g) (e_PeerID e) (order (peer_flows (g_flows g) (e_PeerID e)))).1.

Definition run_event (g : vpnGateway) (ev : peer_event) : vpnGateway :=
  match ev with
  | onApply e => peerApplied g e
  | onRemove e => peerRemoved g e
  | onReplacePublicKey oldKey _ _ => peerKeyReplaced g oldKey
  end.

Definition ApplyPeer (g : vpnGateway) (row : VPNPeer) (now clock later : Z) : vpnGateway * result unit row_err :=
  let '(t, events, r) := table_ApplyPeer (g_peers g) row now clock later in
  (foldl run_event (with_peers g t) events, r).

Definition RemovePeer (g : vpnGateway) (peerID : bytes) : vpnGateway :=
  let '(t, events) := table_RemovePeer (g_peers g) peerID in
  foldl run_event (with_peers g t) events.

(** [loadPeers] after the read succeeded: every row with the clock readings it is
    applied at, and the number of rows refused. *)
Definition loadPeers (g : vpnGateway) (rows : list (VPNPeer * (Z * Z * Z))) : vpnGateway * Z :=
  foldl (fun '(g, refused) '(row, (now, clock, later)) =>
    let '(g, r) := ApplyPeer g row now clock later in
    (g, if is_ok r then refused else refused + 1)) (g, 0) rows.
End hooks.

(** ** Refusals *)

Definition vpnProtocolUnparsed : bytes := #"unknown".
Definition StreamProtocolICMPEcho : bytes := #"icmp-echo".

Definition vpnProtocolLabel (number : Z) : bytes :=
  if number =? ProtocolTCP then #"tcp"
  else if number =? ProtocolUDP then #"udp"
  else if number =? ProtocolICMP then StreamProtocolICMPEcho
  else vpnProtocolUnparsed.

Definition vpnPeerRefusalReason (class : ErrorClass) : bytes :=
  match class with
  | ClassPeerRevoked => #"the peer is disabled or revoked"
  | ClassPeerExpired => #"the peer configuration has expired"
  | _ => #"the source address does not belong to a peer of this gateway"
  end.

Definition wire_err_text (e : wire_err) : bytes :=
  match e with
  | errVPNWireNotIPv4 => #"vpn: the tunnel carries ipv4 only"
  | errVPNWireShortPacket => #"vpn: packet is shorter than the ipv4 header it declares"
  | errVPNWireTruncatedTransport => #"vpn: the transport header is truncated"
  end.

(** What a datagram meets: the clock at the peer lookup, at the rate limiter and
    at the audit window, the orders a sweep of the audit maps takes, and the
    answers of the audit repository. *)
Record packet_env := mkEnv {
  x_now : Z;
  x_tick : Z;
  x_later : Z;
  x_keys : list denialKey;
  x_classes : list ErrorClass;
  x_create : denialEntry -> bool;
}.

(** What becomes of a datagram: refused and recorded, or handed to a relay. *)
Inductive verdict :=
| Refused (d : vpnDenial)
| Dispatched (protocol : Z) (e : vpnPeerEntry) (p : vpnWirePacket).

(** [metrics.Dropped] and [denials.Record]. *)
Definition refuse (g : vpnGateway) (x : packet_env) (label : bytes) (d : vpnDenial) : vpnGateway * verdict :=
  (mkGateway (g_peers g) (g_flows g) (g_buckets g) (g_rate g) (g_self g) (g_relays g) (g_device g)
     (g_dropped g ++ [(label, dn_Class d)])
     (Record_ (g_denials g) d (x_later x) (x_keys x) (x_classes x) (x_create x)), Refused d).

Definition denyUnparsed (g : vpnGateway) (x : packet_env) (cause : wire_err) : vpnGateway * verdict :=
  refuse g x vpnProtocolUnparsed
    (mkDenial [] ClassProtocolUnsupported (#"the datagram could not be parsed: " ++ wire_err_text cause) vpnProtocolUnparsed [] 0).

Definition denyPacket (g : vpnGateway) (x : packet_env) (label : bytes) (p : vpnWirePacket) (e : vpnPeerEntry)
    (class : ErrorClass) (reason : bytes) : vpnGateway * verdict :=
  refuse g x label (mkDenial (e_PeerID e) class reason label (w_Dst p) (w_DstPort p)).

Definition denyPolicy (g : vpnGateway) (x : packet_env) (label : bytes) (p : vpnWirePacket) (e : vpnPeerEntry)
    (err : PacketError) : vpnGateway * verdict :=
  denyPacket g x label p e (pe_class err) (pe_reason err).

(** ** The packet pipeline *)

Definition isSelfAddress (g : vpnGateway) (address : bytes) : bool :=
  negb (bool_decide (g_self g = [])) && seq_eqb (g_self g) address.

Definition setSelfAddress (g : vpnGateway) (address : bytes) : vpnGateway :=
  mkGateway (g_peers g) (g_flows g) (g_buckets g) (g_rate g) address (g_relays g) (g_device g) (g_dropped g) (g_denials g).

Definition dispatch (g : vpnGateway) (x : packet_env) (name label : bytes) (p : vpnWirePacket) (e : vpnPeerEntry) :
    vpnGateway * verdict :=
  if negb (bool_decide (w_Protocol p ∈ g_relays g)) then
    denyPacket g x label p e ClassStackError (#"the " ++ name ++ #" relay is not installed in this build")
  else (g, Dispatched (w_Protocol p) e p).

(** The pipeline after the peer is known and within its rate. *)
Definition route_packet (g : vpnGateway) (x : packet_env) (p : vpnWirePacket) (e : vpnPeerEntry) : vpnGateway * verdict :=
  let label := vpnProtocolLabel (w_Protocol p) in
  if isSelfAddress g (w_Dst p) then
    denyPacket g x label p e ClassTargetDenied #"the gateway's own vpn address is not an internal service"
  else match Allow (e_Policy e) (policyPacket p) with
  | Some err => denyPolicy g x label p e err
  | None =>
      if w_Protocol p =? ProtocolTCP then dispatch g x #"tcp" label p e
      else if w_Protocol p =? ProtocolUDP then dispatch g x #"udp" label p e
      else if w_Protocol p =? ProtocolICMP then
        if negb (isICMPEchoRequest p) then
          denyPacket g x label p e ClassProtocolUnsupported
            (#"icmp type " ++ Itoa (w_ICMPType p) ++ #" code " ++ Itoa (w_ICMPCode p) ++ #" is not relayed")
        else dispatch g x #"icmp" label p e
      else denyPacket g x label p e ClassProtocolUnsupported (#"ip protocol " ++ Itoa (w_Protocol p) ++ #" is not forwarded")
  end.

(** [handlePacket]; [None] would be a panic. *)
Definition handlePacket (g : vpnGateway) (packet : bytes) (x : packet_env) : option (vpnGateway * verdict) :=
  match parseVPNWirePacket packet with
  | None => None
  | Some (Err err) => Some (denyUnparsed g x err)
  | Some (Ok p) => Some
      (let label := vpnProtocolLabel (w_Protocol p) in
       let '(e, refused) := lookupByIP (g_peers g) (w_Src p) (x_now x) in
       if w_Fragment p then denyPacket g x label p e ClassFragmentDropped #"fragmented packets are not forwarded"
       else match refused with
       | Some class => denyPacket g x label p e class (vpnPeerRefusalReason class)
       | None =>
           let '(ok, g) := rate_admits g e (x_tick x) in
           if negb ok then denyPacket g x label p e ClassRateLimited #"the peer exceeded its packet rate limit"
           else route_packet g x p e
       end)
  end.

(** [vpnTuple]: the key of the flow a datagram belongs to. *)
Definition vpnTuple (e : vpnPeerEntry) (p : vpnWirePacket) (name : bytes) : vpnFlowKey :=
  mkKey (e_PeerID e) name (w_Src p, w_SrcPort p) (w_Dst p, w_DstPort p).

(** ** What the pipeline changes *)

Definition same_but_records (g g' : vpnGateway) : Prop :=
  g_peers g' = g_peers g /\ g_flows g' = g_flows g /\ g_rate g' = g_rate g /\ g_self g' = g_self g /\
  g_relays g' = g_relays g /\ g_device g' = g_device g.

(** What the records say of a verdict: a refusal is counted once under its label
    and class, and handed once to the aggregator; a dispatch leaves no record. *)
Definition recorded (x : packet_env) (g g' : vpnGateway) (v : verdict) : Prop :=
  match v with
  | Refused d => (exists label, g_dropped g' = g_dropped g ++ [(label, dn_Class d)]) /\
      g_denials g' = Record_ (g_denials g) d (x_later x) (x_keys x) (x_classes x) (x_create x)
  | Dispatched _ _ _ => g_dropped g' = g_dropped g /\ g_denials g' = g_denials g
  end.

Lemma same_refl g : same_but_records g g.
Proof. done. Qed.

Lemma rate_admits_same g e now : same_but_records g (rate_admits g e now).2 /\
  g_dropped (rate_admits g e now).2 = g_dropped g /\ g_denials (rate_admits g e now).2 = g_denials g.
Proof. unfold rate_admits. destruct (_ <=? 0); [done|]. by destruct (bucket_Allow _ _). Qed.

(** The outcome of the pipeline past the rate limiter, and the gates a dispatched
    packet has passed there. *)
Definition routed (g : vpnGateway) (x : packet_env) (p : vpnWirePacket) (e : vpnPeerEntry) (r : vpnGateway * verdict) : Prop :=
  same_but_records g r.1 /\ g_buckets r.1 = g_buckets g /\ recorded x g r.1 r.2 /\
  match r.2 with
  | Refused _ => True
  | Dispatched proto e' p' =>
      e' = e /\ p' = p /\ proto = w_Protocol p /\ proto ∈ g_relays g /\ isSelfAddress g (w_Dst p) = false /\
      Allow (e_Policy e) (policyPacket p) = None /\ (proto = ProtocolICMP -> isICMPEchoRequest p = true)
  end.

Lemma denyPacket_routed g x label p e class reason : routed g x p e (denyPacket g x label p e class reason).
Proof. split; [done|]. split; [done|]. split; [|done]. cbn. split; [by eexists|done]. Qed.

Lemma dispatch_routed g x name label p e : isSelfAddress g (w_Dst p) = false -> Allow (e_Policy e) (policyPacket p) = None ->
  (w_Protocol p = ProtocolICMP -> isICMPEchoRequest p = true) -> routed g x p e (dispatch g x name label p e).
Proof.
  intros Hs Ha Hi. unfold dispatch. destruct (bool_decide (w_Protocol p ∈ g_relays g)) eqn:Er; cbn [negb]; [|apply denyPacket_routed].
  apply bool_decide_eq_true in Er. by split_and!.
Qed.

Lemma route_packet_routed g x p e : routed g x p e (route_packet g x p e).
Proof.
  unfold route_packet, denyPolicy. destruct (isSelfAddress g (w_Dst p)) eqn:Es; [apply denyPacket_routed|].
  destruct (Allow _ _) eqn:Ea; [apply denyPacket_routed|].
  destruct (w_Protocol p =? ProtocolTCP) eqn:Et; [apply dispatch_routed; [done..|intros E; by rewrite E in Et]|].
  destruct (w_Protocol p =? ProtocolUDP) eqn:Eu; [apply dispatch_routed; [done..|intros E; by rewrite E in Eu]|].
  destruct (w_Protocol p =? ProtocolICMP); [|apply denyPacket_routed].
  destruct (isICMPEchoRequest p) eqn:Eq; cbn [negb]; [by apply dispatch_routed|apply denyPacket_routed].
Qed.

(** The state in which a datagram is judged: after the limiter was charged, if the
    datagram reached it. *)
Definition charged (g : vpnGateway) (packet : bytes) (x : packet_env) : vpnGateway :=
  match parseVPNWirePacket packet with
  | Some (Ok p) =>
      if w_Fragment p then g
      else match lookupByIP (g_peers g) (w_Src p) (x_now x) with
      | (e, None) => (rate_admits g e (x_tick x)).2
      | _ => g
      end
  | _ => g
  end.

Lemma charged_same g packet x : same_but_records g (charged g packet x) /\
  g_dropped (charged g packet x) = g_dropped g /\ g_denials (charged g packet x) = g_denials g.
Proof.
  unfold charged. destruct (parseVPNWirePacket packet) as [[p|]|]; [|done..]. destruct (w_Fragment p); [done|].
  destruct (lookupByIP _ _ _) as [e [c|]]; [done|]. apply rate_admits_same.
Qed.

Lemma routed_recorded g g1 x p e r : same_but_records g g1 -> g_dropped g1 = g_dropped g -> g_denials g1 = g_denials g ->
  routed g1 x p e r -> same_but_records g r.1 /\ recorded x g r.1 r.2 /\ g_buckets r.1 = g_buckets g1.
Proof.
  intros (P1 & F1 & Q1 & T1 & L1 & V1) D1 N1 ((P2 & F2 & Q2 & T2 & L2 & V2) & B2 & R2 & _).
  split; [split_and!; congruence|]. split; [|done]. destruct (r.2); cbn in *; by rewrite D1, N1 in R2.
Qed.

Lemma handlePacket_spec g packet x :
  exists g' v, handlePacket g packet x = Some (g', v) /\ same_but_records g g' /\ recorded x g g' v /\
  g_buckets g' = g_buckets (charged g packet x) /\
  match v with
  | Refused _ => True
  | Dispatched proto e p =>
      parseVPNWirePacket packet = Some (Ok p) /\ w_Fragment p = false /\
      lookupByIP (g_peers g) (w_Src p) (x_now x) = (e, None) /\ (rate_admits g e (x_tick x)).1 = true /\
      isSelfAddress g (w_Dst p) = false /\ proto ∈ g_relays g /\ Allow (e_Policy e) (policyPacket p) = None /\
      proto = w_Protocol p /\ (proto = ProtocolICMP -> isICMPEchoRequest p = true)
  end.
Proof.
  destruct (parse_reading packet) as (r & Hp & _). pose proof (charged_same g packet x) as (S1 & D1 & N1).
  unfold handlePacket, charged in *. rewrite Hp in *. destruct r as [p|err].
  2: { eexists _, _. split; [done|]. cbn. split_and!; try done. by eexists. }
  destruct (lookupByIP (g_peers g) (w_Src p) (x_now x)) as [e refused] eqn:El.
  assert (forall g1 r, same_but_records g g1 -> g_dropped g1 = g_dropped g -> g_denials g1 = g_denials g -> routed g1 x p e r ->
    exists g' v, Some r = Some (g', v) /\ same_but_records g g' /\ recorded x g g' v /\ g_buckets g' = g_buckets g1 /\ r = (g', v)) as Hd.
  { intros g1 r S D N R. destruct (routed_recorded g g1 x p e r S D N R) as (S' & R' & B'). exists r.1, r.2. by destruct r. }
  destruct (w_Fragment p) eqn:Ef; [|destruct refused as [class|]; [|destruct (rate_admits g e (x_tick x)) as [[] g1] eqn:Era; cbn [negb fst snd] in *]].
  3: { pose proof (route_packet_routed g1 x p e) as Hr. destruct (Hd _ _ S1 D1 N1 Hr) as (g' & v & E & S & R & B & Ev).
       exists g', v. split; [done|]. split_and!; [done..|]. rewrite Ev in Hr. destruct Hr as (_ & _ & _ & Hr). cbn [snd] in Hr.
       destruct v as [|proto e' p']; [done|]. destruct Hr as (-> & -> & -> & Hrel & Hs & Ha & Hi). rewrite Era.
       destruct S1 as (_ & _ & _ & T1 & L1 & _). unfold isSelfAddress in *. rewrite T1 in Hs. rewrite L1 in Hrel. by split_and!. }
  all: match goal with |- context [denyPacket ?g1 ?x1 ?l ?p1 ?e1 ?c ?rs] =>
      destruct (Hd _ _ S1 D1 N1 (denyPacket_routed g1 x1 l p1 e1 c rs)) as (g' & v & E & S & R & B & Ev) end;
    exists g', v; split; [exact E|]; injection E as Eg Evd; subst v; by split_and!.
Qed.

(** ** Forwarding *)

Section forwarding.
Context `{GoUnicode}.


(** ** Runs of the pipeline *)

(** Datagrams judged one after the other, the clock not running backwards. *)
Inductive packet_step : vpnGateway * Z * list verdict -> vpnGateway * Z * list verdict -> Prop :=
| step_packet g t vs packet x g' v :
    handlePacket g packet x = Some (g', v) -> t <= x_now x -> x_now x <= x_tick x -> x_tick x <= x_later x ->
    x_keys x ≡ₚ elements (dom (ag_buckets (g_denials g))) -> x_classes x ≡ₚ elements (dom (ag_overflow (g_denials g))) ->
    packet_step (g, t, vs) (g', x_later x, vs ++ [v]).

Definition refusal (v : verdict) : option vpnDenial := match v with Refused d => Some d | _ => None end.
Definition dispatched_for (peerID : bytes) (v : verdict) : Prop :=
  match v with Dispatched _ e _ => e_PeerID e = peerID | _ => False end.
#[global] Instance dispatched_for_dec peerID v : Decision (dispatched_for peerID v).
Proof. destruct v; cbn; apply _. Defined.

Record accounted (w m : Z) (s : vpnGateway * Z * list verdict) : Prop := {
  ac_agg : agg_inv w m (g_denials s.1.1, s.1.2, omap refusal s.2);
  ac_open : ag_closed (g_denials s.1.1) = false;
  ac_metric : forall c, tally (fun r => r.2 = c) (g_dropped s.1.1) = tally (fun d => dn_Class d = c) (omap refusal s.2);
}.

Lemma packet_step_accounted w m s s' : accounted w m s -> packet_step s s' -> accounted w m s'.
Proof.
  intros [Ha Ho Hm] Hs. destruct Hs as [g t vs packet x g' v E Hn Ht Hl Hk Hc]. cbn [fst snd] in *.
  destruct (handlePacket_spec g packet x) as (g1 & v1 & E1 & _ & R & _). rewrite E in E1. injection E1 as <- <-.
  destruct v as [d|proto e p]; cbn [recorded] in R; destruct R as [R1 R2].
  - assert (record_step (g_denials g, t, omap refusal vs) (g_denials g', x_later x, omap refusal vs ++ [d])) as Hstep.
    { rewrite R2. pose proof (agg_record (g_denials g) t (omap refusal vs) d (x_later x) (x_keys x) (x_classes x) (x_create x)) as Hr.
      rewrite Ho in Hr. apply Hr; [lia|done|done]. }
    split; cbn [fst snd]; rewrite ?omap_app.
    + by eapply record_step_inv.
    + destruct Ha as [Hw (Hau & _ & _) _ _ _ _]. cbn in *. rewrite R2. by apply Record_spec.
    + intros c. destruct R1 as (label & ->). change (omap refusal [Refused d]) with [d]. rewrite !tally_snoc, Hm. done.
  - split; cbn [fst snd]; rewrite ?omap_app, ?R2; cbn; rewrite ?app_nil_r; [by destruct Ha|done|intros c; by rewrite R1].
Qed.

(** C17. Every datagram is accounted for.  Over any run of the pipeline, each
    verdict is a dispatch or a refusal; the refusals of each class are as many as
    the drops the metric counted for that class, and as many as the packets the
    audit aggregator holds or has written for it. *)
Theorem every_datagram_accounted g0 window maxKeys t0 g t vs :
  g_denials g0 = newDenialAggregator true window maxKeys -> g_dropped g0 = [] ->
  rtc packet_step (g0, t0, []) (g, t, vs) ->
  let a := g_denials g in
  let refused c := tally (fun d => dn_Class d = c) (omap refusal vs) in
  forall c, tally (fun r => r.2 = c) (g_dropped g) = refused c /\
    msum (class_count c) (ag_buckets a) + msum (class_count c) (ag_overflow a) + zsum (class_written c) (ag_writes a) = refused c.
Proof.
  intros E0 D0 Hr a refused c. set (a0 := newDenialAggregator true window maxKeys) in *.
  apply (rtc_preserve _ (accounted (ag_window a0) (ag_maxKeys a0)) _ _ (fun s s' => packet_step_accounted _ _ s s')) in Hr.
  2: { split; cbn [fst snd]; rewrite E0 || rewrite D0; [apply new_inv|done|done]. }
  destruct Hr as [[_ _ _ Hcl _ _] _ Hm]. cbn [fst snd] in *. split; [apply Hm|apply (Hcl c)].
Qed.

(** What a peer's bucket says of the packets dispatched for it. *)
Definition budget (r t0 : Z) (b : packetBucket) (sent judged : Z) : Prop :=
  exists v, bucket_ok r b v /\ t0 <= pb_last b /\
    2 ^ 53 * Second * (v + sent * unit64) <=
      2 ^ 53 * Second * (r * unit64) + (2 ^ 53 + 4) * (r * unit64 * (pb_last b - t0)) + 2 * (judged * (Second * (r * unit64))).

Lemma budget_new r t0 now : 0 < r < 2 ^ 53 -> t0 <= now -> budget r t0 (newPacketBucket r now) 0 0.
Proof.
  intros Hr Ht. destruct (newPacketBucket_ok r Hr now) as [Hok Hl]. pose proof unit64_range as [_ Hu].
  exists (r * unit64). rewrite Hl. split_and!; [done|done|].
  assert (0 <= r * unit64 * (now - t0)) by (apply Z.mul_nonneg_nonneg; lia). lia.
Qed.

Lemma budget_Allow r t0 b now sent judged : 0 < r < 2 ^ 53 -> budget r t0 b sent judged ->
  budget r t0 (bucket_Allow b now).2 (sent + Z.b2z (bucket_Allow b now).1) (judged + 1) /\
  pb_last (bucket_Allow b now).2 <= Z.max (pb_last b) now.
Proof.
  intros Hr (v & Hok & Ht & Hv). destruct (Allow_spec r Hr b v now Hok) as (v' & Hok' & Hl & Hv'). split; [|lia].
  exists v'. split_and!; [done|lia|]. lia.
Qed.

Lemma budget_weaken r t0 b sent judged sent' judged' : 0 < r -> budget r t0 b sent judged -> sent' <= sent -> judged <= judged' ->
  budget r t0 b sent' judged'.
Proof.
  intros Hr (v & Hok & Ht & Hv) Hs Hj. exists v. split_and!; [done|done|]. pose proof unit64_range as [_ Hu].
  assert (sent' * unit64 <= sent * unit64) by nia.
  assert (judged * (Second * (r * unit64)) <= judged' * (Second * (r * unit64))) by (apply Z.mul_le_mono_nonneg_r; unfold Second; lia).
  unfold Second in *. lia.
Qed.

Definition rate_inv (g0 : vpnGateway) (peerID : bytes) (r t0 : Z) (s : vpnGateway * Z * list verdict) : Prop :=
  g_peers s.1.1 = g_peers g0 /\ g_rate s.1.1 = g_rate g0 /\ t0 <= s.1.2 /\
  match g_buckets s.1.1 !! peerID with
  | None => tally (dispatched_for peerID) s.2 = 0
  | Some b => budget r t0 b (tally (dispatched_for peerID) s.2) (Z.of_nat (length s.2)) /\ pb_last b <= s.1.2
  end.

(** What judging one datagram does to a peer's bucket. *)
Lemma charged_bucket g last packet x peerID e0 : table_inv (g_peers g) last -> pt_peers (g_peers g) !! peerID = Some e0 ->
  0 < peer_rate g e0 ->
  g_buckets (charged g packet x) !! peerID = g_buckets g !! peerID /\
    (forall g' proto e p, handlePacket g packet x = Some (g', Dispatched proto e p) -> e_PeerID e <> peerID) \/
  g_buckets (charged g packet x) !! peerID = Some (bucket_Allow (bucketFor g e0 (x_tick x)) (x_tick x)).2 /\
    (forall g' proto e p, handlePacket g packet x = Some (g', Dispatched proto e p) ->
       (bucket_Allow (bucketFor g e0 (x_tick x)) (x_tick x)).1 = true).
Proof.
  intros Ht He0 Hr. destruct (handlePacket_spec g packet x) as (g1 & v & E & _ & _ & _ & Hv).
  assert (forall g' proto e p, handlePacket g packet x = Some (g', Dispatched proto e p) -> v = Dispatched proto e p) as Hd by (intros; congruence).
  unfold charged. destruct (parseVPNWirePacket packet) as [[p|err]|] eqn:Ep.
  2,3: left; split; [done|]; intros g' proto e q Hq; rewrite (Hd _ _ _ _ Hq) in Hv; destruct Hv as (Hv & _); congruence.
  destruct (w_Fragment p) eqn:Ef.
  { left. split; [done|]. intros g' proto e q Hq. rewrite (Hd _ _ _ _ Hq) in Hv. destruct Hv as (Hv & Hf & _). congruence. }
  destruct (lookupByIP (g_peers g) (w_Src p) (x_now x)) as [e [class|]] eqn:El.
  { left. split; [done|]. intros g' proto e' q Hq. rewrite (Hd _ _ _ _ Hq) in Hv. destruct Hv as (Hv & _ & Hl & _).
    injection Hv as <-. congruence. }
  destruct (lookupByIP_entry _ _ _ _ _ Ht El) as (Hpe & _). unfold rate_admits in *.
  destruct (decide (e_PeerID e = peerID)) as [<-|Hne].
  - rewrite Hpe in He0. injection He0 as <-. right. destruct (Z.leb_spec (peer_rate g e) 0); [lia|].
    destruct (bucket_Allow (bucketFor g e (x_tick x)) (x_tick x)) as [ok b] eqn:Eb. cbn [snd fst g_buckets with_rate_buckets].
    rewrite lookup_insert_eq. split; [done|]. intros g' proto e' q Hq. rewrite (Hd _ _ _ _ Hq) in Hv. destruct Hv as (Hv & _ & Hl & Ha & _).
    injection Hv as <-. assert (e' = e) as -> by congruence. destruct (Z.leb_spec (peer_rate g e) 0); [lia|]. by rewrite Eb in Ha.
  - left. split.
    + destruct (_ <=? 0); [done|]. destruct (bucket_Allow _ _). cbn. by rewrite lookup_insert_ne.
    + intros g' proto e' q Hq. rewrite (Hd _ _ _ _ Hq) in Hv. destruct Hv as (Hv & _ & Hl & _). injection Hv as <-. congruence.
Qed.

Lemma packet_step_rate g0 last peerID e0 t0 s s' : table_inv (g_peers g0) last -> pt_peers (g_peers g0) !! peerID = Some e0 ->
  0 < peer_rate g0 e0 < 2 ^ 53 ->
  rate_inv g0 peerID (peer_rate g0 e0) t0 s -> packet_step s s' -> rate_inv g0 peerID (peer_rate g0 e0) t0 s'.
Proof.
  intros Ht He0 Hr (Ep & Er & Ht0 & Hb) Hs. destruct Hs as [g t vs packet x g' v E Hn Hx Hl _ _]. cbn [fst snd] in *.
  destruct (handlePacket_spec g packet x) as (g1 & v1 & E1 & (P1 & _ & R1 & _) & _ & B1 & _). rewrite E in E1. injection E1 as <- <-.
  assert (peer_rate g e0 = peer_rate g0 e0) as Erate by (unfold peer_rate; by rewrite Er).
  unfold rate_inv. cbn [fst snd]. rewrite P1, R1, B1, tally_snoc, length_app. cbn [length].
  split; [done|]. split; [done|]. split; [lia|]. rewrite Nat2Z.inj_add. change (Z.of_nat 1) with 1.
  destruct (charged_bucket g last packet x peerID e0) as [[-> Hnd]|[-> Hd]]; [by rewrite Ep|by rewrite Ep|lia|..].
  - assert (one_if (dispatched_for peerID v) = 0) as ->.
    { unfold one_if. rewrite decide_False; [done|]. destruct v as [|proto e p]; [tauto|]. exact (Hnd _ _ _ _ E). }
    destruct (g_buckets g !! peerID) as [b|]; [|lia]. destruct Hb as [Hb Hlast]. split; [|lia]. eapply budget_weaken; [lia|exact Hb|lia|lia].
  - assert (one_if (dispatched_for peerID v) <= Z.b2z (bucket_Allow (bucketFor g e0 (x_tick x)) (x_tick x)).1) as Hone.
    { unfold one_if. case_decide as Hdf; [|destruct (bucket_Allow _ _) as [[] ?]; cbn; lia].
      destruct v as [|proto e p]; [done|]. rewrite (Hd _ _ _ _ E). cbn. lia. }
    assert (budget (peer_rate g0 e0) t0 (bucketFor g e0 (x_tick x)) (tally (dispatched_for peerID) vs) (Z.of_nat (length vs)) /\
      pb_last (bucketFor g e0 (x_tick x)) <= x_tick x) as [Hbud Hlast].
    { unfold bucketFor. assert (e_PeerID e0 = peerID) as -> by (by apply (ti_id _ _ Ht)). destruct (g_buckets g !! peerID) as [b|]; cbn [from_option id].
      - destruct Hb as [Hb Hlast]. split; [done|lia].
      - rewrite Erate, Hb. split; [eapply budget_weaken; [lia|apply budget_new; lia|lia|lia]|].
        destruct (newPacketBucket_ok (peer_rate g0 e0) Hr (x_tick x)) as [_ ->]. lia. }
    destruct (budget_Allow _ _ _ (x_tick x) _ _ Hr Hbud) as [Hb' Hl']. split; [|lia]. eapply budget_weaken; [lia|exact Hb'|lia|lia].
Qed.

(** C16. The gateway enforces each peer's packet rate.  From a state in which the
    peer has no bucket yet, over any run of datagrams from any sources, the
    datagrams dispatched for a rate-limited peer are at most one second's worth
    plus the rate times the elapsed time, up to the rounding slack of the
    limiter. *)
Theorem gateway_enforces_rate mtu nodeID last g0 peerID e0 t0 g t vs :
  table_reachable mtu nodeID (g_peers g0) last -> pt_peers (g_peers g0) !! peerID = Some e0 ->
  0 < peer_rate g0 e0 < 2 ^ 53 -> g_buckets g0 !! peerID = None ->
  rtc packet_step (g0, t0, []) (g, t, vs) ->
  Second * 2 ^ 52 * tally (dispatched_for peerID) vs <=
    peer_rate g0 e0 * (Second * 2 ^ 52 + (2 ^ 52 + 2) * (t - t0) + Second * Z.of_nat (length vs)).
Proof.
  intros (start & Ht%table_reachable_inv) He0 Hr Hb Hrun. pose proof unit64_range as [_ Hu].
  apply (rtc_preserve _ _ _ _ (fun s s' => packet_step_rate g0 last peerID e0 t0 s s' Ht He0 Hr)) in Hrun.
  2: { unfold rate_inv. cbn [fst snd]. rewrite Hb. split_and!; [done|done|lia|done]. }
  destruct Hrun as (_ & _ & Htt & Hi). cbn [fst snd] in *. set (sent := tally _ vs) in *. set (r := peer_rate g0 e0) in *.
  assert (0 <= Second * Z.of_nat (length vs)) by (unfold Second; lia).
  destruct (g_buckets g !! peerID) as [b|]; [|rewrite Hi; unfold Second in *; nia].
  destruct Hi as [(v & (_ & _ & Hv & _) & Hlast & Hbud) Hl]. pose proof (is_f64_nonneg _ _ Hv).
  apply (Z.mul_le_mono_pos_r _ _ (2 * unit64)); [lia|].
  assert (r * unit64 * (pb_last b - t0) <= r * unit64 * (t - t0)) by (apply Z.mul_le_mono_nonneg_l; lia).
  assert (0 <= 2 ^ 53 * Second * v) by (unfold Second; lia). lia.
Qed.
End forwarding.

(** ** Revocation *)

Section revocation.
Context `{GoUnicode}.
Context (order : gset vpnFlowKey -> list vpnFlowKey).
Context (order_perm : forall s, order s ≡ₚ elements s).

(** Management writes (of the rows [allowed]) interleaved with the pipeline and
    with everything the flow table does. *)
Inductive gateway_step (allowed : bytes -> Prop) : vpnGateway * list nat * Z -> vpnGateway * list nat * Z -> Prop :=
| gw_apply g pending last row now clock later :
    allowed (row_ID row) -> last <= now -> now <= later ->
    gateway_step allowed (g, pending, last) ((ApplyPeer order g row now clock later).1, pending, later)
| gw_remove g pending last id :
    gateway_step allowed (g, pending, last) (RemovePeer order g id, pending, last)
| gw_packet g pending last packet x g' v :
    handlePacket g packet x = Some (g', v) -> gateway_step allowed (g, pending, last) (g', pending, last)
| gw_flow g pending last flows pending' :
    flow_step (g_flows g, pending) (flows, pending') ->
    gateway_step allowed (g, pending, last) (with_flow_table g flows, pending', last).

Definition newGateway (mtu : Z) (nodeID self : bytes) (perPeer total idle rate : Z) (relays : list Z) (a : denialAggregator) : vpnGateway :=
  mkGateway (newVPNPeerTable mtu nodeID) (newVPNFlowTable perPeer total idle) ∅ rate self relays [] [] a.

(** The flows the peer had in [g] are gone and torn down in [g']; and whatever
    happens from then on, short of a new row for the peer, no datagram is
    dispatched on its behalf. *)
Definition stopped (g g' : vpnGateway) (pending : list nat) (last : Z) (peerID : bytes) : Prop :=
  (forall k, k_PeerID k = peerID -> t_flows (g_flows g') !! k = None) /\
  (forall k a, k_PeerID k = peerID -> t_flows (g_flows g) !! k = Some a -> a ∈ t_runs (g_flows g')) /\
  (forall h pending' last' packet x h' proto e p,
     rtc (gateway_step (fun id => id <> peerID)) (g', pending, last) (h, pending', last') ->
     handlePacket h packet x = Some (h', Dispatched proto e p) -> e_PeerID e <> peerID).

Lemma peerRemoved_spec g pending e : flow_inv (g_flows g) pending ->
  flow_inv (g_flows (peerRemoved order g e)) pending /\
  (forall k, t_flows (g_flows (peerRemoved order g e)) !! k =
     if decide (k_PeerID k = e_PeerID e) then None else t_flows (g_flows g) !! k) /\
  (forall k a, k_PeerID k = e_PeerID e -> t_flows (g_flows g) !! k = Some a ->
     a ∈ t_runs (g_flows (peerRemoved order g e))).
Proof using order_perm.
  intros Hi. unfold peerRemoved. cbn [g_flows with_flow_table with_device forgetBucket with_rate_buckets].
  pose proof (closePeer_spec (g_flows g) pending (e_PeerID e) _ Hi (order_perm _)) as Hc.
  destruct (closePeer _ _ _) as [u n]. cbn [fst]. naive_solver.
Qed.

Lemma run_event_peers g ev : g_peers (run_event order g ev) = g_peers g.
Proof. by destruct ev. Qed.

Lemma run_events_peers g evs : g_peers (foldl (run_event order) g evs) = g_peers g.
Proof. revert g. induction evs as [|ev evs IH]; intros g; [done|]. cbn [foldl]. by rewrite IH, run_event_peers. Qed.

Lemma run_events_inv g pending evs : flow_inv (g_flows g) pending ->
  flow_inv (g_flows (foldl (run_event order) g evs)) pending.
Proof using order_perm.
  revert g. induction evs as [|ev evs IH]; intros g Hi; [done|]. cbn [foldl]. apply IH.
  destruct ev as [e|e|o n e]; cbn [run_event]; [done| |done]. by apply (peerRemoved_spec g pending e).
Qed.

(** Hooks about other peers leave a peer's flows alone. *)
Lemma run_events_keep g pending evs peerID k : flow_inv (g_flows g) pending ->
  (forall e, onRemove e ∈ evs -> e_PeerID e <> peerID) -> k_PeerID k = peerID ->
  t_flows (g_flows (foldl (run_event order) g evs)) !! k = t_flows (g_flows g) !! k.
Proof using order_perm.
  revert g. induction evs as [|ev evs IH]; intros g Hi Hev Hk; [done|]. cbn [foldl].
  rewrite IH; [| |by intros e He; apply Hev; right|done].
  - destruct ev as [e|e|o n e]; cbn [run_event]; [done| |done].
    destruct (peerRemoved_spec g pending e Hi) as (_ & -> & _). rewrite decide_False; [done|].
    rewrite Hk. intros E. apply (Hev e); [by left|done].
  - apply (run_events_inv g pending [ev] Hi).
Qed.

Definition gateway_inv (s : vpnGateway * list nat * Z) : Prop :=
  flow_inv (g_flows s.1.1) s.1.2 /\ table_inv (g_peers s.1.1) s.2.

Lemma handlePacket_same g packet x g' v : handlePacket g packet x = Some (g', v) -> g_peers g' = g_peers g /\ g_flows g' = g_flows g.
Proof.
  intros E. destruct (handlePacket_spec g packet x) as (g1 & v1 & E1 & (P & F & _) & _). rewrite E in E1. by injection E1 as <- <-.
Qed.

Lemma gateway_step_inv allowed s s' : gateway_inv s -> gateway_step allowed s s' -> gateway_inv s'.
Proof using order_perm.
  intros [Hf Ht] Hs. destruct Hs as [g pending last row now clock later _ Hn Hl|g pending last id|g pending last packet x g' v E|g pending last fl pending' Hfl];
    unfold gateway_inv; cbn [fst snd g_flows g_peers with_flow_table] in *.
  - unfold ApplyPeer. pose proof (table_step_inv _ _ (step_apply (g_peers g) last row now clock later Hn Hl) Ht) as Ht'.
    destruct (table_ApplyPeer (g_peers g) row now clock later) as [[u evs] r]. cbn [fst snd] in *.
    split; [by apply run_events_inv|by rewrite run_events_peers].
  - unfold RemovePeer. pose proof (table_step_inv _ _ (step_peer_remove (g_peers g) last id) Ht) as Ht'.
    destruct (table_RemovePeer (g_peers g) id) as [u evs]. cbn [fst snd] in *.
    split; [by apply run_events_inv|by rewrite run_events_peers].
  - by destruct (handlePacket_same _ _ _ _ _ E) as [-> ->].
  - split; [|done]. by apply (flow_step_inv _ _ Hfl).
Qed.

Lemma gateway_reachable_inv allowed mtu nodeID self perPeer total idle rate relays a start s :
  rtc (gateway_step allowed) (newGateway mtu nodeID self perPeer total idle rate relays a, [], start) s -> gateway_inv s.
Proof using order_perm.
  apply rtc_preserve; [apply gateway_step_inv|]. split; [apply inv_init|]. eapply table_reachable_inv, rtc_refl.
Qed.

(** A peer that is missing from the table, or inactive there. *)
Definition barred (t : vpnPeerTable) (peerID : bytes) : Prop :=
  forall e, pt_peers t !! peerID = Some e -> e_Status e <> VPNPeerStatusActive.

Lemma barred_step peerID s s' : gateway_inv s /\ barred (g_peers s.1.1) peerID -> gateway_step (fun id => id <> peerID) s s' ->
  gateway_inv s' /\ barred (g_peers s'.1.1) peerID.
Proof using order_perm.
  intros [Hi Hb] Hs. split; [by eapply gateway_step_inv|]. destruct Hi as [_ Ht].
  destruct Hs as [g pending last row now clock later Hne Hn Hl|g pending last id|g pending last packet x g' v E|g pending last fl pending' Hfl]; cbn [fst snd] in *.
  - intros e He. apply Hb. unfold ApplyPeer in He. pose proof (ApplyPeer_other (g_peers g) last row now clock later peerID e Ht Hne) as Ho.
    destruct (table_ApplyPeer (g_peers g) row now clock later) as [[u evs] r]. cbn [fst snd] in *. rewrite run_events_peers in He. auto.
  - intros e He. apply Hb. unfold RemovePeer in He. pose proof (RemovePeer_sub (g_peers g) id peerID e) as Ho.
    destruct (table_RemovePeer (g_peers g) id) as [u evs]. cbn [fst snd] in *. rewrite run_events_peers in He. auto.
  - by destruct (handlePacket_same _ _ _ _ _ E) as [-> _].
  - done.
Qed.

Lemma barred_silent peerID g pending last : gateway_inv (g, pending, last) -> barred (g_peers g) peerID ->
  forall h pending' last' packet x h' proto e p,
    rtc (gateway_step (fun id => id <> peerID)) (g, pending, last) (h, pending', last') ->
    handlePacket h packet x = Some (h', Dispatched proto e p) -> e_PeerID e <> peerID.
Proof using order_perm.
  intros Hi Hb h pending' last' packet x h' proto e p Hr E.
  apply (rtc_preserve _ _ _ _ (barred_step peerID) (conj Hi Hb)) in Hr as [[_ Ht] Hbh]. cbn [fst snd] in *.
  destruct (handlePacket_spec h packet x) as (h1 & v & E1 & _ & _ & _ & Hv). rewrite E in E1. injection E1 as <- <-.
  destruct Hv as (_ & _ & Hl & _). destruct (lookupByIP_entry _ _ _ _ _ Ht Hl) as (Hpe & _ & _ & Hst & _).
  intros <-. by apply (Hbh e Hpe).
Qed.

(** C3. Revocation is immediate.  In any state the gateway can reach, applying
    a row whose status is not active, or removing a peer the gateway holds,
    leaves no flow of that peer in the flow table, has torn down every one it
    had, takes its key off the device as the last command, and from then on,
    until a new row for the peer is applied, no datagram is dispatched on its
    behalf. *)
Theorem revocation_is_immediate mtu nodeID self perPeer total idle rate relays a start g pending last :
  rtc (gateway_step (fun _ => True)) (newGateway mtu nodeID self perPeer total idle rate relays a, [], start) (g, pending, last) ->
  (forall row now clock later g', last <= now -> now <= later -> row_Status row <> VPNPeerStatusActive ->
     ApplyPeer order g row now clock later = (g', Ok tt) ->
     stopped g g' pending later (row_ID row) /\ exists cmds, g_device g' = cmds ++ [DeviceRemove (row_PublicKey row)]) /\
  (forall peerID e, pt_peers (g_peers g) !! peerID = Some e ->
     stopped g (RemovePeer order g peerID) pending last peerID /\
     exists cmds, g_device (RemovePeer order g peerID) = cmds ++ [DeviceRemove (e_PublicKey e)]).
Proof using order_perm.
  intros Hinv%gateway_reachable_inv. pose proof Hinv as [Hf Ht]. cbn [fst snd] in *. split.
  - intros row now clock later g' Hn Hl Hst.
    pose proof (gateway_step_inv _ _ _ Hinv (gw_apply (fun _ => True) g pending last row now clock later I Hn Hl)) as Hinv'.
    unfold ApplyPeer in *. destruct (table_ApplyPeer (g_peers g) row now clock later) as [[u events] r] eqn:Ea. intros [= <- ->]. cbn [fst snd] in Hinv'.
    destruct (apply_inactive_events _ _ _ _ _ _ _ _ Ht Hst Ea) as (evs & e & -> & Eid & Ek & Hpe & Est & Hd).
    rewrite foldl_app in *. cbn [foldl run_event] in *. set (g1 := foldl (run_event order) (with_peers g u) evs) in *.
    assert (flow_inv (g_flows g1) pending) as Hf1 by by apply run_events_inv.
    destruct (peerRemoved_spec g1 pending e Hf1) as (_ & Hfl & Hrun). rewrite Eid in *. split; [split_and!|].
    + intros k Hk. rewrite Hfl. by rewrite decide_True.
    + intros k n Hk Ha. apply (Hrun k); [done|]. unfold g1. rewrite (run_events_keep _ pending _ (row_ID row)) by done. done.
    + apply barred_silent; [done|]. intros x Hx. cbn in Hx. unfold g1 in Hx. rewrite run_events_peers in Hx. cbn in Hx. congruence.
    + exists (g_device g1). cbn. by rewrite Ek.
  - intros peerID e He. pose proof (gateway_step_inv _ _ _ Hinv (gw_remove (fun _ => True) g pending last peerID)) as Hinv'.
    unfold RemovePeer in *. unfold table_RemovePeer in *. rewrite He in *. cbn [foldl run_event] in *. set (u := mkPeers _ _ _ _ _) in *.
    destruct (peerRemoved_spec (with_peers g u) pending e Hf) as (_ & Hfl & Hrun).
    rewrite (ti_id _ _ Ht _ _ He) in *. split; [split_and!|by eexists].
    + intros k Hk. rewrite Hfl. by rewrite decide_True.
    + intros k n Hk Ha. by apply (Hrun k).
    + apply barred_silent; [done|]. intros x Hx. cbn in Hx. by rewrite lookup_delete_eq in Hx.
Qed.
End revocation.

(** ** A sample gateway *)

Definition sample_gateway : vpnGateway :=
  mkGateway sample_table (newVPNFlowTable 0 0 0) ∅ 2 (be_put 4 (addr4 100 64 0 1)) [ProtocolUDP] [] [] (newDenialAggregator true 10 1).

Definition sample_datagram (port : Z) : bytes :=
  buildIPv4UDP (be_put 4 (addr4 100 64 0 2), 40000) (be_put 4 (addr4 93 184 216 34), port) #"hello".

(** A datagram judged at one instant, from a gateway whose aggregator holds
    nothing. *)
Definition sample_env (now : Z) : packet_env := mkEnv now now now [] [] (fun _ => true).

Definition is_dispatched (r : option (vpnGateway * verdict)) : bool :=
  match r with Some (_, Dispatched _ _ _) => true | _ => false end.


(** Three datagrams at once for a peer with a rate of two. *)
Definition after (g : vpnGateway) (port now : Z) : vpnGateway * verdict :=
  default (g, Refused (mkDenial [] ClassStackError [] [] [] 0)) (handlePacket g (sample_datagram port) (sample_env now)).

Definition sample_run : vpnGateway * list verdict :=
  let '(g1, v1) := after sample_gateway 443 9 in
  let '(g2, v2) := after g1 443 9 in
  let '(g3, v3) := after g2 443 9 in
  (g3, [v1; v2; v3]).

(** A dispatched datagram leaves the aggregator alone. *)
Lemma after_step g vs : ag_buckets (g_denials g) = ∅ -> ag_overflow (g_denials g) = ∅ ->
  packet_step (g, 9, vs) ((after g 443 9).1, 9, vs ++ [(after g 443 9).2]) /\
  (is_dispatched (Some (after g 443 9)) = true -> g_denials (after g 443 9).1 = g_denials g).
Proof.
  intros H1 H2. unfold after. destruct (handlePacket_spec g (sample_datagram 443) (sample_env 9)) as (g' & v & E & _ & R & _).
  rewrite E. cbn [default from_option fst snd]. split.
  - apply (step_packet g 9 vs (sample_datagram 443) (sample_env 9) g' v E); cbn; try lia; by rewrite ?H1, ?H2, dom_empty_L, elements_empty.
  - destruct v as [d|proto e p]; [done|]. by destruct R.
Qed.

Lemma sample_run_steps : rtc packet_step (sample_gateway, 9, []) (sample_run.1, 9, sample_run.2).
Proof.
  unfold sample_run. destruct (after_step sample_gateway [] eq_refl eq_refl) as [S1 D1].
  assert (is_dispatched (Some (after sample_gateway 443 9)) = true) as C1 by by vm_compute.
  assert (is_dispatched (Some (after (after sample_gateway 443 9).1 443 9)) = true) as C2 by by vm_compute.
  specialize (D1 C1). destruct (after sample_gateway 443 9) as [g1 v1]. cbn [fst snd app] in *.
  destruct (after_step g1 [v1]) as [S2 D2]; [by rewrite D1..|]. specialize (D2 C2). destruct (after g1 443 9) as [g2 v2]. cbn [fst snd app] in *.
  destruct (after_step g2 [v1; v2]) as [S3 _]; [by rewrite D2, D1..|]. destruct (after g2 443 9) as [g3 v3]. cbn [fst snd app] in *.
  eapply rtc_l; [exact S1|]. eapply rtc_l; [exact S2|]. by apply rtc_once.
Qed.

Lemma every_datagram_accounted_witness :
  tally (fun d => dn_Class d = ClassRateLimited) (omap refusal sample_run.2) = 1 /\
  tally (fun r => r.2 = ClassRateLimited) (g_dropped sample_run.1) = 1.
Proof.
  split; [by vm_compute|].
  pose proof (every_datagram_accounted sample_gateway 10 1 9 sample_run.1 9 sample_run.2 eq_refl eq_refl sample_run_steps ClassRateLimited) as [-> _].
  by vm_compute.
Defined.

Lemma gateway_enforces_rate_witness :
  tally (dispatched_for #"peer-1") sample_run.2 = 2 /\
  exists e0, pt_peers sample_table !! #"peer-1" = Some e0 /\
  Second * 2 ^ 52 * tally (dispatched_for #"peer-1") sample_run.2 <=
    peer_rate sample_gateway e0 * (Second * 2 ^ 52 + (2 ^ 52 + 2) * (9 - 9) + Second * Z.of_nat (length sample_run.2)).
Proof.
  split; [by vm_compute|]. destruct (pt_peers sample_table !! #"peer-1") as [e0|] eqn:E; [|by vm_compute in E].
  exists e0. split; [done|].
  apply (@gateway_enforces_rate ascii_unicode 1420 #"node-1" 5 sample_gateway #"peer-1" e0 9 sample_run.1 9 sample_run.2
    sample_table_reachable E); [|by vm_compute|exact sample_run_steps].
  assert (e_RateLimit e0 = 0) as Hr by (apply (f_equal (option_map e_RateLimit)) in E; vm_compute in E; by injection E).
  unfold peer_rate. rewrite Hr. cbn. lia.
Defined.

(** The sample peer, with one flow, and then its disabled row applied. *)
Definition empty_gateway : vpnGateway := newGateway 1420 #"node-1" [] 0 0 0 0 [ProtocolUDP] (newDenialAggregator true 10 1).

Definition busy_gateway : vpnGateway :=
  let g := (@ApplyPeer ascii_unicode elements empty_gateway (sample_row VPNPeerStatusActive) 5 5 5).1 in
  with_flow_table g (register (g_flows g) (mkReg (mkKey #"peer-1" #"udp" (be_put 4 1, 1) (be_put 4 2, 2)) [] 2 0) 6 #"f").1.

Lemma busy_gateway_reachable : rtc (@gateway_step ascii_unicode elements (fun _ => True)) (empty_gateway, [], 5) (busy_gateway, [], 5).
Proof.
  eapply rtc_l; [by apply (gw_apply _ _ _ _ 5 (sample_row VPNPeerStatusActive) 5 5 5)|].
  apply rtc_once. apply gw_flow. apply step_register.
Qed.

Lemma revocation_is_immediate_witness :
  exists g', @ApplyPeer ascii_unicode elements busy_gateway (sample_row #"disabled") 7 7 7 = (g', Ok tt) /\
    @stopped ascii_unicode elements busy_gateway g' [] 7 #"peer-1" /\ count (g_flows busy_gateway) = 1%nat /\ t_runs (g_flows g') = [0%nat].
Proof.
  exists (@ApplyPeer ascii_unicode elements busy_gateway (sample_row #"disabled") 7 7 7).1.
  assert (@ApplyPeer ascii_unicode elements busy_gateway (sample_row #"disabled") 7 7 7 =
    ((@ApplyPeer ascii_unicode elements busy_gateway (sample_row #"disabled") 7 7 7).1, Ok tt)) as Ha by (vm_compute; reflexivity).
  split_and!; [exact Ha| |by vm_compute..].
  apply (proj1 (@revocation_is_immediate ascii_unicode elements (fun s => Permutation_refl (elements s)) 1420 #"node-1" []
    0 0 0 0 [ProtocolUDP] (newDenialAggregator true 10 1) 5 busy_gateway [] 5 busy_gateway_reachable) (sample_row #"disabled") 7 7 7);
    [lia|lia|by vm_compute|exact Ha].
Defined.

(** Revocation does not stop a relay that had already passed the pipeline: the
    flow table does not know the peers, so a datagram judged before the peer was
    removed still registers a flow after it. *)
Lemma removed_peer_registers :
  let g := RemovePeer elements busy_gateway #"peer-1" in
  pt_peers (g_peers g) !! #"peer-1" = None /\ count (g_flows g) = 0%nat /\
  count (register (g_flows g) (mkReg (mkKey #"peer-1" #"udp" (be_put 4 1, 1) (be_put 4 2, 2)) [] 2 0) 8 #"late").1 = 1%nat.
Proof. by vm_compute. Qed.
