(* ===== verification/AuthzCache.v ===== *)
(** * The caching stream authorizer

    [cachingStreamAuthorizer] of [internal/server/authorization_cache.go]: a
    bounded cache of authorization decisions in front of another
    [StreamAuthorizer], flushed when a polled revision number changes, with
    one shared call per key in flight.

    The operations are modelled at the granularity of the cache lock.  A
    goroutine inside [Authorize] is a thread of the system below: it enters
    (one critical section), runs the inner authorizer, stores, unlinks its
    call, closes the call's channel; other threads and revision polls
    interleave between any two of these steps.  Clock readings are arguments
    of the steps, because the code reads the clock before taking the lock. *)

From stdpp Require Import base list gmap strings relations.
From Stdlib Require Import Ascii ZArith Lia.
From S2P Require Import Prelude GoStrings.
Local Open Scope Z_scope.

(** ** Requests and their cache key *)

(** The identity part of [ClientSessionPrincipal] and of [StreamOpenPayload]
    that the key is made of. *)
Record authz_request := mkRequest {
  rq_TokenID : bytes;
  rq_OwnerUserID : bytes;
  rq_Type : bytes;
  rq_AgentID : bytes;
  rq_Protocol : bytes;
  rq_TargetHost : bytes;
  rq_TargetPort : Z;
}.

Definition key_parts (q : authz_request) : list bytes :=
  [rq_TokenID q; rq_OwnerUserID q; rq_Type q; rq_AgentID q; rq_Protocol q; rq_TargetHost q; Itoa (rq_TargetPort q)].

Definition NUL : byte := zero.

Definition authorizationCacheKey (q : authz_request) : bytes := Join (key_parts q) NUL.

(** ** The cache *)

Record AuthorizationCacheConfig := mkConfig {
  cf_Enabled : bool;
  cf_PositiveTTL : Z;
  cf_NegativeTTL : Z;
  cf_RevisionPollInterval : Z;
  cf_MaxStaleOnPollError : Z;
  cf_MaxEntries : Z;
}.

Section cache.
(** Error values of the inner authorizer; a nil error is [None]. *)
Context {E : Type}.

Record authorizationCacheEntry := mkEntry {
  en_allowed : bool;
  en_err : option E;
  en_expiresAt : Z;
  en_lastAccess : Z;
}.

(** The call object waiters share; [call_done] is its closed channel. *)
Record authorizationCacheCall := mkCall {
  call_done : bool;
  call_allowed : bool;
  call_err : option E;
}.

(** [ac_calls] is the heap of call objects, addressed by allocation number;
    a zero [lastGood] is [None]. *)
Record cachingStreamAuthorizer := mkCache {
  ac_config : AuthorizationCacheConfig;
  ac_entries : gmap bytes authorizationCacheEntry;
  ac_inFlight : gmap bytes nat;
  ac_calls : gmap nat authorizationCacheCall;
  ac_next : nat;
  ac_generation : Z;
  ac_lastGood : option Z;
  ac_healthy : bool;
  ac_notify : bool;
  ac_closed : bool;
}.

Definition with_entries (a : cachingStreamAuthorizer) (m : gmap bytes authorizationCacheEntry) : cachingStreamAuthorizer :=
  mkCache (ac_config a) m (ac_inFlight a) (ac_calls a) (ac_next a) (ac_generation a) (ac_lastGood a) (ac_healthy a) (ac_notify a) (ac_closed a).

Definition with_calls (a : cachingStreamAuthorizer) (fl : gmap bytes nat) (cs : gmap nat authorizationCacheCall) (n : nat) : cachingStreamAuthorizer :=
  mkCache (ac_config a) (ac_entries a) fl cs n (ac_generation a) (ac_lastGood a) (ac_healthy a) (ac_notify a) (ac_closed a).

Definition with_notify (a : cachingStreamAuthorizer) (n : bool) : cachingStreamAuthorizer :=
  mkCache (ac_config a) (ac_entries a) (ac_inFlight a) (ac_calls a) (ac_next a) (ac_generation a) (ac_lastGood a) (ac_healthy a) n (ac_closed a).

(** A positive entry may not be served: the revision source is failing and its
    last success is missing or too old. *)
Definition too_stale (a : cachingStreamAuthorizer) (now : Z) : bool :=
  negb (ac_healthy a) &&
  match ac_lastGood a with
  | None => true
  | Some good => Sub now good >? cf_MaxStaleOnPollError (ac_config a)
  end.

Definition lookupLocked (a : cachingStreamAuthorizer) (key : bytes) (now : Z) :
    cachingStreamAuthorizer * option authorizationCacheEntry :=
  match ac_entries a !! key with
  | None => (a, None)
  | Some entry =>
      if en_expiresAt entry <? now then (with_entries a (delete key (ac_entries a)), None)
      else if en_allowed entry && too_stale a now then (with_entries a (delete key (ac_entries a)), None)
      else
        let entry' := mkEntry (en_allowed entry) (en_err entry) (en_expiresAt entry) now in
        (with_entries a (<[key := entry']> (ac_entries a)), Some entry')
  end.

(** The scan of [evictLocked] over one iteration order of the map. *)
Definition oldest_entry (order : list (bytes * authorizationCacheEntry)) : bytes * Z :=
  foldl (fun '(oldestKey, oldest) '(key, entry) =>
           if bool_decide (oldestKey = []) || (en_lastAccess entry <? oldest) then (key, en_lastAccess entry) else (oldestKey, oldest))
    ([], 0) order.

Definition evictLocked (a : cachingStreamAuthorizer) (order : list (bytes * authorizationCacheEntry)) : cachingStreamAuthorizer :=
  let '(oldestKey, _) := oldest_entry order in
  if bool_decide (oldestKey = []) then a else with_entries a (delete oldestKey (ac_entries a)).

Definition ttl_for (cfg : AuthorizationCacheConfig) (allowed : bool) : Z :=
  if allowed then cf_PositiveTTL cfg else cf_NegativeTTL cfg.

Definition store (a : cachingStreamAuthorizer) (key : bytes) (allowed : bool) (authorizationErr : option E) (now : Z)
    (order : list (bytes * authorizationCacheEntry)) : cachingStreamAuthorizer :=
  let ttl := ttl_for (ac_config a) allowed in
  let a' := if Z.of_nat (size (ac_entries a)) >=? cf_MaxEntries (ac_config a) then evictLocked a order else a in
  with_entries a' (<[key := mkEntry allowed authorizationErr (now + ttl) now]> (ac_entries a')).

(** What the first critical section of [Authorize] decides. *)
Inductive entered :=
| Direct
| Hit (answer : option E)
| Wait (call : nat)
| Start (call : nat).

Definition Authorize_enter (a : cachingStreamAuthorizer) (q : authz_request) (now : Z) : cachingStreamAuthorizer * entered :=
  if negb (cf_Enabled (ac_config a)) then (a, Direct)
  else
    let key := authorizationCacheKey q in
    match lookupLocked a key now with
    | (a', Some entry) => (a', Hit (if en_allowed entry then None else en_err entry))
    | (a', None) =>
        match ac_inFlight a' !! key with
        | Some call => (a', Wait call)
        | None =>
            let call := ac_next a' in
            (with_calls a' (<[key := call]> (ac_inFlight a')) (<[call := mkCall false false None]> (ac_calls a')) (S call), Start call)
        end
    end.

Definition is_nil {A} (o : option A) : bool := match o with None => true | Some _ => false end.

(** The inner authorizer answered [err]: the decision is stored. *)
Definition Authorize_store (a : cachingStreamAuthorizer) (q : authz_request) (err : option E) (now : Z)
    (order : list (bytes * authorizationCacheEntry)) : cachingStreamAuthorizer :=
  store a (authorizationCacheKey q) (is_nil err) err now order.

(** The result is published in the call object and the call unlinked. *)
Definition Authorize_unlink (a : cachingStreamAuthorizer) (q : authz_request) (call : nat) (err : option E) : cachingStreamAuthorizer :=
  with_calls a (delete (authorizationCacheKey q) (ac_inFlight a)) (<[call := mkCall false (is_nil err) err]> (ac_calls a)) (ac_next a).

(** [close(call.done)] *)
Definition Authorize_close (a : cachingStreamAuthorizer) (call : nat) : cachingStreamAuthorizer :=
  with_calls a (ac_inFlight a)
    (alter (fun c => mkCall true (call_allowed c) (call_err c)) call (ac_calls a)) (ac_next a).

(** What a waiter returns once the call is done. *)
Definition wait_answer (c : authorizationCacheCall) : option E := if call_allowed c then None else call_err c.

(** [pollRevision]: [answer] is what the revision source returned. *)
Definition pollRevision (a : cachingStreamAuthorizer) (answer : option Z) (now : Z) : cachingStreamAuthorizer :=
  match answer with
  | None =>
      mkCache (ac_config a) (ac_entries a) (ac_inFlight a) (ac_calls a) (ac_next a) (ac_generation a) (ac_lastGood a) false (ac_notify a) (ac_closed a)
  | Some revision =>
      if bool_decide (revision = ac_generation a) then
        mkCache (ac_config a) (ac_entries a) (ac_inFlight a) (ac_calls a) (ac_next a) (ac_generation a) (Some now) true (ac_notify a) (ac_closed a)
      else
        mkCache (ac_config a) ∅ (ac_inFlight a) (ac_calls a) (ac_next a) revision (Some now) true (ac_notify a) (ac_closed a)
  end.

Definition NotifyAuthorizationChange (a : cachingStreamAuthorizer) : cachingStreamAuthorizer :=
  if negb (cf_Enabled (ac_config a)) then a else with_notify a true.

Definition Unhealthy (a : cachingStreamAuthorizer) : bool := cf_Enabled (ac_config a) && negb (ac_healthy a).

Definition CloseCache (a : cachingStreamAuthorizer) : cachingStreamAuthorizer :=
  mkCache (ac_config a) (ac_entries a) (ac_inFlight a) (ac_calls a) (ac_next a) (ac_generation a) (ac_lastGood a) (ac_healthy a) (ac_notify a) true.

Definition config_ok (cfg : AuthorizationCacheConfig) : bool :=
  negb ((cf_PositiveTTL cfg <=? 0) || (cf_NegativeTTL cfg <=? 0) || (cf_RevisionPollInterval cfg <=? 0) ||
        (cf_MaxStaleOnPollError cfg <=? 0) || (cf_MaxEntries cfg <=? 0)).

(** [NewCachingStreamAuthorizer] on a non-nil inner authorizer: an enabled
    cache needs a revision source, and polls it once before it is returned. *)
Definition NewCachingStreamAuthorizer (cfg : AuthorizationCacheConfig) (source : bool) (answer : option Z) (now : Z) :
    option cachingStreamAuthorizer :=
  let cache := mkCache cfg ∅ ∅ ∅ 0 0 None false false false in
  if cf_Enabled cfg then
    if source && config_ok cfg then Some (pollRevision cache answer now) else None
  else Some cache.
End cache.

(** ** Concurrent callers *)

Section system.
Context {E : Type}.
Implicit Types (a : @cachingStreamAuthorizer E) (q : authz_request) (r : option E).

(** One answer of the inner authorizer: [d_stamp] is the clock reading of its
    [store], [d_started] and [d_stored] the number of flushes before the call
    and before the store. *)
Record decision := mkDecision {
  d_req : authz_request;
  d_err : option E;
  d_stamp : Z;
  d_started : nat;
  d_stored : nat;
}.

(** Where an answer came from: a cached entry read at [now] after [flushes]
    flushes, the caller's own inner call, another caller's call, or the
    caller's cancelled context. *)
Inductive origin :=
| FromCache (now : Z) (flushes : nat) (stale : bool)
| FromInner
| FromCall
| FromContext.

Inductive thread :=
| Bypassing (q : authz_request)
| Calling (q : authz_request) (call : nat) (started : nat)
| Stored (q : authz_request) (call : nat) (r : option E)
| Unlinked (q : authz_request) (call : nat) (r : option E)
| Waiting (q : authz_request) (call : nat)
| Answered (q : authz_request) (r : option E) (o : origin).

Record system := mkSystem {
  sy_cache : @cachingStreamAuthorizer E;
  sy_threads : gmap nat thread;
  sy_log : list decision;
  sy_flushes : nat;
  sy_polling : bool;
}.

Definition after_enter q (now : Z) (s : system) (o : @entered E) : thread :=
  match o with
  | Direct => Bypassing q
  | Hit r => Answered q r (FromCache now (sy_flushes s) (too_stale (sy_cache s) now))
  | Wait c => Waiting q c
  | Start c => Calling q c (sy_flushes s)
  end.

Definition flushes (a : @cachingStreamAuthorizer E) (answer : option Z) : nat :=
  match answer with
  | Some revision => if bool_decide (revision = ac_generation a) then 0 else 1
  | None => 0
  end.

Definition polled (s : system) (a : @cachingStreamAuthorizer E) (answer : option Z) (now : Z) : system :=
  mkSystem (pollRevision a answer now) (sy_threads s) (sy_log s) (sy_flushes s + flushes a answer) (sy_polling s).

Inductive step : system -> system -> Prop :=
| step_enter s t q now :
    sy_threads s !! t = None ->
    step s (mkSystem (Authorize_enter (sy_cache s) q now).1
              (<[t := after_enter q now s (Authorize_enter (sy_cache s) q now).2]> (sy_threads s)) (sy_log s) (sy_flushes s) (sy_polling s))
| step_bypass s t q r now :
    sy_threads s !! t = Some (Bypassing q) ->
    step s (mkSystem (sy_cache s) (<[t := Answered q r FromInner]> (sy_threads s))
              (sy_log s ++ [mkDecision q r now (sy_flushes s) (sy_flushes s)]) (sy_flushes s) (sy_polling s))
| step_store s t q c started r now order :
    sy_threads s !! t = Some (Calling q c started) -> order ≡ₚ map_to_list (ac_entries (sy_cache s)) ->
    step s (mkSystem (Authorize_store (sy_cache s) q r now order) (<[t := Stored q c r]> (sy_threads s))
              (sy_log s ++ [mkDecision q r now started (sy_flushes s)]) (sy_flushes s) (sy_polling s))
| step_unlink s t q c r :
    sy_threads s !! t = Some (Stored q c r) ->
    step s (mkSystem (Authorize_unlink (sy_cache s) q c r) (<[t := Unlinked q c r]> (sy_threads s)) (sy_log s) (sy_flushes s) (sy_polling s))
| step_close s t q c r :
    sy_threads s !! t = Some (Unlinked q c r) ->
    step s (mkSystem (Authorize_close (sy_cache s) c) (<[t := Answered q r FromInner]> (sy_threads s)) (sy_log s) (sy_flushes s) (sy_polling s))
| step_wake s t q c call :
    sy_threads s !! t = Some (Waiting q c) -> ac_calls (sy_cache s) !! c = Some call -> call_done call = true ->
    step s (mkSystem (sy_cache s) (<[t := Answered q (wait_answer call) FromCall]> (sy_threads s)) (sy_log s) (sy_flushes s) (sy_polling s))
| step_cancel s t q c e :
    sy_threads s !! t = Some (Waiting q c) ->
    step s (mkSystem (sy_cache s) (<[t := Answered q (Some e) FromContext]> (sy_threads s)) (sy_log s) (sy_flushes s) (sy_polling s))
| step_tick s answer now :
    sy_polling s = true -> step s (polled s (sy_cache s) answer now)
| step_notified s answer now :
    sy_polling s = true -> ac_notify (sy_cache s) = true -> step s (polled s (with_notify (sy_cache s) false) answer now)
| step_notify s :
    step s (mkSystem (NotifyAuthorizationChange (sy_cache s)) (sy_threads s) (sy_log s) (sy_flushes s) (sy_polling s))
| step_shutdown s :
    step s (mkSystem (CloseCache (sy_cache s)) (sy_threads s) (sy_log s) (sy_flushes s) (sy_polling s))
| step_exit s :
    sy_polling s = true -> ac_closed (sy_cache s) = true ->
    step s (mkSystem (sy_cache s) (sy_threads s) (sy_log s) (sy_flushes s) false).

(** A freshly constructed authorizer, after its first poll. *)
Definition started (cfg : AuthorizationCacheConfig) (s : system) : Prop :=
  exists source answer now a,
    NewCachingStreamAuthorizer cfg source answer now = Some a /\ s = mkSystem a ∅ [] 0 (cf_Enabled cfg).

Definition reachable (cfg : AuthorizationCacheConfig) (s : system) : Prop :=
  exists s0, started cfg s0 /\ rtc step s0 s.

(** *** The invariant *)

Definition backed (log : list decision) q r : Prop :=
  exists d, d ∈ log /\ authorizationCacheKey (d_req d) = authorizationCacheKey q /\ d_err d = r.

Definition answered_ok (cfg : AuthorizationCacheConfig) (log : list decision) q r (o : origin) : Prop :=
  match o with
  | FromContext => r <> None
  | FromInner | FromCall => backed log q r
  | FromCache now fl stale =>
      (r = None -> stale = false) /\
      exists d, d ∈ log /\ authorizationCacheKey (d_req d) = authorizationCacheKey q /\ d_err d = r /\ d_stored d = fl /\
        now <= d_stamp d + ttl_for cfg (is_nil r)
  end.

(** The request and the call object a thread is responsible for. *)
Definition owns (th : thread) : option (authz_request * nat) :=
  match th with
  | Calling q c _ | Stored q c _ | Unlinked q c _ => Some (q, c)
  | _ => None
  end.

Definition owner (ts : gmap nat thread) (t : nat) : option (authz_request * nat) := ts !! t ≫= owns.

Definition owned (ts : gmap nat thread) (k : bytes) (c : nat) : Prop :=
  exists t q, owner ts t = Some (q, c) /\ authorizationCacheKey q = k.

Definition thread_ok (s : system) (th : thread) : Prop :=
  let a := sy_cache s in
  match th with
  | Bypassing _ => True
  | Calling q c _ => ac_inFlight a !! authorizationCacheKey q = Some c /\ ac_calls a !! c = Some (mkCall false false None)
  | Stored q c r =>
      ac_inFlight a !! authorizationCacheKey q = Some c /\ ac_calls a !! c = Some (mkCall false false None) /\ backed (sy_log s) q r
  | Unlinked q c r =>
      (forall k, ac_inFlight a !! k <> Some c) /\ ac_calls a !! c = Some (mkCall false (is_nil r) r) /\ backed (sy_log s) q r
  | Waiting q c =>
      exists call, ac_calls a !! c = Some call /\
        (if call_done call then call_allowed call = is_nil (call_err call) /\ backed (sy_log s) q (call_err call)
         else owned (sy_threads s) (authorizationCacheKey q) c)
  | Answered q r o => answered_ok (ac_config a) (sy_log s) q r o
  end.

Definition entry_ok (s : system) (k : bytes) (e : @authorizationCacheEntry E) : Prop :=
  k <> [] /\ en_allowed e = is_nil (en_err e) /\
  exists d, d ∈ sy_log s /\ authorizationCacheKey (d_req d) = k /\ d_err d = en_err e /\
    en_expiresAt e = d_stamp d + ttl_for (ac_config (sy_cache s)) (is_nil (d_err d)) /\ d_stored d = sy_flushes s.

Definition bounded a : Prop :=
  cf_Enabled (ac_config a) = true -> 0 < cf_MaxEntries (ac_config a) /\ Z.of_nat (size (ac_entries a)) <= cf_MaxEntries (ac_config a).

Record sys_inv (cfg : AuthorizationCacheConfig) (s : system) : Prop := {
  si_config : ac_config (sy_cache s) = cfg;
  si_entry : forall k e, ac_entries (sy_cache s) !! k = Some e -> entry_ok s k e;
  si_bound : bounded (sy_cache s);
  si_enabled : forall t q c, owner (sy_threads s) t = Some (q, c) -> cf_Enabled cfg = true;
  si_flight : forall k c, ac_inFlight (sy_cache s) !! k = Some c -> owned (sy_threads s) k c;
  si_fresh : forall c, ac_calls (sy_cache s) !! c <> None -> (c < ac_next (sy_cache s))%nat;
  si_unique : forall t1 t2 q1 q2 c, owner (sy_threads s) t1 = Some (q1, c) -> owner (sy_threads s) t2 = Some (q2, c) -> t1 = t2;
  si_thread : forall t th, sy_threads s !! t = Some th -> thread_ok s th;
}.

(** *** Preservation *)

Lemma backed_mono log log' q r : log ⊆ log' -> backed log q r -> backed log' q r.
Proof. intros Hl (d & Hd & Hk). exists d. auto. Qed.

Lemma answered_mono cfg log log' q r o : log ⊆ log' -> answered_ok cfg log q r o -> answered_ok cfg log' q r o.
Proof.
  intros Hl. destruct o; simpl; [|by apply backed_mono|by apply backed_mono|done].
  intros [Hs (d & Hd & Hk)]. split; [done|]. exists d. auto.
Qed.

Lemma owner_insert_eq ts t th : owner (<[t := th]> ts) t = owns th.
Proof. unfold owner. by rewrite lookup_insert_eq. Qed.

Lemma owner_insert_ne ts t t' th : t <> t' -> owner (<[t := th]> ts) t' = owner ts t'.
Proof. intros. unfold owner. by rewrite lookup_insert_ne. Qed.

(** A step that leaves the calls alone and the owners unchanged. *)
Lemma inv_same_calls cfg s s' :
  sys_inv cfg s ->
  ac_config (sy_cache s') = ac_config (sy_cache s) -> ac_inFlight (sy_cache s') = ac_inFlight (sy_cache s) ->
  ac_calls (sy_cache s') = ac_calls (sy_cache s) -> ac_next (sy_cache s') = ac_next (sy_cache s) ->
  (forall k e, ac_entries (sy_cache s') !! k = Some e -> entry_ok s' k e) -> bounded (sy_cache s') ->
  sy_log s ⊆ sy_log s' -> (forall t, owner (sy_threads s') t = owner (sy_threads s) t) ->
  (forall t th, sy_threads s' !! t = Some th -> sy_threads s !! t = Some th \/ thread_ok s' th) ->
  sys_inv cfg s'.
Proof.
  intros Hi Ec Ef Ecs En He Hb Hl Ho Ht. assert (forall k c, owned (sy_threads s) k c -> owned (sy_threads s') k c) as Hown.
  { intros k c (t & q & Hq & Hk). exists t, q. by rewrite Ho. }
  split; [rewrite Ec; apply Hi|done|done| | | | |].
  - intros t q c Hq. rewrite Ho in Hq. by eapply si_enabled.
  - intros k c Hk. rewrite Ef in Hk. by eapply Hown, si_flight.
  - rewrite Ecs, En. by apply Hi.
  - intros t1 t2 q1 q2 c H1 H2. rewrite Ho in H1, H2. by eapply si_unique.
  - intros t th [Hth|]%Ht; [|done]. apply (si_thread cfg s Hi) in Hth.
    destruct th as [|q c st|q c r|q c r|q c|q r o]; simpl in *; rewrite ?Ec, ?Ef, ?Ecs; try done.
    + destruct Hth as (? & ? & ?). eauto using backed_mono.
    + destruct Hth as (? & ? & ?). eauto using backed_mono.
    + destruct Hth as (call & Hc & Hw). exists call. split; [done|]. destruct (call_done call); [|by apply Hown].
      destruct Hw. eauto using backed_mono.
    + by eapply answered_mono.
Qed.

Definition same_decision (e e' : @authorizationCacheEntry E) : Prop :=
  en_allowed e = en_allowed e' /\ en_err e = en_err e' /\ en_expiresAt e = en_expiresAt e'.

(** A lookup changes nothing but the entries, of which it drops or touches
    one; what it answers is neither expired nor barred by a failing source. *)
Lemma lookup_spec a k now :
  let a' := (lookupLocked a k now).1 in
  a' = with_entries a (ac_entries a') /\ (size (ac_entries a') <= size (ac_entries a))%nat /\
  (forall k' e', ac_entries a' !! k' = Some e' -> exists e, ac_entries a !! k' = Some e /\ same_decision e e') /\
  (forall e', (lookupLocked a k now).2 = Some e' -> exists e, ac_entries a !! k = Some e /\ same_decision e e' /\
     now <= en_expiresAt e /\ (en_allowed e = true -> too_stale a now = false)).
Proof.
  assert (forall m : gmap bytes (@authorizationCacheEntry E), (size (delete k m) <= size m)%nat /\
    (forall k' e', delete k m !! k' = Some e' -> exists e, m !! k' = Some e /\ same_decision e e')) as Hdel.
  { intros m. split; [apply map_subseteq_size, delete_subseteq|]. intros k' e' [_ He]%lookup_delete_Some. by exists e'. }
  unfold lookupLocked. destruct (ac_entries a !! k) as [e|] eqn:He.
  2: { simpl. split_and!; [by destruct a|done| |done]. intros k' e' H'. by exists e'. }
  destruct (Hdel (ac_entries a)) as [Hs Hd].
  destruct (Z.ltb_spec (en_expiresAt e) now); [by split_and!|]. destruct (en_allowed e && too_stale a now) eqn:Hst; [by split_and!|].
  cbn [fst snd with_entries ac_entries]. split_and!; [done| | |].
  - rewrite map_size_insert_Some; [done|by exists e].
  - intros k' e' H'. destruct (decide (k = k')) as [<-|]; [|rewrite lookup_insert_ne in H' by done; by exists e'].
    rewrite lookup_insert_eq in H'. injection H' as <-. exists e. done.
  - intros e' [= <-]. exists e. split_and!; try done. intros Ha. by rewrite Ha in Hst.
Qed.

(** The victim of an eviction is the least recently used entry. *)
Lemma oldest_entry_min (order : list (bytes * @authorizationCacheEntry E)) :
  order <> [] -> Forall (fun p => p.1 <> []) order ->
  exists k e, oldest_entry order = (k, en_lastAccess e) /\ (k, e) ∈ order /\
    Forall (fun p => en_lastAccess e <= en_lastAccess p.2) order.
Proof.
  unfold oldest_entry. destruct order as [|[k0 e0] order]; [done|]. intros _ Hk. apply Forall_cons in Hk as [Hk0 Hk].
  cbn [foldl]. rewrite bool_decide_true by done. cbn [orb].
  cut (exists k e, foldl (fun '(oldestKey, oldest) '(key, entry) =>
        if bool_decide (oldestKey = []) || (en_lastAccess entry <? oldest) then (key, en_lastAccess entry) else (oldestKey, oldest))
        (k0, en_lastAccess e0) order = (k, en_lastAccess e) /\ ((k, e) = (k0, e0) \/ (k, e) ∈ order) /\
        en_lastAccess e <= en_lastAccess e0 /\ Forall (fun p => en_lastAccess e <= en_lastAccess p.2) order).
  { intros (k & e & -> & Hin & H0 & Hf). exists k, e. split_and!; [done| |by constructor].
    destruct Hin as [[= -> ->]|]; [apply list_elem_of_here|by apply list_elem_of_further]. }
  revert k0 e0 Hk0. induction Hk as [|[k1 e1] order Hk1 Hk IH]; intros k0 e0 Hk0.
  { exists k0, e0. split_and!; [done|by left|done|constructor]. }
  cbn [foldl]. rewrite bool_decide_false by done. cbn [orb]. destruct (Z.ltb_spec (en_lastAccess e1) (en_lastAccess e0)).
  - destruct (IH k1 e1 Hk1) as (k & e & Ef & Hin & H0 & Hf). exists k, e. split_and!; [done| |lia|by constructor].
    right. destruct Hin as [[= -> ->]|]; [apply list_elem_of_here|by apply list_elem_of_further].
  - destruct (IH k0 e0 Hk0) as (k & e & Ef & Hin & H0 & Hf). exists k, e. split_and!; [done| |lia|constructor; [simpl; lia|done]].
    destruct Hin as [|]; [by left|right; by apply list_elem_of_further].
Qed.

Lemma store_spec a k allowed r now order :
  order ≡ₚ map_to_list (ac_entries a) -> (forall k' e, ac_entries a !! k' = Some e -> k' <> []) ->
  let a' := store a k allowed r now order in
  a' = with_entries a (ac_entries a') /\ (bounded a -> bounded a') /\
  (forall k' e', ac_entries a' !! k' = Some e' ->
     (k' = k /\ e' = mkEntry allowed r (now + ttl_for (ac_config a) allowed) now) \/ ac_entries a !! k' = Some e').
Proof.
  intros Hp Hk a'. set (m := ac_entries (if Z.of_nat (size (ac_entries a)) >=? cf_MaxEntries (ac_config a) then evictLocked a order else a)).
  assert (a' = with_entries a (<[k := mkEntry allowed r (now + ttl_for (ac_config a) allowed) now]> m)) as Ea'.
  { unfold a', store, m. case_match; [|by destruct a]. unfold evictLocked. destruct (oldest_entry order) as [ok ?]. by case_bool_decide. }
  assert (m ⊆ ac_entries a) as Hsub.
  { unfold m. case_match; [|done]. unfold evictLocked. destruct (oldest_entry order) as [ok ?]. case_bool_decide; [done|]. apply delete_subseteq. }
  rewrite Ea'. split_and!; [done| |].
  - intros Hb Hen. destruct (Hb Hen) as [Hpos Hsz]. cbn [with_entries ac_entries ac_config] in *. split; [done|].
    assert (Z.of_nat (size m) < cf_MaxEntries (ac_config a)); [|rewrite map_size_insert; case_match; cbn [id]; lia].
    unfold m. rewrite Z.geb_leb. destruct (Z.leb_spec (cf_MaxEntries (ac_config a)) (Z.of_nat (size (ac_entries a)))); [|done].
    destruct (oldest_entry_min order) as (ok & e & Eo & Hin & _).
    + intros ->. symmetry in Hp. apply Permutation_nil_r, map_to_list_empty_iff in Hp. rewrite Hp, map_size_empty in *. lia.
    + rewrite Hp. apply Forall_forall. intros [k' e] Hin%elem_of_map_to_list. by eapply Hk.
    + rewrite Hp, elem_of_map_to_list in Hin. unfold evictLocked. rewrite Eo, bool_decide_false by (by eapply Hk). cbn [with_entries ac_entries].
      pose proof (map_size_delete_Some ok (ac_entries a) (ex_intro _ e Hin)). lia.
  - intros k' e' H'. cbn [with_entries ac_entries] in H'. destruct (decide (k = k')) as [<-|]; [rewrite lookup_insert_eq in H'; left; by injection H' as <-|].
    rewrite lookup_insert_ne in H' by done. right. by eapply lookup_weaken.
Qed.

Lemma entry_ok_sub s s' k e e' :
  ac_config (sy_cache s') = ac_config (sy_cache s) -> sy_log s ⊆ sy_log s' -> sy_flushes s' = sy_flushes s ->
  same_decision e e' -> entry_ok s k e -> entry_ok s' k e'.
Proof.
  intros Ec Hl Ef (E1 & E2 & E3) (Hk & Ha & d & Hd & Hdk & Hde & Hx & Hf). split; [done|]. split; [congruence|].
  exists d. rewrite Ec, Ef. split_and!; [auto|done|congruence|congruence|done].
Qed.

Lemma owner_call cfg s t q c :
  sys_inv cfg s -> owner (sy_threads s) t = Some (q, c) ->
  exists call, ac_calls (sy_cache s) !! c = Some call /\ call_done call = false.
Proof.
  intros Hi Ho. unfold owner in Ho. destruct (sy_threads s !! t) as [th|] eqn:Ht; [|done]. apply (si_thread cfg s Hi) in Ht.
  destruct th; simpl in *; simplify_eq; destruct_and!; (eexists; split; [eassumption|done]).
Qed.

Lemma insert_cases (ts : gmap nat thread) (t t' : nat) th th' :
  <[t := th]> ts !! t' = Some th' -> (t' = t /\ th' = th) \/ (t <> t' /\ ts !! t' = Some th').
Proof.
  destruct (decide (t = t')) as [<-|]; [rewrite lookup_insert_eq|rewrite lookup_insert_ne by done; auto]. intros [= ->]. auto.
Qed.

(** A critical section that touches only the entries, and moves a thread that
    owns no call. *)
Lemma plain_preserves cfg s t th m :
  sys_inv cfg s -> owner (sy_threads s) t = None -> (size m <= size (ac_entries (sy_cache s)))%nat ->
  (forall k' e', m !! k' = Some e' -> exists e, ac_entries (sy_cache s) !! k' = Some e /\ same_decision e e') -> owns th = None ->
  let s' := mkSystem (with_entries (sy_cache s) m) (<[t := th]> (sy_threads s)) (sy_log s) (sy_flushes s) (sy_polling s) in
  thread_ok s' th -> sys_inv cfg s'.
Proof.
  intros Hi Hot Hsz Hm Hown s' Hok. subst s'. apply (inv_same_calls cfg s); try done; cbn [sy_threads].
  - intros k' e' (e & He & Hs)%Hm. eapply entry_ok_sub; [..|by apply (si_entry cfg s Hi)]; done.
  - intros Hen. pose proof (si_bound cfg s Hi Hen) as [? ?]. split; [done|]. simpl. lia.
  - intros t'. destruct (decide (t = t')) as [<-|]; [by rewrite owner_insert_eq, Hot|by apply owner_insert_ne].
  - intros t' th' [[-> ->]|[_ Hth]]%insert_cases; [by right|by left].
Qed.

(** A new call: nobody else knows its object, and nobody is in flight for its
    key. *)
Lemma start_preserves cfg s t q m :
  sys_inv cfg s -> cf_Enabled cfg = true -> owner (sy_threads s) t = None -> (size m <= size (ac_entries (sy_cache s)))%nat ->
  (forall k' e', m !! k' = Some e' -> exists e, ac_entries (sy_cache s) !! k' = Some e /\ same_decision e e') ->
  ac_inFlight (sy_cache s) !! authorizationCacheKey q = None ->
  let c := ac_next (sy_cache s) in
  sys_inv cfg (mkSystem (with_calls (with_entries (sy_cache s) m) (<[authorizationCacheKey q := c]> (ac_inFlight (sy_cache s)))
    (<[c := mkCall false false None]> (ac_calls (sy_cache s))) (S c))
    (<[t := Calling q c (sy_flushes s)]> (sy_threads s)) (sy_log s) (sy_flushes s) (sy_polling s)).
Proof.
  intros Hi Hen Hot Hsz Hsub Hf c. set (k := authorizationCacheKey q) in *. assert (ac_calls (sy_cache s) !! c = None) as Hc.
  { apply eq_None_not_Some. intros [x Hx]. pose proof (si_fresh cfg s Hi c ltac:(congruence)). lia. }
  assert (forall t' q' c', owner (sy_threads s) t' = Some (q', c') -> c' <> c) as Hne.
  { intros t' q' c' Ho ->. destruct (owner_call cfg s t' q' c Hi Ho) as (? & ? & _). congruence. }
  assert (forall k' c', owned (sy_threads s) k' c' -> owned (<[t := Calling q c (sy_flushes s)]> (sy_threads s)) k' c') as Hown.
  { intros k' c' (t' & q' & Ho & Hk'). exists t', q'. rewrite owner_insert_ne; [done|]. intros <-. congruence. }
  split; cbn [sy_cache sy_threads sy_log sy_flushes ac_config ac_entries ac_inFlight ac_calls ac_next with_entries with_calls].
  - apply Hi.
  - intros k' e' (e & He & Hs)%Hsub. eapply entry_ok_sub; [..|by apply (si_entry cfg s Hi)]; done.
  - intros Hen'. pose proof (si_bound cfg s Hi Hen') as [? ?]. split; [done|]. simpl. lia.
  - done.
  - intros k' c'. destruct (decide (k = k')) as [<-|]; [|rewrite lookup_insert_ne by done; intros; by eapply Hown, si_flight].
    rewrite lookup_insert_eq. intros [= <-]. exists t, q. by rewrite owner_insert_eq.
  - intros c'. destruct (decide (c = c')) as [<-|]; [lia|]. rewrite lookup_insert_ne by done. intros Hx%(si_fresh cfg s Hi). unfold c. lia.
  - intros t1 t2 q1 q2 c'. destruct (decide (t = t1)) as [<-|], (decide (t = t2)) as [<-|];
      rewrite ?owner_insert_eq, ?owner_insert_ne by done; simpl.
    + done.
    + intros [= <- <-] H2. by apply Hne in H2.
    + intros H1 [= <- <-]. by apply Hne in H1.
    + apply Hi.
  - intros t' th [[-> ->]|[_ Hth]]%insert_cases; [simpl; by rewrite !lookup_insert_eq|].
    pose proof (si_thread cfg s Hi t' th Hth) as Hok.
    assert (forall q' c', owns th = Some (q', c') -> c <> c') as Hnc.
    { intros q' c' E'. apply not_eq_sym, (Hne t' q'). unfold owner. by rewrite Hth. }
    assert (forall q' c', ac_inFlight (sy_cache s) !! authorizationCacheKey q' = Some c' -> k <> authorizationCacheKey q') as Hnk by congruence.
    destruct th as [|q' c' st|q' c' r|q' c' r|q' c'|q' r o]; simpl in *; try done.
    1-2: rewrite !lookup_insert_ne by naive_solver; done.
    + rewrite (lookup_insert_ne _ c) by naive_solver. split; [|apply Hok]. intros k'.
      destruct (decide (k = k')) as [<-|]; [rewrite lookup_insert_eq; naive_solver|rewrite lookup_insert_ne by done; apply Hok].
    + destruct Hok as (call & Hcall & Hw). exists call. rewrite lookup_insert_ne by congruence. split; [done|].
    destruct (call_done call); [done|]. by apply Hown.
Qed.

Lemma enter_preserves cfg s t q now :
  sys_inv cfg s -> sy_threads s !! t = None ->
  sys_inv cfg (mkSystem (Authorize_enter (sy_cache s) q now).1
    (<[t := after_enter q now s (Authorize_enter (sy_cache s) q now).2]> (sy_threads s)) (sy_log s) (sy_flushes s) (sy_polling s)).
Proof.
  intros Hi Ht. assert (owner (sy_threads s) t = None) as Hot by (unfold owner; by rewrite Ht). unfold Authorize_enter.
  destruct (cf_Enabled (ac_config (sy_cache s))) eqn:Hen; cbn [negb].
  2: { replace (sy_cache s) with (with_entries (sy_cache s) (ac_entries (sy_cache s))) at 1 by (by destruct (sy_cache s)).
       apply plain_preserves; try done. intros k' e' He. by exists e'. }
  set (k := authorizationCacheKey q). destruct (lookup_spec (sy_cache s) k now) as (Ea & Hsz & Hsub & Hhit).
  destruct (lookupLocked (sy_cache s) k now) as [a' [e'|]]; cbn [fst snd] in *; rewrite Ea.
  { destruct (Hhit e' eq_refl) as (e & He & (E1 & E2 & E3) & Hx & Hst). destruct (si_entry cfg s Hi k e He) as (_ & Hal & d & Hd & Hdk & Hde & Hdx & Hdf).
    assert ((if en_allowed e' then None else en_err e') = en_err e) as Er by (rewrite <- E1, <- E2, Hal; by destruct (en_err e)).
    apply plain_preserves; try done. cbn [after_enter]. rewrite Er. split; [intros En; apply Hst; by rewrite Hal, En|].
    exists d. rewrite Hdx, Hde in Hx. done. }
  change (ac_inFlight (with_entries (sy_cache s) (ac_entries a'))) with (ac_inFlight (sy_cache s)).
  destruct (ac_inFlight (sy_cache s) !! k) as [c|] eqn:Hf.
  - apply plain_preserves; try done. destruct (si_flight cfg s Hi k c Hf) as (t' & q' & Ho & Hk').
    destruct (owner_call cfg s t' q' c Hi Ho) as (call & Hc & Hd). exists call. split; [done|]. rewrite Hd. exists t', q'.
    split; [|done]. cbn [sy_threads]. rewrite owner_insert_ne; [done|]. intros <-. congruence.
  - apply start_preserves; try done. by rewrite <- (si_config cfg s Hi).
Qed.

Lemma key_not_nil q : authorizationCacheKey q <> [].
Proof. unfold authorizationCacheKey, key_parts. rewrite Join_cons by done. by destruct (rq_TokenID q). Qed.

Lemma owner_eq ts t th : ts !! t = Some th -> owner ts t = owns th.
Proof. intros Ht. unfold owner. by rewrite Ht. Qed.

(** Moving a thread without changing what it owns keeps all owners. *)
Lemma owner_moved ts t th th' : ts !! t = Some th -> owns th' = owns th -> forall t', owner (<[t := th']> ts) t' = owner ts t'.
Proof.
  intros Ht E' t'. destruct (decide (t = t')) as [<-|]; [by rewrite owner_insert_eq, (owner_eq _ _ _ Ht)|by apply owner_insert_ne].
Qed.

Lemma logged_backed log q r now n m : backed (log ++ [mkDecision q r now n m]) q r.
Proof. eexists. split; [apply elem_of_app; right; by apply list_elem_of_singleton|done]. Qed.

Lemma bypass_preserves cfg s t q r now :
  sys_inv cfg s -> sy_threads s !! t = Some (Bypassing q) ->
  sys_inv cfg (mkSystem (sy_cache s) (<[t := Answered q r FromInner]> (sy_threads s))
    (sy_log s ++ [mkDecision q r now (sy_flushes s) (sy_flushes s)]) (sy_flushes s) (sy_polling s)).
Proof.
  intros Hi Ht. apply (inv_same_calls cfg s); try done; cbn [sy_cache sy_threads sy_log].
  - intros k e He. apply (entry_ok_sub s _ k e e); [done|cbn [sy_log]; set_solver|done|done|by apply (si_entry cfg s Hi)].
  - apply Hi.
  - set_solver.
  - by eapply owner_moved.
  - intros t' th' [[-> ->]|[_ Hth]]%insert_cases; [right; apply logged_backed|by left].
Qed.

Lemma store_preserves cfg s t q c started r now order :
  sys_inv cfg s -> sy_threads s !! t = Some (Calling q c started) -> order ≡ₚ map_to_list (ac_entries (sy_cache s)) ->
  sys_inv cfg (mkSystem (Authorize_store (sy_cache s) q r now order) (<[t := Stored q c r]> (sy_threads s))
    (sy_log s ++ [mkDecision q r now started (sy_flushes s)]) (sy_flushes s) (sy_polling s)).
Proof.
  intros Hi Ht Hp. destruct (store_spec (sy_cache s) (authorizationCacheKey q) (is_nil r) r now order Hp) as (Ea & Hb & He).
  { intros k e Hk. by apply (si_entry cfg s Hi) in Hk as [? _]. }
  unfold Authorize_store. set (a' := store _ _ _ _ _ _) in *. clearbody a'. pose proof (si_thread cfg s Hi t _ Ht) as [Hf Hc].
  apply (inv_same_calls cfg s); cbn [sy_cache sy_threads sy_log]; try (by rewrite Ea); try done.
  - intros k e [[-> ->]|Hk]%He.
    + split; [apply key_not_nil|]. split; [done|]. eexists. split; [apply elem_of_app; right; by apply list_elem_of_singleton|].
      cbn. rewrite Ea. done.
    + apply (entry_ok_sub s _ k e e); [by cbn; rewrite Ea|cbn [sy_log]; set_solver|done|done|by apply (si_entry cfg s Hi)].
  - apply Hb, Hi.
  - set_solver.
  - by eapply owner_moved.
  - intros t' th' [[-> ->]|[_ Hth]]%insert_cases; [right|by left]. simpl. rewrite Ea. split_and!; [done|done|apply logged_backed].
Qed.

(** A step of the owner of a call that rewrites that call object and possibly
    removes its in-flight link. *)
Lemma owner_step cfg s t th th' q c fl call' :
  sys_inv cfg s -> sy_threads s !! t = Some th -> owns th = Some (q, c) -> (owns th' = Some (q, c) \/ owns th' = None) ->
  ((ac_inFlight (sy_cache s) !! authorizationCacheKey q = Some c /\ fl = delete (authorizationCacheKey q) (ac_inFlight (sy_cache s))) \/
   fl = ac_inFlight (sy_cache s)) ->
  let s' := mkSystem (with_calls (sy_cache s) fl (<[c := call']> (ac_calls (sy_cache s))) (ac_next (sy_cache s)))
              (<[t := th']> (sy_threads s)) (sy_log s) (sy_flushes s) (sy_polling s) in
  thread_ok s' th' ->
  (if call_done call' then call_allowed call' = is_nil (call_err call') /\ backed (sy_log s) q (call_err call') else owns th' = Some (q, c)) ->
  (forall k, fl !! k <> Some c) ->
  sys_inv cfg s'.
Proof.
  intros Hi Ht Ho Ho' Hfl s' Hok Hcall Hfc. pose proof (owner_eq _ _ _ Ht) as Hot. rewrite Ho in Hot.
  assert (forall t' q' c', t <> t' -> owner (sy_threads s) t' = Some (q', c') -> c' <> c) as Hne.
  { intros t' q' c' Hn H' ->. by apply Hn, (si_unique cfg s Hi t t' q q' c). }
  assert (forall k' c', owned (sy_threads s) k' c' -> c' <> c -> owned (<[t := th']> (sy_threads s)) k' c') as Hown.
  { intros k' c' (t' & q' & H' & Hk') Hn. exists t', q'. rewrite owner_insert_ne; [done|]. intros <-. congruence. }
  assert (fl ⊆ ac_inFlight (sy_cache s)) as Hsub by (destruct Hfl as [[_ ->]| ->]; [apply delete_subseteq|done]).
  split; subst s'; cbn [sy_cache sy_threads sy_log sy_flushes ac_config ac_entries ac_inFlight ac_calls ac_next with_calls].
  - apply Hi.
  - intros k e He. by apply (entry_ok_sub s _ k e e), (si_entry cfg s Hi).
  - apply Hi.
  - intros t' q' c'. destruct (decide (t = t')) as [<-|]; [intros _; by eapply si_enabled|rewrite owner_insert_ne by done; apply Hi].
  - intros k' c' Hk'. apply Hown; [by eapply si_flight, lookup_weaken|]. intros ->. by apply Hfc in Hk'.
  - intros c'. destruct (decide (c = c')) as [<-|]; [intros _|rewrite lookup_insert_ne by done; apply Hi].
    apply (si_fresh cfg s Hi). destruct (owner_call cfg s t q c Hi Hot) as (? & -> & _). done.
  - intros t1 t2 q1 q2 c'. destruct (decide (t = t1)) as [<-|], (decide (t = t2)) as [<-|];
      rewrite ?owner_insert_eq, ?owner_insert_ne by done; [done| | |apply Hi]; destruct Ho' as [->| ->]; try done.
    + intros [= <- <-] H2. by apply Hne in H2.
    + intros H1 [= <- <-]. by apply Hne in H1.
  - intros t' th2 [[-> ->]|[Hn Hth]]%insert_cases; [done|]. pose proof (si_thread cfg s Hi t' th2 Hth) as Hok2.
    pose proof (owner_eq _ _ _ Hth) as Ho2.
    assert (forall q' c', owns th2 = Some (q', c') -> c <> c') as Hnc.
    { intros q' c' E'. rewrite E' in Ho2. by apply not_eq_sym, (Hne t' q'). }
    assert (forall q' c', c <> c' -> ac_inFlight (sy_cache s) !! authorizationCacheKey q' = Some c' -> fl !! authorizationCacheKey q' = Some c') as Hkeep.
    { intros q' c' Hcc Hfq. destruct Hfl as [[Hq ->]| ->]; [|done]. apply lookup_delete_Some. split; [|done]. intros Ek. rewrite Ek in Hq. congruence. }
    destruct th2 as [|q' c' st|q' c' r|q' c' r|q' c'|q' r o]; simpl in *; try done.
    1-2: rewrite lookup_insert_ne by eauto; naive_solver.
    { rewrite lookup_insert_ne by eauto. split; [|apply Hok2]. intros k' Hk'. eapply lookup_weaken in Hk'; [|exact Hsub]. by apply Hok2 in Hk'. }
    destruct Hok2 as (call2 & Hc2 & Hw). destruct (decide (c = c')) as [<-|].
    + exists call'. rewrite lookup_insert_eq. split; [done|]. destruct (owner_call cfg s t q c Hi Hot) as (call1 & Hc1 & Hd1).
      assert (call2 = call1) as -> by congruence. rewrite Hd1 in Hw. destruct Hw as (t3 & q3 & Ho3 & Hk3).
      assert (t3 = t) as -> by (by eapply (si_unique cfg s Hi)). rewrite Hot in Ho3. injection Ho3 as <-.
      destruct (call_done call'); [|exists t, q; by rewrite owner_insert_eq]. destruct Hcall as [? (d & ? & ? & ?)].
      split; [done|]. exists d. split_and!; [done|congruence|done].
    + exists call2. rewrite lookup_insert_ne by done. split; [done|]. destruct (call_done call2); [done|]. by apply Hown.
Qed.

Lemma unlink_preserves cfg s t q c r :
  sys_inv cfg s -> sy_threads s !! t = Some (Stored q c r) ->
  sys_inv cfg (mkSystem (Authorize_unlink (sy_cache s) q c r) (<[t := Unlinked q c r]> (sy_threads s)) (sy_log s) (sy_flushes s) (sy_polling s)).
Proof.
  intros Hi Ht. pose proof (si_thread cfg s Hi t _ Ht) as (Hf & Hc & Hb).
  assert (forall k, delete (authorizationCacheKey q) (ac_inFlight (sy_cache s)) !! k <> Some c) as Hno.
  { intros k [Hk (t' & q' & Ho & Hk')%(si_flight cfg s Hi)]%lookup_delete_Some. pose proof (owner_eq _ _ _ Ht) as Hot. simpl in Hot.
    assert (t' = t) as -> by (by eapply (si_unique cfg s Hi)). congruence. }
  apply (owner_step cfg s t (Stored q c r) (Unlinked q c r) q c); try done; [by left|by left|]. simpl. by rewrite lookup_insert_eq.
Qed.

Lemma close_preserves cfg s t q c r :
  sys_inv cfg s -> sy_threads s !! t = Some (Unlinked q c r) ->
  sys_inv cfg (mkSystem (Authorize_close (sy_cache s) c) (<[t := Answered q r FromInner]> (sy_threads s)) (sy_log s) (sy_flushes s) (sy_polling s)).
Proof.
  intros Hi Ht. pose proof (si_thread cfg s Hi t _ Ht) as (Hf & Hc & Hb). unfold Authorize_close.
  replace (alter _ c (ac_calls (sy_cache s))) with (<[c := mkCall true (is_nil r) r]> (ac_calls (sy_cache s))).
  2: { apply map_eq. intros c'. destruct (decide (c = c')) as [<-|]; [by rewrite lookup_insert_eq, lookup_alter_eq, Hc|by rewrite lookup_insert_ne, lookup_alter_ne]. }
  apply (owner_step cfg s t (Unlinked q c r) (Answered q r FromInner) q c); try done; by right.
Qed.

(** A waiter leaves, with the published result or its context's error. *)
Lemma wait_preserves cfg s t q c r o :
  sys_inv cfg s -> sy_threads s !! t = Some (Waiting q c) -> answered_ok cfg (sy_log s) q r o ->
  sys_inv cfg (mkSystem (sy_cache s) (<[t := Answered q r o]> (sy_threads s)) (sy_log s) (sy_flushes s) (sy_polling s)).
Proof.
  intros Hi Ht Ho. apply (inv_same_calls cfg s); try done; cbn [sy_cache sy_threads sy_log].
  - intros k e He. by apply (entry_ok_sub s _ k e e), (si_entry cfg s Hi).
  - apply Hi.
  - by eapply owner_moved.
  - intros t' th' [[-> ->]|[_ Hth]]%insert_cases; [right|by left]. simpl. by rewrite (si_config cfg s Hi).
Qed.

(** A poll, a notification or a shutdown: the calls and threads stay, and the
    entries stay unless the generation changed. *)
Lemma poll_preserves cfg s a fl polling :
  sys_inv cfg s -> ac_config a = cfg -> ac_inFlight a = ac_inFlight (sy_cache s) -> ac_calls a = ac_calls (sy_cache s) ->
  ac_next a = ac_next (sy_cache s) -> (ac_entries a = ∅ \/ ac_entries a = ac_entries (sy_cache s) /\ fl = sy_flushes s) ->
  sys_inv cfg (mkSystem a (sy_threads s) (sy_log s) fl polling).
Proof.
  intros Hi Ec Ef Ecs En He. pose proof (si_config cfg s Hi) as Hcfg. apply (inv_same_calls cfg s); try done; cbn [sy_cache sy_threads sy_log]; [congruence| | |by left].
  - intros k e Hk. destruct He as [He|[He ->]]; rewrite He in Hk; [done|]. apply (entry_ok_sub s _ k e e); try done; [simpl; congruence|by apply (si_entry cfg s Hi)].
  - intros Hen. destruct (si_bound cfg s Hi) as [? ?]; [congruence|]. rewrite Hcfg in *. rewrite Ec. split; [done|].
    destruct He as [->|[-> _]]; rewrite ?map_size_empty; lia.
Qed.

Lemma pollRevision_preserves cfg s a answer now :
  sys_inv cfg s -> ac_config a = cfg -> ac_inFlight a = ac_inFlight (sy_cache s) -> ac_calls a = ac_calls (sy_cache s) ->
  ac_next a = ac_next (sy_cache s) -> ac_entries a = ac_entries (sy_cache s) -> sys_inv cfg (polled s a answer now).
Proof.
  intros Hi Ec Ef Ecs En He. unfold polled, pollRevision, flushes. destruct answer as [rev|]; [case_bool_decide|];
    rewrite ?Nat.add_0_r; apply poll_preserves; auto.
Qed.

Lemma step_preserves cfg s s' : sys_inv cfg s -> step s s' -> sys_inv cfg s'.
Proof.
  intros Hi Hs. destruct Hs as [s t q now Ht|s t q r now Ht|s t q c st r now order Ht Hp|s t q c r Ht|s t q c r Ht|s t q c call Ht Hc Hd|s t q c e Ht|s answer now Hp|s answer now Hp Hn|s|s|s Hp Hc].
  - by apply enter_preserves.
  - by apply bypass_preserves.
  - by apply store_preserves.
  - by apply unlink_preserves.
  - by apply close_preserves.
  - eapply wait_preserves; [done|done|]. pose proof (si_thread cfg s Hi t _ Ht) as (call' & Hc' & Hw).
    assert (call' = call) as -> by congruence. rewrite Hd in Hw. destruct Hw as [Ha Hb]. simpl. unfold wait_answer. rewrite Ha. by destruct (call_err call).
  - by eapply wait_preserves.
  - apply pollRevision_preserves; try done. apply Hi.
  - apply pollRevision_preserves; try done. apply Hi.
  - unfold NotifyAuthorizationChange. apply poll_preserves; try done; case_match; try done; try apply Hi; by right.
  - apply poll_preserves; try done; [apply Hi|by right].
  - apply poll_preserves; try done; [apply Hi|by right].
Qed.

Lemma cache_reachable_inv cfg s : reachable cfg s -> sys_inv cfg s.
Proof.
  intros (s0 & (source & answer & now & a & Hn & ->) & Hr). revert Hr. apply rtc_preserve; [intros x y; apply step_preserves|].
  assert (ac_config a = cfg /\ ac_entries a = ∅ /\ ac_inFlight a = ∅ /\ ac_calls a = ∅ /\ (cf_Enabled cfg = true -> config_ok cfg = true)) as (Ec & Ee & Ef & Ecs & Hok).
  { unfold NewCachingStreamAuthorizer in Hn. destruct (cf_Enabled cfg); [|by injection Hn as <-]. destruct source, (config_ok cfg); try done.
    injection Hn as <-. unfold pollRevision. destruct answer; [case_bool_decide|]; done. }
  split; cbn [sy_cache sy_threads]; rewrite ?Ee, ?Ef, ?Ecs; try done.
  intros Hen. rewrite Ec in *. apply Hok in Hen. unfold config_ok in Hen. split_bools. rewrite Ee, map_size_empty. lia.
Qed.

(** *** The cache key *)

(** A request whose fields carry no NUL byte. *)
Definition clean q : Prop :=
  Forall (fun x => NUL ∉ x) [rq_TokenID q; rq_OwnerUserID q; rq_Type q; rq_AgentID q; rq_Protocol q; rq_TargetHost q].

Lemma Itoa_no_NUL n : NUL ∉ Itoa n.
Proof.
  destruct (Z.ltb_spec n 0) as [Hn|Hn]; [|by apply Itoa_not_elem].
  unfold Itoa. rewrite (proj2 (Z.ltb_lt n 0) Hn). intros [?|Hin]%elem_of_cons; [done|].
  pose proof (digits_of_digits (S (Z.to_nat (Z.log2 (- n)))) (- n) ltac:(lia)) as Hf. rewrite Forall_forall in Hf. by apply Hf in Hin.
Qed.

Lemma cache_key_inj q q' : clean q -> authorizationCacheKey q = authorizationCacheKey q' -> q = q'.
Proof.
  intros Hc E'. apply Join_inj_one in E'; [|done|done|].
  - destruct q, q'. unfold key_parts in E'. simpl in E'. injection E' as -> -> -> -> -> -> Hp. by apply (inj Itoa) in Hp as ->.
  - unfold clean in Hc. change (key_parts q) with ([rq_TokenID q; rq_OwnerUserID q; rq_Type q; rq_AgentID q; rq_Protocol q; rq_TargetHost q] ++ [Itoa (rq_TargetPort q)]).
    apply Forall_app. split; [done|]. apply Forall_singleton, Itoa_no_NUL.
Qed.

(** *** Properties *)


(** Concurrent identical requests share one inner call, and none of them is
    forgotten: at most one goroutine at a time runs the inner authorizer for a
    key, and a waiter's call is done or still has a goroutine that will finish
    it. *)
Theorem calls_coalesce cfg s :
  reachable cfg s ->
  (forall t1 t2 q1 q2 c1 c2 n1 n2, sy_threads s !! t1 = Some (Calling q1 c1 n1) -> sy_threads s !! t2 = Some (Calling q2 c2 n2) ->
     authorizationCacheKey q1 = authorizationCacheKey q2 -> t1 = t2) /\
  (forall t q c, sy_threads s !! t = Some (Waiting q c) -> exists call, ac_calls (sy_cache s) !! c = Some call /\
     (call_done call = true \/ exists t' th q', sy_threads s !! t' = Some th /\ owns th = Some (q', c) /\ authorizationCacheKey q' = authorizationCacheKey q)).
Proof.
  intros Hi%cache_reachable_inv. split.
  - intros t1 t2 q1 q2 c1 c2 n1 n2 H1 H2 Ek. pose proof (si_thread cfg s Hi _ _ H1) as [F1 _]. pose proof (si_thread cfg s Hi _ _ H2) as [F2 _].
    rewrite Ek in F1. assert (c1 = c2) as -> by congruence. apply owner_eq in H1, H2. by eapply (si_unique cfg s Hi).
  - intros t q c Ht. pose proof (si_thread cfg s Hi _ _ Ht) as (call & Hc & Hw). exists call. split; [done|].
    destruct (call_done call); [by left|right]. destruct Hw as (t' & q' & Ho & Hk). unfold owner in Ho.
    destruct (sy_threads s !! t') as [th|] eqn:Ht'; [|done]. by exists t', th, q'.
Qed.

(** The cache never holds more than the configured number of entries. *)
Theorem cache_bounded cfg s :
  reachable cfg s -> cf_Enabled cfg = true -> Z.of_nat (size (ac_entries (sy_cache s))) <= cf_MaxEntries cfg.
Proof. intros Hi%cache_reachable_inv Hen. pose proof (si_config cfg s Hi) as Hc. rewrite <- Hc in *. by apply (si_bound _ s Hi). Qed.
End system.

(** ** Examples *)

Definition sample_config : AuthorizationCacheConfig := mkConfig true 300 3 2 5 1.
Definition sample_request : authz_request := mkRequest #"tok" #"user" #"client" #"agent" #"tcp" #"10.0.0.1" 22.
Definition sample_start : @system bytes :=
  mkSystem (default (mkCache sample_config ∅ ∅ ∅ 0 0 None false false false) (NewCachingStreamAuthorizer sample_config true (Some 0) 0)) ∅ [] 0 true.

Lemma sample_started : started sample_config sample_start.
Proof. exists true, (Some 0), 0. eexists. split; [vm_compute; reflexivity|vm_compute; reflexivity]. Qed.

(** The start of the request's life: it misses, and the inner call begins. *)
Definition sample_calling : system :=
  mkSystem (Authorize_enter (sy_cache sample_start) sample_request 1).1 {[0%nat := Calling sample_request 0 0]} [] 0 true.

Lemma sample_calling_step : step sample_start sample_calling.
Proof. exact (step_enter sample_start 0 sample_request 1 eq_refl). Qed.

(** A second caller reads the stored decision. *)
Definition sample_served (s : @system bytes) : system :=
  mkSystem (Authorize_enter (sy_cache s) sample_request 4).1
    (<[1%nat := after_enter sample_request 4 s (Authorize_enter (sy_cache s) sample_request 4).2]> (sy_threads s)) (sy_log s) (sy_flushes s) (sy_polling s).

Definition sample_stored (s : @system bytes) : system :=
  mkSystem (Authorize_store (sy_cache s) sample_request None 3 (map_to_list (ac_entries (sy_cache s))))
    (<[0%nat := Stored sample_request 0 None]> (sy_threads s)) (sy_log s ++ [mkDecision sample_request None 3 0 (sy_flushes s)]) (sy_flushes s) (sy_polling s).

Lemma sample_reachable : reachable sample_config (sample_served (sample_stored sample_calling)).
Proof.
  exists sample_start. split; [apply sample_started|]. eapply rtc_l; [apply sample_calling_step|].
  eapply rtc_l; [by apply (step_store sample_calling 0 sample_request 0 0 None 3)|]. apply rtc_once. by apply step_enter.
Qed.


Lemma calls_coalesce_witness :
  let s := sample_served sample_calling in
  sy_threads s !! 1%nat = Some (Waiting sample_request 0) /\
  exists call, ac_calls (sy_cache s) !! 0%nat = Some call /\
    (call_done call = true \/ exists t' th q', sy_threads s !! t' = Some th /\ owns th = Some (q', 0%nat) /\ authorizationCacheKey q' = authorizationCacheKey sample_request).
Proof.
  intros s. assert (sy_threads s !! 1%nat = Some (Waiting sample_request 0)) as Hw by (by vm_compute). split; [done|].
  apply (proj2 (calls_coalesce sample_config s ltac:(
    exists sample_start; split; [apply sample_started|]; eapply rtc_l; [apply sample_calling_step|]; apply rtc_once; by apply step_enter)) 1%nat); done.
Defined.

Lemma cache_bounded_witness : Z.of_nat (size (ac_entries (sy_cache (sample_served (sample_stored sample_calling))))) <= 1.
Proof. apply (cache_bounded sample_config _ sample_reachable). by vm_compute. Defined.

(** [store] does not look at the generation: a decision computed before a
    revision change is stored after the flush and served as current.  Here the
    permission is revoked (the generation goes from 0 to 1) while the inner
    call is running, and the next caller is allowed from the cache. *)
Lemma revoked_decision_served :
  let s := sample_served (sample_stored (polled sample_calling (sy_cache sample_calling) (Some 1) 2)) in
  reachable sample_config s /\ sy_threads s !! 1%nat = Some (Answered sample_request None (FromCache 4 1 false)) /\
  Forall (fun d => (d_started d < 1)%nat) (sy_log s).
Proof.
  split_and!; [|by vm_compute|apply (bool_decide_unpack _); by vm_compute].
  exists sample_start. split; [apply sample_started|]. eapply rtc_l; [apply sample_calling_step|].
  eapply rtc_l; [by apply (step_tick sample_calling (Some 1) 2)|]. eapply rtc_l; [by apply (step_store _ 0 sample_request 0 0 None 3)|].
  apply rtc_once. by apply step_enter.
Qed.
