(* ===== verification/Socks5.v ===== *)
(** * SOCKS5 handshakes and the client's SOCKS5 listener

    [internal/proxy/handshake.go] (the SOCKS5 readers and encoders, the
    buffered [ParseSOCKS5Connect], PROXY protocol v2) and the connection
    handler of [internal/client/socks5_forward.go].

    A connection is the bytes its peer will send and the bytes written to it.
    The remote validator and the stream opener the handler calls are arguments:
    the first an HTTP service, the second any [StreamOpener].  A slice index
    out of range is a panic, modelled as [None]. *)

From stdpp Require Import base list strings.
From Stdlib Require Import Ascii ZArith Lia.
From S2P Require Import Prelude GoStrings GoNet GoCrypto Wire.
Local Open Scope Z_scope.

Inductive handshake_err := ErrMalformedHandshake | ErrUnsupportedCommand.

(** ** Readers *)

Definition SOCKS5Connect : Z := 1.
Definition SOCKS5MethodNoAuth : byte := byte_of 0.
Definition SOCKS5MethodUsernamePassword : byte := byte_of 2.

Record SOCKS5Credentials := mkCreds { cr_Username : bytes; cr_Password : bytes }.
Record SOCKS5Request := mkSocksRequest { sr_Command : Z; sr_Host : bytes; sr_Port : Z }.

(** [io.ReadFull] of [n] bytes, any failure being a malformed handshake. *)
Definition read {A} (n : nat) (input : bytes) (k : bytes -> bytes -> result A handshake_err * bytes) : result A handshake_err * bytes :=
  match ReadFull n input with
  | (Err _, rest) => (Err ErrMalformedHandshake, rest)
  | (Ok b, rest) => k b rest
  end.

Definition ReadSOCKS5Methods (r : bytes) : result bytes handshake_err * bytes :=
  read 2 r (fun header r =>
    if negb (nth_val header 0 =? 5) || (nth_val header 1 =? 0) then (Err ErrMalformedHandshake, r)
    else read (Z.to_nat (nth_val header 1)) r (fun methods r => (Ok methods, r))).

Definition supportsSOCKS5Method (methods : bytes) (method : byte) : bool := existsb (fun offered => beq offered method) methods.
Definition SupportsSOCKS5NoAuth (methods : bytes) : bool := supportsSOCKS5Method methods SOCKS5MethodNoAuth.
Definition SupportsSOCKS5UsernamePassword (methods : bytes) : bool := supportsSOCKS5Method methods SOCKS5MethodUsernamePassword.
Definition EncodeSOCKS5MethodSelection (method : byte) : bytes := [byte_of 5; method].

Definition ReadSOCKS5UsernamePassword (r : bytes) : result SOCKS5Credentials handshake_err * bytes :=
  read 2 r (fun header r =>
    if negb (nth_val header 0 =? 1) then (Err ErrMalformedHandshake, r)
    else read (Z.to_nat (nth_val header 1)) r (fun username r =>
      read 1 r (fun length r =>
        read (Z.to_nat (nth_val length 0)) r (fun password r => (Ok (mkCreds username password), r))))).

Definition EncodeSOCKS5UsernamePasswordReply (success : bool) : bytes := [byte_of 1; byte_of (if success then 0 else 1)].

(** The address field: what follows the address type [atyp]. *)
Definition read_address (atyp : Z) (r : bytes) (k : bytes -> bytes -> result SOCKS5Request handshake_err * bytes) :
    result SOCKS5Request handshake_err * bytes :=
  if atyp =? 1 then read 4 r (fun address r => k (IP_String address) r)
  else if atyp =? 3 then
    read 1 r (fun length r =>
      if nth_val length 0 =? 0 then (Err ErrMalformedHandshake, r)
      else read (Z.to_nat (nth_val length 0)) r (fun address r => k address r))
  else if atyp =? 4 then read 16 r (fun address r => k (IP_String address) r)
  else (Err ErrMalformedHandshake, r).

Definition ReadSOCKS5Request (r : bytes) : result SOCKS5Request handshake_err * bytes :=
  read 4 r (fun header r =>
    if negb (nth_val header 0 =? 5) || negb (nth_val header 2 =? 0) then (Err ErrMalformedHandshake, r)
    else read_address (nth_val header 3) r (fun host r =>
      read 2 r (fun portBytes r =>
        let port := be_get portBytes in
        if port <? 1 then (Err ErrMalformedHandshake, r)
        else (Ok (mkSocksRequest (nth_val header 1) host port), r)))).

(** ** Replies *)

Definition SOCKS5ReplySucceeded : Z := 0.
Definition SOCKS5ReplyGeneralFailure : Z := 1.
Definition SOCKS5ReplyConnectionNotAllowed : Z := 2.
Definition SOCKS5ReplyNetworkUnreachable : Z := 3.
Definition SOCKS5ReplyHostUnreachable : Z := 4.
Definition SOCKS5ReplyConnectionRefused : Z := 5.
Definition SOCKS5ReplyCommandUnsupported : Z := 7.

Definition EncodeSOCKS5Reply (reply : Z) : bytes := [byte_of 5; byte_of reply; byte_of 0; byte_of 1] ++ replicate 6 (byte_of 0).

Definition SOCKS5ReplyForResult (result : OpenResultPayload) : Z :=
  let code := or_Code result in
  if seq_eqb code OpenResultCodeOK then SOCKS5ReplySucceeded
  else if seq_eqb code #"forbidden" then SOCKS5ReplyConnectionNotAllowed
  else if seq_eqb code #"network_unreachable" then SOCKS5ReplyNetworkUnreachable
  else if seq_eqb code #"host_unreachable" then SOCKS5ReplyHostUnreachable
  else if seq_eqb code #"connection_refused" then SOCKS5ReplyConnectionRefused
  else if seq_eqb code #"unsupported_capability" then SOCKS5ReplyCommandUnsupported
  else SOCKS5ReplyGeneralFailure.

(** ** The buffered parser *)

(** [payload[i]]; [None] is the run-time panic. *)
Definition at_ (payload : bytes) (i : nat) : option Z := byte_val <$> payload !! i.

(** The address of a buffered request whose type byte is at [pos]: the host
    and the position of the port. *)
Definition parse_address (payload : bytes) (pos : nat) : option (result (bytes * nat) handshake_err) :=
  atyp ← at_ payload pos;
  if atyp =? 1 then
    Some (if decide (length payload < pos + 7)%nat then Err ErrMalformedHandshake
          else Ok (IP_String (slice (pos + 1) (pos + 5) payload), (pos + 5)%nat))
  else if atyp =? 3 then
    len ← at_ payload (pos + 1);
    let n := Z.to_nat len in
    Some (if (len =? 0) || bool_decide (length payload < pos + 2 + n + 2)%nat then Err ErrMalformedHandshake
          else Ok (slice (pos + 2) (pos + 2 + n) payload, (pos + 2 + n)%nat))
  else if atyp =? 4 then
    Some (if decide (length payload < pos + 19)%nat then Err ErrMalformedHandshake
          else Ok (IP_String (slice (pos + 1) (pos + 17) payload), (pos + 17)%nat))
  else Some (Err ErrMalformedHandshake).

Definition ParseSOCKS5Connect (payload : bytes) : option (result SOCKS5Request handshake_err) :=
  if decide (length payload < 7)%nat then Some (Err ErrMalformedHandshake)
  else
    b0 ← at_ payload 0;
    if negb (b0 =? 5) then Some (Err ErrMalformedHandshake)
    else
      nmethods ← at_ payload 1;
      let pos := (2 + Z.to_nat nmethods)%nat in
      if (nmethods <? 1) || bool_decide (length payload < pos + 4)%nat then Some (Err ErrMalformedHandshake)
      else
        version ← at_ payload pos; command ← at_ payload (pos + 1); reserved ← at_ payload (pos + 2);
        if negb (version =? 5) || negb (reserved =? 0) || negb (command =? SOCKS5Connect) then Some (Err ErrUnsupportedCommand)
        else
          address ← parse_address payload (pos + 3);
          match address with
          | Err e => Some (Err e)
          | Ok (host, p) =>
              let port := be_get (slice p (p + 2) payload) in
              Some (if port <? 1 then Err ErrMalformedHandshake else Ok (mkSocksRequest SOCKS5Connect host port))
          end.

(** ** PROXY protocol, version 2 *)

Record ProxyV2Header := mkProxyV2 { pv_Source : IP * Z; pv_Destination : IP * Z }.

Definition proxyV2Signature : bytes :=
  byte_of <$> [13; 10; 13; 10; 0; 13; 10; 81; 85; 73; 84; 10].

Definition ParseProxyV2 (payload : bytes) : option (result ProxyV2Header handshake_err) :=
  if decide (length payload < 16)%nat then Some (Err ErrMalformedHandshake)
  else if negb (seq_eqb (slice 0 12 payload) proxyV2Signature) then Some (Err ErrMalformedHandshake)
  else
    version ← at_ payload 12; family ← at_ payload 13;
    if negb (version =? 33) || negb (family =? 17) then Some (Err ErrMalformedHandshake)
    else if negb (be_get (slice 14 16 payload) =? 12) || bool_decide (length payload < 28)%nat then Some (Err ErrMalformedHandshake)
    else
      let src := To4 (slice 16 20 payload) in
      let dst := To4 (slice 20 24 payload) in
      Some (if bool_decide (src = []) || bool_decide (dst = []) then Err ErrMalformedHandshake
            else Ok (mkProxyV2 (src, be_get (slice 24 26 payload)) (dst, be_get (slice 26 28 payload)))).

(** ** The client's SOCKS5 listener *)

Definition SOCKS5AuthNone : bytes := #"none".
Definition SOCKS5AuthPassword : bytes := #"password".

Record SOCKS5ForwardConfig := mkForwardConfig {
  fc_ListenAddr : bytes;
  fc_AgentID : bytes;
  fc_AllowRemote : bool;
  fc_AuthMode : bytes;
  fc_Username : bytes;
  fc_Password : bytes;
}.

Inductive forward_err :=
| ErrAddressOrAgent | ErrAuthMode | ErrCredentialLength | ErrCredentialsRequired | ErrListenAddress | ErrRemoteNotAllowed | ErrRemoteNeedsPassword.

Definition isLoopbackHost (host : bytes) : bool :=
  seq_eqb host #"localhost" || (negb (seq_eqb (ParseIP host) []) && IsLoopback (ParseIP host)).

(** [NewSOCKS5Forward] on a non-nil opener: the configuration it keeps. *)
Definition NewSOCKS5Forward (cfg : SOCKS5ForwardConfig) : result SOCKS5ForwardConfig forward_err :=
  if bool_decide (fc_ListenAddr cfg = []) || bool_decide (fc_AgentID cfg = []) then Err ErrAddressOrAgent
  else
    let mode := if bool_decide (fc_AuthMode cfg = []) then SOCKS5AuthNone else fc_AuthMode cfg in
    let cfg := mkForwardConfig (fc_ListenAddr cfg) (fc_AgentID cfg) (fc_AllowRemote cfg) mode (fc_Username cfg) (fc_Password cfg) in
    if negb (seq_eqb mode SOCKS5AuthNone) && negb (seq_eqb mode SOCKS5AuthPassword) then Err ErrAuthMode
    else if bool_decide (255 < length (fc_Username cfg))%nat || bool_decide (255 < length (fc_Password cfg))%nat then Err ErrCredentialLength
    else if seq_eqb mode SOCKS5AuthPassword && (bool_decide (fc_Username cfg = []) || bool_decide (fc_Password cfg = [])) then Err ErrCredentialsRequired
    else match SplitHostPort (fc_ListenAddr cfg) with
    | None => Err ErrListenAddress
    | Some (host, _) =>
        if negb (isLoopbackHost host) && negb (fc_AllowRemote cfg) then Err ErrRemoteNotAllowed
        else if negb (isLoopbackHost host) && negb (seq_eqb mode SOCKS5AuthPassword) then Err ErrRemoteNeedsPassword
        else Ok cfg
    end.

(** A local connection: the bytes the application will send, the writes made
    so far, and how many more writes succeed. *)
Record conn := mkConn { c_in : bytes; c_out : list bytes; c_writable : nat }.

Definition conn_write (c : conn) (b : bytes) : bool * conn :=
  match c_writable c with
  | O => (false, c)
  | S n => (true, mkConn (c_in c) (c_out c ++ [b]) n)
  end.

Definition conn_read {A} (c : conn) (reader : bytes -> result A handshake_err * bytes) : result A handshake_err * conn :=
  let '(r, rest) := reader (c_in c) in (r, mkConn rest (c_out c) (c_writable c)).

(** What is hashed of a credential pair; the length bytes wrap at 256. *)
Definition credential_text (credentials : SOCKS5Credentials) : bytes :=
  byte_of (Z.of_nat (length (cr_Username credentials))) :: cr_Username credentials ++
  byte_of (Z.of_nat (length (cr_Password credentials))) :: cr_Password credentials.

Definition socks5CredentialDigest (credentials : SOCKS5Credentials) : bytes := Sum256 (credential_text credentials).

Definition socks5CredentialsEqual (provided expected : SOCKS5Credentials) : bool :=
  seq_eqb (socks5CredentialDigest provided) (socks5CredentialDigest expected).

Definition negotiateAndAuthenticate (cfg : SOCKS5ForwardConfig) (c : conn) : bool * conn :=
  match conn_read c ReadSOCKS5Methods with
  | (Err _, c) => (false, c)
  | (Ok methods, c) =>
      if seq_eqb (fc_AuthMode cfg) SOCKS5AuthPassword then
        if negb (SupportsSOCKS5UsernamePassword methods) then (false, (conn_write c (EncodeSOCKS5MethodSelection (byte_of 255))).2)
        else match conn_write c (EncodeSOCKS5MethodSelection SOCKS5MethodUsernamePassword) with
        | (false, c) => (false, c)
        | (true, c) =>
            match conn_read c ReadSOCKS5UsernamePassword with
            | (Err _, c) => (false, c)
            | (Ok credentials, c) =>
                let valid := socks5CredentialsEqual credentials (mkCreds (fc_Username cfg) (fc_Password cfg)) in
                let '(written, c) := conn_write c (EncodeSOCKS5UsernamePasswordReply valid) in
                (written && valid, c)
            end
        end
      else if negb (SupportsSOCKS5NoAuth methods) then (false, (conn_write c (EncodeSOCKS5MethodSelection (byte_of 255))).2)
      else conn_write c (EncodeSOCKS5MethodSelection SOCKS5MethodNoAuth)
  end.

(** The stream asked of the opener. *)
Record StreamRequest := mkStreamRequest { st_AgentID : bytes; st_Protocol : bytes; st_TargetHost : bytes; st_TargetPort : Z }.

(** An opener answers with or without an open result; a stream, the result,
    and whether the error is nil. *)
Inductive opener :=
| ResultStreamOpener (open : StreamRequest -> bool * OpenResultPayload * bool)
| PlainStreamOpener (open : StreamRequest -> bool * bool).

Definition openStreamResult (o : opener) (req : StreamRequest) : bool * OpenResultPayload * bool :=
  match o with
  | ResultStreamOpener open => open req
  | PlainStreamOpener open =>
      let '(stream, ok) := open req in
      if negb ok || negb stream then (false, mkOpenResult false #"connect" #"internal_error" false 0, ok)
      else (true, mkOpenResult true #"connect" OpenResultCodeOK false 0, true)
  end.

(** The calls of [handleConn] outside this file: the two deadline updates, the
    remote validator and the opener. *)
Record forward_env := mkForwardEnv {
  fe_deadline : bool;
  fe_validate : SOCKS5Request -> bool;
  fe_opener : opener;
  fe_clear_deadline : bool;
}.

(** How a connection ends: the stream that was asked for, if any, and whether
    it was handed to [bridge]. *)
Record session := mkSession { ss_opened : option StreamRequest; ss_bridged : bool }.

Definition handleConn (cfg : SOCKS5ForwardConfig) (env : forward_env) (c : conn) : session * conn :=
  if negb (fe_deadline env) then (mkSession None false, c)
  else match negotiateAndAuthenticate cfg c with
  | (false, c) => (mkSession None false, c)
  | (true, c) =>
      match conn_read c ReadSOCKS5Request with
      | (Err _, c) => (mkSession None false, c)
      | (Ok request, c) =>
          if negb (sr_Command request =? SOCKS5Connect) then
            (mkSession None false, (conn_write c (EncodeSOCKS5Reply SOCKS5ReplyCommandUnsupported)).2)
          else if negb (fe_validate env request) then
            (mkSession None false, (conn_write c (EncodeSOCKS5Reply SOCKS5ReplyConnectionNotAllowed)).2)
          else
            let req := mkStreamRequest (fc_AgentID cfg) #"tcp" (sr_Host request) (sr_Port request) in
            let '(remote, result, ok) := openStreamResult (fe_opener env) req in
            if negb ok || negb remote || negb (or_Accepted result) then
              let reply := if ok && negb (bool_decide (or_Code result = [])) then SOCKS5ReplyForResult result else SOCKS5ReplyGeneralFailure in
              (mkSession (Some req) false, (conn_write c (EncodeSOCKS5Reply reply)).2)
            else if negb (fe_clear_deadline env) then (mkSession (Some req) false, c)
            else
              let '(written, c) := conn_write c (EncodeSOCKS5Reply SOCKS5ReplySucceeded) in
              (mkSession (Some req) written, c)
      end
  end.

(** ** What the readers accept *)

Definition methods_bytes (methods : bytes) : bytes := byte_of 5 :: byte_of (Z.of_nat (length methods)) :: methods.

Definition credentials_bytes (cr : SOCKS5Credentials) : bytes :=
  byte_of 1 :: byte_of (Z.of_nat (length (cr_Username cr))) :: cr_Username cr ++
  byte_of (Z.of_nat (length (cr_Password cr))) :: cr_Password cr.

(** A destination address of RFC 1928, section 5. *)
Inductive address :=
| V4 (a : bytes)
| Domain (d : bytes)
| V6 (a : bytes).

Definition address_ok (a : address) : Prop :=
  match a with
  | V4 a => length a = 4%nat
  | Domain d => (1 <= length d <= 255)%nat
  | V6 a => length a = 16%nat
  end.

Definition address_bytes (a : address) : bytes :=
  match a with
  | V4 a => byte_of 1 :: a
  | Domain d => byte_of 3 :: byte_of (Z.of_nat (length d)) :: d
  | V6 a => byte_of 4 :: a
  end.

Definition address_host (a : address) : bytes :=
  match a with
  | V4 a | V6 a => IP_String a
  | Domain d => d
  end.

Definition request_bytes (command : byte) (a : address) (port : Z) : bytes :=
  [byte_of 5; command; byte_of 0] ++ address_bytes a ++ be_put 2 port.

(** [input] starts with the request [r], and [rest] follows it. *)
Definition encodes_request (input : bytes) (r : SOCKS5Request) (rest : bytes) : Prop :=
  exists command a, address_ok a /\ 1 <= sr_Port r < 65536 /\ input = request_bytes command a (sr_Port r) ++ rest /\
    r = mkSocksRequest (byte_val command) (address_host a) (sr_Port r).

Lemma read_Ok {A} n input (k : bytes -> bytes -> result A handshake_err * bytes) x rest :
  read n input k = (Ok x, rest) <-> exists b r, input = b ++ r /\ length b = n /\ k b r = (Ok x, rest).
Proof.
  unfold read. split.
  - destruct (ReadFull n input) as [[b|e] r] eqn:Er; [|done]. apply ReadFull_Ok in Er as [-> Hn]. intros. by exists b, r.
  - intros (b & r & -> & Hn & Hk). by rewrite (ReadFull_app n b r Hn).
Qed.

Lemma nth_val_0 b l : nth_val (b :: l) 0 = byte_val b.
Proof. done. Qed.
Lemma nth_val_S b l i : nth_val (b :: l) (S i) = nth_val l i.
Proof. done. Qed.

Lemma byte_val_eq b v : 0 <= v < 256 -> byte_val b = v <-> b = byte_of v.
Proof. intros Hv. split; [intros <-; by rewrite byte_of_val|intros ->; rewrite byte_val_of; by apply Z.mod_small]. Qed.

Lemma byte_val_len (l : bytes) : (length l <= 255)%nat -> Z.to_nat (byte_val (byte_of (Z.of_nat (length l)))) = length l.
Proof. intros. rewrite byte_val_of, Z.mod_small by lia. lia. Qed.

(** A length byte and as many bytes as it says. *)
Lemma length_byte b (l : bytes) : length l = Z.to_nat (byte_val b) <-> (length l <= 255)%nat /\ b = byte_of (Z.of_nat (length l)).
Proof.
  pose proof (byte_val_range b). split.
  - intros Hl. split; [lia|]. rewrite Hl, Z2Nat.id by lia. by rewrite byte_of_val.
  - intros [Hl ->]. symmetry. by apply byte_val_len.
Qed.

(** Case split on a boolean test of a reader that went on. *)
Ltac went_on Hk :=
  match type of Hk with
  | (if ?b then (Err _, _) else _) = (Ok _, _) => destruct b eqn:?; [done|]; split_bools
  end.

Lemma ReadSOCKS5Methods_Ok input methods rest :
  ReadSOCKS5Methods input = (Ok methods, rest) <-> (1 <= length methods <= 255)%nat /\ input = methods_bytes methods ++ rest.
Proof.
  unfold ReadSOCKS5Methods. rewrite read_Ok. split.
  - intros (h & r & -> & Hh & Hk). destruct h as [|b0 [|b1 [|]]]; try done. rewrite ?nth_val_S, ?nth_val_0 in Hk. went_on Hk.
    apply read_Ok in Hk as (ms & r' & -> & Hm & [= -> ->]). apply (byte_val_eq b0 5) in H as ->; [|lia].
    pose proof (byte_val_range b1). apply length_byte in Hm as [Hm ->]. split; [|done].
    rewrite byte_val_of, Z.mod_small in H0 by lia. lia.
  - intros [Hl ->]. exists [byte_of 5; byte_of (Z.of_nat (length methods))], (methods ++ rest). split_and!; [done|done|].
    rewrite !nth_val_S, !nth_val_0, (proj2 (Z.eqb_eq (byte_val (byte_of 5)) 5)) by done. 
    rewrite (proj2 (Z.eqb_neq (byte_val (byte_of (Z.of_nat (length methods)))) 0)) by (rewrite byte_val_of, Z.mod_small; lia).
    cbn [negb orb]. apply read_Ok. exists methods, rest. split_and!; [done|symmetry; apply byte_val_len; lia|done].
Qed.

Lemma ReadSOCKS5UsernamePassword_Ok input cr rest :
  ReadSOCKS5UsernamePassword input = (Ok cr, rest) <->
  (length (cr_Username cr) <= 255)%nat /\ (length (cr_Password cr) <= 255)%nat /\ input = credentials_bytes cr ++ rest.
Proof.
  unfold ReadSOCKS5UsernamePassword. rewrite read_Ok. split.
  - intros (h & r & -> & Hh & Hk). destruct h as [|b0 [|b1 [|]]]; try done. rewrite ?nth_val_S, ?nth_val_0 in Hk. went_on Hk.
    apply read_Ok in Hk as (user & r' & -> & Hu & Hk). apply read_Ok in Hk as (l & r'' & -> & Hl & Hk). destruct l as [|b2 [|]]; try done.
    rewrite nth_val_0 in Hk. apply read_Ok in Hk as (pass & r3 & -> & Hp & [= <- ->]).
    apply (byte_val_eq b0 1) in Heqb as ->; [|lia]. apply length_byte in Hu as [Hu ->], Hp as [Hp ->].
    split_and!; [done|done|]. unfold credentials_bytes. simpl. by rewrite <- app_assoc.
  - destruct cr as [user pass]. cbn [cr_Username cr_Password]. intros (Hu & Hp & ->).
    set (tail := byte_of (Z.of_nat (length pass)) :: pass ++ rest). exists [byte_of 1; byte_of (Z.of_nat (length user))], (user ++ tail).
    split_and!; [unfold credentials_bytes; simpl; by rewrite <- app_assoc|done|].
    rewrite ?nth_val_S, ?nth_val_0. rewrite (proj2 (Z.eqb_eq (byte_val (byte_of 1)) 1)) by done. cbn [negb].
    apply read_Ok. exists user, tail. split_and!; [done|by rewrite byte_val_len|].
    apply read_Ok. eexists [_], _. split_and!; [done|done|]. rewrite nth_val_0. apply read_Ok. exists pass, rest. by rewrite byte_val_len.
Qed.

Lemma read_address_Ok b r (k : bytes -> bytes -> result SOCKS5Request handshake_err * bytes) x rest :
  read_address (byte_val b) r k = (Ok x, rest) <->
  exists a r', address_ok a /\ b :: r = address_bytes a ++ r' /\ k (address_host a) r' = (Ok x, rest).
Proof.
  split.
  - unfold read_address. destruct (Z.eqb_spec (byte_val b) 1) as [Hb|_]; [|destruct (Z.eqb_spec (byte_val b) 3) as [Hb|_]; [|destruct (Z.eqb_spec (byte_val b) 4) as [Hb|_]; [|done]]];
      apply byte_val_eq in Hb as ->; try lia; intros (l & r1 & -> & Hl & Hk)%read_Ok.
    + by exists (V4 l), r1.
    + destruct l as [|n [|]]; try done. rewrite nth_val_0 in Hk. went_on Hk. apply read_Ok in Hk as (d & r2 & -> & Hd & Hk).
      pose proof (byte_val_range n). apply length_byte in Hd as [Hd ->]. rewrite byte_val_of, Z.mod_small in * by lia.
      exists (Domain d), r2. split_and!; [simpl; lia|done|done].
    + by exists (V6 l), r1.
  - intros (a & r' & Ha & E & Hk). destruct a as [a|d|a]; injection E as -> ->; unfold read_address; simpl in Ha.
    + rewrite (proj2 (Z.eqb_eq (byte_val (byte_of 1)) 1)) by done. apply read_Ok. by exists a, r'.
    + rewrite (proj2 (Z.eqb_neq (byte_val (byte_of 3)) 1)), (proj2 (Z.eqb_eq (byte_val (byte_of 3)) 3)) by done.
      apply read_Ok. eexists [_], _. split_and!; [done|done|]. rewrite nth_val_0.
      rewrite (proj2 (Z.eqb_neq _ 0)) by (rewrite byte_val_of, Z.mod_small; lia). apply read_Ok. exists d, r'. rewrite byte_val_len by lia. done.
    + rewrite (proj2 (Z.eqb_neq (byte_val (byte_of 4)) 1)), (proj2 (Z.eqb_neq (byte_val (byte_of 4)) 3)), (proj2 (Z.eqb_eq (byte_val (byte_of 4)) 4)) by done.
      apply read_Ok. by exists a, r'.
Qed.

Lemma ReadSOCKS5Request_Ok input r rest : ReadSOCKS5Request input = (Ok r, rest) <-> encodes_request input r rest.
Proof.
  unfold ReadSOCKS5Request. rewrite read_Ok. split.
  - intros (h & r1 & -> & Hh & Hk). destruct h as [|b0 [|command [|b2 [|b3 [|]]]]]; try done. rewrite ?nth_val_S, ?nth_val_0 in Hk. went_on Hk.
    apply byte_val_eq in H as ->; [|lia]. apply byte_val_eq in H0 as ->; [|lia].
    apply read_address_Ok in Hk as (a & r2 & Ha & E & Hk). apply read_Ok in Hk as (p & r3 & -> & Hp & Hk). cbv zeta in Hk. went_on Hk.
    injection Hk as <- <-. pose proof (be_get_range p) as Hr. rewrite Hp in Hr. exists command, a. cbn [sr_Port].
    split_and!; [done|lia|lia| |done]. unfold request_bytes. rewrite (be_put_get' 2 p Hp), <- !app_assoc, <- E. done.
  - intros (command & a & Ha & Hp & -> & ->). cbn [sr_Port]. set (port := sr_Port r) in *. destruct (address_bytes a) as [|b3 x] eqn:Ea; [by destruct a|].
    exists [byte_of 5; command; byte_of 0; b3], (x ++ be_put 2 port ++ rest).
    split_and!; [unfold request_bytes; rewrite Ea, <- !app_assoc; done|done|]. rewrite ?nth_val_S, ?nth_val_0.
    rewrite (proj2 (Z.eqb_eq (byte_val (byte_of 5)) 5)), (proj2 (Z.eqb_eq (byte_val (byte_of 0)) 0)) by done. cbn [negb orb].
    apply read_address_Ok. exists a, (be_put 2 port ++ rest). split_and!; [done|by rewrite Ea|].
    apply read_Ok. exists (be_put 2 port), rest. split_and!; [done|apply length_be_put|]. cbv zeta. rewrite be_get_put_small by (simpl; lia). by zbool.
Qed.

(** *** The buffered parser agrees with the readers *)

Lemma at_app M l i : at_ (M ++ l) (length M + i) = at_ l i.
Proof. unfold at_. by rewrite lookup_app_r, Nat.add_sub' by lia. Qed.

Lemma slice_shift {A} (M l : list A) i j : slice (length M + i) (length M + j) (M ++ l) = slice i j l.
Proof. rewrite slice_app_r by lia. f_equal; lia. Qed.

Lemma slice_prefix {A} (x l k : list A) i j : length x = i -> length l = (j - i)%nat -> slice i j (x ++ l ++ k) = l.
Proof. intros Hx Hl. unfold slice. rewrite (drop_app_length' _ _ i) by done. by apply take_app_length'. Qed.

(** A buffered address at the end of [M]: it panics exactly on a domain type
    byte that ends the buffer, and succeeds exactly on an encoded address
    followed by two bytes of port. *)
Lemma parse_address_spec M y x :
  match parse_address (M ++ y :: x) (length M) with
  | None => y = byte_of 3 /\ x = []
  | Some (Ok (host, q)) => exists a r, address_ok a /\ y :: x = address_bytes a ++ r /\ host = address_host a /\
      q = (length M + length (address_bytes a))%nat /\ (2 <= length r)%nat
  | Some (Err _) => forall a r, address_ok a -> y :: x = address_bytes a ++ r -> (length r < 2)%nat
  end.
Proof.
  unfold parse_address. assert (at_ (M ++ y :: x) (length M) = Some (byte_val y)) as ->.
  { pose proof (at_app M (y :: x) 0) as E. by rewrite Nat.add_0_r in E. }
  cbn [mbind option_bind]. rewrite at_app.
  destruct (Z.eqb_spec (byte_val y) 1) as [Hy|Hy1]; [|destruct (Z.eqb_spec (byte_val y) 3) as [Hy|Hy3]; [|destruct (Z.eqb_spec (byte_val y) 4) as [Hy|Hy4]]].
  - apply byte_val_eq in Hy as ->; [|lia]. rewrite length_app, slice_shift. case_decide as Hl; simpl in Hl.
    + intros a r Ha E. destruct a; simplify_eq/=. rewrite length_app in Hl. lia.
    + exists (V4 (take 4 x)), (drop 4 x). simpl. rewrite length_take, length_drop, take_drop. split_and!; [lia|done|done|lia|lia].
  - apply byte_val_eq in Hy as ->; [|lia]. destruct x as [|n x]; [done|].
    change (at_ (byte_of 3 :: n :: x) 1) with (Some (byte_val n)). cbn [mbind option_bind]. pose proof (byte_val_range n).
    rewrite length_app. cbn [length]. destruct ((byte_val n =? 0) || bool_decide _) eqn:Hg.
    + intros a r Ha E. destruct a as [|d|]; simplify_eq/=. apply orb_prop in Hg as [Hg|Hg]; split_bools.
      * rewrite byte_val_of, Z.mod_small in Hg by lia. lia.
      * rewrite byte_val_len, length_app in Hg by lia. lia.
    + split_bools. rewrite <- !Nat.add_assoc, slice_shift. exists (Domain (take (Z.to_nat (byte_val n)) x)), (drop (Z.to_nat (byte_val n)) x).
      assert (length (take (Z.to_nat (byte_val n)) x) = Z.to_nat (byte_val n)) as Ht by (rewrite length_take; lia).
      cbn [address_ok address_bytes address_host app length]. rewrite Ht, take_drop, length_drop, Z2Nat.id, byte_of_val by lia. split_and!; [lia|lia|done| |lia|lia].
      unfold slice. simpl. f_equal. lia.
  - apply byte_val_eq in Hy as ->; [|lia]. rewrite length_app, slice_shift. case_decide as Hl; simpl in Hl.
    + intros a r Ha E. destruct a; simplify_eq/=. rewrite length_app in Hl. lia.
    + exists (V6 (take 16 x)), (drop 16 x). simpl. rewrite length_take, length_drop, take_drop. split_and!; [lia|done|done|lia|lia].
  - intros a r Ha E. destruct a; simplify_eq/=.
Qed.

Lemma parse_address_panics M y x : parse_address (M ++ y :: x) (length M) = None <-> y = byte_of 3 /\ x = [].
Proof.
  split; [intros E; pose proof (parse_address_spec M y x) as Hs; by rewrite E in Hs|intros [-> ->]].
  unfold parse_address. assert (at_ (M ++ [byte_of 3]) (length M) = Some 3) as ->.
  { pose proof (at_app M [byte_of 3] 0) as E. by rewrite Nat.add_0_r in E. }
  cbn [mbind option_bind Z.eqb Pos.eqb]. by rewrite at_app.
Qed.

(** A buffer is a method list and the four bytes of a request header, or is
    refused by the buffered parser and too short for the readers. *)
Lemma socks5_shape payload :
  (exists methods v c z y x, (1 <= length methods <= 255)%nat /\ payload = methods_bytes methods ++ v :: c :: z :: y :: x) \/
  (ParseSOCKS5Connect payload = Some (Err ErrMalformedHandshake) /\
   forall methods mid, ReadSOCKS5Methods payload = (Ok methods, mid) -> (length mid < 4)%nat).
Proof.
  destruct (ReadSOCKS5Methods payload) as [[methods|e] mid] eqn:Er.
  - apply ReadSOCKS5Methods_Ok in Er as [Hm ->]. destruct mid as [|v [|c [|z [|y x]]]]; [right..|left; by exists methods, v, c, z, y, x].
    all: split; [|intros ? ? [= <- <-]; simpl; lia].
    all: unfold ParseSOCKS5Connect; rewrite length_app; unfold methods_bytes; cbn [length]; case_decide; [done|].
    all: change (at_ ((byte_of 5 :: ?b :: ?l) ++ ?k) 0) with (Some 5).
    all: cbn [mbind option_bind Z.eqb Pos.eqb negb].
    all: match goal with |- context [at_ _ 1] => change (at_ _ 1) with (Some (byte_val (byte_of (Z.of_nat (length methods))))) end.
    all: cbn [mbind option_bind]; rewrite byte_val_len by lia; rewrite (bool_decide_true _) by lia; by rewrite orb_true_r.
  - right. split; [|done]. unfold ParseSOCKS5Connect. case_decide as Hl; [done|]. destruct payload as [|b0 [|b1 t]]; [simpl in *; lia..|].
    change (at_ (b0 :: b1 :: t) 0) with (Some (byte_val b0)). change (at_ (b0 :: b1 :: t) 1) with (Some (byte_val b1)). cbn [mbind option_bind].
    destruct (Z.eqb_spec (byte_val b0) 5) as [H0|]; cbn [negb]; [|done]. destruct (Z.ltb_spec (byte_val b1) 1) as [|H1]; cbn [orb]; [done|].
    case_bool_decide as H2; [done|]. exfalso. pose proof (byte_val_range b1). simpl in H2.
    assert (ReadSOCKS5Methods (b0 :: b1 :: t) = (Ok (take (Z.to_nat (byte_val b1)) t), drop (Z.to_nat (byte_val b1)) t)) as E; [|congruence].
    apply ReadSOCKS5Methods_Ok. unfold methods_bytes. rewrite length_take, Nat.min_l by lia. split; [lia|].
    rewrite Z2Nat.id, byte_of_val by lia. apply byte_val_eq in H0 as ->; [|lia]. simpl. by rewrite take_drop.
Qed.

(** The rest of the buffered parser, once the shape is known. *)
Lemma ParseSOCKS5Connect_shape methods v c z y x :
  (1 <= length methods <= 255)%nat ->
  ParseSOCKS5Connect (methods_bytes methods ++ v :: c :: z :: y :: x) =
    if negb (byte_val v =? 5) || negb (byte_val z =? 0) || negb (byte_val c =? SOCKS5Connect) then Some (Err ErrUnsupportedCommand)
    else
      let M := methods_bytes methods ++ [v; c; z] in
      address ← parse_address (M ++ y :: x) (length M);
      match address with
      | Err e => Some (Err e)
      | Ok (host, p) =>
          let port := be_get (slice p (p + 2) (M ++ y :: x)) in
          Some (if port <? 1 then Err ErrMalformedHandshake else Ok (mkSocksRequest SOCKS5Connect host port))
      end.
Proof.
  intros Hm. unfold ParseSOCKS5Connect. assert (length (methods_bytes methods) = (2 + length methods)%nat) as HM by done.
  set (p := methods_bytes methods ++ v :: c :: z :: y :: x).
  assert (length p = (6 + length methods + length x)%nat) as Hp by (unfold p; rewrite length_app, HM; simpl; lia).
  rewrite decide_False by lia. change (at_ p 0) with (Some 5). change (at_ p 1) with (Some (byte_val (byte_of (Z.of_nat (length methods))))).
  cbn [mbind option_bind Z.eqb Pos.eqb negb]. rewrite byte_val_len by lia.
  rewrite (proj2 (Z.ltb_ge _ 1)), (bool_decide_false _) by (rewrite ?byte_val_of, ?Z.mod_small; lia). cbn [orb]. rewrite <- HM.
  assert (forall i, at_ p (length (methods_bytes methods) + i) = at_ (v :: c :: z :: y :: x) i) as Hat by (intros; apply at_app).
  pose proof (Hat 0%nat) as H0. rewrite Nat.add_0_r in H0. rewrite H0. cbn [mbind option_bind at_ lookup list_lookup fmap option_fmap option_map].
  rewrite (Hat 1%nat). cbn [mbind option_bind at_ lookup list_lookup fmap option_fmap option_map].
  rewrite (Hat 2%nat). cbn [mbind option_bind at_ lookup list_lookup fmap option_fmap option_map].
  case_match; [done|]. cbv zeta. rewrite length_app, <- app_assoc. done.
Qed.

Lemma address_prefix a a' r r' :
  address_ok a -> address_ok a' -> address_bytes a ++ r = address_bytes a' ++ r' -> a = a' /\ r = r'.
Proof.
  destruct a as [l|l|l], a' as [l'|l'|l']; cbn [address_ok address_bytes]; intros Hl Hl' E; try done; [injection E as E|injection E as El E|injection E as E].
  2: { apply (f_equal byte_val) in El. rewrite !byte_val_of, !Z.mod_small in El by lia. apply app_inj_1 in E as [-> ->]; [done|lia]. }
  all: apply app_inj_1 in E as [-> ->]; [done|lia].
Qed.

(** The request readers on a buffer of at least four bytes. *)
Lemma request_shape v c z y x r :
  (exists rest, ReadSOCKS5Request (v :: c :: z :: y :: x) = (Ok r, rest)) <->
  v = byte_of 5 /\ z = byte_of 0 /\ exists a rest, address_ok a /\ 1 <= sr_Port r < 65536 /\
    y :: x = address_bytes a ++ be_put 2 (sr_Port r) ++ rest /\ r = mkSocksRequest (byte_val c) (address_host a) (sr_Port r).
Proof.
  setoid_rewrite ReadSOCKS5Request_Ok. unfold encodes_request, request_bytes. split.
  - intros (rest & command & a & Ha & Hp & E & Hr). rewrite <- !app_assoc in E. injection E as -> -> -> E. split_and!; [done|done|]. by exists a, rest.
  - intros (-> & -> & a & rest & Ha & Hp & E & Hr). exists rest, c, a. rewrite <- !app_assoc, <- E. done.
Qed.

(** The tail of the buffered parser after a well-formed header. *)
Lemma connect_tail M y x r :
  (address ← parse_address (M ++ y :: x) (length M);
   match address with
   | Err e => Some (Err e)
   | Ok (host, p) =>
       let port := be_get (slice p (p + 2) (M ++ y :: x)) in
       Some (if port <? 1 then Err ErrMalformedHandshake else Ok (mkSocksRequest SOCKS5Connect host port))
   end) = Some (Ok r) <->
  exists a rest, address_ok a /\ 1 <= sr_Port r < 65536 /\
    y :: x = address_bytes a ++ be_put 2 (sr_Port r) ++ rest /\ r = mkSocksRequest SOCKS5Connect (address_host a) (sr_Port r).
Proof.
  pose proof (parse_address_spec M y x) as Hs. destruct (parse_address _ _) as [[[host q]|e]|]; cbn [mbind option_bind] in *.
  - destruct Hs as (a & t & Ha & E & -> & -> & Ht). cbv zeta.
    assert (slice (length M + length (address_bytes a)) (length M + length (address_bytes a) + 2) (M ++ y :: x) = take 2 t) as ->.
    { rewrite <- Nat.add_assoc, slice_shift, E. rewrite <- (take_drop 2 t) at 1. apply slice_prefix; [done|rewrite length_take; lia]. }
    pose proof (be_get_range (take 2 t)) as Hr. rewrite length_take, Nat.min_l in Hr by done. split.
    + destruct (Z.ltb_spec (be_get (take 2 t)) 1); [done|]. intros [= <-]. exists a, (drop 2 t). cbn [sr_Port].
      rewrite be_put_get' by (rewrite length_take; lia). rewrite take_drop. split_and!; [done|lia|lia|done|done].
    + intros (a' & rest & Ha' & Hp & E' & Hr'). rewrite E in E'. apply address_prefix in E' as [-> ->]; [|done|done].
      rewrite take_app_length' by (by rewrite length_be_put). rewrite be_get_put_small by (simpl; lia). zbool. by rewrite <- Hr'.
  - split; [done|]. intros (a & rest & Ha & _ & E & _). apply Hs in E; [|done]. rewrite length_app, length_be_put in E. lia.
  - split; [done|]. destruct Hs as [-> ->]. intros (a & rest & Ha & _ & E & _). destruct a as [|d|]; simplify_eq/=.
Qed.

(** C31. The two SOCKS5 parsers of the package agree.  [ParseSOCKS5Connect] accepts
    a buffer exactly when the streaming readers accept it as a method list
    followed by a CONNECT request, with the same answer; and it panics exactly
    on the buffers that end right after a domain address type. *)
Theorem socks5_parsers_agree payload :
  (forall r, ParseSOCKS5Connect payload = Some (Ok r) <->
     exists methods mid rest, ReadSOCKS5Methods payload = (Ok methods, mid) /\ ReadSOCKS5Request mid = (Ok r, rest) /\ sr_Command r = SOCKS5Connect) /\
  (ParseSOCKS5Connect payload = None <->
     exists methods, (1 <= length methods <= 255)%nat /\ payload = methods_bytes methods ++ (byte_of <$> [5; 1; 0; 3])).
Proof.
  destruct (socks5_shape payload) as [(methods & v & c & z & y & x & Hm & ->)|[Hp Hshort]].
  - assert (ReadSOCKS5Methods (methods_bytes methods ++ v :: c :: z :: y :: x) = (Ok methods, v :: c :: z :: y :: x)) as Er by (by apply ReadSOCKS5Methods_Ok).
    rewrite (ParseSOCKS5Connect_shape methods v c z y x Hm), Er. cbv zeta. set (M := methods_bytes methods ++ [v; c; z]).
    destruct (negb (byte_val v =? 5) || negb (byte_val z =? 0) || negb (byte_val c =? SOCKS5Connect)) eqn:Hh.
    + split.
      * intros r. split; [done|]. intros (ms & mid & rest & [= <- <-] & Hr & Hc). assert (v = byte_of 5 /\ z = byte_of 0 /\ sr_Command r = byte_val c) as (-> & -> & E).
        { destruct (proj1 (request_shape v c z y x r) (ex_intro _ rest Hr)) as (? & ? & a & ? & _ & _ & _ & E). rewrite E. done. }
        rewrite <- E, Hc in Hh. done.
      * split; [done|]. intros (ms & Hms & E). assert (ReadSOCKS5Methods (methods_bytes methods ++ v :: c :: z :: y :: x) = (Ok ms, byte_of <$> [5; 1; 0; 3])) as E' by (by apply ReadSOCKS5Methods_Ok).
        rewrite Er in E'. injection E' as -> -> -> -> -> ->. done.
    + split_bools. apply byte_val_eq in H as ->; [|lia]. apply byte_val_eq in H1 as ->; [|lia]. apply (byte_val_eq c 1) in H0 as ->; [|lia]. split.
      * intros r. rewrite connect_tail. split.
        -- intros Hr. destruct (proj2 (request_shape (byte_of 5) (byte_of 1) (byte_of 0) y x r)) as [rest Hrest]; [done|].
           exists methods, (byte_of 5 :: byte_of 1 :: byte_of 0 :: y :: x), rest. split_and!; [done|done|]. destruct Hr as (? & ? & _ & _ & _ & ->). done.
        -- intros (ms & mid & rest & [= <- <-] & Hr & Hc). apply (request_shape (byte_of 5) (byte_of 1) (byte_of 0) y x r). by exists rest.
      * transitivity (y = byte_of 3 /\ x = []); [rewrite <- (parse_address_panics M y x)|].
        { destruct (parse_address _ _) as [[[host q]|e]|]; done. }
        split; [intros [-> ->]; by exists methods|]. intros (ms & Hms & E). apply (f_equal ReadSOCKS5Methods) in E.
        rewrite Er, (proj2 (ReadSOCKS5Methods_Ok _ ms _) (conj Hms eq_refl)) in E. by injection E as _ -> ->.
  - rewrite Hp. split; [intros r|]; (split; [done|]).
    + intros (ms & mid & rest & Hr%Hshort & Hq & _). apply ReadSOCKS5Request_Ok in Hq as (command & a & Ha & _ & -> & _).
      unfold request_bytes in Hr. rewrite !length_app, length_be_put in Hr. simpl in Hr. lia.
    + intros (ms & Hms & ->). specialize (Hshort ms _ (proj2 (ReadSOCKS5Methods_Ok _ ms _) (conj Hms eq_refl))). simpl in Hshort. lia.
Qed.

(** ** The listener *)

Lemma conn_write_in c b ok c' : conn_write c b = (ok, c') -> c_in c' = c_in c.
Proof. unfold conn_write. destruct (c_writable c); by intros [= <- <-]. Qed.

Lemma conn_read_Ok {A} c (reader : bytes -> result A handshake_err * bytes) x c' :
  conn_read c reader = (Ok x, c') -> reader (c_in c) = (Ok x, c_in c') /\ c_out c' = c_out c.
Proof. unfold conn_read. destruct (reader (c_in c)) as [r rest]. by intros [= -> <-]. Qed.

Lemma supports_elem methods m : supportsSOCKS5Method methods m = true -> m ∈ methods.
Proof. unfold supportsSOCKS5Method. rewrite existsb_exists. intros (x & Hx & E). apply beq_eq in E as ->. by apply list_elem_of_In. Qed.

(** The negotiation a peer must have gone through. *)
Definition negotiated (cfg : SOCKS5ForwardConfig) (input rest : bytes) : Prop :=
  exists methods, (1 <= length methods <= 255)%nat /\
    if seq_eqb (fc_AuthMode cfg) SOCKS5AuthPassword then
      SOCKS5MethodUsernamePassword ∈ methods /\
      exists cr, input = methods_bytes methods ++ credentials_bytes cr ++ rest /\
        socks5CredentialDigest cr = socks5CredentialDigest (mkCreds (fc_Username cfg) (fc_Password cfg))
    else SOCKS5MethodNoAuth ∈ methods /\ input = methods_bytes methods ++ rest.

Lemma negotiate_Ok cfg c c' : negotiateAndAuthenticate cfg c = (true, c') -> negotiated cfg (c_in c) (c_in c').
Proof.
  unfold negotiateAndAuthenticate, negotiated. destruct (conn_read c ReadSOCKS5Methods) as [[methods|] c1] eqn:E1; [|done].
  apply conn_read_Ok in E1 as [[Hm ->]%ReadSOCKS5Methods_Ok _]. intros H. exists methods. split; [done|]. revert H.
  destruct (seq_eqb (fc_AuthMode cfg) SOCKS5AuthPassword).
  - destruct (SupportsSOCKS5UsernamePassword methods) eqn:Hs; [|done]. apply supports_elem in Hs. cbn [negb].
    destruct (conn_write c1 _) as [[] c2] eqn:E2; [|done]. apply conn_write_in in E2.
    destruct (conn_read c2 ReadSOCKS5UsernamePassword) as [[cr|] c3] eqn:E3; [|done].
    apply conn_read_Ok in E3 as [(Hu & Hp & Ei)%ReadSOCKS5UsernamePassword_Ok _].
    destruct (conn_write c3 _) as [w c4] eqn:E4. apply conn_write_in in E4. intros [= [-> Hv]%andb_prop <-].
    split; [done|]. exists cr. rewrite <- E2, Ei, E4. split; [done|]. by apply seq_eqb_eq.
  - destruct (SupportsSOCKS5NoAuth methods) eqn:Hs; [|done]. apply supports_elem in Hs. cbn [negb]. intros E2. apply conn_write_in in E2. by rewrite E2.
Qed.

Lemma NewSOCKS5Forward_Ok cfg fwd :
  NewSOCKS5Forward cfg = Ok fwd ->
  fc_AgentID fwd = fc_AgentID cfg /\ fc_Username fwd = fc_Username cfg /\ fc_Password fwd = fc_Password cfg /\
  (length (fc_Username fwd) <= 255)%nat /\ (length (fc_Password fwd) <= 255)%nat /\
  exists host port, SplitHostPort (fc_ListenAddr cfg) = Some (host, port) /\
    (isLoopbackHost host = false -> fc_AuthMode fwd = SOCKS5AuthPassword /\ fc_AllowRemote cfg = true).
Proof.
  unfold NewSOCKS5Forward. destruct (bool_decide (fc_ListenAddr cfg = []) || _); [done|]. cbn [fc_Username fc_Password fc_ListenAddr fc_AllowRemote].
  set (mode := if bool_decide (fc_AuthMode cfg = []) then _ else _). destruct (negb (seq_eqb mode SOCKS5AuthNone) && _); [done|].
  destruct (bool_decide (255 < length (fc_Username cfg))%nat || _) eqn:Hl; [done|]. split_bools. destruct (seq_eqb mode SOCKS5AuthPassword && _); [done|].
  destruct (SplitHostPort (fc_ListenAddr cfg)) as [[host port]|]; [|done].
  destruct (negb (isLoopbackHost host) && negb (fc_AllowRemote cfg)) eqn:H1; [done|].
  destruct (negb (isLoopbackHost host) && negb (seq_eqb mode SOCKS5AuthPassword)) eqn:H2; [done|]. intros [= <-]. cbn.
  split_and!; [done|done|done|lia|lia|]. exists host, port. split; [done|]. intros Hlo. rewrite Hlo in *. cbn in *. split_bools. by apply seq_eqb_eq in H2.
Qed.

(** The hashed text identifies credentials of the lengths the protocol and the
    configuration allow. *)
Lemma credential_text_inj a b :
  (length (cr_Username a) <= 255)%nat -> (length (cr_Username b) <= 255)%nat -> credential_text a = credential_text b -> a = b.
Proof.
  destruct a as [u p], b as [u' p']. cbn [cr_Username cr_Password]. unfold credential_text. cbn [cr_Username cr_Password]. intros Hu Hu' E.
  injection E as El E. apply (f_equal byte_val) in El. rewrite !byte_val_of, !Z.mod_small in El by lia.
  apply app_inj_1 in E as [-> E]; [|lia]. by injection E as _ ->.
Qed.

(** C23. A tunnel stream is opened only for a peer that went through the handshake
    the configuration demands.  Whenever the handler of an accepted
    configuration asks for a stream, the peer sent a method list, then (in
    password mode) credentials with the digest of the configured ones, then a
    CONNECT request for exactly the host and port asked for, which the remote
    validator admitted; nothing past the request was read; and a listener that
    is not on a loopback address is in password mode. *)
Theorem socks5_stream_authorized cfg fwd env c s c' req :
  NewSOCKS5Forward cfg = Ok fwd -> handleConn fwd env c = (s, c') -> ss_opened s = Some req ->
  exists mid r, negotiated fwd (c_in c) mid /\ encodes_request mid r (c_in c') /\
    sr_Command r = SOCKS5Connect /\ fe_validate env r = true /\
    req = mkStreamRequest (fc_AgentID cfg) #"tcp" (sr_Host r) (sr_Port r) /\
    exists host port, SplitHostPort (fc_ListenAddr cfg) = Some (host, port) /\
      (isLoopbackHost host = false -> fc_AuthMode fwd = SOCKS5AuthPassword /\ fc_AllowRemote cfg = true).
Proof.
  intros (Ha & _ & _ & _ & _ & Hh)%NewSOCKS5Forward_Ok Hc Ho. revert Hc. unfold handleConn. destruct (fe_deadline env); [|intros [= <- _]; done].
  cbn [negb]. destruct (negotiateAndAuthenticate fwd c) as [[] c1] eqn:E1; [apply negotiate_Ok in E1|intros [= <- _]; done].
  destruct (conn_read c1 ReadSOCKS5Request) as [[r|] c2] eqn:E2; [|intros [= <- _]; done]. apply conn_read_Ok in E2 as [E2%ReadSOCKS5Request_Ok _].
  destruct (Z.eqb_spec (sr_Command r) SOCKS5Connect) as [Hcmd|]; cbn [negb]; [|intros [= <- _]; done].
  destruct (fe_validate env r) eqn:Hv; cbn [negb]; [|intros [= <- _]; done].
  destruct (openStreamResult _ _) as [[remote result] ok]. intros Hc.
  assert (ss_opened s = Some (mkStreamRequest (fc_AgentID fwd) #"tcp" (sr_Host r) (sr_Port r)) /\ c_in c' = c_in c2) as [E3 E4].
  { revert Hc. destruct (negb ok || _ || _).
    - destruct (conn_write c2 _) as [w c3] eqn:Ew. apply conn_write_in in Ew. by intros [= <- <-].
    - destruct (fe_clear_deadline env); cbn [negb]; [|by intros [= <- <-]]. destruct (conn_write c2 _) as [w c3] eqn:Ew.
      apply conn_write_in in Ew. by intros [= <- <-]. }
  exists (c_in c1), r. rewrite E4. split_and!; [done|done|done|done| |done]. rewrite Ho, Ha in E3. by injection E3.
Qed.

(** The opener's contract: a nil error comes with a valid open result, and an
    accepted one with a stream. *)
Definition honest (o : opener) : Prop :=
  forall req remote result, openStreamResult o req = (remote, result, true) ->
    validate_open_result result = Ok tt /\ (or_Accepted result = true -> remote = true).

Lemma conn_write_out c b ok c' : conn_write c b = (ok, c') -> c_out c' = c_out c ++ (if ok then [b] else []).
Proof. unfold conn_write. destruct (c_writable c); intros [= <- <-]; [by rewrite app_nil_r|done]. Qed.

Definition short (c : conn) : Prop := Forall (fun b => length b = 2%nat) (c_out c).

Lemma short_write c b ok c' : conn_write c b = (ok, c') -> length b = 2%nat -> short c -> short c'.
Proof. intros E Hb Hs. unfold short. rewrite (conn_write_out _ _ _ _ E). apply Forall_app. split; [done|]. destruct ok; by constructor. Qed.

Lemma short_read {A} c (reader : bytes -> result A handshake_err * bytes) r c' : conn_read c reader = (r, c') -> short c -> short c'.
Proof. unfold conn_read. destruct (reader (c_in c)). by intros [= _ <-]. Qed.

(** The negotiation writes only two-byte messages. *)
Lemma negotiate_short cfg c ok c' : negotiateAndAuthenticate cfg c = (ok, c') -> short c -> short c'.
Proof.
  unfold negotiateAndAuthenticate. intros H Hs. destruct (conn_read c ReadSOCKS5Methods) as [r1 c1] eqn:E1. apply short_read in E1; [|done].
  assert (forall m ok c', conn_write c1 (EncodeSOCKS5MethodSelection m) = (ok, c') -> short c') as Hw by (intros; by eapply short_write).
  destruct r1 as [methods|]; [|by injection H as <- <-]. destruct (seq_eqb _ _).
  - destruct (negb _); [injection H as <- <-; eapply (Hw _ _ _ (surjective_pairing _))|].
    destruct (conn_write c1 _) as [[] c2] eqn:E2; apply Hw in E2; [|by injection H as <- <-].
    destruct (conn_read c2 ReadSOCKS5UsernamePassword) as [[cr|] c3] eqn:E3; apply short_read in E3; try done; [|by injection H as <- <-].
    destruct (conn_write c3 _) as [w c4] eqn:E4. apply short_write in E4; [|done|done]. by injection H as <- <-.
  - destruct (negb _); [injection H as <- <-; eapply (Hw _ _ _ (surjective_pairing _))|]. by eapply Hw.
Qed.

(** Writing a final reply after short messages. *)
Lemma reply_elem c reply ok c' :
  short c -> 0 <= reply < 256 -> conn_write c (EncodeSOCKS5Reply reply) = (ok, c') ->
  EncodeSOCKS5Reply SOCKS5ReplySucceeded ∈ c_out c' <-> ok = true /\ reply = SOCKS5ReplySucceeded.
Proof.
  intros Hs Hr E. rewrite (conn_write_out _ _ _ _ E), elem_of_app. split.
  - intros [Hin|Hin]; [unfold short in Hs; rewrite Forall_forall in Hs; by apply Hs in Hin|]. destruct ok; [|by apply not_elem_of_nil in Hin].
    apply list_elem_of_singleton in Hin. injection Hin as Hin. split; [done|]. apply (f_equal byte_val) in Hin.
    rewrite !byte_val_of, !Z.mod_small in Hin by (unfold SOCKS5ReplySucceeded; lia). done.
  - intros [-> ->]. right. by apply list_elem_of_singleton.
Qed.

Lemma ReplyForResult_range result : 0 <= SOCKS5ReplyForResult result < 256.
Proof. unfold SOCKS5ReplyForResult. cbv zeta. repeat case_match; unfold SOCKS5ReplySucceeded, SOCKS5ReplyGeneralFailure, SOCKS5ReplyConnectionNotAllowed, SOCKS5ReplyNetworkUnreachable, SOCKS5ReplyHostUnreachable, SOCKS5ReplyConnectionRefused, SOCKS5ReplyCommandUnsupported; lia. Qed.

Lemma ReplyForResult_success result : SOCKS5ReplyForResult result = SOCKS5ReplySucceeded -> or_Code result = OpenResultCodeOK.
Proof. unfold SOCKS5ReplyForResult. cbv zeta. destruct (seq_eqb _ OpenResultCodeOK) eqn:E; [by apply seq_eqb_eq in E|]. by repeat case_match. Qed.

(** The application is told the truth: with an opener that keeps its contract,
    the success reply is written to a connection exactly when an accepted
    stream is then bridged to it. *)
Theorem socks5_reply_truthful fwd env c s c' :
  honest (fe_opener env) -> c_out c = [] -> handleConn fwd env c = (s, c') ->
  EncodeSOCKS5Reply SOCKS5ReplySucceeded ∈ c_out c' <-> ss_bridged s = true.
Proof.
  intros Ho Hc. assert (forall c, short c -> EncodeSOCKS5Reply SOCKS5ReplySucceeded ∈ c_out c <-> false = true) as Hno.
  { intros x Hx. split; [|done]. unfold short in Hx. rewrite Forall_forall in Hx. intros Hin%Hx. done. }
  assert (forall c reply, short c -> 0 < reply < 256 -> EncodeSOCKS5Reply SOCKS5ReplySucceeded ∈ c_out (conn_write c (EncodeSOCKS5Reply reply)).2 <-> false = true) as Hre.
  { intros x reply Hx Hr. assert (0 <= reply < 256) as Hr2 by lia. rewrite (reply_elem x reply _ _ Hx Hr2 (surjective_pairing _)). split; [|done]. intros [_ ->]. unfold SOCKS5ReplySucceeded in Hr. lia. }
  assert (short c) as Hs by (unfold short; by rewrite Hc). unfold handleConn.
  destruct (fe_deadline env); cbn [negb]; [|by intros [= <- <-]; apply Hno].
  destruct (negotiateAndAuthenticate fwd c) as [ok c1] eqn:E1. apply negotiate_short in E1; [|done]. destruct ok; [|by intros [= <- <-]; apply Hno].
  destruct (conn_read c1 ReadSOCKS5Request) as [r c2] eqn:E2. apply short_read in E2; [|done]. destruct r as [r|]; [|by intros [= <- <-]; apply Hno].
  destruct (negb _); [by intros [= <- <-]; apply Hre|]. destruct (negb _); [by intros [= <- <-]; apply Hre|].
  destruct (openStreamResult _ _) as [[remote result] ok] eqn:Eo. destruct (negb ok || negb remote || negb (or_Accepted result)) eqn:Hb.
  - intros [= <- <-]. cbn [ss_bridged]. destruct (ok && negb (bool_decide (or_Code result = []))) eqn:Hk; [|by apply Hre].
    apply andb_prop in Hk as [-> Hk]. destruct (Ho _ _ _ Eo) as [Hv Hacc].
    rewrite (reply_elem c2 _ _ _ E2 (ReplyForResult_range result) (surjective_pairing _)). split; [|done]. intros [_ Hcode%ReplyForResult_success].
    unfold validate_open_result in Hv. rewrite Hcode in Hv. repeat case_match; try done. rewrite seq_eqb_refl in *.
    destruct (or_Accepted result) eqn:Ha; [|done]. rewrite (Hacc eq_refl) in Hb. done.
  - destruct (fe_clear_deadline env); cbn [negb]; [|by intros [= <- <-]; apply Hno].
    destruct (conn_write c2 _) as [w c3] eqn:Ew. intros [= <- <-]. rewrite (reply_elem c2 _ _ _ E2 ltac:(by unfold SOCKS5ReplySucceeded) Ew). cbn. tauto.
Qed.

(** ** Examples *)

Definition sample_listener : SOCKS5ForwardConfig := mkForwardConfig #"0.0.0.0:1080" #"agent-1" true #"password" #"user" #"secret".

Definition sample_handshake : bytes :=
  methods_bytes [byte_of 0; byte_of 2] ++ credentials_bytes (mkCreds #"user" #"secret") ++
  request_bytes (byte_of 1) (Domain #"db.internal") 5432 ++ #"hello".

Definition sample_opener : opener := ResultStreamOpener (fun req => (true, mkOpenResult true #"connect" OpenResultCodeOK false 0, true)).
Definition sample_forward_env : forward_env := mkForwardEnv true (fun _ => true) sample_opener true.
Definition sample_conn : conn := mkConn sample_handshake [] 10.

Lemma socks5_stream_authorized_witness :
  ss_opened (handleConn sample_listener sample_forward_env sample_conn).1 = Some (mkStreamRequest #"agent-1" #"tcp" #"db.internal" 5432) /\
  exists mid r, negotiated sample_listener sample_handshake mid /\ encodes_request mid r #"hello" /\ sr_Port r = 5432.
Proof.
  assert (ss_opened (handleConn sample_listener sample_forward_env sample_conn).1 = Some (mkStreamRequest #"agent-1" #"tcp" #"db.internal" 5432)) as Ho by (by vm_compute).
  split; [exact Ho|].
  destruct (socks5_stream_authorized sample_listener sample_listener sample_forward_env sample_conn _ _ _ ltac:(by vm_compute) (surjective_pairing _) Ho)
    as (mid & r & Hn & He & _ & _ & Hq & _).
  exists mid, r. split; [exact Hn|]. split; [|by injection Hq].
  replace #"hello" with (c_in (handleConn sample_listener sample_forward_env sample_conn).2) by (by vm_compute). exact He.
Defined.

Lemma socks5_reply_truthful_witness :
  EncodeSOCKS5Reply SOCKS5ReplySucceeded ∈ c_out (handleConn sample_listener sample_forward_env sample_conn).2 <->
  ss_bridged (handleConn sample_listener sample_forward_env sample_conn).1 = true.
Proof.
  apply (socks5_reply_truthful sample_listener sample_forward_env sample_conn); [|done|apply surjective_pairing].
  intros req remote result [= <- <-]. split; [by vm_compute|done].
Defined.
