(* ===== verification/SessionManager.v ===== *)
(** * Agent sessions on a server node

    [AgentSessionManager] and [AgentSession] of
    [internal/server/session_manager.go]: the table of the Agent connections a
    node holds, fenced by connection epochs and by process-local generations.

    A session is an object of the heap [m_heap], addressed by its allocation
    number; the tables hold addresses.  Each operation is one critical section
    of the manager or session lock.  What happens between two of them (the
    close of a replaced session, a draining GOAWAY) is a separate step, so
    every interleaving of connections is a run of [manager_step]. *)

From stdpp Require Import base list gmap strings relations.
From Stdlib Require Import Ascii ZArith Lia.
From S2P Require Import Prelude GoStrings Frame FrameQueue FairWriter.
Local Open Scope Z_scope.

Inductive session_err :=
| ErrAuthentication | ErrAuthenticate | ErrEpoch | ErrAgentConnectionCapacity | ErrServerGenerationExhausted
| ErrSessionClosed | ErrServerGeneration | ErrBackpressure | ErrAmbiguousAgentID.

Record AgentRegistration := mkRegistration {
  ar_AgentID : bytes;
  ar_NodeID : bytes;
  ar_Epoch : Z;
  ar_InstanceID : bytes;
  ar_ConnectionID : bytes;
  ar_ConnectionEpoch : Z;
  ar_Capabilities : list bytes;
}.

Record AgentSession := mkAgentSession {
  as_AgentID : bytes;
  as_NodeID : bytes;
  as_Epoch : Z;
  as_InstanceID : bytes;
  as_InstanceIDExplicit : bool;
  as_ConnectionID : bytes;
  as_ConnectionEpoch : Z;
  as_serverGeneration : Z;
  as_Capabilities : list bytes;
  as_closed : bool;
  as_closing : bool;
  as_lastHeartbeat : Z;
  as_metadataRevision : Z;
  as_metadataDigest : bytes;
  as_writer : FairFrameWriter;
  as_transportClosed : bool;
}.

Record AgentSessionConfig := mkSessionConfig {
  sc_SupportedCapabilities : list bytes;
  sc_QueueSize : Z;
  sc_MaxConnectionsPerAgent : Z;
}.

Record AgentSessionManager := mkManager {
  m_heap : gmap nat AgentSession;
  m_next : nat;
  m_sessions : gmap bytes (gmap bytes nat);
  m_connectionOrder : gmap bytes (list bytes);
  m_nextServerGeneration : Z;
  m_retiredEpochs : gmap bytes (gmap bytes (gset Z));
  m_retiredGenerations : gset Z;
  m_cfg : AgentSessionConfig;
}.

Definition max_uint64 : Z := 18446744073709551615.
Definition DefaultAgentMaxConnectionsPerAgent : Z := 64.

Definition NewAgentSessionManager (cfg : AgentSessionConfig) : AgentSessionManager :=
  let pos x d := if x <=? 0 then d else x in
  mkManager ∅ 0 ∅ ∅ 0 ∅ ∅
    (mkSessionConfig (sc_SupportedCapabilities cfg) (pos (sc_QueueSize cfg) 64)
       (pos (sc_MaxConnectionsPerAgent cfg) DefaultAgentMaxConnectionsPerAgent)).

(** ** Sessions *)

Definition Supports (s : AgentSession) (capability : bytes) : bool := existsb (fun c => seq_eqb c capability) (as_Capabilities s).

Definition Healthy (s : AgentSession) : bool := negb (as_closed s) && negb (as_closing s).

Definition set_flags (s : AgentSession) (closed closing : bool) : AgentSession :=
  mkAgentSession (as_AgentID s) (as_NodeID s) (as_Epoch s) (as_InstanceID s) (as_InstanceIDExplicit s) (as_ConnectionID s) (as_ConnectionEpoch s)
    (as_serverGeneration s) (as_Capabilities s) closed closing (as_lastHeartbeat s) (as_metadataRevision s) (as_metadataDigest s) (as_writer s) (as_transportClosed s).

Definition set_writer (s : AgentSession) (w : FairFrameWriter) (closed : bool) : AgentSession :=
  mkAgentSession (as_AgentID s) (as_NodeID s) (as_Epoch s) (as_InstanceID s) (as_InstanceIDExplicit s) (as_ConnectionID s) (as_ConnectionEpoch s)
    (as_serverGeneration s) (as_Capabilities s) (as_closed s) (as_closing s) (as_lastHeartbeat s) (as_metadataRevision s) (as_metadataDigest s) w closed.

Definition set_heartbeat (s : AgentSession) (now : Z) : AgentSession :=
  mkAgentSession (as_AgentID s) (as_NodeID s) (as_Epoch s) (as_InstanceID s) (as_InstanceIDExplicit s) (as_ConnectionID s) (as_ConnectionEpoch s)
    (as_serverGeneration s) (as_Capabilities s) (as_closed s) (as_closing s) now (as_metadataRevision s) (as_metadataDigest s) (as_writer s) (as_transportClosed s).

Definition set_metadata (s : AgentSession) (revision : Z) (digest : bytes) : AgentSession :=
  mkAgentSession (as_AgentID s) (as_NodeID s) (as_Epoch s) (as_InstanceID s) (as_InstanceIDExplicit s) (as_ConnectionID s) (as_ConnectionEpoch s)
    (as_serverGeneration s) (as_Capabilities s) (as_closed s) (as_closing s) (as_lastHeartbeat s) revision digest (as_writer s) (as_transportClosed s).

(** [writer.Close] and [transport.Close] *)
Definition shut (s : AgentSession) : AgentSession := set_writer s (CloseWriter (as_writer s)) true.

Definition session_Close (s : AgentSession) : AgentSession :=
  if as_closed s || as_closing s then s else shut (set_flags s true (as_closing s)).

Definition session_fail (s : AgentSession) : AgentSession :=
  shut (if as_closed s then s else set_flags s true true).

(** [goAwaySession] up to its [Drain]: no frame is accepted any more. *)
Definition goAway_begin (s : AgentSession) : result AgentSession session_err :=
  if as_closed s then Err ErrSessionClosed else Ok (set_flags s (as_closed s) true).

(** The rest of [goAwaySession], after [Drain] returned. *)
Definition goAway_finish (s : AgentSession) : AgentSession := shut (set_flags s true (as_closing s)).

Definition session_enqueue (now : Z) (s : AgentSession) (f : Frame) : option session_err * AgentSession :=
  let '(err, w) :=
    if (FType f =? FrameData) && negb (StreamID f =? 0) then EnqueueData now (as_writer s) (StreamID f) f
    else EnqueueControl now (as_writer s) f in
  (match err with Some _ => Some ErrBackpressure | None => None end, set_writer s w (as_transportClosed s)).

(** ** Metadata *)

(** [mp_digest] is the encoding of the payload without its report time. *)
Record AgentMetadataPayload := mkMetadata {
  mp_AgentID : bytes;
  mp_NodeID : bytes;
  mp_InstanceID : bytes;
  mp_Epoch : Z;
  mp_Revision : Z;
  mp_digest : bytes;
}.

Inductive metadata_ack :=
| AckAccepted
| AckIdempotent
| AckRejected (code : bytes)
| AckClosed.

(** The first critical section of [HandleMetadata]: an answer, or [None] when
    the callback and the store are to be asked. *)
Definition metadata_check (s : AgentSession) (p : AgentMetadataPayload) : option metadata_ack :=
  if negb (Healthy s) then Some AckClosed
  else if mp_Revision p =? 0 then Some (AckRejected #"invalid_revision")
  else if negb (seq_eqb (mp_AgentID p) (as_AgentID s)) then Some (AckRejected #"identity_mismatch")
  else if negb (bool_decide (mp_NodeID p = [])) && negb (seq_eqb (mp_NodeID p) (as_NodeID s)) then Some (AckRejected #"identity_mismatch")
  else if negb (bool_decide (mp_InstanceID p = [])) && negb (seq_eqb (mp_InstanceID p) (as_InstanceID s)) then Some (AckRejected #"identity_mismatch")
  else if negb (mp_Epoch p =? as_Epoch s) then Some (AckRejected #"stale_epoch")
  else if mp_Revision p <? as_metadataRevision s then Some (AckRejected #"stale_revision")
  else if mp_Revision p =? as_metadataRevision s then
    Some (if seq_eqb (mp_digest p) (as_metadataDigest s) then AckIdempotent else AckRejected #"revision_conflict")
  else None.

(** The second one, with the errors the callback or the store returned. *)
Definition metadata_commit (s : AgentSession) (p : AgentMetadataPayload) (errors : list bytes) : AgentSession * metadata_ack :=
  if negb (Healthy s) then (s, AckClosed)
  else if mp_Revision p <=? as_metadataRevision s then
    (s, if (mp_Revision p =? as_metadataRevision s) && seq_eqb (mp_digest p) (as_metadataDigest s) then AckIdempotent
        else AckRejected #"stale_revision")
  else match errors with
  | code :: _ => (s, AckRejected code)
  | [] => (set_metadata s (mp_Revision p) (mp_digest p), AckAccepted)
  end.

(** ** The manager *)

Definition with_heap (m : AgentSessionManager) (h : gmap nat AgentSession) : AgentSessionManager :=
  mkManager h (m_next m) (m_sessions m) (m_connectionOrder m) (m_nextServerGeneration m) (m_retiredEpochs m) (m_retiredGenerations m) (m_cfg m).

Definition with_tables (m : AgentSessionManager) (ss : gmap bytes (gmap bytes nat)) (order : gmap bytes (list bytes)) : AgentSessionManager :=
  mkManager (m_heap m) (m_next m) ss order (m_nextServerGeneration m) (m_retiredEpochs m) (m_retiredGenerations m) (m_cfg m).

(** [m.sessions[agentID][connectionID]] *)
Definition current (m : AgentSessionManager) (agentID connectionID : bytes) : option nat :=
  cs ← m_sessions m !! agentID; cs !! connectionID.

Definition GetConnection (m : AgentSessionManager) (agentID connectionID : bytes) : option nat :=
  if bool_decide (connectionID = []) then None else current m agentID connectionID.

Definition order_of (m : AgentSessionManager) (agentID : bytes) : list bytes := default [] (m_connectionOrder m !! agentID).

Definition List_ (m : AgentSessionManager) (agentID : bytes) : list nat := omap (current m agentID) (order_of m agentID).

Definition Get (m : AgentSessionManager) (agentID : bytes) : option nat := head (List_ m agentID).

Definition HasConnection (m : AgentSessionManager) (agentID connectionID : bytes) : bool :=
  negb (bool_decide (agentID = [])) && negb (bool_decide (connectionID = [])) && bool_decide (is_Some (current m agentID connectionID)).

Section manager.
Context `{GoUnicode}.

Definition negotiate_caps (cfg : AgentSessionConfig) (want : list bytes) : list bytes :=
  match sc_SupportedCapabilities cfg with
  | [] => want
  | have => List.filter (fun c => existsb (fun h => seq_eqb c h) have) want
  end.

(** The session object [Register] builds; its generation is set later. *)
Definition new_session (m : AgentSessionManager) (req : AgentRegistration) (now : Z) : AgentSession :=
  let connectionID := let c := TrimSpace (ar_ConnectionID req) in if bool_decide (c = []) then #"legacy" else c in
  let instanceID := TrimSpace (ar_InstanceID req) in
  mkAgentSession (ar_AgentID req) (ar_NodeID req) (ar_Epoch req)
    (if bool_decide (instanceID = []) then ar_NodeID req else instanceID) (negb (bool_decide (instanceID = [])))
    connectionID (if ar_ConnectionEpoch req =? 0 then ar_Epoch req else ar_ConnectionEpoch req) 0
    (negotiate_caps (m_cfg m) (ar_Capabilities req)) false false now 0 []
    (NewFairFrameWriter (mkWriterConfig (sc_QueueSize (m_cfg m)) 262144 32768)) false.

Definition set_generation (s : AgentSession) (g : Z) : AgentSession :=
  mkAgentSession (as_AgentID s) (as_NodeID s) (as_Epoch s) (as_InstanceID s) (as_InstanceIDExplicit s) (as_ConnectionID s) (as_ConnectionEpoch s)
    g (as_Capabilities s) (as_closed s) (as_closing s) (as_lastHeartbeat s) (as_metadataRevision s) (as_metadataDigest s) (as_writer s) (as_transportClosed s).

(** [old != nil && old.ConnectionEpoch >= connectionEpoch] *)
Definition superseded (m : AgentSessionManager) (old : option nat) (connectionEpoch : Z) : bool :=
  match old ≫= (m_heap m !!.) with
  | Some o => as_ConnectionEpoch o >=? connectionEpoch
  | None => false
  end.

(** The locked part of [Register]: the new session and the one it replaces,
    which is closed after the lock is released. *)
Definition register_locked (m : AgentSessionManager) (s : AgentSession) : AgentSessionManager * result (nat * option nat) session_err :=
  let agentID := as_AgentID s in
  let connectionID := as_ConnectionID s in
  let agentSessions := default ∅ (m_sessions m !! agentID) in
  let m := with_tables m (<[agentID := agentSessions]> (m_sessions m)) (m_connectionOrder m) in
  let old := agentSessions !! connectionID in
  if superseded m old (as_ConnectionEpoch s) then (m, Err ErrEpoch)
  else if bool_decide (old = None) && (sc_MaxConnectionsPerAgent (m_cfg m) <=? Z.of_nat (size agentSessions)) then (m, Err ErrAgentConnectionCapacity)
  else if m_nextServerGeneration m =? max_uint64 then (m, Err ErrServerGenerationExhausted)
  else
    let g := m_nextServerGeneration m + 1 in
    let p := m_next m in
    let order := order_of m agentID in
    let order' := if bool_decide (connectionID ∈ order) then order else order ++ [connectionID] in
    (mkManager (<[p := set_generation s g]> (m_heap m)) (S p) (<[agentID := <[connectionID := p]> agentSessions]> (m_sessions m))
       (<[agentID := order']> (m_connectionOrder m)) g (m_retiredEpochs m) (m_retiredGenerations m) (m_cfg m), Ok (p, old)).

(** [Register]: [auth] is the answer of the configured authenticator. *)
Definition Register (m : AgentSessionManager) (req : AgentRegistration) (auth : bool) (now : Z) :
    AgentSessionManager * result (nat * option nat) session_err :=
  if bool_decide (TrimSpace (ar_AgentID req) = []) || bool_decide (TrimSpace (ar_NodeID req) = []) || (ar_Epoch req <=? 0) then (m, Err ErrAuthentication)
  else if negb auth then (m, Err ErrAuthenticate)
  else register_locked m (new_session m req now).

(** [GetCaseInsensitive] over one iteration order [keys] of the agents; a nil
    session is [Ok None]. *)
Definition GetCaseInsensitive (m : AgentSessionManager) (id : bytes) (keys : list bytes) : result (option nat) session_err :=
  if bool_decide (TrimSpace id = []) then Err ErrSessionClosed
  else match List.filter (fun key => EqualFold key id) keys with
  | [] => Err ErrSessionClosed
  | [key] => Ok (Get m key)
  | _ => Err ErrAmbiguousAgentID
  end.
End manager.

(** The connections of one agent, and of all agents, in map order; at most one
    of them has a given generation, so the order does not matter. *)
Definition agent_connections (m : AgentSessionManager) (id : bytes) : list nat := (map_to_list (default ∅ (m_sessions m !! id))).*2.
Definition all_connections (m : AgentSessionManager) : list nat := (map_to_list (m_sessions m)) ≫= (fun kv => (map_to_list kv.2).*2).

Definition update_session (m : AgentSessionManager) (p : nat) (f : AgentSession -> AgentSession) : AgentSessionManager :=
  with_heap m (alter f p (m_heap m)).

(** The record kept of a session that leaves the table. *)
Definition retire (m : AgentSessionManager) (id : bytes) (s : AgentSession) : AgentSessionManager :=
  let conns := default ∅ (m_retiredEpochs m !! id) in
  let epochs := default ∅ (conns !! as_ConnectionID s) in
  mkManager (m_heap m) (m_next m) (m_sessions m) (m_connectionOrder m) (m_nextServerGeneration m)
    (<[id := <[as_ConnectionID s := {[as_ConnectionEpoch s]} ∪ epochs]> conns]> (m_retiredEpochs m))
    ({[as_serverGeneration s]} ∪ m_retiredGenerations m) (m_cfg m).

(** One turn of the loop of [Remove]. *)
Definition remove_one (id : bytes) (m : AgentSessionManager) (p : nat) : AgentSessionManager :=
  match m_heap m !! p with
  | Some s => retire (update_session m p session_Close) id s
  | None => m
  end.

Definition Remove (m : AgentSessionManager) (id : bytes) : AgentSessionManager :=
  let m' := foldl (remove_one id) m (agent_connections m id) in
  with_tables m' (delete id (m_sessions m')) (delete id (m_connectionOrder m')).

(** [RemoveSession] of the session at address [p]. *)
Definition RemoveSession (m : AgentSessionManager) (id : bytes) (p : nat) : AgentSessionManager :=
  match m_heap m !! p with
  | None => m
  | Some expected =>
      if bool_decide (current m id (as_ConnectionID expected) = Some p) then
        let m' := update_session m p session_Close in
        let rest := delete (as_ConnectionID expected) (default ∅ (m_sessions m !! id)) in
        let m'' :=
          if decide (rest = ∅) then with_tables m' (delete id (m_sessions m')) (delete id (m_connectionOrder m'))
          else with_tables m' (<[id := rest]> (m_sessions m'))
                 (<[id := filter (fun c => c <> as_ConnectionID expected) (order_of m id)]> (m_connectionOrder m')) in
        retire m'' id expected
      else m
  end.

Definition has_generation (m : AgentSessionManager) (g : Z) (p : nat) : bool :=
  match m_heap m !! p with Some s => as_serverGeneration s =? g | None => false end.

Definition getServerGeneration (m : AgentSessionManager) (g : Z) : option nat := head (List.filter (has_generation m g) (all_connections m)).

Definition sendServerGeneration (now : Z) (m : AgentSessionManager) (id : bytes) (g : Z) (f : Frame) : option session_err * AgentSessionManager :=
  match head (List.filter (has_generation m g) (agent_connections m id)) with
  | None => (Some (if bool_decide (g ∈ m_retiredGenerations m) then ErrServerGeneration else ErrSessionClosed), m)
  | Some p =>
      match m_heap m !! p with
      | None => (Some ErrSessionClosed, m)
      | Some s =>
          if negb (Healthy s) then (Some ErrSessionClosed, m)
          else let '(err, s') := session_enqueue now s f in (err, with_heap m (<[p := s']> (m_heap m)))
      end
  end.

(** [resolveServerGeneration] *)
Definition resolveServerGeneration (m : AgentSessionManager) (id : bytes) (epoch : Z) : result Z session_err :=
  match head (List.filter (fun p => match m_heap m !! p with Some s => as_Epoch s =? epoch | None => false end) (List_ m id)) ≫= (m_heap m !!.) with
  | None => Err ErrSessionClosed
  | Some s =>
      if bool_decide (as_ConnectionEpoch s ∈ default ∅ (default ∅ (m_retiredEpochs m !! id) !! as_ConnectionID s)) then Err ErrServerGeneration
      else Ok (as_serverGeneration s)
  end.

Definition SendGeneration (now : Z) (m : AgentSessionManager) (id : bytes) (epoch : Z) (f : Frame) : option session_err * AgentSessionManager :=
  match resolveServerGeneration m id epoch with
  | Err e => (Some e, m)
  | Ok g => sendServerGeneration now m id g f
  end.

(** [heartbeatSession] *)
Definition heartbeatSession (m : AgentSessionManager) (p : nat) (now : Z) : option session_err * AgentSessionManager :=
  match m_heap m !! p with
  | None => (Some ErrSessionClosed, m)
  | Some s =>
      if negb (bool_decide (GetConnection m (as_AgentID s) (as_ConnectionID s) = Some p)) || negb (Healthy s) then (Some ErrSessionClosed, m)
      else (None, update_session m p (fun s => set_heartbeat s now))
  end.

(** [CloseConnection] up to the drain of [goAwaySession]. *)
Definition CloseConnection (m : AgentSessionManager) (agentID connectionID : bytes) (epoch : Z) : result (nat * AgentSessionManager) session_err :=
  match p ← GetConnection m agentID connectionID; s ← m_heap m !! p; Some (p, s) with
  | None => Err ErrSessionClosed
  | Some (p, s) =>
      if negb (as_ConnectionEpoch s =? epoch) then Err ErrEpoch
      else match goAway_begin s with
      | Err e => Err e
      | Ok s' => Ok (p, with_heap m (<[p := s']> (m_heap m)))
      end
  end.

Definition getEpoch (m : AgentSessionManager) (id : bytes) (epoch : Z) : option nat :=
  match List.filter (fun p => match m_heap m !! p with Some s => as_Epoch s =? epoch | None => false end) (List_ m id) with
  | [p] => Some p
  | _ => None
  end.

Definition Heartbeat (m : AgentSessionManager) (id : bytes) (epoch : Z) (now : Z) : option session_err * AgentSessionManager :=
  match p ← getEpoch m id epoch; s ← m_heap m !! p; Some (p, s) with
  | None => (Some (match List_ m id with [] => ErrSessionClosed | _ => ErrEpoch end), m)
  | Some (p, s) => if negb (Healthy s) then (Some ErrSessionClosed, m) else (None, update_session m p (fun s => set_heartbeat s now))
  end.

(** [Send] through the agent's first connection *)
Definition Send (now : Z) (m : AgentSessionManager) (id : bytes) (f : Frame) : option session_err * AgentSessionManager :=
  match p ← Get m id; s ← m_heap m !! p; Some (p, s) with
  | None => (Some ErrSessionClosed, m)
  | Some (p, s) =>
      if negb (Healthy s) then (Some ErrSessionClosed, m)
      else let '(err, s') := session_enqueue now s f in (err, with_heap m (<[p := s']> (m_heap m)))
  end.

(** [GoAway] up to the drain of [goAwaySession]. *)
Definition GoAway (m : AgentSessionManager) (id : bytes) : result (nat * AgentSessionManager) session_err :=
  match p ← Get m id; s ← m_heap m !! p; Some (p, s) with
  | None => Err ErrSessionClosed
  | Some (p, s) =>
      match goAway_begin s with
      | Err e => Err e
      | Ok s' => Ok (p, with_heap m (<[p := s']> (m_heap m)))
      end
  end.

(** ** Runs *)

(** What happens to one session: its writer goroutine, its read loop
    (heartbeats, metadata), a frame queued by [Send] and the ways it ends. *)
Inductive session_step : AgentSession -> AgentSession -> Prop :=
| ss_fail s : session_step s (session_fail s)
| ss_goaway s s' : goAway_begin s = Ok s' -> session_step s s'
| ss_finish s : as_closing s = true -> drained (as_writer s) = true -> session_step s (goAway_finish s)
| ss_heartbeat s now : Healthy s = true -> session_step s (set_heartbeat s now)
| ss_enqueue s now f : Healthy s = true -> session_step s (session_enqueue now s f).2
| ss_metadata s p errors : session_step s (metadata_commit s p errors).1
| ss_write s now sent : session_step s (set_writer s (writer_step (as_writer s) (WTurn now sent)).1 (as_transportClosed s)).

(** *** Metadata revisions *)

Lemma enqueue_metadata now s f :
  as_metadataRevision (session_enqueue now s f).2 = as_metadataRevision s /\ as_metadataDigest (session_enqueue now s f).2 = as_metadataDigest s.
Proof. unfold session_enqueue. by destruct (if _ && _ then _ else _). Qed.

Lemma commit_metadata s p errors :
  let '(s', ack) := metadata_commit s p errors in
  (ack = AckAccepted /\ as_metadataRevision s < mp_Revision p /\ as_metadataRevision s' = mp_Revision p /\ as_metadataDigest s' = mp_digest p) \/
  (ack <> AckAccepted /\ s' = s).
Proof.
  unfold metadata_commit. destruct (Healthy s); cbn [negb]; [|by right]. destruct (mp_Revision p <=? as_metadataRevision s) eqn:E.
  - right. by destruct (_ && _).
  - destruct errors; [left|by right]. split_and!; [done|lia|done|done].
Qed.

Definition metadata_le (s s' : AgentSession) : Prop :=
  as_metadataRevision s < as_metadataRevision s' \/ (as_metadataRevision s = as_metadataRevision s' /\ as_metadataDigest s = as_metadataDigest s').

Lemma session_step_metadata s s' : session_step s s' -> metadata_le s s'.
Proof.
  unfold metadata_le. intros Hs. destruct Hs as [s|s s' E|s _ _|s now _|s now f _|s p errors|s now sent]; try by right.
  - unfold session_fail. right. by destruct (as_closed s).
  - unfold goAway_begin in E. destruct (as_closed s); [done|]. injection E as <-. by right.
  - destruct (enqueue_metadata now s f) as [-> ->]. by right.
  - pose proof (commit_metadata s p errors) as Hc. destruct (metadata_commit s p errors) as [s' ack]. cbn.
    destruct Hc as [(_ & Hlt & Hr & _)|[_ ->]]; [left; lia|by right].
Qed.

Lemma session_run_metadata s s' : rtc session_step s s' -> metadata_le s s'.
Proof.
  intros Hs. apply (rtc_preserve session_step (metadata_le s) s s'); [|by right|done].
  intros x y Hx Hy%session_step_metadata. unfold metadata_le in *. destruct Hx as [?|[-> ->]]; [|done]. left. destruct Hy as [?|[<- _]]; lia.
Qed.

Lemma check_answers s q :
  (mp_Revision q <= as_metadataRevision s -> metadata_check s q <> None) /\
  (metadata_check s q = Some AckIdempotent -> mp_Revision q = as_metadataRevision s /\ mp_digest q = as_metadataDigest s).
Proof.
  unfold metadata_check. destruct (negb (Healthy s)); [done|]. destruct (mp_Revision q =? 0); [done|].
  destruct (negb (seq_eqb (mp_AgentID q) _)); [done|]. destruct (negb (bool_decide (mp_NodeID q = [])) && _); [done|].
  destruct (negb (bool_decide (mp_InstanceID q = [])) && _); [done|]. destruct (negb (_ =? _)); [done|].
  destruct (mp_Revision q <? as_metadataRevision s) eqn:E1; [done|]. destruct (mp_Revision q =? as_metadataRevision s) eqn:E2; [|split; [lia|done]].
  split; [done|]. destruct (seq_eqb (mp_digest q) (as_metadataDigest s)) eqn:E3; [|done]. intros _. apply seq_eqb_eq in E3. split; [lia|done].
Qed.

(** Metadata never goes back.  Whatever the session does between the two
    critical sections of a report and after them, a report accepted by the
    second one carries a revision above everything accepted before it, and
    from then on no report of that revision or an older one is accepted: the
    same report is answered as a repetition and any other is refused. *)
Theorem metadata_never_regresses s s1 p errors s2 s3 q :
  rtc session_step s s1 -> metadata_commit s1 p errors = (s2, AckAccepted) -> rtc session_step s2 s3 -> mp_Revision q <= mp_Revision p ->
  as_metadataRevision s < mp_Revision p <= as_metadataRevision s3 /\
  (forall errors', (metadata_commit s3 q errors').1 = s3 /\ (metadata_commit s3 q errors').2 <> AckAccepted) /\
  (metadata_check s3 q <> None) /\
  (metadata_check s3 q = Some AckIdempotent -> mp_Revision p = as_metadataRevision s3 -> mp_digest q = mp_digest p).
Proof.
  intros Hs1%session_run_metadata Hc Hs3%session_run_metadata Hq. pose proof (commit_metadata s1 p errors) as Hcm. rewrite Hc in Hcm.
  destruct Hcm as [(_ & Hlt & Hr & Hd)|[? _]]; [|done]. unfold metadata_le in *. split_and!; [lia|lia| | |].
  - intros errors'. pose proof (commit_metadata s3 q errors') as Hcm. destruct (metadata_commit s3 q errors') as [s4 ack].
    destruct Hcm as [(_ & ? & _)|[? ->]]; [lia|done].
  - apply check_answers. lia.
  - intros [Hrq Hdq]%check_answers Hp. destruct Hs3 as [?|[_ Hd3]]; [lia|congruence].
Qed.

Definition ex_session : AgentSession :=
  mkAgentSession #"a" #"node" 1 #"node" false #"c" 1 1 [] false false 0 0 [] (NewFairFrameWriter (mkWriterConfig 4 262144 32768)) false.
Definition ex_report : AgentMetadataPayload := mkMetadata #"a" [] [] 1 3 #"d".

Lemma metadata_never_regresses_witness :
  (metadata_commit ex_session ex_report []).2 = AckAccepted /\
  metadata_check (metadata_commit ex_session ex_report []).1 ex_report = Some AckIdempotent /\
  as_metadataRevision ex_session < mp_Revision ex_report <= as_metadataRevision (metadata_commit ex_session ex_report []).1.
Proof.
  split; [by vm_compute|]. split; [by vm_compute|].
  apply (metadata_never_regresses ex_session ex_session ex_report [] _ _ ex_report (rtc_refl _ _) eq_refl (rtc_refl _ _)). vm_compute. discriminate.
Defined.

Section runs.
Context `{GoUnicode}.

(** The manager and the replaced sessions whose [Close] is still to come. *)
Record node := mkNode { n_manager : AgentSessionManager; n_pending : list nat }.

Inductive manager_step : node -> node -> Prop :=
| ms_register m pend req auth now m' r :
    Register m req auth now = (m', r) ->
    manager_step (mkNode m pend) (mkNode m' (match r with Ok (_, Some old) => old :: pend | _ => pend end))
| ms_close m a p b :
    manager_step (mkNode m (a ++ p :: b)) (mkNode (update_session m p session_Close) (a ++ b))
| ms_remove m pend id : manager_step (mkNode m pend) (mkNode (Remove m id) pend)
| ms_removeSession m pend id p : manager_step (mkNode m pend) (mkNode (RemoveSession m id p) pend)
| ms_session m pend p s s' :
    m_heap m !! p = Some s -> session_step s s' -> manager_step (mkNode m pend) (mkNode (with_heap m (<[p := s']> (m_heap m))) pend)
| ms_send m pend now id g f : manager_step (mkNode m pend) (mkNode (sendServerGeneration now m id g f).2 pend).

Definition manager_reachable (cfg : AgentSessionConfig) (n : node) : Prop :=
  rtc manager_step (mkNode (NewAgentSessionManager cfg) []) n.

(** *** The invariant *)

Record manager_inv (n : node) : Prop := {
  mi_order : forall id, NoDup (order_of (n_manager n) id) /\ forall c, c ∈ order_of (n_manager n) id <-> is_Some (current (n_manager n) id c);
  mi_entry : forall id c p, current (n_manager n) id c = Some p -> c <> [] /\
    exists s, m_heap (n_manager n) !! p = Some s /\ as_AgentID s = id /\ as_ConnectionID s = c;
  mi_size : forall id cs, m_sessions (n_manager n) !! id = Some cs ->
    Z.of_nat (size cs) <= sc_MaxConnectionsPerAgent (m_cfg (n_manager n)) /\ (cs <> ∅ \/ m_nextServerGeneration (n_manager n) = max_uint64);
  mi_max : 0 < sc_MaxConnectionsPerAgent (m_cfg (n_manager n));
  mi_gen : forall p s, m_heap (n_manager n) !! p = Some s -> 0 < as_serverGeneration s <= m_nextServerGeneration (n_manager n) /\ (p < m_next (n_manager n))%nat;
  mi_inj : forall p q s t, m_heap (n_manager n) !! p = Some s -> m_heap (n_manager n) !! q = Some t -> as_serverGeneration s = as_serverGeneration t -> p = q;
  mi_retired : forall g, g ∈ m_retiredGenerations (n_manager n) -> g <= m_nextServerGeneration (n_manager n) /\
    forall id c p s, current (n_manager n) id c = Some p -> m_heap (n_manager n) !! p = Some s -> as_serverGeneration s <> g;
  mi_ends : forall p s, m_heap (n_manager n) !! p = Some s ->
    current (n_manager n) (as_AgentID s) (as_ConnectionID s) = Some p \/ Healthy s = false \/ p ∈ n_pending n;
  mi_next : 0 <= m_nextServerGeneration (n_manager n) <= max_uint64;
}.

(** What no session operation changes. *)
Definition same_identity (s s' : AgentSession) : Prop :=
  as_AgentID s' = as_AgentID s /\ as_ConnectionID s' = as_ConnectionID s /\ as_ConnectionEpoch s' = as_ConnectionEpoch s /\
  as_serverGeneration s' = as_serverGeneration s /\ (Healthy s = false -> Healthy s' = false).

Lemma close_identity s : same_identity s (session_Close s) /\ Healthy (session_Close s) = false.
Proof.
  unfold session_Close. destruct (as_closed s || as_closing s) eqn:E.
  - split; [done|]. unfold Healthy. apply orb_prop in E as [-> | ->]; [done|by rewrite andb_false_r].
  - split; [|done]. by split_and!.
Qed.

Lemma enqueue_identity now s f : same_identity s (session_enqueue now s f).2.
Proof. unfold session_enqueue. destruct (if _ && _ then _ else _) as [err w]. by split_and!. Qed.

Lemma session_step_identity s s' : session_step s s' -> same_identity s s'.
Proof.
  assert (forall x, same_identity s x -> same_identity s (shut x)) as Hshut by (intros x (?&?&?&?&?); by split_and!).
  intros Hs. destruct Hs as [s|s s' E|s Hc _|s now _|s now f _|s p errors|s now sent]; try (by split_and!); [| |apply enqueue_identity|].
  - unfold session_fail. apply Hshut. destruct (as_closed s); by split_and!.
  - unfold goAway_begin in E. destruct (as_closed s) eqn:Ec; [done|]. injection E as <-. by split_and!.
  - unfold metadata_commit. destruct (negb (Healthy s)) eqn:Eh; cbn [fst]. { by split_and!. }
    destruct (mp_Revision p <=? as_metadataRevision s); cbn [fst]. { by split_and!. }
    destruct errors; cbn [fst]; by split_and!.
Qed.

Lemma current_with_heap m h id c : current (with_heap m h) id c = current m id c.
Proof. done. Qed.

(** Rewriting a session in place. *)
Lemma heap_update_inv m pend pend' p s s' :
  manager_inv (mkNode m pend) -> m_heap m !! p = Some s -> same_identity s s' ->
  (forall q, q ∈ pend -> q ∈ pend' \/ (q = p /\ Healthy s' = false)) ->
  manager_inv (mkNode (with_heap m (<[p := s']> (m_heap m))) pend').
Proof.
  intros Hi Hp (Ea & Ec & Ee & Eg & Hh) Hpend.
  assert (forall q t, <[p := s']> (m_heap m) !! q = Some t -> exists t0, m_heap m !! q = Some t0 /\ as_AgentID t = as_AgentID t0 /\
    as_ConnectionID t = as_ConnectionID t0 /\ as_serverGeneration t = as_serverGeneration t0) as Hold.
  { intros q t. destruct (decide (p = q)) as [<-|]; [rewrite lookup_insert_eq|rewrite lookup_insert_ne by done; by exists t].
    intros [= <-]. by exists s. }
  split; cbn [n_manager n_pending with_heap m_heap m_next m_sessions m_nextServerGeneration m_retiredGenerations m_cfg].
  - apply Hi.
  - intros id c q Hq. destruct (mi_entry _ Hi id c q Hq) as (Hc & t & Ht & ? & ?). split; [done|].
    destruct (decide (p = q)) as [<-|]; [exists s'|exists t; by rewrite lookup_insert_ne].
    rewrite lookup_insert_eq. cbn in Ht. replace t with s in * by congruence. split_and!; congruence.
  - apply Hi.
  - apply Hi.
  - intros q t (t0 & Ht0 & _ & _ & ->)%Hold. by apply (mi_gen _ Hi).
  - intros q1 q2 t1 t2 (u1 & H1 & _ & _ & ->)%Hold (u2 & H2 & _ & _ & ->)%Hold. by apply (mi_inj _ Hi).
  - intros g Hg. destruct (mi_retired _ Hi g Hg) as [Hle Hr]. split; [done|]. intros id c q t Hq (t0 & Ht0 & _ & _ & ->)%Hold. by eapply Hr.
  - intros q t Ht. destruct (decide (p = q)) as [<-|Hne].
    + rewrite lookup_insert_eq in Ht. injection Ht as <-. rewrite Ea, Ec. destruct (mi_ends _ Hi p s Hp) as [?|[?|Hin]]; [by left|right; left; auto|right].
      destruct (Hpend p Hin) as [?|[_ ?]]; [by right|by left].
    + rewrite lookup_insert_ne in Ht by done. destruct (mi_ends _ Hi q t Ht) as [?|[?|Hin]]; [by left|by right; left|right; right].
      destruct (Hpend q Hin) as [?|[-> _]]; [done|congruence].
  - apply Hi.
Qed.

Lemma current_sessions m id c : current m id c = default ∅ (m_sessions m !! id) !! c.
Proof. unfold current. destruct (m_sessions m !! id); [done|]. cbn. by rewrite lookup_empty. Qed.

Lemma current_insert m ss order a cs id c :
  ss = <[a := cs]> (m_sessions m) ->
  current (with_tables m ss order) id c = if decide (a = id) then cs !! c else current m id c.
Proof.
  intros ->. unfold current. cbn. case_decide as E; [subst; by rewrite lookup_insert_eq|by rewrite lookup_insert_ne].
Qed.

(** A refused registration leaves the connections as they were. *)
Lemma refused_inv m pend a :
  manager_inv (mkNode m pend) -> (m_sessions m !! a <> None \/ m_nextServerGeneration m = max_uint64) ->
  manager_inv (mkNode (with_tables m (<[a := default ∅ (m_sessions m !! a)]> (m_sessions m)) (m_connectionOrder m)) pend).
Proof.
  intros Hi Hne. set (m' := with_tables _ _ _). assert (forall id c, current m' id c = current m id c) as Hcur.
  { intros id c. unfold m'. erewrite current_insert by done. case_decide; [|done]. subst. by rewrite current_sessions. }
  split; cbn [n_manager n_pending].
  - intros id. destruct (mi_order _ Hi id) as [Hn Ho]. split; [done|]. intros c. rewrite Hcur. apply Ho.
  - intros id c p. rewrite Hcur. apply (mi_entry _ Hi).
  - intros id cs. unfold m'. cbn. destruct (decide (a = id)) as [->|]; [rewrite lookup_insert_eq|rewrite lookup_insert_ne by done; apply (mi_size _ Hi)].
    intros [= <-]. pose proof (mi_max _ Hi) as Hm. cbn in Hm. destruct (m_sessions m !! id) as [cs|] eqn:Es; cbn; [by apply (mi_size _ Hi id cs)|].
    rewrite map_size_empty. destruct Hne as [|Hx]; [done|]. split; [lia|by right].
  - apply Hi.
  - apply Hi.
  - apply Hi.
  - intros g Hg. destruct (mi_retired _ Hi g Hg) as [Hle Hr]. split; [done|]. intros id c p t. rewrite Hcur. apply Hr.
  - intros p t Hp. rewrite Hcur. by apply (mi_ends _ Hi).
  - apply Hi.
Qed.

(** An accepted registration: a fresh address and a fresh generation. *)
Lemma registered_inv m pend s order' :
  manager_inv (mkNode m pend) -> Healthy s = true -> as_ConnectionID s <> [] ->
  let aid := as_AgentID s in
  let c := as_ConnectionID s in
  let cs := default ∅ (m_sessions m !! aid) in
  let old := cs !! c in
  let g := m_nextServerGeneration m + 1 in
  (old <> None \/ Z.of_nat (size cs) < sc_MaxConnectionsPerAgent (m_cfg m)) -> m_nextServerGeneration m <> max_uint64 ->
  order' = (if bool_decide (c ∈ order_of m aid) then order_of m aid else order_of m aid ++ [c]) ->
  manager_inv (mkNode (mkManager (<[m_next m := set_generation s g]> (m_heap m)) (S (m_next m)) (<[aid := <[c := m_next m]> cs]> (m_sessions m))
    (<[aid := order']> (m_connectionOrder m)) g (m_retiredEpochs m) (m_retiredGenerations m) (m_cfg m))
    (match old with Some p => p :: pend | None => pend end)).
Proof.
  intros Hi Hh Hc aid c cs old g Hcap Hmax Eo. pose proof (mi_next _ Hi) as Hn. cbn in Hn. set (p := m_next m). set (m' := mkManager _ _ _ _ _ _ _ _).
  assert (forall id' c', current m' id' c' = if decide (aid = id' /\ c = c') then Some p else current m id' c') as Hcur.
  { intros id' c'. unfold current, m'. cbn. destruct (decide (aid = id')) as [<-|]; [rewrite lookup_insert_eq|rewrite lookup_insert_ne by done; by rewrite decide_False by tauto].
    cbn. destruct (decide (c = c')) as [<-|]; [rewrite lookup_insert_eq; by rewrite decide_True|rewrite lookup_insert_ne by done; rewrite decide_False by tauto].
    fold cs. change (cs !! c' = current m aid c'). by rewrite current_sessions. }
  assert (m_heap m !! p = None) as Hp. { apply eq_None_not_Some. intros [t Ht]. apply (mi_gen _ Hi) in Ht as [_ Ht]. cbn in Ht. lia. }
  assert (forall q t, <[p := set_generation s g]> (m_heap m) !! q = Some t -> (q = p /\ t = set_generation s g) \/ m_heap m !! q = Some t) as Hheap.
  { intros q t. destruct (decide (p = q)) as [<-|]; [rewrite lookup_insert_eq; intros [= <-]; by left|rewrite lookup_insert_ne by done; by right]. }
  split; cbn [n_manager n_pending].
  - intros id'. unfold order_of. cbn. destruct (decide (aid = id')) as [<-|Hne]; [rewrite lookup_insert_eq|rewrite lookup_insert_ne by done].
    + cbn. rewrite Eo. destruct (mi_order _ Hi aid) as [Hnd Hel]. cbn in Hnd, Hel. case_bool_decide as Hin.
      * split; [done|]. intros c'. rewrite Hcur. case_decide as Hd; [destruct Hd as [_ <-]; naive_solver|apply Hel].
      * split; [apply NoDup_app; split; [done|]; split; [set_solver|apply NoDup_singleton]|]. intros c'.
        rewrite Hcur, elem_of_app, list_elem_of_singleton. case_decide as Hd; [destruct Hd as [_ <-]; naive_solver|]. rewrite Hel. naive_solver.
    + destruct (mi_order _ Hi id') as [Hnd Hel]. split; [done|]. intros c'. rewrite Hcur, decide_False by tauto. apply Hel.
  - intros id' c' q. rewrite Hcur. destruct (decide (aid = id' /\ c = c')) as [Hd|Hd].
    + intros Hq. assert (q = p) as -> by congruence. destruct Hd as [<- <-]. split; [done|]. exists (set_generation s g). cbn. by rewrite lookup_insert_eq.
    + intros Hq. destruct (mi_entry _ Hi id' c' q Hq) as (? & t & Ht & ?). split; [done|]. exists t. cbn in *. rewrite lookup_insert_ne; [done|]. intros <-. congruence.
  - intros id' cs'. cbn. destruct (decide (aid = id')) as [<-|Hne]; [rewrite lookup_insert_eq|rewrite lookup_insert_ne by done].
    + intros [= <-]. split; [|left; apply insert_non_empty]. assert (Z.of_nat (size cs) <= sc_MaxConnectionsPerAgent (m_cfg m)) as Hs.
      { unfold cs. pose proof (mi_max _ Hi). destruct (m_sessions m !! aid) as [cs0|] eqn:Es; [by apply (mi_size _ Hi aid cs0) in Es as [? _]|cbn in *; rewrite map_size_empty; lia]. }
      rewrite map_size_insert. fold old. destruct old; cbn [id]; [done|]. destruct Hcap as [|]; [done|lia].
    + intros Hcs. destruct (mi_size _ Hi id' cs' Hcs) as [? [?|?]]; [by split; [|left]|done].
  - apply Hi.
  - intros q t [[-> ->]|Hq]%Hheap; cbn; [lia|]. destruct (mi_gen _ Hi q t Hq). cbn in *. lia.
  - intros q1 q2 t1 t2 [[-> ->]|H1]%Hheap [[-> ->]|H2]%Hheap; cbn; try done.
    + intros E. apply (mi_gen _ Hi) in H2. cbn in H2. lia.
    + intros E. apply (mi_gen _ Hi) in H1. cbn in H1. lia.
    + by apply (mi_inj _ Hi).
  - intros g' Hg. destruct (mi_retired _ Hi g' Hg) as [Hle Hr]. cbn in *. split; [lia|]. intros id' c' q t. rewrite Hcur. destruct (decide (aid = id' /\ c = c')) as [Hd|Hd].
    + intros [= <-]. rewrite lookup_insert_eq. intros [= <-]. cbn. lia.
    + intros Hq. destruct (mi_entry _ Hi id' c' q Hq) as (_ & t0 & Ht0 & _). cbn in Ht0. rewrite lookup_insert_ne; [by eapply Hr|]. intros <-. congruence.
  - intros q t [[-> ->]|Hq]%Hheap; cbn; [left; rewrite Hcur; by rewrite decide_True|]. rewrite Hcur.
    destruct (mi_ends _ Hi q t Hq) as [Hq'|[?|?]]; cbn in *; [|by right; left|right; right; destruct old; set_solver].
    destruct (decide (aid = as_AgentID t /\ c = as_ConnectionID t)) as [[E1 E2]|]; [|by left]. rewrite <- E1, <- E2, current_sessions in Hq'. right; right.
    change (old = Some q) in Hq'. rewrite Hq'. set_solver.
  - cbn. lia.
Qed.

(** Connections leave the table: the sessions that leave are closed, and the
    generations added to the retired ones are theirs. *)
Lemma removal_inv m m' pend :
  manager_inv (mkNode m pend) ->
  (forall p s', m_heap m' !! p = Some s' -> exists s, m_heap m !! p = Some s /\ same_identity s s' /\
     (current m (as_AgentID s) (as_ConnectionID s) = Some p -> current m' (as_AgentID s) (as_ConnectionID s) = Some p \/ Healthy s' = false)) ->
  (forall p s, m_heap m !! p = Some s -> exists s', m_heap m' !! p = Some s' /\ same_identity s s') ->
  (forall id c p, current m' id c = Some p -> current m id c = Some p) ->
  (forall id, NoDup (order_of m' id) /\ forall c, c ∈ order_of m' id <-> is_Some (current m' id c)) ->
  (forall id cs, m_sessions m' !! id = Some cs -> cs <> ∅ /\ Z.of_nat (size cs) <= sc_MaxConnectionsPerAgent (m_cfg m) \/ m_sessions m !! id = Some cs) ->
  m_next m' = m_next m -> m_nextServerGeneration m' = m_nextServerGeneration m -> m_cfg m' = m_cfg m ->
  (forall g, g ∈ m_retiredGenerations m' -> g ∈ m_retiredGenerations m \/
     exists p s, m_heap m !! p = Some s /\ as_serverGeneration s = g /\ forall id c, current m' id c <> Some p) ->
  manager_inv (mkNode m' pend).
Proof.
  intros Hi Hback Hfwd Hcur Hord Hsize En Eg Ec Hret. split; cbn [n_manager n_pending]; rewrite ?En, ?Eg, ?Ec.
  - done.
  - intros id c p Hp%Hcur. destruct (mi_entry _ Hi id c p Hp) as (Hc & s & Hs & <- & <-). split; [done|].
    destruct (Hfwd p s Hs) as (s' & Hs' & ? & ? & _). by exists s'.
  - intros id cs Hcs. destruct (Hsize id cs Hcs) as [[Hne Hsz]|Hold]; [by split; [|left]|by apply (mi_size _ Hi id cs)].
  - apply Hi.
  - intros p s' (s & Hs & (_ & _ & _ & -> & _) & _)%Hback. by apply (mi_gen _ Hi).
  - intros p q s t (s0 & Hs & (_ & _ & _ & -> & _) & _)%Hback (t0 & Ht & (_ & _ & _ & -> & _) & _)%Hback. by apply (mi_inj _ Hi).
  - intros g Hg. assert (forall id c p s', current m' id c = Some p -> m_heap m' !! p = Some s' -> exists s, m_heap m !! p = Some s /\ as_serverGeneration s' = as_serverGeneration s) as Hgen.
    { intros id c p s' _ (s & Hs & (_ & _ & _ & ? & _) & _)%Hback. by exists s. }
    destruct (Hret g Hg) as [Hold|(p & s & Hs & <- & Hno)].
    + destruct (mi_retired _ Hi g Hold) as [Hle Hr]. split; [done|]. intros id c p s' Hp Hs'. destruct (Hgen id c p s' Hp Hs') as (s & Hs & ->).
      by eapply (Hr id c p s), Hs; [apply Hcur].
    + split; [by apply (mi_gen _ Hi p)|]. intros id c q s' Hq Hs' E. destruct (Hgen id c q s' Hq Hs') as (t & Ht & Et). rewrite Et in E.
      assert (q = p) as -> by (by apply (mi_inj _ Hi q p t s)). by apply Hno in Hq.
  - intros p s' (s & Hs & (-> & -> & _ & _ & Hh) & Hend)%Hback. destruct (mi_ends _ Hi p s Hs) as [Hp|[?|?]]; [|right; left; auto|by right; right].
    destruct (Hend Hp); [by left|by right; left].
  - apply Hi.
Qed.

Lemma update_session_heap m p f q : m_heap (update_session m p f) !! q = if decide (p = q) then f <$> m_heap m !! q else m_heap m !! q.
Proof. unfold update_session. cbn. case_decide as E; [subst; by rewrite lookup_alter_eq|by rewrite lookup_alter_ne]. Qed.

Lemma RemoveSession_inv m pend id p : manager_inv (mkNode m pend) -> manager_inv (mkNode (RemoveSession m id p) pend).
Proof.
  intros Hi. unfold RemoveSession. destruct (m_heap m !! p) as [s|] eqn:Hs; [|done]. case_bool_decide as Hp; [|done].
  destruct (mi_entry _ Hi id _ p Hp) as (_ & s0 & Hs0 & Ea & _). cbn in Hs0. assert (s0 = s) as -> by congruence.
  set (c := as_ConnectionID s) in *. set (cs := default ∅ (m_sessions m !! id)). assert (cs !! c = Some p) as Hcs by (by rewrite <- Hp, current_sessions).
  set (m2 := if decide _ then _ else _).
  assert (m_heap m2 = m_heap (update_session m p session_Close) /\ m_next m2 = m_next m /\ m_nextServerGeneration m2 = m_nextServerGeneration m /\
    m_cfg m2 = m_cfg m /\ m_retiredGenerations m2 = m_retiredGenerations m) as (Eh & En & Eg & Ec & Er) by (unfold m2; by case_decide).
  assert (forall id' c', current m2 id' c' = if decide (id = id' /\ c = c') then None else current m id' c') as Hcur.
  { intros id' c'. rewrite current_sessions. unfold m2. destruct (decide (delete c cs = ∅)) as [He|He]; cbn; destruct (decide (id = id')) as [<-|Hne].
    - rewrite lookup_delete_eq. cbn. rewrite lookup_empty. case_decide; [done|]. rewrite current_sessions. fold cs.
      assert (delete c cs !! c' = None) as Hd by (by rewrite He). symmetry. rewrite lookup_delete_ne in Hd; [done|]. tauto.
    - rewrite lookup_delete_ne, decide_False by tauto. by rewrite current_sessions.
    - rewrite lookup_insert_eq. cbn. case_decide as Hd; [destruct Hd as [_ <-]; by rewrite lookup_delete_eq|]. rewrite current_sessions, lookup_delete_ne by tauto. done.
    - rewrite lookup_insert_ne, decide_False by tauto. by rewrite current_sessions. }
  assert (forall q t, m_heap m !! q = Some t -> exists t', m_heap m2 !! q = Some t' /\ same_identity t t' /\ (q = p -> Healthy t' = false)) as Hfwd.
  { intros q t Ht. rewrite Eh, update_session_heap. case_decide as E; [|exists t; by split_and!]. rewrite Ht. exists (session_Close t). destruct (close_identity t). done. }
  apply (removal_inv m _ pend Hi); try done.
  - intros q t' Ht'. change (m_heap m2 !! q = Some t') in Ht'. assert (is_Some (m_heap m !! q)) as [t Ht].
    { rewrite Eh, update_session_heap in Ht'. case_decide; [|by eexists]. destruct (m_heap m !! q); [by eexists|done]. }
    destruct (Hfwd q t Ht) as (t'' & Ht'' & Hid & Hcl). assert (t'' = t') as -> by congruence. exists t. split_and!; [done|done|]. intros Hq.
    destruct (decide (q = p)) as [->|Hqp]; [right; auto|]. left. change (current m2 (as_AgentID t) (as_ConnectionID t) = Some q). rewrite Hcur.
    case_decide as Hd; [|done]. destruct Hd as [E1 E2]. rewrite <- E1, <- E2 in Hq. congruence.
  - intros q t Ht. destruct (Hfwd q t Ht) as (t' & Ht' & Hid & _). by exists t'.
  - intros id' c' q. change (current m2 id' c' = Some q -> current m id' c' = Some q). rewrite Hcur. by case_decide.
  - intros id'. change (NoDup (order_of m2 id') /\ forall c', c' ∈ order_of m2 id' <-> is_Some (current m2 id' c')).
    destruct (mi_order _ Hi id') as [Hnd Hel]. cbn in Hnd, Hel. destruct (decide (id = id')) as [<-|Hne].
    + unfold m2 in *. destruct (decide (delete c cs = ∅)) as [He|He]; unfold order_of; cbn; [rewrite lookup_delete_eq|rewrite lookup_insert_eq]; cbn.
      * split; [constructor|]. intros c'. unfold current. cbn. rewrite lookup_delete_eq. cbn. split; [by intros ?%not_elem_of_nil|by intros []].
      * split; [by apply NoDup_filter|]. intros c'. rewrite list_elem_of_filter, Hcur. case_decide as Hd.
        -- destruct Hd as [_ <-]. split; [by intros [? _]|by intros []].
        -- rewrite Hel. split; [tauto|]. split; [|done]. intros ->. by apply Hd.
    + assert (order_of m2 id' = order_of m id') as -> by (unfold m2, order_of; case_decide; cbn; [by rewrite lookup_delete_ne|by rewrite lookup_insert_ne]).
      split; [done|]. intros c'. rewrite Hcur, decide_False by tauto. apply Hel.
  - intros id' cs' Hcs'. change (m_sessions m2 !! id' = Some cs') in Hcs'. unfold m2 in Hcs'. destruct (decide (delete c cs = ∅)) as [He|He]; cbn in Hcs'.
    + apply lookup_delete_Some in Hcs' as [_ ?]. by right.
    + destruct (decide (id = id')) as [<-|]; [rewrite lookup_insert_eq in Hcs'|rewrite lookup_insert_ne in Hcs' by done; by right].
      injection Hcs' as <-. left. split; [done|]. pose proof (map_subseteq_size _ _ (delete_subseteq cs c)). unfold cs in *.
      destruct (m_sessions m !! id) as [cs0|] eqn:E0; [|done]. apply (mi_size _ Hi id cs0) in E0 as [? _]. cbn in *. lia.
  - cbn. intros g [->%elem_of_singleton|Hg]%elem_of_union; [right|left; congruence]. exists p, s. split_and!; [done|done|].
    intros id' c'. change (current m2 id' c' <> Some p). rewrite Hcur. case_decide as Hd; [done|]. intros Hq. destruct (mi_entry _ Hi _ _ _ Hq) as (_ & t & Ht & ? & ?).
    cbn in Ht. assert (t = s) as -> by congruence. apply Hd. unfold c. split; congruence.
Qed.

(** The loop of [Remove]: every listed session is closed and its generation
    retired; the tables stay. *)
Lemma remove_all_spec id ps m :
  NoDup ps -> let m' := foldl (remove_one id) m ps in
  m_sessions m' = m_sessions m /\ m_connectionOrder m' = m_connectionOrder m /\ m_next m' = m_next m /\
  m_nextServerGeneration m' = m_nextServerGeneration m /\ m_cfg m' = m_cfg m /\
  (forall p, m_heap m' !! p = if decide (p ∈ ps) then session_Close <$> m_heap m !! p else m_heap m !! p) /\
  (forall g, g ∈ m_retiredGenerations m' -> g ∈ m_retiredGenerations m \/ exists p s, p ∈ ps /\ m_heap m !! p = Some s /\ as_serverGeneration s = g).
Proof.
  revert m. induction ps as [|p ps IH]; intros m Hnd; cbn [foldl].
  { split_and!; try done; intros; first [by left|by rewrite decide_False by apply not_elem_of_nil]. }
  apply NoDup_cons in Hnd as [Hp Hnd]. destruct (IH (remove_one id m p) Hnd) as (E1 & E2 & E3 & E4 & E5 & Hh & Hg).
  assert (forall q, m_heap (remove_one id m p) !! q = if decide (p = q) then session_Close <$> m_heap m !! q else m_heap m !! q) as Hone.
  { intros q. unfold remove_one. destruct (m_heap m !! p) as [s|] eqn:Ep; [apply update_session_heap|]. case_decide as E; [|done]. subst. by rewrite Ep. }
  assert (m_sessions (remove_one id m p) = m_sessions m /\ m_connectionOrder (remove_one id m p) = m_connectionOrder m /\ m_next (remove_one id m p) = m_next m /\
    m_nextServerGeneration (remove_one id m p) = m_nextServerGeneration m /\ m_cfg (remove_one id m p) = m_cfg m) as (F1 & F2 & F3 & F4 & F5).
  { unfold remove_one. by destruct (m_heap m !! p). }
  split_and!; try congruence.
  - intros q. rewrite Hh, Hone. destruct (decide (p = q)) as [<-|Hne].
    + rewrite (decide_False (P := p ∈ ps)), decide_True by set_solver. done.
    + destruct (decide (q ∈ ps)); [rewrite decide_True by set_solver|rewrite decide_False by set_solver]; done.
  - intros g [Hin|(q & s & Hq & Hs & <-)]%Hg.
    + unfold remove_one in Hin. destruct (m_heap m !! p) as [s|] eqn:Ep; [|by left]. cbn in Hin. apply elem_of_union in Hin as [->%elem_of_singleton|?]; [|by left].
      right. exists p, s. set_solver.
    + right. rewrite Hone in Hs. case_decide as E; [subst; done|]. exists q, s. set_solver.
Qed.

Lemma elem_of_agent_connections m id p : p ∈ agent_connections m id <-> exists c, current m id c = Some p.
Proof.
  unfold agent_connections. rewrite list_elem_of_fmap. setoid_rewrite current_sessions. split.
  - intros ([c q] & -> & Hq%elem_of_map_to_list). by exists c.
  - intros [c Hc]. exists (c, p). split; [done|]. by apply elem_of_map_to_list.
Qed.

(** A session is at one place of the table. *)
Lemma current_inj n id id' c c' p :
  manager_inv n -> current (n_manager n) id c = Some p -> current (n_manager n) id' c' = Some p -> id = id' /\ c = c'.
Proof.
  intros Hi H1 H2. destruct (mi_entry _ Hi _ _ _ H1) as (_ & s & Hs & ? & ?). destruct (mi_entry _ Hi _ _ _ H2) as (_ & t & Ht & ? & ?). split; congruence.
Qed.

Lemma agent_connections_NoDup n id : manager_inv n -> NoDup (agent_connections (n_manager n) id).
Proof.
  intros Hi. unfold agent_connections. apply NoDup_fmap_2_strong; [|apply NoDup_map_to_list].
  intros [c p] [c' q] H1%elem_of_map_to_list H2%elem_of_map_to_list E. cbn in E. subst q. f_equal.
  by eapply (current_inj n id id c c' p Hi); rewrite current_sessions.
Qed.

Lemma Remove_inv m pend id : manager_inv (mkNode m pend) -> manager_inv (mkNode (Remove m id) pend).
Proof.
  intros Hi. unfold Remove. pose proof (agent_connections_NoDup _ id Hi) as Hnd. cbn in Hnd.
  destruct (remove_all_spec id (agent_connections m id) m Hnd) as (E1 & E2 & E3 & E4 & E5 & Hh & Hg). set (m1 := foldl _ _ _) in *. cbv zeta in *.
  set (m2 := with_tables _ _ _). assert (forall id' c, current m2 id' c = if decide (id = id') then None else current m id' c) as Hcur.
  { intros id' c. unfold current, m2. cbn. rewrite E1. case_decide as E; [subst; by rewrite lookup_delete_eq|by rewrite lookup_delete_ne]. }
  apply (removal_inv m m2 pend Hi); try done.
  - intros p s' Hs'. change (m_heap m1 !! p = Some s') in Hs'. rewrite Hh in Hs'. case_decide as Hin.
    + destruct (m_heap m !! p) as [s|]; [|done]. injection Hs' as <-. exists s. destruct (close_identity s). split_and!; [done|done|by right].
    + exists s'. split_and!; [done|by split_and!|]. intros Hp. left. rewrite Hcur. case_decide as E; [|done]. exfalso. apply Hin, elem_of_agent_connections. subst. by eexists.
  - intros p s Hs. change (exists s', m_heap m1 !! p = Some s' /\ same_identity s s'). rewrite Hh, Hs. case_decide; [|exists s; by split_and!].
    exists (session_Close s). destruct (close_identity s). done.
  - intros id' c p. rewrite Hcur. by case_decide.
  - intros id'. destruct (mi_order _ Hi id') as [Hn Hel]. unfold order_of. unfold m2 at 1 2. cbn. rewrite E2. destruct (decide (id = id')) as [<-|].
    + rewrite lookup_delete_eq. cbn. split; [constructor|]. intros c. rewrite Hcur, decide_True by done. split; [by intros ?%not_elem_of_nil|by intros []].
    + rewrite lookup_delete_ne by done. split; [done|]. intros c. rewrite Hcur, decide_False by done. apply Hel.
  - unfold m2. cbn. rewrite E1. intros id' cs [_ ?]%lookup_delete_Some. by right.
  - intros g [?|(p & s & Hp & Hs & <-)]%Hg; [by left|right]. exists p, s. split_and!; [done|done|]. intros id' c. rewrite Hcur. case_decide as E; [done|].
    apply elem_of_agent_connections in Hp as [c0 Hc0]. intros Hp'. destruct (current_inj _ _ _ _ _ _ Hi Hc0 Hp'). done.
Qed.

Lemma send_spec now m id g f :
  let '(err, m') := sendServerGeneration now m id g f in
  (m' = m /\ err <> None) \/
  exists p s, p ∈ agent_connections m id /\ m_heap m !! p = Some s /\ as_serverGeneration s = g /\ Healthy s = true /\
    err = (session_enqueue now s f).1 /\ m' = with_heap m (<[p := (session_enqueue now s f).2]> (m_heap m)).
Proof.
  unfold sendServerGeneration. destruct (head _) as [p|] eqn:Ehd; [|by left].
  assert (p ∈ agent_connections m id /\ has_generation m g p = true) as [Hp Hg].
  { destruct (List.filter _ _) as [|q l] eqn:Ef; [done|]. injection Ehd as ->. assert (In p (List.filter (has_generation m g) (agent_connections m id))) as Hin by (rewrite Ef; by left).
    apply filter_In in Hin as [Hin ?]. by rewrite <- list_elem_of_In in Hin. }
  unfold has_generation in Hg. destruct (m_heap m !! p) as [s|] eqn:Hs; [|done]. apply Z.eqb_eq in Hg.
  destruct (Healthy s) eqn:Hh; cbn [negb]; [|by left]. destruct (session_enqueue now s f) as [err s'] eqn:Ee. right. exists p, s. rewrite Ee. done.
Qed.

Lemma Register_inv m pend req auth now m' r :
  manager_inv (mkNode m pend) -> Register m req auth now = (m', r) ->
  manager_inv (mkNode m' (match r with Ok (_, Some old) => old :: pend | _ => pend end)).
Proof.
  intros Hi. unfold Register. destruct (_ || _ || _); [by intros [= <- <-]|]. destruct auth; cbn [negb]; [|by intros [= <- <-]].
  set (s := new_session m req now). assert (as_ConnectionID s <> []) as Hc by (unfold s, new_session; cbn; by case_bool_decide).
  unfold register_locked. cbv zeta. set (cs := default ∅ (m_sessions m !! as_AgentID s)). set (c := as_ConnectionID s) in *.
  assert (cs <> ∅ -> m_sessions m !! as_AgentID s <> None) as Hcs by (unfold cs; by destruct (m_sessions m !! as_AgentID s)).
  cbn [with_tables m_heap m_cfg m_nextServerGeneration m_next m_sessions m_connectionOrder m_retiredEpochs m_retiredGenerations].
  destruct (superseded _ _ _) eqn:Hst.
  { intros [= <- <-]. apply refused_inv; [done|left; apply Hcs]. intros E. unfold superseded in Hst. rewrite E, lookup_empty in Hst. done. }
  destruct (bool_decide (cs !! c = None) && _) eqn:Hcap.
  { intros [= <- <-]. apply refused_inv; [done|left; apply Hcs]. intros E. rewrite E, map_size_empty in Hcap. split_bools. pose proof (mi_max _ Hi). cbn in *. lia. }
  destruct (Z.eqb_spec (m_nextServerGeneration m) max_uint64) as [Hmax|Hmax]; [intros [= <- <-]; apply refused_inv; [done|by right]|].
  intros [= <- <-]. fold cs. rewrite insert_insert_eq. apply registered_inv; try done. fold cs c.
  destruct (cs !! c); [by left|right]. rewrite bool_decide_true in Hcap by done. cbn in Hcap. split_bools. done.
Qed.

(** The pending close of a replaced session. *)
Lemma close_pending_inv m a p b :
  manager_inv (mkNode m (a ++ p :: b)) -> manager_inv (mkNode (update_session m p session_Close) (a ++ b)).
Proof.
  intros Hi. destruct (m_heap m !! p) as [s|] eqn:Hp.
  - replace (update_session m p session_Close) with (with_heap m (<[p := session_Close s]> (m_heap m))).
    + destruct (close_identity s) as [Hid Hcl]. eapply heap_update_inv; [done|done|done|]. set_solver.
    + unfold update_session. f_equal. apply map_eq. intros q. destruct (decide (p = q)) as [<-|]; [by rewrite lookup_insert_eq, lookup_alter_eq, Hp|by rewrite lookup_insert_ne, lookup_alter_ne].
  - replace (update_session m p session_Close) with m.
    + destruct Hi as [H1 H2 H3 H4 H5 H6 H7 H8 H9]. split; try done. intros q t Hq. destruct (H8 q t Hq) as [?|[?|Hin]]; [by left|by right; left|right; right].
      cbn in *. assert (q <> p) by congruence. set_solver.
    + unfold update_session. replace (alter session_Close p (m_heap m)) with (m_heap m); [by destruct m|]. apply map_eq. intros q.
      destruct (decide (p = q)) as [<-|]; [by rewrite lookup_alter_eq, Hp|by rewrite lookup_alter_ne].
Qed.

Lemma manager_step_inv n n' : manager_inv n -> manager_step n n' -> manager_inv n'.
Proof.
  intros Hi Hs. destruct Hs as [m pend req auth now m' r Hr|m a p b|m pend id|m pend id p|m pend p s s' Hp Hs|m pend now id g f].
  - by eapply Register_inv.
  - by apply close_pending_inv.
  - by apply Remove_inv.
  - by apply RemoveSession_inv.
  - eapply heap_update_inv; [done|done|by apply session_step_identity|auto].
  - pose proof (send_spec now m id g f) as Hs. destruct (sendServerGeneration now m id g f) as [err m']. cbn. destruct Hs as [[-> _]|(p & s & _ & Hp & _ & _ & _ & ->)]; [done|].
    eapply heap_update_inv; [done|done|apply enqueue_identity|auto].
Qed.

Lemma manager_reachable_inv cfg n : manager_reachable cfg n -> manager_inv n.
Proof.
  apply rtc_preserve; [intros x y; apply manager_step_inv|].
  assert (forall id c, current (NewAgentSessionManager cfg) id c = None) as Hno by done.
  split; cbn [n_manager n_pending]; try done; try (intros; set_solver).
  - intros id. split; [constructor|]. intros c. rewrite Hno. unfold order_of. cbn. rewrite lookup_empty. split; [by intros ?%not_elem_of_nil|by intros []].
  - cbn. destruct (Z.leb_spec (sc_MaxConnectionsPerAgent cfg) 0); [done|lia].
Qed.

(** *** Properties *)

Lemma elem_of_List m id p : (forall c, is_Some (current m id c) -> c ∈ order_of m id) -> p ∈ List_ m id <-> exists c, current m id c = Some p.
Proof.
  intros Ho. unfold List_. rewrite list_elem_of_omap. split; [intros (c & _ & Hc); by exists c|]. intros [c Hc]. exists c. split; [apply Ho; by eexists|done].
Qed.

Lemma List_NoDup n id : manager_inv n -> NoDup (List_ (n_manager n) id).
Proof.
  intros Hi. destruct (mi_order _ Hi id) as [Hn _]. unfold List_. induction Hn as [|c l Hc Hl IH]; [constructor|]. cbn.
  destruct (current (n_manager n) id c) as [p|] eqn:Ep; [|done]. constructor; [|done]. intros (c' & Hc' & Ep')%list_elem_of_omap.
  destruct (current_inj n id id c c' p Hi Ep Ep') as [_ <-]. done.
Qed.

Lemma List_length n id : manager_inv n -> Z.of_nat (length (List_ (n_manager n) id)) <= sc_MaxConnectionsPerAgent (m_cfg (n_manager n)).
Proof.
  intros Hi. assert (List_ (n_manager n) id ≡ₚ agent_connections (n_manager n) id) as Hp.
  { apply NoDup_Permutation; [by apply List_NoDup|by apply agent_connections_NoDup|]. intros p.
    rewrite elem_of_agent_connections, elem_of_List; [done|]. apply (mi_order _ Hi id). }
  rewrite Hp. unfold agent_connections. rewrite length_fmap, length_map_to_list. destruct (m_sessions (n_manager n) !! id) as [cs|] eqn:Es; cbn.
  - by apply (mi_size _ Hi id cs).
  - rewrite map_size_empty. pose proof (mi_max _ Hi). lia.
Qed.

(** C18. The session table is sound under every interleaving of registrations,
    replacements, removals and session failures.  [List_] returns each current
    connection of an agent exactly once and at most as many as configured; no
    two sessions ever share a generation; and a session that was registered is
    current, or can no longer be sent to, or is about to be closed by the
    registration that replaced it. *)
Theorem session_table_sound cfg n :
  manager_reachable cfg n ->
  let m := n_manager n in
  (forall id, NoDup (List_ m id) /\ (forall p, p ∈ List_ m id <-> exists c, current m id c = Some p) /\
     Z.of_nat (length (List_ m id)) <= sc_MaxConnectionsPerAgent (m_cfg m)) /\
  (forall p q s t, m_heap m !! p = Some s -> m_heap m !! q = Some t -> as_serverGeneration s = as_serverGeneration t -> p = q) /\
  (forall p s, m_heap m !! p = Some s -> current m (as_AgentID s) (as_ConnectionID s) = Some p \/ Healthy s = false \/ p ∈ n_pending n).
Proof.
  intros Hi%manager_reachable_inv m. split_and!; [|apply Hi|apply Hi]. intros id. split_and!; [by apply List_NoDup| |by apply List_length].
  intros p. apply elem_of_List, (mi_order _ Hi id).
Qed.

(** A case-insensitive lookup never answers with a nil session, short of 2^64
    registrations. *)
Lemma GetCaseInsensitive_not_nil n id keys :
  manager_inv n -> m_nextServerGeneration (n_manager n) <> max_uint64 -> (forall k, k ∈ keys <-> is_Some (m_sessions (n_manager n) !! k)) ->
  GetCaseInsensitive (n_manager n) id keys <> Ok None.
Proof.
  intros Hi Hg Hk. unfold GetCaseInsensitive. case_bool_decide; [done|]. destruct (List.filter _ keys) as [|k [|]] eqn:Ef; try done. intros [= Eg].
  assert (In k (List.filter (fun key => EqualFold key id) keys)) as Hin by (rewrite Ef; by left). apply filter_In in Hin as [Hin _].
  rewrite <- list_elem_of_In in Hin. apply Hk in Hin as [cs Hcs]. destruct (mi_size _ Hi k cs Hcs) as [_ [Hne|?]]; [|done].
  apply map_choose in Hne as (c & p & Hp). assert (p ∈ List_ (n_manager n) k) as HL.
  { apply elem_of_List; [apply (mi_order _ Hi k)|]. exists c. unfold current. by rewrite Hcs. }
  unfold Get in Eg. destruct (List_ (n_manager n) k); [by apply not_elem_of_nil in HL|done].
Qed.

(** *** Fencing *)

(** How a registration can change the current connection at a place. *)
Lemma Register_current m req auth now m' r id c p s :
  Register m req auth now = (m', r) -> current m id c = Some p -> m_heap m !! p = Some s ->
  current m' id c = Some p \/
  exists p' s', r = Ok (p', Some p) /\ current m' id c = Some p' /\ m_heap m' !! p' = Some s' /\ as_ConnectionEpoch s < as_ConnectionEpoch s'.
Proof.
  intros Hr Hp Hs. revert Hr. unfold Register. destruct (_ || _ || _); [intros [= <- <-]; by left|]. destruct auth; cbn [negb]; [|intros [= <- <-]; by left].
  set (ns := new_session m req now). unfold register_locked. cbv zeta. set (cs := default ∅ (m_sessions m !! as_AgentID ns)).
  assert (forall order, current (with_tables m (<[as_AgentID ns := cs]> (m_sessions m)) order) id c = Some p) as Hsame.
  { intros order. erewrite current_insert by done. case_decide; [|done]. subst id. unfold cs. by rewrite <- current_sessions. }
  cbn [with_tables m_heap m_cfg m_nextServerGeneration m_next m_sessions m_connectionOrder m_retiredEpochs m_retiredGenerations].
  destruct (superseded _ _ _) eqn:Hst; [intros [= <- <-]; by left|]. destruct (bool_decide _ && _); [intros [= <- <-]; by left|].
  destruct (_ =? max_uint64); [intros [= <- <-]; by left|]. intros [= <- <-]. set (m' := mkManager _ _ _ _ _ _ _ _).
  assert (current m' id c = if decide (as_AgentID ns = id /\ as_ConnectionID ns = c) then Some (m_next m) else current m id c) as Hcur.
  { unfold current, m'. cbn. rewrite insert_insert_eq. destruct (decide (as_AgentID ns = id)) as [<-|]; [rewrite lookup_insert_eq|rewrite lookup_insert_ne by done; by rewrite decide_False by tauto].
    cbn. destruct (decide (as_ConnectionID ns = c)) as [<-|]; [by rewrite lookup_insert_eq, decide_True|rewrite lookup_insert_ne, decide_False by tauto].
    change (cs !! c = current m (as_AgentID ns) c). by rewrite current_sessions. }
  rewrite Hcur. case_decide as Hd; [|by left]. destruct Hd as [<- <-]. right. rewrite current_sessions in Hp. fold cs in Hp.
  exists (m_next m), (set_generation ns (m_nextServerGeneration m + 1)). split_and!; [do 2 f_equal; exact Hp|done|cbn; by rewrite lookup_insert_eq|].
  unfold superseded in Hst. rewrite Hp in Hst. cbn in Hst. rewrite Hs in Hst. cbn. split_bools. lia.
Qed.

Lemma RemoveSession_current m id p q id' c :
  current m id' c = Some q -> (forall s, m_heap m !! p = Some s -> ~ (id = id' /\ as_ConnectionID s = c /\ current m id c = Some p)) ->
  current (RemoveSession m id p) id' c = Some q.
Proof.
  intros Hq Hne. unfold RemoveSession. destruct (m_heap m !! p) as [s|] eqn:Hs; [|done]. case_bool_decide as Hp; [|done].
  specialize (Hne s eq_refl). set (m2 := if decide _ then _ else _). change (current m2 id' c = Some q). rewrite current_sessions in Hq |- *. unfold m2.
  destruct (decide (id = id')) as [<-|Hid].
  - assert (as_ConnectionID s <> c) as Hc by (intros <-; by apply Hne).
    destruct (decide _) as [He|He]; cbn; [|by rewrite lookup_insert_eq; cbn; rewrite lookup_delete_ne].
    apply (f_equal (lookup c)) in He. rewrite lookup_delete_ne, lookup_empty in He by done. congruence.
  - destruct (decide _); cbn; [by rewrite lookup_delete_ne|by rewrite lookup_insert_ne].
Qed.

(** Connections are fenced.  In any step from a reachable state, the session
    at a place of the table stays there, or is replaced by one with a strictly
    greater connection epoch and queued for closing, or leaves because the
    agent or this very session was removed: neither a late registration nor
    the clean-up of an older connection can displace a newer one. *)
Theorem connections_fenced cfg n n' id c p s :
  manager_reachable cfg n -> manager_step n n' -> current (n_manager n) id c = Some p -> m_heap (n_manager n) !! p = Some s ->
  current (n_manager n') id c = Some p \/
  (exists p' s', current (n_manager n') id c = Some p' /\ m_heap (n_manager n') !! p' = Some s' /\
     as_ConnectionEpoch s < as_ConnectionEpoch s' /\ p ∈ n_pending n') \/
  n_manager n' = Remove (n_manager n) id \/ n_manager n' = RemoveSession (n_manager n) id p.
Proof.
  intros Hi%manager_reachable_inv Hst Hp Hs. destruct Hst as [m pend req auth now m' r Hr|m a q b|m pend id'|m pend id' q|m pend q t t' Hq Ht|m pend now id' g f]; cbn in *.
  - destruct (Register_current _ _ _ _ _ _ _ _ _ _ Hr Hp Hs) as [?|(p' & s' & -> & Hc & Hs' & He)]; [by left|right; left]. exists p', s'. split_and!; [done|done|done|set_solver].
  - by left.
  - destruct (decide (id' = id)) as [->|Hne]; [by right; right; left|left]. unfold current, Remove. cbn.
    destruct (remove_all_spec id' (agent_connections m id') m (agent_connections_NoDup _ id' Hi)) as (-> & _). by rewrite lookup_delete_ne.
  - destruct (decide (id' = id /\ q = p)) as [[-> ->]|Hne]; [by right; right; right|left]. apply RemoveSession_current; [done|].
    intros t Ht (-> & Hc & Hq). apply Hne. split; [done|congruence].
  - by left.
  - left. pose proof (send_spec now m id' g f) as Hsp. destruct (sendServerGeneration now m id' g f) as [err m']. cbn.
    by destruct Hsp as [[-> _]|(q & t & _ & _ & _ & _ & _ & ->)].
Qed.

(** No current session has generation [g], and none will. *)
Definition retired_for_good (n : node) (g : Z) : Prop :=
  g <= m_nextServerGeneration (n_manager n) /\
  forall id c p s, current (n_manager n) id c = Some p -> m_heap (n_manager n) !! p = Some s -> as_serverGeneration s <> g.

(** [m'] has at most the connections of [m], and the same sessions behind
    them. *)
Definition shrinks (m m' : AgentSessionManager) : Prop :=
  m_nextServerGeneration m' = m_nextServerGeneration m /\
  (forall id c p, current m' id c = Some p -> current m id c = Some p) /\
  (forall p s', m_heap m' !! p = Some s' -> exists s, m_heap m !! p = Some s /\ same_identity s s').

Lemma same_identity_refl s : same_identity s s.
Proof. by split_and!. Qed.

Lemma update_shrinks m p s s' : m_heap m !! p = Some s -> same_identity s s' -> shrinks m (with_heap m (<[p := s']> (m_heap m))).
Proof.
  intros Hp Hid. split_and!; [done|done|]. cbn. intros q t. destruct (decide (p = q)) as [<-|]; [rewrite lookup_insert_eq|rewrite lookup_insert_ne by done].
  - intros [= <-]. by exists s.
  - intros Hq. exists t. split; [done|apply same_identity_refl].
Qed.

Lemma close_shrinks m p : shrinks m (update_session m p session_Close).
Proof.
  split_and!; [done|done|]. intros q s'. rewrite update_session_heap. case_decide; [|intros Hq; exists s'; split; [done|apply same_identity_refl]].
  destruct (m_heap m !! q) as [s|]; [|done]. intros [= <-]. exists s. by destruct (close_identity s).
Qed.

Lemma RemoveSession_shrinks m id p : shrinks m (RemoveSession m id p).
Proof.
  unfold RemoveSession. destruct (m_heap m !! p) as [s|]; [|split_and!; [done|done|intros q t Hq; exists t; split; [done|apply same_identity_refl]]].
  case_bool_decide; [|split_and!; [done|done|intros q t Hq; exists t; split; [done|apply same_identity_refl]]].
  destruct (close_shrinks m p) as (_ & _ & Hh). set (cs := default ∅ (m_sessions m !! id)). split_and!.
  - by destruct (decide _).
  - intros id' c q. set (m2 := if decide _ then _ else _). change (current m2 id' c = Some q -> current m id' c = Some q). rewrite !current_sessions. unfold m2.
    destruct (decide (delete _ cs = ∅)); cbn; destruct (decide (id = id')) as [<-|].
    + by rewrite lookup_delete_eq.
    + by rewrite lookup_delete_ne.
    + rewrite lookup_insert_eq. cbn. by intros [_ ?]%lookup_delete_Some.
    + by rewrite lookup_insert_ne.
  - intros q s'. destruct (decide _); cbn; apply Hh.
Qed.

Lemma Remove_shrinks n id : manager_inv n -> shrinks (n_manager n) (Remove (n_manager n) id).
Proof.
  intros Hi. unfold Remove. destruct (remove_all_spec id (agent_connections (n_manager n) id) (n_manager n) (agent_connections_NoDup _ id Hi)) as (E1 & _ & _ & E4 & _ & Hh & _).
  split_and!; [done| |].
  - intros id' c p. unfold current. cbn. rewrite E1. destruct (decide (id = id')) as [<-|]; [by rewrite lookup_delete_eq|by rewrite lookup_delete_ne].
  - cbn. intros p s'. rewrite Hh. case_decide; [|intros Hp; exists s'; split; [done|apply same_identity_refl]].
    destruct (m_heap (n_manager n) !! p) as [s|]; [|done]. intros [= <-]. exists s. by destruct (close_identity s).
Qed.

Lemma shrinks_retired n pend m' g : shrinks (n_manager n) m' -> retired_for_good n g -> retired_for_good (mkNode m' pend) g.
Proof.
  intros (En & Hc & Hh) [Hle Hr]. split; cbn; [by rewrite En|]. intros id c p s' Hp (s & Hs & (_ & _ & _ & -> & _))%Hh. eapply Hr; [by apply Hc|done].
Qed.

Lemma Register_retired m pend pend' req auth now m' r g :
  manager_inv (mkNode m pend) -> Register m req auth now = (m', r) -> retired_for_good (mkNode m pend) g -> retired_for_good (mkNode m' pend') g.
Proof.
  intros Hi Hr [Hle Hno]. cbn in Hle, Hno. revert Hr. unfold Register. destruct (_ || _ || _); [by intros [= <- <-]|]. destruct auth; cbn [negb]; [|by intros [= <- <-]].
  set (ns := new_session m req now). unfold register_locked. cbv zeta. set (cs := default ∅ (m_sessions m !! as_AgentID ns)).
  assert (retired_for_good (mkNode (with_tables m (<[as_AgentID ns := cs]> (m_sessions m)) (m_connectionOrder m)) pend') g) as Hsame.
  { split; [done|]. cbn. intros id c p s. erewrite current_insert by done. case_decide; [|apply Hno]. subst id. unfold cs. rewrite <- current_sessions. apply Hno. }
  cbn [with_tables m_heap m_cfg m_nextServerGeneration m_next m_sessions m_connectionOrder m_retiredEpochs m_retiredGenerations].
  destruct (superseded _ _ _); [by intros [= <- <-]|]. destruct (bool_decide _ && _); [by intros [= <- <-]|]. destruct (_ =? max_uint64); [by intros [= <- <-]|].
  intros [= <- <-]. split; cbn; [lia|]. intros id c p s Hp. destruct (decide (m_next m = p)) as [<-|Hne].
  - rewrite lookup_insert_eq. intros [= <-]. cbn. lia.
  - rewrite lookup_insert_ne by done. apply (Hno id c). revert Hp. unfold current. cbn. rewrite insert_insert_eq.
    destruct (decide (as_AgentID ns = id)) as [<-|]; [rewrite lookup_insert_eq|by rewrite lookup_insert_ne]. cbn.
    destruct (decide (as_ConnectionID ns = c)) as [<-|]; [rewrite lookup_insert_eq; congruence|rewrite lookup_insert_ne by done].
    intros Hp. change (current m (as_AgentID ns) c = Some p). by rewrite current_sessions.
Qed.

Lemma retired_step n n' g : manager_inv n -> manager_step n n' -> retired_for_good n g -> retired_for_good n' g.
Proof.
  intros Hi Hs Hr. destruct Hs as [m pend req auth now m' r Hreg|m a p b|m pend id|m pend id p|m pend p s s' Hp Hs|m pend now id g' f].
  - by eapply Register_retired.
  - eapply shrinks_retired, Hr. apply close_shrinks.
  - eapply shrinks_retired, Hr. by apply (Remove_shrinks (mkNode m pend)).
  - eapply shrinks_retired, Hr. apply RemoveSession_shrinks.
  - eapply shrinks_retired, Hr. eapply update_shrinks; [done|by apply session_step_identity].
  - pose proof (send_spec now m id g' f) as Hsp. destruct (sendServerGeneration now m id g' f) as [err m']. cbn.
    destruct Hsp as [[-> _]|(p & s & _ & Hp & _ & _ & _ & ->)]; [done|]. eapply shrinks_retired, Hr. eapply update_shrinks; [done|apply enqueue_identity].
Qed.

(** C4. A frame reaches the incarnation it was meant for or nobody.  An accepted
    send went to the writer of the agent's current, healthy session with that
    generation and touched no other session; and once no current session has
    a generation, every later send to it, after any further registrations
    under the same agent and connection id, is refused and changes nothing. *)
Theorem generations_fenced cfg n :
  manager_reachable cfg n ->
  (forall now id g f m', sendServerGeneration now (n_manager n) id g f = (None, m') ->
     exists c p s, current (n_manager n) id c = Some p /\ m_heap (n_manager n) !! p = Some s /\ as_serverGeneration s = g /\ Healthy s = true /\
       (session_enqueue now s f).1 = None /\ m' = with_heap (n_manager n) (<[p := (session_enqueue now s f).2]> (m_heap (n_manager n)))) /\
  (forall g n', retired_for_good n g -> rtc manager_step n n' -> forall now id f,
     (sendServerGeneration now (n_manager n') id g f).1 <> None /\ (sendServerGeneration now (n_manager n') id g f).2 = n_manager n').
Proof.
  intros Hi%manager_reachable_inv. split.
  - intros now id g f m' E. pose proof (send_spec now (n_manager n) id g f) as Hs. rewrite E in Hs. destruct Hs as [[_ ?]|(p & s & Hp & Hs & Hg & Hh & He & ->)]; [done|].
    apply elem_of_agent_connections in Hp as [c Hc]. by exists c, p, s.
  - intros g n' Hr Hst now id f. assert (manager_inv n' /\ retired_for_good n' g) as [_ [_ Hno]].
    { apply (rtc_preserve manager_step (fun x => manager_inv x /\ retired_for_good x g) n n'); [|done|done].
      intros x y [Hx Hrx] Hxy. split; [by eapply manager_step_inv|by eapply retired_step]. }
    pose proof (send_spec now (n_manager n') id g f) as Hs. destruct (sendServerGeneration now (n_manager n') id g f) as [err m'].
    destruct Hs as [[-> ?]|(p & s & [c Hc]%elem_of_agent_connections & Hs & Hg & _)]; [done|]. exfalso. by apply (Hno id c p s Hc Hs).
Qed.
End runs.

(** ** A concrete node

    Agent [a] registers, reconnects with a newer epoch under the same
    connection id, and its first session is closed. *)
Definition ex_cfg : AgentSessionConfig := mkSessionConfig [] 4 2.
Definition ex_req (epoch : Z) : AgentRegistration := mkRegistration #"a" #"node" epoch [] #"c" 0 [].
Definition ex_registered (m : AgentSessionManager) (epoch : Z) : AgentSessionManager := (@Register ascii_unicode m (ex_req epoch) true 0).1.
Definition ex_node1 : node := mkNode (ex_registered (NewAgentSessionManager ex_cfg) 1) [].
Definition ex_node2 : node := mkNode (ex_registered (n_manager ex_node1) 2) [0%nat].
Definition ex_frame : Frame := mkFrame 1 FramePing 0 0 0 [].

Lemma ex_step1 : @manager_step ascii_unicode (mkNode (NewAgentSessionManager ex_cfg) []) ex_node1.
Proof. refine (@ms_register ascii_unicode _ [] (ex_req 1) true 0 _ (Ok (0%nat, None)) _). vm_compute. reflexivity. Qed.

Lemma ex_step2 : @manager_step ascii_unicode ex_node1 ex_node2.
Proof. refine (@ms_register ascii_unicode _ [] (ex_req 2) true 0 _ (Ok (1%nat, Some 0%nat)) _). vm_compute. reflexivity. Qed.

Lemma ex_reachable1 : @manager_reachable ascii_unicode ex_cfg ex_node1.
Proof. apply rtc_once, ex_step1. Qed.

Lemma ex_reachable2 : @manager_reachable ascii_unicode ex_cfg ex_node2.
Proof. eapply rtc_r; [apply ex_reachable1|apply ex_step2]. Qed.

Lemma session_table_sound_witness :
  @manager_reachable ascii_unicode ex_cfg ex_node2 /\ List_ (n_manager ex_node2) #"a" = [1%nat] /\ NoDup (List_ (n_manager ex_node2) #"a").
Proof.
  split; [apply ex_reachable2|]. split; [by vm_compute|].
  destruct (@session_table_sound ascii_unicode ex_cfg ex_node2 ex_reachable2) as [Hl _]. apply (Hl #"a").
Defined.

Lemma connections_fenced_witness :
  @manager_reachable ascii_unicode ex_cfg ex_node1 /\ current (n_manager ex_node1) #"a" #"c" = Some 0%nat /\
  (current (n_manager ex_node2) #"a" #"c" = Some 0%nat \/
   (exists p' s', current (n_manager ex_node2) #"a" #"c" = Some p' /\ m_heap (n_manager ex_node2) !! p' = Some s' /\
      1 < as_ConnectionEpoch s' /\ 0%nat ∈ n_pending ex_node2) \/
   n_manager ex_node2 = Remove (n_manager ex_node1) #"a" \/ n_manager ex_node2 = RemoveSession (n_manager ex_node1) #"a" 0).
Proof.
  split; [apply ex_reachable1|]. split; [by vm_compute|].
  destruct (m_heap (n_manager ex_node1) !! 0%nat) as [s|] eqn:Hs; [|by vm_compute in Hs].
  assert (as_ConnectionEpoch s = 1) as He by (vm_compute in Hs; by inversion Hs).
  rewrite <- He. apply (@connections_fenced ascii_unicode ex_cfg ex_node1 ex_node2 #"a" #"c" 0%nat s ex_reachable1 ex_step2); [by vm_compute|done].
Defined.

Lemma ex_retired : retired_for_good ex_node2 1.
Proof.
  split; [by vm_compute|]. intros id c p s Hc Hs Hg. pose proof (@manager_reachable_inv ascii_unicode _ _ ex_reachable2) as Hi.
  destruct (m_heap (n_manager ex_node2) !! 0%nat) as [t|] eqn:Ht; [|by vm_compute in Ht].
  assert (as_AgentID t = #"a" /\ as_ConnectionID t = #"c" /\ as_serverGeneration t = 1) as (Ha & Hcn & Hgt) by (vm_compute in Ht; by inversion Ht).
  assert (p = 0%nat) as -> by (eapply (mi_inj _ Hi); [done|done|congruence]).
  destruct (mi_entry _ Hi _ _ _ Hc) as (_ & s' & Hs' & <- & <-). simplify_eq. rewrite Ha, Hcn in Hc. by vm_compute in Hc.
Qed.

Lemma generations_fenced_witness :
  @manager_reachable ascii_unicode ex_cfg ex_node2 /\ retired_for_good ex_node2 1 /\
  (sendServerGeneration 0 (n_manager ex_node2) #"a" 1 ex_frame).1 <> None /\
  (sendServerGeneration 0 (n_manager ex_node2) #"a" 2 ex_frame).1 = None.
Proof.
  split; [apply ex_reachable2|]. split; [apply ex_retired|]. split; [|by vm_compute].
  apply (@generations_fenced ascii_unicode ex_cfg ex_node2 ex_reachable2); [apply ex_retired|apply rtc_refl].
Defined.
