(* ===== verification/GoJson.v ===== *)
(** * UTF-8 and JSON of the Go standard library

    [unicode/utf8] and the part of [encoding/json] the program relies on: the
    grammar as the scanner accepts it, string decoding with its replacement of
    invalid text, decoding into slices of strings and integers, and the string
    encoder with HTML escaping.  The last section proves that a string is read
    back from its encoding. *)

From stdpp Require Import base list strings.
From Stdlib Require Import Ascii ZArith Lia.
From S2P Require Import Prelude GoStrings.
Local Open Scope Z_scope.

(** ** UTF-8 *)

Definition RuneError : Z := 65533.

Definition in_range (lo hi v : Z) : bool := (lo <=? v) && (v <=? hi).
Definition is_cont (v : Z) : bool := in_range 128 191 v.

(** The value of the [i]th byte, 0 past the end (never a continuation byte). *)
Definition val_at (s : bytes) (i : nat) : Z := match s !! i with Some c => byte_val c | None => 0 end.

(** [utf8.DecodeRune] of a non-empty string: the rune and its width. *)
Definition DecodeRune (s : bytes) : Z * nat :=
  let b0 := val_at s 0 in
  let b1 := val_at s 1 in
  let b2 := val_at s 2 in
  let b3 := val_at s 3 in
  if b0 <? 128 then (b0, 1%nat)
  else if in_range 194 223 b0 && is_cont b1 then ((b0 - 192) * 64 + (b1 - 128), 2%nat)
  else if in_range 224 239 b0 && in_range (if b0 =? 224 then 160 else 128) (if b0 =? 237 then 159 else 191) b1 && is_cont b2 then
    ((b0 - 224) * 4096 + (b1 - 128) * 64 + (b2 - 128), 3%nat)
  else if in_range 240 244 b0 && in_range (if b0 =? 240 then 144 else 128) (if b0 =? 244 then 143 else 191) b1 && is_cont b2 && is_cont b3 then
    ((b0 - 240) * 262144 + (b1 - 128) * 4096 + (b2 - 128) * 64 + (b3 - 128), 4%nat)
  else (RuneError, 1%nat).

(** [utf8.EncodeRune] *)
Definition EncodeRune (r : Z) : bytes :=
  let r := if (r <? 0) || (1114111 <? r) || in_range 55296 57343 r then RuneError else r in
  if r <? 128 then [byte_of r]
  else if r <? 2048 then [byte_of (192 + r / 64); byte_of (128 + r mod 64)]
  else if r <? 65536 then [byte_of (224 + r / 4096); byte_of (128 + r / 64 mod 64); byte_of (128 + r mod 64)]
  else [byte_of (240 + r / 262144); byte_of (128 + r / 4096 mod 64); byte_of (128 + r / 64 mod 64); byte_of (128 + r mod 64)].

(** ** The grammar *)

Inductive json :=
| JNull
| JBool (b : bool)
| JNumber (literal : bytes)
| JString (text : bytes)
| JArray (items : list json)
| JObject (members : list (bytes * json)).

Definition quote_char : byte := byte_of 34.
Definition backslash : byte := byte_of 92.

Definition json_space (c : byte) : bool :=
  (byte_val c =? 32) || (byte_val c =? 9) || (byte_val c =? 10) || (byte_val c =? 13).

Fixpoint skip_space (s : bytes) : bytes :=
  match s with
  | c :: s' => if json_space c then skip_space s' else s
  | [] => []
  end.

Definition hex_value (c : byte) : option Z :=
  let v := byte_val c in
  if is_digit c then Some (v - 48)
  else if in_range 97 102 v then Some (v - 87)
  else if in_range 65 70 v then Some (v - 55)
  else None.

Definition hex4 (s : bytes) : option Z :=
  match s with
  | a :: b :: c :: d :: _ =>
      a ← hex_value a; b ← hex_value b; c ← hex_value c; d ← hex_value d;
      Some (((a * 16 + b) * 16 + c) * 16 + d)
  | _ => None
  end.

(** [getu4]: the code of an escape [\uXXXX] at the front. *)
Definition getu4 (s : bytes) : option Z :=
  match s with
  | b :: u :: s' => if beq b backslash && beq u "u"%char then hex4 s' else None
  | _ => None
  end.

Definition simple_escape (c : byte) : option byte :=
  if beq c quote_char || beq c backslash || beq c slash then Some c
  else if beq c "b"%char then Some (byte_of 8)
  else if beq c "f"%char then Some (byte_of 12)
  else if beq c "n"%char then Some (byte_of 10)
  else if beq c "r"%char then Some (byte_of 13)
  else if beq c "t"%char then Some (byte_of 9)
  else None.

(** One step inside a string literal: its decoded text and the rest, or [None]
    when the literal is malformed. *)
Definition string_step (s : bytes) : option (bytes * bytes) :=
  match s with
  | [] => None
  | c :: s' =>
      if beq c backslash then
        match s' with
        | e :: s'' =>
            if beq e "u"%char then
              match getu4 s with
              | None => None
              | Some r =>
                  let rest := drop 6 s in
                  if in_range 55296 57343 r then
                    match getu4 rest with
                    | Some r2 =>
                        if in_range 55296 56319 r && in_range 56320 57343 r2 then
                          Some (EncodeRune ((r - 55296) * 1024 + (r2 - 56320) + 65536), drop 6 rest)
                        else Some (EncodeRune RuneError, rest)
                    | None => Some (EncodeRune RuneError, rest)
                    end
                  else Some (EncodeRune r, rest)
              end
            else x ← simple_escape e; Some ([x], s'')
        | [] => None
        end
      else if byte_val c <? 32 then None
      else if byte_val c <? 128 then Some ([c], s')
      else let '(r, size) := DecodeRune s in Some (EncodeRune r, drop size s)
  end.

(** The text after the opening quote, decoded, and what follows the closing
    one. *)
Fixpoint scan_string (fuel : nat) (s : bytes) : option (bytes * bytes) :=
  match fuel with
  | O => None
  | S fuel =>
      match s with
      | c :: s' =>
          if beq c quote_char then Some ([], s')
          else
            '(text, rest) ← string_step s;
            '(more, rest') ← scan_string fuel rest;
            Some (text ++ more, rest')
      | [] => None
      end
  end.

Fixpoint take_digits (s : bytes) : bytes * bytes :=
  match s with
  | c :: s' => if is_digit c then let '(d, r) := take_digits s' in (c :: d, r) else ([], s)
  | [] => ([], [])
  end.

(** An optional part of a number: [None] when it is malformed. *)
Definition fraction (s : bytes) : option (bytes * bytes) :=
  match s with
  | c :: s' =>
      if beq c dot then let '(d, r) := take_digits s' in if bool_decide (d = []) then None else Some (c :: d, r)
      else Some ([], s)
  | [] => Some ([], [])
  end.

Definition exponent (s : bytes) : option (bytes * bytes) :=
  match s with
  | c :: s' =>
      if beq c "e"%char || beq c "E"%char then
        let '(sign, s'') :=
          match s' with
          | d :: t => if beq d "+"%char || beq d "-"%char then ([d], t) else ([], s')
          | [] => ([], s')
          end in
        let '(d, r) := take_digits s'' in
        if bool_decide (d = []) then None else Some (c :: sign ++ d, r)
      else Some ([], s)
  | [] => Some ([], [])
  end.

Definition scan_number (s : bytes) : option (bytes * bytes) :=
  let '(sign, s1) := match s with c :: t => if beq c "-"%char then ([c], t) else ([], s) | [] => ([], s) end in
  '(int, s2) ← match s1 with
    | c :: t => if beq c "0"%char then Some ([c], t) else let '(d, r) := take_digits s1 in if bool_decide (d = []) then None else Some (d, r)
    | [] => None
    end;
  '(frac, s3) ← fraction s2;
  '(ex, s4) ← exponent s3;
  Some (sign ++ int ++ frac ++ ex, s4).

(** A value and what follows it.  [depth] is the nesting the scanner still
    admits; the fuel bounds the number of nested calls. *)
Fixpoint scan_value (fuel depth : nat) (s : bytes) : option (json * bytes) :=
  match fuel with
  | O => None
  | S fuel =>
      match skip_space s with
      | [] => None
      | c :: t =>
          if beq c quote_char then '(text, rest) ← scan_string (S (length t)) t; Some (JString text, rest)
          else if beq c "["%char then
            match depth with
            | O => None
            | S depth =>
                match skip_space t with
                | d :: u => if beq d "]"%char then Some (JArray [], u) else '(items, rest) ← scan_items fuel depth t; Some (JArray items, rest)
                | [] => None
                end
            end
          else if beq c "{"%char then
            match depth with
            | O => None
            | S depth =>
                match skip_space t with
                | d :: u => if beq d "}"%char then Some (JObject [], u) else '(members, rest) ← scan_members fuel depth t; Some (JObject members, rest)
                | [] => None
                end
            end
          else if HasPrefix (c :: t) #"null" then Some (JNull, drop 4 (c :: t))
          else if HasPrefix (c :: t) #"true" then Some (JBool true, drop 4 (c :: t))
          else if HasPrefix (c :: t) #"false" then Some (JBool false, drop 5 (c :: t))
          else '(lit, rest) ← scan_number (c :: t); Some (JNumber lit, rest)
      end
  end
with scan_items (fuel depth : nat) (s : bytes) : option (list json * bytes) :=
  match fuel with
  | O => None
  | S fuel =>
      '(v, rest) ← scan_value fuel depth s;
      match skip_space rest with
      | d :: u =>
          if beq d "]"%char then Some ([v], u)
          else if beq d comma then '(vs, rest') ← scan_items fuel depth u; Some (v :: vs, rest')
          else None
      | [] => None
      end
  end
with scan_members (fuel depth : nat) (s : bytes) : option (list (bytes * json) * bytes) :=
  match fuel with
  | O => None
  | S fuel =>
      match skip_space s with
      | c :: t =>
          if negb (beq c quote_char) then None
          else
            '(key, rest) ← scan_string (S (length t)) t;
            match skip_space rest with
            | d :: u =>
                if negb (beq d colon) then None
                else
                  '(v, rest) ← scan_value fuel depth u;
                  match skip_space rest with
                  | e :: w =>
                      if beq e "}"%char then Some ([(key, v)], w)
                      else if beq e comma then '(ms, rest') ← scan_members fuel depth w; Some ((key, v) :: ms, rest')
                      else None
                  | [] => None
                  end
            | [] => None
            end
      | [] => None
      end
  end.

(** [maxNestingDepth] of the scanner *)
Definition maxNestingDepth : nat := 10000.

(** Every call consumes a byte or hands a shorter suffix on, so twice the
    length of the text is enough fuel. *)
Definition parse_prefix (s : bytes) : option (json * bytes) := scan_value (2 * length s + 2) maxNestingDepth s.

(** The text as one value with only space around it: [json.Unmarshal], or a
    [Decoder] that must be at the end of its input after one value. *)
Definition parse_json (s : bytes) : option json :=
  '(v, rest) ← parse_prefix s;
  if bool_decide (skip_space rest = []) then Some v else None.

(** ** Decoding into slices *)

(** Array items over the elements [old] the slice already holds: a null item
    leaves its element as it was, which is the zero value past the end. *)
Fixpoint decode_items {A} (zero : A) (decode : json -> option A) (old : list A) (items : list json) : option (list A) :=
  match items with
  | [] => Some []
  | v :: items' =>
      x ← match v with JNull => Some (default zero (head old)) | _ => decode v end;
      xs ← decode_items zero decode (tail old) items';
      Some (x :: xs)
  end.

Definition decode_string (v : json) : option bytes := match v with JString t => Some t | _ => None end.
Definition decode_int (v : json) : option Z := match v with JNumber lit => Atoi lit | _ => None end.

(** A slice with its backing array: the elements past [sl_len] are those of
    earlier, longer values. *)
Record slice_of (A : Type) := mkSlice { sl_array : list A; sl_len : nat }.
Arguments mkSlice {A}.
Arguments sl_array {A}.
Arguments sl_len {A}.

Definition nil_slice {A} : slice_of A := mkSlice [] 0.
Definition slice_items {A} (s : slice_of A) : list A := take (sl_len s) (sl_array s).

(** A value into a slice field that may already have been set by an earlier
    member of the same name. *)
Definition decode_slice {A} (zero : A) (decode : json -> option A) (old : slice_of A) (v : json) : option (slice_of A) :=
  match v with
  | JNull => Some nil_slice
  | JArray [] => Some nil_slice
  | JArray items =>
      xs ← decode_items zero decode (sl_array old) items;
      Some (mkSlice (xs ++ drop (length xs) (sl_array old)) (length xs))
  | _ => None
  end.

(** ** Encoding *)

(** [\u00xx], for the bytes without a shorter escape *)
Definition escape_byte (c : byte) : bytes :=
  if beq c quote_char || beq c backslash then [backslash; c]
  else if byte_val c =? 8 then [backslash; "b"%char]
  else if byte_val c =? 12 then [backslash; "f"%char]
  else if byte_val c =? 10 then [backslash; "n"%char]
  else if byte_val c =? 13 then [backslash; "r"%char]
  else if byte_val c =? 9 then [backslash; "t"%char]
  else backslash :: #"u00" ++ [lower_hex (byte_val c / 16); lower_hex (byte_val c mod 16)].

(** [htmlSafeSet] *)
Definition html_safe (c : byte) : bool :=
  (32 <=? byte_val c) && negb (beq c quote_char) && negb (beq c backslash) &&
  negb (beq c "<"%char) && negb (beq c ">"%char) && negb (beq c "&"%char).

(** The text between the quotes. *)
Fixpoint encode_text (fuel : nat) (s : bytes) : bytes :=
  match fuel, s with
  | S fuel, c :: s' =>
      if is_ascii_byte c then (if html_safe c then [c] else escape_byte c) ++ encode_text fuel s'
      else
        let '(r, size) := DecodeRune s in
        (if bool_decide (size = 1%nat) then backslash :: #"ufffd"
         else if (r =? 8232) || (r =? 8233) then backslash :: #"u202" ++ [lower_hex (r mod 16)]
         else take size s) ++ encode_text fuel (drop size s)
  | _, _ => []
  end.

Definition encode_string (s : bytes) : bytes := quote_char :: encode_text (length s) s ++ [quote_char].

Definition encode_array (items : list bytes) : bytes := "["%char :: Join items comma ++ ["]"%char].

Definition encode_member (m : bytes * bytes) : bytes := encode_string m.1 ++ colon :: m.2.
Definition encode_object (members : list (bytes * bytes)) : bytes := "{"%char :: Join (encode_member <$> members) comma ++ ["}"%char].

(** ** A string is read back from its encoding *)

Definition valid_rune (r : Z) : Prop := 0 <= r <= 1114111 /\ ~ (55296 <= r <= 57343).

(** A string is valid UTF-8 when it is a sequence of encoded runes. *)
Definition utf8 (s : bytes) : Prop := exists rs, Forall valid_rune rs /\ s = rs ≫= EncodeRune.

Ltac euclid := Z.to_euclidean_division_equations; lia.

Lemma byte_val_small v : 0 <= v < 256 -> byte_val (byte_of v) = v.
Proof. intros. rewrite byte_val_of. by apply Z.mod_small. Qed.

Lemma EncodeRune_valid r : valid_rune r ->
  EncodeRune r =
    if r <? 128 then [byte_of r]
    else if r <? 2048 then [byte_of (192 + r / 64); byte_of (128 + r mod 64)]
    else if r <? 65536 then [byte_of (224 + r / 4096); byte_of (128 + r / 64 mod 64); byte_of (128 + r mod 64)]
    else [byte_of (240 + r / 262144); byte_of (128 + r / 4096 mod 64); byte_of (128 + r / 64 mod 64); byte_of (128 + r mod 64)].
Proof.
  intros [Hr Hs]. unfold EncodeRune, in_range.
  by rewrite (proj2 (Z.ltb_ge r 0)), (proj2 (Z.ltb_ge 1114111 r)), (proj2 (andb_false_iff (55296 <=? r) (r <=? 57343))) by lia.
Qed.

(** Decides a conjunction of comparisons whose outcome follows arithmetically. *)
Ltac bool_arith := repeat first [rewrite (proj2 (Z.leb_le _ _)) by euclid | rewrite (proj2 (Z.leb_gt _ _)) by euclid].

Lemma in_range_true lo hi v : lo <= v <= hi -> in_range lo hi v = true.
Proof. intros. apply andb_true_iff. split; apply Z.leb_le; lia. Qed.

Lemma in_range_false lo hi v : ~ (lo <= v <= hi) -> in_range lo hi v = false.
Proof. intros. apply andb_false_iff. destruct (Z_le_gt_dec lo v); [right|left]; apply Z.leb_gt; lia. Qed.

Lemma DecodeRune_EncodeRune r k : valid_rune r -> DecodeRune (EncodeRune r ++ k) = (r, length (EncodeRune r)).
Proof.
  intros Hr. rewrite EncodeRune_valid by done. destruct Hr as [Hr Hs].
  destruct (Z.ltb_spec r 128); [|destruct (Z.ltb_spec r 2048); [|destruct (Z.ltb_spec r 65536)]];
    unfold DecodeRune, val_at; cbn [app lookup list_lookup length]; rewrite ?byte_val_small by euclid.
  - rewrite (proj2 (Z.ltb_lt r 128)) by lia. done.
  - rewrite (proj2 (Z.ltb_ge _ 128)) by euclid. rewrite in_range_true by euclid. unfold is_cont. rewrite in_range_true by euclid.
    cbn [andb]. f_equal. euclid.
  - rewrite (proj2 (Z.ltb_ge _ 128)) by euclid. rewrite in_range_false by euclid. cbn [andb]. rewrite in_range_true by euclid. unfold is_cont.
    rewrite in_range_true by (destruct (Z.eqb_spec (224 + r / 4096) 224), (Z.eqb_spec (224 + r / 4096) 237); euclid).
    rewrite in_range_true by euclid. cbn [andb]. f_equal. euclid.
  - rewrite (proj2 (Z.ltb_ge _ 128)) by euclid. rewrite !in_range_false by euclid. cbn [andb]. rewrite in_range_true by euclid. unfold is_cont.
    rewrite in_range_true by (destruct (Z.eqb_spec (240 + r / 262144) 240), (Z.eqb_spec (240 + r / 262144) 244); euclid).
    rewrite !in_range_true by euclid. cbn [andb]. f_equal. euclid.
Qed.

Lemma EncodeRune_head r : valid_rune r -> exists c t, EncodeRune r = c :: t /\
  (r < 128 /\ c = byte_of r /\ t = [] \/ 128 <= r /\ 128 <= byte_val c /\ (1 < length (EncodeRune r))%nat).
Proof.
  intros Hr. rewrite EncodeRune_valid by done. destruct Hr as [Hr Hs].
  destruct (Z.ltb_spec r 128); [|destruct (Z.ltb_spec r 2048); [|destruct (Z.ltb_spec r 65536)]]; eexists _, _; (split; [done|]); [by left|right..];
    (split; [lia|]); (split; [rewrite byte_val_small by euclid; euclid|simpl; lia]).
Qed.

(** The encoding of one rune. *)
Definition encode_rune (r : Z) : bytes :=
  if r <? 128 then (if html_safe (byte_of r) then [byte_of r] else escape_byte (byte_of r))
  else if (r =? 8232) || (r =? 8233) then backslash :: #"u202" ++ [lower_hex (r mod 16)]
  else EncodeRune r.

Lemma encode_text_rune n r k : valid_rune r -> encode_text (S n) (EncodeRune r ++ k) = encode_rune r ++ encode_text n k.
Proof.
  intros Hr. pose proof (DecodeRune_EncodeRune r k Hr) as Hd. destruct (EncodeRune_head r Hr) as (c & t & E & [(Hlt & -> & ->)|(Hge & Hc & Hl)]).
  - rewrite E. unfold encode_rune. rewrite (proj2 (Z.ltb_lt r 128)) by lia. cbn [app encode_text]. unfold is_ascii_byte.
    destruct Hr as [Hr _]. rewrite byte_val_small by lia. by rewrite (proj2 (Z.ltb_lt r 128)) by lia.
  - rewrite E in *. cbn [app encode_text]. cbn [app] in Hd. rewrite Hd. unfold is_ascii_byte, encode_rune.
    rewrite (proj2 (Z.ltb_ge _ 128)), (proj2 (Z.ltb_ge r 128)) by lia. rewrite bool_decide_eq_false_2 by lia.
    rewrite !app_comm_cons, drop_app_length, take_app_length, E. done.
Qed.

Lemma ascii_step c k : is_ascii_byte c = true ->
  string_step ((if html_safe c then [c] else escape_byte c) ++ k) = Some ([c], k) /\
  head ((if html_safe c then [c] else escape_byte c) ++ k) <> Some quote_char.
Proof. intros Hc. destruct c as [[] [] [] [] [] [] [] []]; try (by vm_compute in Hc); (split; [reflexivity|discriminate]). Qed.

Lemma rune_step r k : valid_rune r ->
  string_step (encode_rune r ++ k) = Some (EncodeRune r, k) /\ head (encode_rune r ++ k) <> Some quote_char.
Proof.
  intros Hr. unfold encode_rune. destruct (Z.ltb_spec r 128) as [Hlt|Hge].
  - destruct (ascii_step (byte_of r) k) as [-> ?]; [unfold is_ascii_byte; destruct Hr; rewrite byte_val_small by lia; by apply Z.ltb_lt|].
    split; [|done]. rewrite EncodeRune_valid by done. by rewrite (proj2 (Z.ltb_lt r 128)).
  - destruct (Z.eqb_spec r 8232) as [->|N1]; [done|]. destruct (Z.eqb_spec r 8233) as [->|N2]; [done|]. cbn [orb].
    pose proof (DecodeRune_EncodeRune r k Hr) as Hd. destruct (EncodeRune_head r Hr) as (c & t & E & [?|(_ & Hc & _)]); [lia|].
    rewrite E in *. cbn [app] in *. assert (forall v, 0 <= v < 128 -> beq c (byte_of v) = false) as Hne.
    { intros v Hv. apply beq_neq. intros ->. rewrite byte_val_small in Hc by lia. lia. }
    split; [|cbn [head]; intros [= Hq]; pose proof (Hne 34 ltac:(lia)) as H34; apply beq_neq in H34; by apply H34].
    unfold string_step. fold (beq c backslash). unfold backslash. rewrite (Hne 92), (proj2 (Z.ltb_ge _ 32)), (proj2 (Z.ltb_ge _ 128)), Hd by lia.
    rewrite app_comm_cons, drop_app_length. by rewrite E.
Qed.

Lemma scan_text n rs rest : Forall valid_rune rs ->
  forall m, (length rs <= n)%nat -> (length rs < m)%nat ->
  scan_string m (encode_text n (rs ≫= EncodeRune) ++ quote_char :: rest) = Some (rs ≫= EncodeRune, rest).
Proof.
  intros Hrs. revert n. induction Hrs as [|r rs Hr Hrs IH]; intros n m Hn Hm; (destruct m as [|m]; [lia|]).
  - destruct n; cbn [mbind list_bind encode_text app scan_string]; by rewrite beq_refl.
  - destruct n as [|n]; cbn [length] in *; [lia|]. cbn [mbind list_bind]. fold (rs ≫= EncodeRune). rewrite encode_text_rune, <- app_assoc by done.
    destruct (rune_step r (encode_text n (rs ≫= EncodeRune) ++ quote_char :: rest) Hr) as [Hs Hh].
    destruct (encode_rune r ++ _) as [|c t] eqn:E; [done|]. cbn [scan_string]. rewrite (proj2 (beq_neq c quote_char)) by (intros ->; by apply Hh).
    rewrite Hs. cbn. rewrite (IH n m) by lia. done.
Qed.

Lemma encode_text_length rs n : Forall valid_rune rs -> (length rs <= n)%nat ->
  (length rs <= length (encode_text n (rs ≫= EncodeRune)))%nat /\ (length rs <= length (rs ≫= EncodeRune))%nat.
Proof.
  intros Hrs. revert n. induction Hrs as [|r rs Hr Hrs IH]; intros n Hn; [simpl; lia|]. destruct n as [|n]; cbn [length] in *; [lia|].
  cbn [mbind list_bind]. fold (rs ≫= EncodeRune). rewrite encode_text_rune, !length_app by done. destruct (IH n) as [? ?]; [lia|].
  destruct (rune_step r [] Hr) as [Hs _]. destruct (EncodeRune_head r Hr) as (c & t & -> & _). simpl. split; [|lia].
  destruct (encode_rune r); [done|simpl; lia].
Qed.

(** A member or element that starts with an encoded string is scanned to that
    string. *)
Lemma scan_encode_string s rest : utf8 s ->
  let t := encode_text (length s) s ++ quote_char :: rest in scan_string (S (length t)) t = Some (s, rest).
Proof.
  intros (rs & Hrs & ->). assert (length rs <= length (rs ≫= EncodeRune))%nat as Hl by (by apply (encode_text_length rs (length rs))).
  cbv zeta. apply scan_text; [done|done|]. rewrite length_app. pose proof (encode_text_length rs _ Hrs Hl). lia.
Qed.

Lemma utf8_ascii s : Forall (fun c => is_ascii_byte c = true) s -> utf8 s.
Proof.
  intros Hs. exists (byte_val <$> s). induction Hs as [|c s Hc Hs [Hv IH]]; [done|]. unfold is_ascii_byte in Hc. apply Z.ltb_lt in Hc.
  pose proof (byte_val_range c). assert (valid_rune (byte_val c)) as Hr by (split; lia). split; [by constructor|].
  cbn. rewrite EncodeRune_valid by done. rewrite (proj2 (Z.ltb_lt _ 128)) by lia. rewrite byte_of_val. cbn. by f_equal.
Qed.

(** ** Arrays and objects are read back *)

(** A character that ends a value. *)
Definition stops (rest : bytes) : Prop := exists c t, rest = c :: t /\ (c = comma \/ c = "]"%char \/ c = "}"%char).

(** [item] is scanned to [v] wherever it is followed by the end of a value. *)
Definition scans (depth : nat) (item : bytes) (v : json) : Prop :=
  (exists c t, item = c :: t /\ json_space c = false /\ c <> "]"%char) /\
  forall n d rest, (length item <= n)%nat -> (depth <= d)%nat -> stops rest -> scan_value n d (item ++ rest) = Some (v, rest).

Lemma stops_comma t : stops (comma :: t).
Proof. eexists _, _. eauto. Qed.
Lemma stops_bracket t : stops ("]"%char :: t).
Proof. eexists _, _. eauto. Qed.
Lemma stops_brace t : stops ("}"%char :: t).
Proof. eexists _, _. eauto. Qed.

Lemma scans_string s : utf8 s -> scans 0 (encode_string s) (JString s).
Proof.
  intros Hs. split; [by eexists _, _|]. intros [|n] d rest Hn _ _; [unfold encode_string in Hn; simpl in Hn; lia|]. unfold encode_string. cbn [app]. rewrite <- app_assoc. cbn [app].
  cbn [scan_value skip_space]. change (json_space quote_char) with false. cbv iota. rewrite beq_refl.
  rewrite (scan_encode_string s rest Hs). done.
Qed.

Lemma take_digits_stops ds rest : Forall (fun c => is_digit c = true) ds -> stops rest -> take_digits (ds ++ rest) = (ds, rest).
Proof.
  intros Hds (c & t & -> & Hc). induction Hds as [|d ds Hd _ IH].
  - by destruct Hc as [->|[->| ->]].
  - rewrite <- app_comm_cons. cbn [take_digits]. by rewrite Hd, IH.
Qed.

Lemma stops_no_fraction rest : stops rest -> fraction rest = Some ([], rest) /\ exponent rest = Some ([], rest).
Proof. by intros (c & t & -> & [->|[->| ->]]). Qed.

Lemma digits_of_head fuel n : 0 < n < 2 ^ Z.of_nat fuel -> exists d ds, digits_of fuel n = d :: ds /\ d <> "0"%char.
Proof.
  revert n. induction fuel as [|f IH]; intros n Hn; [simpl in Hn; lia|]. cbn [digits_of]. destruct (Z.ltb_spec n 10).
  - eexists _, _. split; [done|]. rewrite Z.mod_small by lia. intros E. apply (f_equal byte_val) in E. rewrite digit_val in E by lia.
    change (byte_val "0"%char) with 48 in E. lia.
  - rewrite Nat2Z.inj_succ, Z.pow_succ_r in Hn by lia. destruct (IH (n / 10)) as (d & ds & -> & Hd); [|by eexists _, _].
    split; [apply Z.div_str_pos; lia|]. apply Z.div_lt_upper_bound; lia.
Qed.

Lemma scan_number_Itoa n rest : 0 < n -> stops rest -> scan_number (Itoa n ++ rest) = Some (Itoa n, rest).
Proof.
  intros Hn Hr. pose proof (Itoa_digits n ltac:(lia)) as Hd. assert (exists d ds, Itoa n = d :: ds /\ d <> "0"%char) as (d & ds & E & H0).
  { unfold Itoa. rewrite (proj2 (Z.ltb_ge n 0)) by lia. apply digits_of_head. split; [done|]. apply Itoa_fuel. lia. }
  rewrite E in *. pose proof (Forall_inv Hd) as Hdd. cbn beta in Hdd. destruct (is_digit_not d Hdd) as (Hm & _). unfold scan_number. cbn [app].
  rewrite (proj2 (beq_neq _ _) Hm), (proj2 (beq_neq _ _) H0). rewrite app_comm_cons, take_digits_stops by done. cbn [bool_decide].
  rewrite bool_decide_eq_false_2 by done. cbn [mbind option_bind]. destruct (stops_no_fraction rest Hr) as [-> E2]. cbn [mbind option_bind].
  rewrite E2. cbn. by rewrite app_nil_r.
Qed.

Lemma digit_not_json d : is_digit d = true ->
  beq d quote_char = false /\ beq d "["%char = false /\ beq d "{"%char = false /\ json_space d = false /\ d <> "]"%char /\
  forall t, HasPrefix (d :: t) #"null" = false /\ HasPrefix (d :: t) #"true" = false /\ HasPrefix (d :: t) #"false" = false.
Proof. intros Hd. destruct d as [[] [] [] [] [] [] [] []]; vm_compute in Hd; try discriminate Hd; split_and!; done. Qed.

Lemma scans_int n : 0 < n -> scans 0 (Itoa n) (JNumber (Itoa n)).
Proof.
  intros Hn. pose proof (Itoa_digits n ltac:(lia)) as Hd. pose proof (Itoa_not_nil n ltac:(lia)) as Hnil.
  destruct (Itoa n) as [|d ds] eqn:E; [done|]. pose proof (Forall_inv Hd) as Hdd. cbn beta in Hdd.
  destruct (digit_not_json d Hdd) as (Hq & Hb & Hc & Hs & Hx & Hp). split; [by eexists _, _|].
  intros [|m] dep rest Hm _ Hr; [simpl in Hm; lia|]. cbn [app scan_value skip_space]. rewrite Hs, Hq, Hb, Hc.
  destruct (Hp (ds ++ rest)) as (-> & -> & ->). change (d :: ds ++ rest) with ((d :: ds) ++ rest). rewrite <- E, scan_number_Itoa by done. done.
Qed.

Lemma skip_space_id c t : json_space c = false -> skip_space (c :: t) = c :: t.
Proof. intros Hc. cbn [skip_space]. by rewrite Hc. Qed.

Lemma scan_items_Join d k items vs rest :
  Forall2 (scans k) items vs -> items <> [] -> (k <= d)%nat ->
  forall n, (S (length (Join items comma)) <= n)%nat -> scan_items n d (Join items comma ++ "]"%char :: rest) = Some (vs, rest).
Proof.
  intros Hall Hne Hd. induction Hall as [|item v items vs [_ Hv] Hall IH]; [done|]. intros [|n] Hn; [lia|].
  destruct items as [|item' items].
  - apply Forall2_nil_inv_l in Hall as ->. cbn [Join] in *. cbn [scan_items]. rewrite Hv by (done || lia || apply stops_bracket). done.
  - rewrite Join_cons in * by done. rewrite length_app in Hn. cbn [length] in Hn. rewrite <- app_assoc. cbn [scan_items].
    rewrite Hv by (lia || apply stops_comma). cbn [mbind option_bind app].
    rewrite skip_space_id by done. change (beq comma "]"%char) with false. rewrite beq_refl.
    rewrite IH by (done || lia). done.
Qed.

Lemma Join_head items vs k : Forall2 (scans k) items vs -> items <> [] -> exists c t, Join items comma = c :: t /\ json_space c = false /\ c <> "]"%char.
Proof.
  intros Hall Hne. destruct Hall as [|item v items vs [(c & t & -> & Hc) _] Hall]; [done|].
  destruct items; [by exists c, t|]. rewrite Join_cons by done. by exists c, (t ++ comma :: Join (l :: items) comma).
Qed.

Lemma scans_array k items vs : Forall2 (scans k) items vs -> scans (S k) (encode_array items) (JArray vs).
Proof.
  intros Hall. split; [by eexists _, _|]. intros [|n] [|d] rest Hn Hd Hr; [unfold encode_array in Hn; simpl in Hn; lia|unfold encode_array in Hn; simpl in Hn; lia|lia|].
  unfold encode_array in *. cbn [length] in Hn. rewrite length_app in Hn. cbn [length] in Hn. rewrite <- app_comm_cons, <- app_assoc. cbn [app].
  cbn [scan_value]. rewrite skip_space_id by done. change (beq "["%char quote_char) with false. rewrite beq_refl.
  destruct (decide (items = [])) as [->|Hne]; [apply Forall2_nil_inv_l in Hall as ->; reflexivity|].
  destruct (Join_head items vs k Hall Hne) as (c & t & E & Hs & Hc). rewrite E at 1. cbn [app]. rewrite skip_space_id by done.
  rewrite (proj2 (beq_neq _ _) Hc). rewrite (scan_items_Join d k items vs rest) by (done || lia). done.
Qed.

(** A member: its key and the scan of its value. *)
Definition scans_member (k : nat) (m : bytes * bytes) (v : bytes * json) : Prop := utf8 m.1 /\ v.1 = m.1 /\ scans k m.2 v.2.

Lemma scan_member n d k m v rest : scans_member k m v -> (k <= d)%nat -> (length (encode_member m) <= n)%nat -> stops rest ->
  exists t u, encode_member m ++ rest = quote_char :: t /\ scan_string (S (length t)) t = Some (v.1, colon :: u) /\ scan_value n d u = Some (v.2, rest).
Proof.
  intros (Hu & E1 & [_ Hv]) Hd Hn Hr. unfold encode_member in *. rewrite length_app in Hn. cbn [length] in Hn.
  exists (encode_text (length m.1) m.1 ++ quote_char :: colon :: m.2 ++ rest), (m.2 ++ rest).
  split; [unfold encode_string; by rewrite <- !app_comm_cons, <- !app_assoc|]. rewrite E1. split; [by apply scan_encode_string|apply Hv; (done || lia)].
Qed.

Lemma scan_members_Join d k ms vs rest :
  Forall2 (scans_member k) ms vs -> ms <> [] -> (k <= d)%nat ->
  forall n, (S (length (Join (encode_member <$> ms) comma)) <= n)%nat ->
  scan_members n d (Join (encode_member <$> ms) comma ++ "}"%char :: rest) = Some (vs, rest).
Proof.
  intros Hall Hne Hd. induction Hall as [|m v ms vs Hv Hall IH]; [done|]. intros [|n] Hn; [lia|]. destruct v as [key v].
  destruct ms as [|m' ms].
  - apply Forall2_nil_inv_l in Hall as ->. cbn [fmap list_fmap Join] in *.
    destruct (scan_member n d k m (key, v) ("}"%char :: rest) Hv Hd ltac:(lia) (stops_brace _)) as (t & u & -> & Hk & Hs).
    cbn [scan_members]. rewrite skip_space_id by done. rewrite beq_refl. cbn [negb]. rewrite Hk. cbn [mbind option_bind fst snd] in *.
    rewrite skip_space_id by done. rewrite beq_refl. cbn [negb]. rewrite Hs. cbn [mbind option_bind]. by rewrite skip_space_id.
  - rewrite fmap_cons, Join_cons in Hn |- * by done. rewrite length_app in Hn. cbn [length] in Hn. rewrite <- app_assoc. cbn [app].
    destruct (scan_member n d k m (key, v) (comma :: Join (encode_member <$> m' :: ms) comma ++ "}"%char :: rest) Hv Hd ltac:(lia) (stops_comma _)) as (t & u & -> & Hk & Hs).
    cbn [scan_members]. rewrite skip_space_id by done. rewrite beq_refl. cbn [negb]. rewrite Hk. cbn [mbind option_bind fst snd] in *.
    rewrite skip_space_id by done. rewrite beq_refl. cbn [negb]. rewrite Hs. cbn [mbind option_bind]. rewrite skip_space_id by done.
    change (beq comma "}"%char) with false. rewrite beq_refl. rewrite IH by (done || lia). done.
Qed.

(** An encoded object is parsed to its members. *)
Lemma parse_object k ms vs : Forall2 (scans_member k) ms vs -> (S k <= maxNestingDepth)%nat -> parse_json (encode_object ms) = Some (JObject vs).
Proof.
  intros Hall Hk. unfold parse_json, parse_prefix. destruct maxNestingDepth as [|d]; [lia|]. unfold encode_object at 2.
  set (n := (2 * length (encode_object ms) + 1)%nat). replace (2 * length (encode_object ms) + 2)%nat with (S n) by lia.
  assert (S (length (Join (encode_member <$> ms) comma)) <= n)%nat as Hn by (unfold n, encode_object; cbn [length]; rewrite length_app; simpl; lia).
  cbn [scan_value]. rewrite skip_space_id by done. change (beq "{"%char quote_char) with false. change (beq "{"%char "["%char) with false. rewrite beq_refl.
  destruct (decide (ms = [])) as [->|Hne]; [apply Forall2_nil_inv_l in Hall as ->; reflexivity|].
  rewrite (scan_members_Join d k ms vs []) by (done || lia).
  assert (exists t, Join (encode_member <$> ms) comma = quote_char :: t) as [t ->]; [|done].
  destruct ms as [|m ms]; [done|]. rewrite fmap_cons. destruct (encode_member <$> ms); [by eexists|]. rewrite Join_cons by done. by eexists.
Qed.
