(* ===== verification/TokenScope.v ===== *)
(** * Token scopes and agent policies

    The authorization language of [internal/auth/credential_service.go]: the
    scope a service token carries, its normalisation, its stored JSON text, and
    the policy rows of an agent with their CIDR and port lists.  The service
    that reads them from the database is in [Credentials]. *)

From stdpp Require Import base list gmap sets strings.
From Stdlib Require Import Ascii ZArith Lia.
From S2P Require Import Prelude GoStrings GoNet GoJson.
Local Open Scope Z_scope.

Definition maxTokenScopeJSONBytes : nat := 16384.
Definition maxScopeAgentIDs : nat := 128.
Definition maxScopeAgentIDBytes : nat := 255.
Definition maxScopeServerNodeIDs : nat := 128.
Definition maxScopeProtocols : nat := 4.
Definition maxScopeCIDRs : nat := 128.
Definition maxScopePorts : nat := 1024.
Definition maxPolicyTargetBytes : nat := 255.

Record TokenScope := mkScope {
  ts_AgentIDs : list bytes;
  ts_ServerNodeIDs : list bytes;
  ts_Protocols : list bytes;
  ts_TargetCIDRs : list bytes;
  ts_TargetPorts : list Z;
}.

(** The set of members is kept as the list they were collected in. *)
Record compiledTokenScope := mkCompiled {
  cs_scope : TokenScope;
  cs_agentIDs : list bytes;
  cs_serverNodeIDs : list bytes;
  cs_protocols : list bytes;
  cs_cidrs : list IPNet;
  cs_ports : list Z;
}.

Record StreamAuthorizationRequest := mkAuthRequest {
  sa_AgentID : bytes;
  sa_Protocol : bytes;
  sa_TargetHost : bytes;
  sa_TargetPort : Z;
}.

Record AgentPolicy := mkPolicy {
  ap_ID : bytes;
  ap_AgentID : bytes;
  ap_TargetHost : bytes;
  ap_TargetPort : Z;
  ap_Protocol : bytes;
  ap_AllowedCIDRs : bytes;
  ap_AllowedPorts : bytes;
  ap_DeletedAt : option Z;
}.

Record portInterval := mkInterval { pi_first : Z; pi_last : Z }.
Definition portMatcher : Type := list portInterval.

(** ** Lists without repetitions, in order of first appearance *)

Definition dedupe {A} `{EqDecision A} (l : list A) : list A :=
  foldl (fun acc x => if decide (x ∈ acc) then acc else acc ++ [x]) [] l.

(** [sort.Strings] and [sort.Ints] *)
Definition sort_strings (l : list bytes) : list bytes := sort_by str_ltb l.
Definition sort_ints (l : list Z) : list Z := sort_by Z.ltb l.

(** ** JSON text *)

Definition scope_members (scope : TokenScope) : list (bytes * bytes) :=
  let strings name l := match l with [] => [] | _ => [(name, encode_array (encode_string <$> l))] end in
  strings #"agentIds" (ts_AgentIDs scope) ++ strings #"serverNodeIds" (ts_ServerNodeIDs scope) ++
  strings #"protocols" (ts_Protocols scope) ++ strings #"targetCIDRs" (ts_TargetCIDRs scope) ++
  match ts_TargetPorts scope with [] => [] | ports => [(#"targetPorts", encode_array (Itoa <$> ports))] end.

(** [json.Marshal(scope)] *)
Definition Marshal_scope (scope : TokenScope) : bytes := encode_object (scope_members scope).

(** The fields while an object is being decoded. *)
Record scope_slices := mkSlices {
  sx_AgentIDs : slice_of bytes;
  sx_ServerNodeIDs : slice_of bytes;
  sx_Protocols : slice_of bytes;
  sx_TargetCIDRs : slice_of bytes;
  sx_TargetPorts : slice_of Z;
}.

Section scope.
Context `{GoUnicode}.

(** The field a key names: exactly, or else up to case. *)
Definition field_of (key : bytes) : option bytes :=
  let names := [ #"agentIds"; #"serverNodeIds"; #"protocols"; #"targetCIDRs"; #"targetPorts"] in
  match List.find (seq_eqb key) names with
  | Some n => Some n
  | None => List.find (EqualFold key) names
  end.

Definition decode_member (x : scope_slices) (m : bytes * json) : option scope_slices :=
  let strings old := decode_slice [] decode_string old m.2 in
  name ← field_of m.1;
  if seq_eqb name #"agentIds" then
    s ← strings (sx_AgentIDs x); Some (mkSlices s (sx_ServerNodeIDs x) (sx_Protocols x) (sx_TargetCIDRs x) (sx_TargetPorts x))
  else if seq_eqb name #"serverNodeIds" then
    s ← strings (sx_ServerNodeIDs x); Some (mkSlices (sx_AgentIDs x) s (sx_Protocols x) (sx_TargetCIDRs x) (sx_TargetPorts x))
  else if seq_eqb name #"protocols" then
    s ← strings (sx_Protocols x); Some (mkSlices (sx_AgentIDs x) (sx_ServerNodeIDs x) s (sx_TargetCIDRs x) (sx_TargetPorts x))
  else if seq_eqb name #"targetCIDRs" then
    s ← strings (sx_TargetCIDRs x); Some (mkSlices (sx_AgentIDs x) (sx_ServerNodeIDs x) (sx_Protocols x) s (sx_TargetPorts x))
  else
    s ← decode_slice 0 decode_int (sx_TargetPorts x) m.2;
    Some (mkSlices (sx_AgentIDs x) (sx_ServerNodeIDs x) (sx_Protocols x) (sx_TargetCIDRs x) s).

Fixpoint decode_members (x : scope_slices) (ms : list (bytes * json)) : option scope_slices :=
  match ms with
  | [] => Some x
  | m :: ms' => x' ← decode_member x m; decode_members x' ms'
  end.

Definition decodeTokenScope (raw : bytes) : option TokenScope :=
  if bool_decide (maxTokenScopeJSONBytes < length raw)%nat then None
  else
    let trimmed := TrimSpace raw in
    if negb (bool_decide (head trimmed = Some "{"%char)) then None
    else match parse_json trimmed with
    | Some (JObject ms) =>
        x ← decode_members (mkSlices nil_slice nil_slice nil_slice nil_slice nil_slice) ms;
        Some (mkScope (slice_items (sx_AgentIDs x)) (slice_items (sx_ServerNodeIDs x)) (slice_items (sx_Protocols x))
                (slice_items (sx_TargetCIDRs x)) (slice_items (sx_TargetPorts x)))
    | _ => None
    end.

(** ** Normalisation *)

(** The empty string stands for a protocol that is not one of the four. *)
Definition normalizeProtocol (raw : bytes) : bytes :=
  let protocol := ToLower (TrimSpace raw) in
  if seq_eqb protocol #"tcp" || seq_eqb protocol #"udp" || seq_eqb protocol #"http" || seq_eqb protocol #"ws" then protocol
  else if seq_eqb protocol #"websocket" then #"ws"
  else [].

Definition scope_id (raw : bytes) : option bytes :=
  let id := TrimSpace raw in
  if bool_decide (id = []) || bool_decide (maxScopeAgentIDBytes < length id)%nat then None else Some id.

Definition scope_protocol (raw : bytes) : option bytes :=
  let protocol := normalizeProtocol raw in
  if bool_decide (protocol = []) then None else Some protocol.

Definition scope_port (port : Z) : option Z := if (port <? 1) || (65535 <? port) then None else Some port.

(** A network and its canonical text; a parsed network always has one. *)
Definition scope_cidr (raw : bytes) : option (bytes * IPNet) :=
  '(_, network) ← ParseCIDR (TrimSpace raw);
  Some (default #"<nil>" (IPNet_String network), network).

(** The networks whose text was not seen before. *)
Definition dedupe_cidrs (l : list (bytes * IPNet)) : list (bytes * IPNet) :=
  foldl (fun acc x => if decide (x.1 ∈ acc.*1) then acc else acc ++ [x]) [] l.

Definition string_bytes (l : list bytes) : nat := foldr (fun s n => (length s + n)%nat) 0%nat l.

Definition within_limits (scope : TokenScope) : bool :=
  bool_decide (length (ts_AgentIDs scope) <= maxScopeAgentIDs)%nat &&
  bool_decide (length (ts_ServerNodeIDs scope) <= maxScopeServerNodeIDs)%nat &&
  bool_decide (length (ts_Protocols scope) <= maxScopeProtocols)%nat &&
  bool_decide (length (ts_TargetCIDRs scope) <= maxScopeCIDRs)%nat &&
  bool_decide (length (ts_TargetPorts scope) <= maxScopePorts)%nat &&
  forallb (fun v => bool_decide (length v <= maxScopeAgentIDBytes)%nat) (ts_AgentIDs scope) &&
  forallb (fun v => bool_decide (length v <= maxScopeAgentIDBytes)%nat) (ts_ServerNodeIDs scope) &&
  bool_decide (string_bytes (ts_AgentIDs scope) + string_bytes (ts_ServerNodeIDs scope) +
    string_bytes (ts_Protocols scope) + string_bytes (ts_TargetCIDRs scope) <= maxTokenScopeJSONBytes)%nat.

(** Every refusal is [ErrInvalidTokenScope]. *)
Definition compileTokenScope (scope : TokenScope) : option compiledTokenScope :=
  if negb (within_limits scope) then None
  else
    nodes ← mapM scope_id (ts_ServerNodeIDs scope);
    agents ← mapM scope_id (ts_AgentIDs scope);
    protocols ← mapM scope_protocol (ts_Protocols scope);
    cidrs ← mapM scope_cidr (ts_TargetCIDRs scope);
    ports ← mapM scope_port (ts_TargetPorts scope);
    let nodes := dedupe nodes in
    let agents := dedupe agents in
    let protocols := dedupe protocols in
    let cidrs := dedupe_cidrs cidrs in
    let ports := dedupe ports in
    let normal := mkScope (sort_strings agents) (sort_strings nodes) (sort_strings protocols) (sort_strings cidrs.*1) (sort_ints ports) in
    if bool_decide (maxTokenScopeJSONBytes < length (Marshal_scope normal))%nat then None
    else Some (mkCompiled normal agents nodes protocols cidrs.*2 ports).

(** [normalizeTokenScope] and its exported name *)
Definition NormalizeTokenScope (scope : TokenScope) : option TokenScope := cs_scope <$> compileTokenScope scope.

(** ** Decisions *)

(** A nil address is the empty one. *)
Definition scopeAllows (scope : compiledTokenScope) (req : StreamAuthorizationRequest) (targetIP : IP) : bool :=
  let lists {A} `{EqDecision A} (l : list A) (x : A) := bool_decide (l = []) || bool_decide (x ∈ l) in
  lists (cs_agentIDs scope) (sa_AgentID req) &&
  lists (cs_protocols scope) (sa_Protocol req) &&
  lists (cs_ports scope) (sa_TargetPort req) &&
  (bool_decide (cs_cidrs scope = []) ||
   (negb (bool_decide (targetIP = [])) && existsb (fun network => IPNet_Contains network targetIP) (cs_cidrs scope))).

Definition parseStringList (raw : bytes) (limit : nat) : option (list bytes) :=
  if bool_decide (maxTokenScopeJSONBytes < length raw)%nat then None
  else
    let raw := TrimSpace raw in
    if bool_decide (raw = []) || seq_eqb raw #"[]" then Some []
    else if HasPrefix raw #"[" then
      v ← parse_json raw;
      values ← decode_slice [] decode_string nil_slice v;
      if bool_decide (limit < length (slice_items values))%nat then None else Some (TrimSpace <$> slice_items values)
    else
      let parts := Split raw comma in
      if bool_decide (limit < length parts)%nat then None
      else Some (List.filter (fun p => negb (bool_decide (p = []))) (TrimSpace <$> parts)).

Definition parseCIDRList (raw : bytes) : option (list IPNet) :=
  values ← parseStringList raw maxScopeCIDRs;
  mapM (fun value => '(_, network) ← ParseCIDR value; Some network) values.

Definition single_port (port : Z) : option portInterval :=
  if (port <? 1) || (65535 <? port) then None else Some (mkInterval port port).

(** One element of a comma-separated port list that is not blank. *)
Definition port_part (part : bytes) : option portInterval :=
  if ContainsByte part dash then
    let '(lo, hi, _) := Cut part dash in
    lo ← Atoi (TrimSpace lo); hi ← Atoi (TrimSpace hi);
    if (lo <? 1) || (65535 <? hi) || (hi <? lo) then None else Some (mkInterval lo hi)
  else port ← Atoi part; single_port port.

Definition parsePortMatcher (raw : bytes) : option portMatcher :=
  if bool_decide (maxTokenScopeJSONBytes < length raw)%nat then None
  else
    let raw := TrimSpace raw in
    if bool_decide (raw = []) || seq_eqb raw #"[]" then Some []
    else if HasPrefix raw #"[" then
      v ← parse_json raw;
      ports ← decode_slice 0 decode_int nil_slice v;
      if bool_decide (maxScopePorts < length (slice_items ports))%nat then None else mapM single_port (slice_items ports)
    else
      let parts := Split raw comma in
      if bool_decide (maxScopePorts < length parts)%nat then None
      else mapM port_part (List.filter (fun p => negb (bool_decide (p = []))) (TrimSpace <$> parts)).

Definition matcher_allows (m : portMatcher) (port : Z) : bool :=
  bool_decide (m = []) || existsb (fun i => (pi_first i <=? port) && (port <=? pi_last i)) m.

(** [None] is an error, which refuses the whole request. *)
Definition policyAllows (policy : AgentPolicy) (req : StreamAuthorizationRequest) (targetIP : IP) : option bool :=
  if negb (bool_decide (ap_DeletedAt policy = None)) then None
  else if bool_decide (maxScopeAgentIDBytes < length (ap_AgentID policy))%nat then None
  else
    let agentID := TrimSpace (ap_AgentID policy) in
    if bool_decide (agentID = []) then None
    else if negb (seq_eqb agentID (sa_AgentID req)) then Some false
    else if bool_decide (32 < length (ap_Protocol policy))%nat then None
    else
      let protocol := normalizeProtocol (ap_Protocol policy) in
      if bool_decide (protocol = []) then None
      else if negb (seq_eqb protocol (sa_Protocol req)) then Some false
      else if bool_decide (maxPolicyTargetBytes < length (ap_TargetHost policy))%nat then None
      else
        let host := TrimSpace (ap_TargetHost policy) in
        if bool_decide (host = []) then None
        else if negb (seq_eqb host #"*") && negb (EqualFold host (sa_TargetHost req)) then Some false
        else if (ap_TargetPort policy <? 0) || (65535 <? ap_TargetPort policy) then None
        else if negb (ap_TargetPort policy =? 0) && negb (ap_TargetPort policy =? sa_TargetPort req) then Some false
        else
          cidrs ← parseCIDRList (ap_AllowedCIDRs policy);
          if negb (bool_decide (cidrs = [])) &&
             (bool_decide (targetIP = []) || negb (existsb (fun network => IPNet_Contains network targetIP) cidrs)) then Some false
          else
            ports ← parsePortMatcher (ap_AllowedPorts policy);
            Some (matcher_allows ports (sa_TargetPort req)).
End scope.

(** ** What a compiled scope admits *)

Lemma elem_of_dedupe {A} `{EqDecision A} (l : list A) x : x ∈ dedupe l <-> x ∈ l.
Proof.
  unfold dedupe. assert (forall acc, x ∈ foldl (fun acc x => if decide (x ∈ acc) then acc else acc ++ [x]) acc l <-> x ∈ acc \/ x ∈ l) as Hg.
  { induction l as [|y l IH]; intros acc; cbn [foldl]; [set_solver|]. rewrite IH. destruct (decide (y ∈ acc)); set_solver. }
  rewrite Hg. set_solver.
Qed.

Lemma dedupe_nil {A} `{EqDecision A} (l : list A) : dedupe l = [] <-> l = [].
Proof.
  split; [|by intros ->]. intros E. destruct l as [|x l]; [done|]. assert (x ∈ dedupe (x :: l)) as Hx by (apply elem_of_dedupe; by left).
  rewrite E in Hx. by apply not_elem_of_nil in Hx.
Qed.

Lemma dedupe_cidrs_spec l :
  (forall x, x ∈ dedupe_cidrs l -> x ∈ l) /\ (forall x, x ∈ l -> exists y, y ∈ dedupe_cidrs l /\ y.1 = x.1).
Proof.
  unfold dedupe_cidrs. set (f := fun acc x => if decide (x.1 ∈ acc.*1) then acc else acc ++ [x]).
  assert (forall acc, (forall x, x ∈ foldl f acc l -> x ∈ acc \/ x ∈ l) /\
    (forall x, x ∈ acc \/ x ∈ l -> exists y, y ∈ foldl f acc l /\ y.1 = x.1)) as Hg.
  { induction l as [|z l IH]; intros acc; cbn [foldl]; [split; [by left|intros x [?|Hx]; [by exists x|by apply not_elem_of_nil in Hx]]|].
    destruct (IH (f acc z)) as [H1 H2]. assert (f acc z = if decide (z.1 ∈ acc.*1) then acc else acc ++ [z]) as Ef by done.
    rewrite Ef in *. destruct (decide (z.1 ∈ acc.*1)) as [(y & Ey & Hy)%list_elem_of_fmap|].
    - split; [intros x [?|?]%H1; set_solver|]. intros x [Hx|[->|Hx]%elem_of_cons]; [apply H2; by left| |apply H2; by right].
      destruct (H2 y (or_introl Hy)) as (w & Hw & Ew). exists w. split; [done|congruence].
    - split; [intros x [?|?]%H1; set_solver|]. intros x Hx. apply H2. set_solver. }
  destruct (Hg []) as [H1 H2]. split; [intros x [Hx|?]%H1; [by apply not_elem_of_nil in Hx|done]|]. intros x Hx. apply H2. by right.
Qed.

Section scope_lemmas.
Context `{GoUnicode}.

(** What a scope says, read off its lists. *)
Definition scope_permits (scope : TokenScope) (req : StreamAuthorizationRequest) (targetIP : IP) : Prop :=
  (ts_AgentIDs scope = [] \/ exists raw, raw ∈ ts_AgentIDs scope /\ TrimSpace raw = sa_AgentID req) /\
  (ts_Protocols scope = [] \/ exists raw, raw ∈ ts_Protocols scope /\ normalizeProtocol raw = sa_Protocol req) /\
  (ts_TargetPorts scope = [] \/ sa_TargetPort req ∈ ts_TargetPorts scope) /\
  (ts_TargetCIDRs scope = [] \/ targetIP <> [] /\ exists raw lit network, raw ∈ ts_TargetCIDRs scope /\
     ParseCIDR (TrimSpace raw) = Some (lit, network) /\ IPNet_Contains network targetIP = true).

Lemma mapM_nil_iff {A B} (f : A -> option B) l k : mapM f l = Some k -> (k = [] <-> l = []).
Proof. intros Hm%mapM_Some. by destruct Hm. Qed.

Lemma mapM_elem {A B} (f : A -> option B) l k y : mapM f l = Some k -> y ∈ k <-> exists x, x ∈ l /\ f x = Some y.
Proof.
  intros Hm%mapM_Some. induction Hm as [|x z l k Hx _ IH]; [set_solver|]. rewrite elem_of_cons, IH. split.
  - intros [->|(w & ? & ?)]; [exists x|exists w]; set_solver.
  - intros (w & [->|?]%elem_of_cons & Hw); [left; congruence|right; by exists w].
Qed.

(** One list of a scope: empty, or containing the value. *)
Lemma listed_iff {A} `{EqDecision A} (f : A -> option A) (g : A -> A) l k x :
  mapM f l = Some k -> (forall a b, f a = Some b -> b = g a) -> (forall a, a ∈ l -> is_Some (f a)) ->
  bool_decide (dedupe k = []) || bool_decide (x ∈ dedupe k) = true <-> l = [] \/ exists raw, raw ∈ l /\ g raw = x.
Proof.
  intros Hm Hf Hs. rewrite orb_true_iff, !bool_decide_eq_true, dedupe_nil, (mapM_nil_iff _ _ _ Hm), elem_of_dedupe, (mapM_elem _ _ _ _ Hm).
  split; intros [?|(r & Hr & E)]; try by left.
  - right. exists r. split; [done|]. symmetry. by apply Hf.
  - right. exists r. split; [done|]. destruct (Hs r Hr) as [b Hb]. rewrite Hb. f_equal. by rewrite <- E, (Hf r b Hb).
Qed.

Lemma mapM_is_Some {A B} (f : A -> option B) l k : mapM f l = Some k -> forall a, a ∈ l -> is_Some (f a).
Proof. intros Hm%mapM_Some a Ha. apply list_elem_of_lookup in Ha as [i Hi]. destruct (Forall2_lookup_l _ _ _ _ _ Hm Hi) as (b & _ & Hb). by exists b. Qed.

Lemma cidrs_iff l k ip : mapM scope_cidr l = Some k ->
  bool_decide ((dedupe_cidrs k).*2 = []) || (negb (bool_decide (ip = [])) && existsb (fun n => IPNet_Contains n ip) (dedupe_cidrs k).*2) = true <->
  l = [] \/ ip <> [] /\ exists raw lit n, raw ∈ l /\ ParseCIDR (TrimSpace raw) = Some (lit, n) /\ IPNet_Contains n ip = true.
Proof.
  intros Hm. destruct (dedupe_cidrs_spec k) as [Hsub Hcov].
  assert (forall t n, (t, n) ∈ k <-> exists raw lit, raw ∈ l /\ ParseCIDR (TrimSpace raw) = Some (lit, n) /\ IPNet_String n = Some t) as Hk.
  { intros t n. rewrite (mapM_elem _ _ _ _ Hm). unfold scope_cidr. split.
    - intros (raw & Hr & E). destruct (ParseCIDR (TrimSpace raw)) as [[lit n']|] eqn:Ep; [|done]. cbn in E. injection E as Et En. subst n'.
      destruct (ParseCIDR_text _ _ _ Ep) as [t' Ht]. rewrite Ht in Et. cbn in Et. exists raw, lit. by rewrite Ht, Et.
    - intros (raw & lit & Hr & Ep & Et). exists raw. split; [done|]. rewrite Ep. cbn. by rewrite Et. }
  rewrite orb_true_iff, andb_true_iff, negb_true_iff, bool_decide_eq_true, bool_decide_eq_false, existsb_exists. split.
  - intros [E|[Hip (n & Hn & Hc)]].
    + left. apply (mapM_nil_iff _ _ _ Hm). destruct k as [|x k]; [done|]. destruct (Hcov x ltac:(by left)) as (y & Hy & _).
      apply fmap_nil_inv in E. rewrite E in Hy. by apply not_elem_of_nil in Hy.
    + right. split; [done|]. apply list_elem_of_In, list_elem_of_fmap in Hn as ([t n'] & -> & Hin%Hsub). apply Hk in Hin as (raw & lit & Hr & Ep & _). by exists raw, lit, n'.
  - intros [E|[Hip (raw & lit & n & Hr & Ep & Hc)]].
    + left. apply (mapM_nil_iff _ _ _ Hm) in E as ->. done.
    + right. split; [done|]. destruct (ParseCIDR_text _ _ _ Ep) as [t Ht]. destruct (Hcov (t, n)) as ([t' n'] & Hy & E); [apply Hk; eauto|]. cbn in E. subst t'.
      exists n'. split; [apply list_elem_of_In, list_elem_of_fmap; by exists (t, n')|]. apply Hsub, Hk in Hy as (_ & _ & _ & _ & Ht'). by rewrite (IPNet_Contains_text n' n t).
Qed.

Lemma compile_inv scope c : compileTokenScope scope = Some c -> exists nodes agents protocols cidrs ports,
  mapM scope_id (ts_ServerNodeIDs scope) = Some nodes /\ mapM scope_id (ts_AgentIDs scope) = Some agents /\
  mapM scope_protocol (ts_Protocols scope) = Some protocols /\ mapM scope_cidr (ts_TargetCIDRs scope) = Some cidrs /\
  mapM scope_port (ts_TargetPorts scope) = Some ports /\
  (length (Marshal_scope (cs_scope c)) <= maxTokenScopeJSONBytes)%nat /\
  c = mkCompiled (mkScope (sort_strings (dedupe agents)) (sort_strings (dedupe nodes)) (sort_strings (dedupe protocols))
        (sort_strings (dedupe_cidrs cidrs).*1) (sort_ints (dedupe ports))) (dedupe agents) (dedupe nodes) (dedupe protocols) (dedupe_cidrs cidrs).*2 (dedupe ports).
Proof.
  unfold compileTokenScope. destruct (negb _); [done|].
  destruct (mapM scope_id (ts_ServerNodeIDs scope)) as [nodes|]; [cbn|done]. destruct (mapM scope_id (ts_AgentIDs scope)) as [agents|]; [cbn|done].
  destruct (mapM scope_protocol _) as [protocols|]; [cbn|done]. destruct (mapM scope_cidr _) as [cidrs|]; [cbn|done].
  destruct (mapM scope_port _) as [ports|]; [cbn|done]. case_bool_decide as Hl; [done|]. intros [= <-]. exists nodes, agents, protocols, cidrs, ports.
  split_and!; try done. cbn [cs_scope]. apply Nat.nlt_ge in Hl. exact Hl.
Qed.

(** A compiled scope admits exactly what the scope says.  Trimming, removing
    duplicates (networks by their canonical text) and the order of the lists
    do not change any decision. *)
Theorem scope_decides scope c req ip :
  compileTokenScope scope = Some c -> scopeAllows c req ip = true <-> scope_permits scope req ip.
Proof.
  intros (nodes & agents & protocols & cidrs & ports & _ & Ha & Hp & Hc & Hq & _ & ->)%compile_inv. unfold scopeAllows, scope_permits. cbn [cs_agentIDs cs_protocols cs_cidrs cs_ports].
  rewrite !andb_true_iff. rewrite (cidrs_iff _ _ _ Hc).
  rewrite (listed_iff scope_id TrimSpace _ _ _ Ha), (listed_iff scope_protocol normalizeProtocol _ _ _ Hp), (listed_iff scope_port (fun p => p) _ _ _ Hq);
    [|try (by eapply mapM_is_Some)..].
  - assert ((exists raw, raw ∈ ts_TargetPorts scope /\ raw = sa_TargetPort req) <-> sa_TargetPort req ∈ ts_TargetPorts scope) as -> by naive_solver. tauto.
  - intros a b. unfold scope_port. destruct (_ || _); [done|]. by intros [= <-].
  - intros a b. unfold scope_protocol. case_bool_decide; [done|]. by intros [= <-].
  - intros a b. unfold scope_id. destruct (_ || _); [done|]. by intros [= <-].
Qed.

(** *** The stored text *)

Lemma decode_strings l : decode_items [] decode_string [] (JString <$> l) = Some l.
Proof. induction l as [|x l IH]; [done|]. cbn. cbn in IH. by rewrite IH. Qed.

Lemma decode_ints l : Forall (fun p => 1 <= p <= 65535) l -> decode_items 0 decode_int [] ((fun p => JNumber (Itoa p)) <$> l) = Some l.
Proof. induction 1 as [|x l Hx _ IH]; [done|]. cbn. rewrite Atoi_Itoa by (unfold max_int64; lia). cbn in *. by rewrite IH. Qed.

Lemma decode_slice_fresh {A} (zero : A) decode v vs xs : v :: vs <> [] -> decode_items zero decode [] (v :: vs) = Some xs ->
  decode_slice zero decode nil_slice (JArray (v :: vs)) = Some (mkSlice xs (length xs)).
Proof. intros _ E. cbn [decode_slice sl_array nil_slice]. rewrite E. cbn [mbind option_bind]. by rewrite drop_nil, app_nil_r. Qed.

Lemma slice_items_all {A} (xs : list A) : slice_items (mkSlice xs (length xs)) = xs.
Proof. unfold slice_items. cbn. by rewrite firstn_all. Qed.

(** The value a slice field has after an optional member. *)
Definition field_slice {A} (l : list A) : slice_of A := match l with [] => nil_slice | _ => mkSlice l (length l) end.

Lemma slice_items_field {A} (l : list A) : slice_items (field_slice l) = l.
Proof. destruct l; [done|]. apply slice_items_all. Qed.

Definition string_members (name : bytes) (l : list bytes) : list (bytes * json) := match l with [] => [] | _ => [(name, JArray (JString <$> l))] end.
Definition int_members (name : bytes) (l : list Z) : list (bytes * json) := match l with [] => [] | _ => [(name, JArray ((fun p => JNumber (Itoa p)) <$> l))] end.

Definition parsed_members (scope : TokenScope) : list (bytes * json) :=
  string_members #"agentIds" (ts_AgentIDs scope) ++ string_members #"serverNodeIds" (ts_ServerNodeIDs scope) ++
  string_members #"protocols" (ts_Protocols scope) ++ string_members #"targetCIDRs" (ts_TargetCIDRs scope) ++
  int_members #"targetPorts" (ts_TargetPorts scope).

Definition storable (scope : TokenScope) : Prop :=
  Forall utf8 (ts_AgentIDs scope) /\ Forall utf8 (ts_ServerNodeIDs scope) /\ Forall utf8 (ts_Protocols scope) /\ Forall utf8 (ts_TargetCIDRs scope) /\
  Forall (fun p => 1 <= p <= 65535) (ts_TargetPorts scope).

Lemma scope_members_scan scope : storable scope -> Forall2 (scans_member 1) (scope_members scope) (parsed_members scope).
Proof.
  intros (H1 & H2 & H3 & H4 & H5).
  assert (forall name l, utf8 name -> Forall utf8 l -> Forall2 (scans_member 1) (match l with [] => [] | _ => [(name, encode_array (encode_string <$> l))] end) (string_members name l)) as Hs.
  { intros name l Hn Hl. destruct l as [|x l]; [constructor|]. constructor; [|constructor]. split; [done|]. split; [done|]. apply scans_array.
    apply Forall2_fmap, Forall_Forall2_diag. eapply Forall_impl; [exact Hl|]. intros y Hy. by apply scans_string. }
  unfold scope_members, parsed_members. repeat apply Forall2_app; try (apply Hs; [apply utf8_ascii; by repeat constructor|done]).
  destruct (ts_TargetPorts scope) as [|x l]; [constructor|]. constructor; [|constructor]. split; [apply utf8_ascii; by repeat constructor|]. split; [done|]. apply scans_array.
  apply Forall2_fmap, Forall_Forall2_diag. eapply Forall_impl; [exact H5|]. intros y Hy. apply scans_int. cbn in Hy. lia.
Qed.

Lemma decode_members_app x a b : decode_members x (a ++ b) = x' ← decode_members x a; decode_members x' b.
Proof. revert x. induction a as [|m a IH]; intros x; [done|]. cbn. destruct (decode_member x m); [cbn; apply IH|done]. Qed.

Ltac decode_one Hs :=
  cbn [string_members int_members decode_members]; unfold decode_member; cbn [fst snd mbind option_bind];
  match goal with |- context [field_of ?k] => change (field_of k) with (Some k) end;
  cbn [mbind option_bind]; repeat match goal with |- context [seq_eqb ?a ?b] => let v := eval vm_compute in (seq_eqb a b) in change (seq_eqb a b) with v end;
  cbv iota; cbn [sx_AgentIDs sx_ServerNodeIDs sx_Protocols sx_TargetCIDRs sx_TargetPorts]; rewrite Hs; reflexivity.

Lemma decode_string_fields l x y z w q :
  decode_members (mkSlices nil_slice y z w q) (string_members #"agentIds" l) = Some (mkSlices (field_slice l) y z w q) /\
  decode_members (mkSlices x nil_slice z w q) (string_members #"serverNodeIds" l) = Some (mkSlices x (field_slice l) z w q) /\
  decode_members (mkSlices x y nil_slice w q) (string_members #"protocols" l) = Some (mkSlices x y (field_slice l) w q) /\
  decode_members (mkSlices x y z nil_slice q) (string_members #"targetCIDRs" l) = Some (mkSlices x y z (field_slice l) q).
Proof.
  destruct l as [|v l]; [done|].
  assert (decode_slice [] decode_string nil_slice (JArray (JString <$> v :: l)) = Some (field_slice (v :: l))) as Hs.
  { exact (decode_slice_fresh [] decode_string (JString v) (JString <$> l) (v :: l) ltac:(done) (decode_strings (v :: l))). }
  split_and!; decode_one Hs.
Qed.

Lemma decode_int_field l x y z w : Forall (fun p => 1 <= p <= 65535) l ->
  decode_members (mkSlices x y z w nil_slice) (int_members #"targetPorts" l) = Some (mkSlices x y z w (field_slice l)).
Proof.
  intros Hl. destruct l as [|v l]; [done|].
  assert (decode_slice 0 decode_int nil_slice (JArray ((fun p => JNumber (Itoa p)) <$> v :: l)) = Some (field_slice (v :: l))) as Hs.
  { exact (decode_slice_fresh 0 decode_int (JNumber (Itoa v)) ((fun p => JNumber (Itoa p)) <$> l) (v :: l) ltac:(done) (decode_ints (v :: l) Hl)). }
  decode_one Hs.
Qed.

Lemma Marshal_trimmed scope : TrimSpace (Marshal_scope scope) = Marshal_scope scope.
Proof. eapply (TrimSpace_id _ "{"%char (Join (encode_member <$> scope_members scope) comma) "}"%char); [left; done|done..]. Qed.

(** The text a token row stores for a scope decodes to that scope. *)
Lemma scope_text_roundtrip scope : storable scope -> (length (Marshal_scope scope) <= maxTokenScopeJSONBytes)%nat -> decodeTokenScope (Marshal_scope scope) = Some scope.
Proof.
  intros Hs Hl. unfold decodeTokenScope. rewrite bool_decide_eq_false_2 by lia. rewrite Marshal_trimmed. rewrite bool_decide_eq_true_2 by done. cbn [negb].
  unfold Marshal_scope. rewrite (parse_object 1 _ (parsed_members scope)) by (by apply scope_members_scan || (apply Nat.leb_le; by vm_compute)).
  unfold parsed_members. rewrite !decode_members_app, (proj1 (decode_string_fields _ nil_slice _ _ _ _)). cbn [mbind option_bind].
  rewrite decode_members_app, (proj1 (proj2 (decode_string_fields _ _ nil_slice _ _ _))). cbn [mbind option_bind].
  rewrite decode_members_app, (proj1 (proj2 (proj2 (decode_string_fields _ _ _ nil_slice _ _)))). cbn [mbind option_bind].
  rewrite decode_members_app, (proj2 (proj2 (proj2 (decode_string_fields _ _ _ _ nil_slice _)))). cbn [mbind option_bind].
  rewrite decode_int_field by apply Hs. cbn [mbind option_bind sx_AgentIDs sx_ServerNodeIDs sx_Protocols sx_TargetCIDRs sx_TargetPorts].
  rewrite !slice_items_field. by destruct scope.
Qed.

Lemma Forall_sort {A} (P : A -> Prop) less (l : list A) : Forall P l -> Forall P (sort_by less l).
Proof. intros Hl. by rewrite sort_by_perm. Qed.

(** What tokens are created with is what they are checked against: the text
    of a normalised scope, written to the token row, decodes to the same scope
    whenever its identifiers are valid UTF-8. *)
Theorem stored_scope_roundtrip scope n :
  NormalizeTokenScope scope = Some n -> Forall utf8 (ts_AgentIDs n) -> Forall utf8 (ts_ServerNodeIDs n) ->
  decodeTokenScope (Marshal_scope n) = Some n.
Proof.
  unfold NormalizeTokenScope. destruct (compileTokenScope scope) as [c|] eqn:Ec; [|done]. intros [= <-] Ha Hn. cbn in *.
  apply compile_inv in Ec as (nodes & agents & protocols & cidrs & ports & _ & _ & Hp & Hc & Hq & Hl & ->). apply scope_text_roundtrip; [|exact Hl].
  split_and!; [done|done|..]; cbn [cs_scope ts_Protocols ts_TargetCIDRs ts_TargetPorts]; apply Forall_sort, Forall_forall.
  - intros x (raw & _ & E)%elem_of_dedupe%(mapM_elem _ _ _ _ Hp). unfold scope_protocol in E. case_bool_decide; [done|]. injection E as <-.
    apply utf8_ascii. unfold normalizeProtocol. destruct (_ || _) eqn:E1.
    + repeat (apply orb_prop in E1 as [E1|E1]); apply seq_eqb_eq in E1 as ->; by repeat constructor.
    + case_match; by repeat constructor.
  - intros x ([t net] & -> & Hin)%list_elem_of_fmap. apply (proj1 (dedupe_cidrs_spec cidrs)) in Hin. apply (mapM_elem _ _ _ _ Hc) in Hin as (raw & _ & E). unfold scope_cidr in E.
    destruct (ParseCIDR (TrimSpace raw)) as [[lit n']|] eqn:Ep; [|done]. cbn in E. injection E as <- <-. destruct (ParseCIDR_text _ _ _ Ep) as [t Ht]. rewrite Ht.
    cbn. apply utf8_ascii. by eapply IPNet_String_ascii.
  - intros x (raw & _ & E)%elem_of_dedupe%(mapM_elem _ _ _ _ Hq). unfold scope_port in E. destruct (_ || _) eqn:Eb; [done|]. injection E as <-.
    apply orb_false_iff in Eb as [? ?]. lia.
Qed.
End scope_lemmas.

Definition sample_scope : TokenScope := mkScope [ #" agent-1 "; #"agent-0"; #"agent-1"] [] [ #"WebSocket"; #"tcp"] [ #"10.1.2.3/8"; #"fe80::1/64"; #"10.0.0.0/8"] [443; 22; 443].

Lemma stored_scope_roundtrip_witness : exists n,
  @NormalizeTokenScope ascii_unicode sample_scope = Some n /\
  n = mkScope [ #"agent-0"; #"agent-1"] [] [ #"tcp"; #"ws"] [ #"10.0.0.0/8"; #"fe80::/64"] [22; 443] /\
  @decodeTokenScope ascii_unicode (Marshal_scope n) = Some n.
Proof.
  eexists. split; [by vm_compute|]. split; [reflexivity|].
  apply (@stored_scope_roundtrip ascii_unicode sample_scope); [by vm_compute| |constructor].
  repeat constructor; apply utf8_ascii; by repeat constructor.
Defined.

(** A list of separators alone is read as no list at all: a policy row whose
    CIDR list is a comma admits every address. *)
Lemma blank_list_admits_all :
  @policyAllows ascii_unicode (mkPolicy #"p" #"agent" #"*" 0 #"tcp" #"," #"," None) (mkAuthRequest #"agent" #"tcp" #"host.example" 22) [] = Some true.
Proof. by vm_compute. Qed.
