(* ===== verification/Credentials.v ===== *)
(** * Service tokens and stream authorization

    The token table with its repository ([internal/storage/repository.go]) and
    [CredentialService] of [internal/auth/credential_service.go]: creating,
    validating, rotating and revoking tokens, and the decision whether a client
    token may open a stream.

    The database is a value [store] with one map per table, keyed by primary
    key; a repository method is one statement or one transaction on it.  The
    service reads through the record [repositories], whose answers may fail, so
    its definitions do not assume that two reads see the same state;
    [reads_of] is the instance in which they all read one store. *)

From stdpp Require Import base list gmap sets strings relations sorting.
From Stdlib Require Import Ascii ZArith Lia.
From S2P Require Import Prelude GoStrings GoNet GoCrypto GoJson TokenScope.
Local Open Scope Z_scope.

Definition TokenTypeAgent : bytes := #"agent".
Definition TokenTypeClient : bytes := #"client".
Definition TokenTypeServerNode : bytes := #"server_node".

(** The sealed copy of a secret: ciphertext, nonce, key id and version. *)
Record sealed_secret := mkSealed { ss_Ciphertext : bytes; ss_Nonce : bytes; ss_KeyID : bytes; ss_Version : Z }.

Record ServiceToken := mkToken {
  tk_ID : bytes;
  tk_OwnerUserID : bytes;
  tk_AgentID : bytes;
  tk_NodeID : bytes;
  tk_Prefix : bytes;
  tk_TokenHash : bytes;
  tk_Secret : option sealed_secret;
  tk_SecretLastReadAt : option Z;
  tk_Scope : bytes;
  tk_Type : bytes;
  tk_ExpiresAt : option Z;
  tk_RevokedAt : option Z;
  tk_LastUsedAt : option Z;
  tk_CreatedAt : Z;
  tk_UpdatedAt : Z;
}.

Record User := mkUser { us_Disabled : bool; us_DeletedAt : option Z }.
Record Agent := mkAgent { ag_OwnerUserID : bytes; ag_Enabled : bool }.
Record ServerNode := mkServerNode { sn_Enabled : bool; sn_DeletedAt : option Z; sn_ExpiresAt : option Z }.

Record Page (A : Type) := mkPage { pg_Items : list A; pg_NextCursor : bytes; pg_HasMore : bool }.
Arguments mkPage {A}.
Arguments pg_Items {A}.
Arguments pg_NextCursor {A}.
Arguments pg_HasMore {A}.

Record store := mkStore {
  st_tokens : gmap bytes ServiceToken;
  st_users : gmap bytes User;
  st_agents : gmap bytes Agent;
  st_nodes : gmap bytes ServerNode;
  st_policies : gmap bytes AgentPolicy;
  st_revision : Z;
}.

Inductive db_err := ErrNoRows | ErrUniqueConstraint | ErrServiceTokenRevoked | ErrServiceTokenExpired.

(** ** Rows *)

Definition with_tokens (st : store) (m : gmap bytes ServiceToken) : store :=
  mkStore m (st_users st) (st_agents st) (st_nodes st) (st_policies st) (st_revision st).
Definition with_users (st : store) (m : gmap bytes User) : store :=
  mkStore (st_tokens st) m (st_agents st) (st_nodes st) (st_policies st) (st_revision st).
Definition with_agents (st : store) (m : gmap bytes Agent) : store :=
  mkStore (st_tokens st) (st_users st) m (st_nodes st) (st_policies st) (st_revision st).
Definition with_policies (st : store) (m : gmap bytes AgentPolicy) : store :=
  mkStore (st_tokens st) (st_users st) (st_agents st) (st_nodes st) m (st_revision st).

Definition set_revoked (t : ServiceToken) (when : Z) : ServiceToken :=
  mkToken (tk_ID t) (tk_OwnerUserID t) (tk_AgentID t) (tk_NodeID t) (tk_Prefix t) (tk_TokenHash t) (tk_Secret t) (tk_SecretLastReadAt t) (tk_Scope t)
    (tk_Type t) (tk_ExpiresAt t) (Some when) (tk_LastUsedAt t) (tk_CreatedAt t) when.
Definition set_expires (t : ServiceToken) (expires : option Z) (when : Z) : ServiceToken :=
  mkToken (tk_ID t) (tk_OwnerUserID t) (tk_AgentID t) (tk_NodeID t) (tk_Prefix t) (tk_TokenHash t) (tk_Secret t) (tk_SecretLastReadAt t) (tk_Scope t)
    (tk_Type t) expires (tk_RevokedAt t) (tk_LastUsedAt t) (tk_CreatedAt t) when.
Definition set_scope (t : ServiceToken) (scope : bytes) (when : Z) : ServiceToken :=
  mkToken (tk_ID t) (tk_OwnerUserID t) (tk_AgentID t) (tk_NodeID t) (tk_Prefix t) (tk_TokenHash t) (tk_Secret t) (tk_SecretLastReadAt t) scope
    (tk_Type t) (tk_ExpiresAt t) (tk_RevokedAt t) (tk_LastUsedAt t) (tk_CreatedAt t) when.
Definition set_last_used (t : ServiceToken) (when : Z) : ServiceToken :=
  mkToken (tk_ID t) (tk_OwnerUserID t) (tk_AgentID t) (tk_NodeID t) (tk_Prefix t) (tk_TokenHash t) (tk_Secret t) (tk_SecretLastReadAt t) (tk_Scope t)
    (tk_Type t) (tk_ExpiresAt t) (tk_RevokedAt t) (Some when) (tk_CreatedAt t) when.
Definition set_secret_read (t : ServiceToken) (when : Z) : ServiceToken :=
  mkToken (tk_ID t) (tk_OwnerUserID t) (tk_AgentID t) (tk_NodeID t) (tk_Prefix t) (tk_TokenHash t) (tk_Secret t) (Some when) (tk_Scope t)
    (tk_Type t) (tk_ExpiresAt t) (tk_RevokedAt t) (tk_LastUsedAt t) (tk_CreatedAt t) when.

(** ** Repository methods *)

(** A transaction that also advances the authorization revision; an error
    rolls it back. *)
Definition withAuthorizationRevision {E} (st : store) (operation : result store E) : store * result unit E :=
  match operation with
  | Ok st' => (mkStore (st_tokens st') (st_users st') (st_agents st') (st_nodes st') (st_policies st') (st_revision st + 1), Ok tt)
  | Err e => (st, Err e)
  end.

(** Identifiers from the random bytes [random]; [stamp] assigns one where the
    row has none. *)
Definition newID (prefix random : bytes) : bytes := prefix ++ #"-" ++ RawURLEncode random.
Definition stamp (id prefix random : bytes) : bytes := if bool_decide (id = []) then newID prefix random else id.
Definition newAgentID (random : bytes) : bytes := #"agent-" ++ hex_bytes random.

Definition set_token_id (t : ServiceToken) (id : bytes) : ServiceToken :=
  mkToken id (tk_OwnerUserID t) (tk_AgentID t) (tk_NodeID t) (tk_Prefix t) (tk_TokenHash t) (tk_Secret t) (tk_SecretLastReadAt t) (tk_Scope t)
    (tk_Type t) (tk_ExpiresAt t) (tk_RevokedAt t) (tk_LastUsedAt t) (tk_CreatedAt t) (tk_UpdatedAt t).

(** [INSERT] under the primary key and the unique index on [token_hash]. *)
Definition createServiceToken (st : store) (v : ServiceToken) (random : bytes) : result store db_err :=
  let v := set_token_id v (stamp (tk_ID v) #"stok" random) in
  if bool_decide (is_Some (st_tokens st !! tk_ID v)) || bool_decide (map_Exists (fun _ t => tk_TokenHash t = tk_TokenHash v) (st_tokens st))
  then Err ErrUniqueConstraint
  else Ok (with_tokens st (<[tk_ID v := v]> (st_tokens st))).

Definition tokens_Create (st : store) (v : ServiceToken) (random : bytes) : store * result unit db_err := withAuthorizationRevision st (createServiceToken st v random).

Definition tokens_GetByHash (st : store) (hash : bytes) : option ServiceToken :=
  snd <$> head (map_to_list (filter (fun kv => tk_TokenHash kv.2 = hash) (st_tokens st))).

Definition tokens_Revoke (st : store) (id : bytes) (when : Z) : store * result unit db_err :=
  withAuthorizationRevision st
    (match st_tokens st !! id with
     | None => Err ErrNoRows
     | Some t => match tk_RevokedAt t with
                 | Some _ => Err ErrServiceTokenRevoked
                 | None => Ok (with_tokens st (<[id := set_revoked t when]> (st_tokens st)))
                 end
     end).

Definition ensureActiveServiceTokenForUpdate (st : store) (id : bytes) (now : Z) : result ServiceToken db_err :=
  match st_tokens st !! id with
  | None => Err ErrNoRows
  | Some t =>
      if bool_decide (is_Some (tk_RevokedAt t)) then Err ErrServiceTokenRevoked
      else match tk_ExpiresAt t with
      | Some e => if e <=? now then Err ErrServiceTokenExpired else Ok t
      | None => Ok t
      end
  end.

Definition tokens_UpdateExpiration (st : store) (id : bytes) (expires : option Z) (when now : Z) : store * result unit db_err :=
  withAuthorizationRevision st
    (let! t := ensureActiveServiceTokenForUpdate st id now in Ok (with_tokens st (<[id := set_expires t expires when]> (st_tokens st)))).

Definition tokens_UpdateScope (st : store) (id scope : bytes) (when now : Z) : store * result unit db_err :=
  withAuthorizationRevision st
    (let! t := ensureActiveServiceTokenForUpdate st id now in Ok (with_tokens st (<[id := set_scope t scope when]> (st_tokens st)))).

Definition update_token (st : store) (id : bytes) (f : ServiceToken -> ServiceToken) : store * result unit db_err :=
  match st_tokens st !! id with
  | None => (st, Err ErrNoRows)
  | Some t => (with_tokens st (<[id := f t]> (st_tokens st)), Ok tt)
  end.

Definition tokens_TouchLastUsed (st : store) (id : bytes) (when : Z) : store * result unit db_err := update_token st id (fun t => set_last_used t when).
Definition tokens_MarkSecretRead (st : store) (id : bytes) (when : Z) : store * result unit db_err := update_token st id (fun t => set_secret_read t when).

Definition rotateServiceToken (st : store) (oldID : bytes) (replacement : ServiceToken) (when : Z) (random : bytes) : result store db_err :=
  match st_tokens st !! oldID with
  | None => Err ErrNoRows
  | Some t =>
      if bool_decide (is_Some (tk_RevokedAt t)) then Err ErrServiceTokenRevoked
      else
        let! st' := createServiceToken st replacement random in
        match st_tokens st' !! oldID with
        | Some t' => if bool_decide (tk_RevokedAt t' = None) then Ok (with_tokens st' (<[oldID := set_revoked t' when]> (st_tokens st'))) else Err ErrNoRows
        | None => Err ErrNoRows
        end
  end.

Definition tokens_Rotate (st : store) (oldID : bytes) (replacement : ServiceToken) (when : Z) (random : bytes) : store * result unit db_err :=
  withAuthorizationRevision st (rotateServiceToken st oldID replacement when random).

(** *** Policies, agents and users *)

Definition encodeCursor (id : bytes) : bytes := if bool_decide (id = []) then [] else RawURLEncode id.

Definition decodeCursor (cursor : bytes) : bytes :=
  if bool_decide (cursor = []) then [] else default cursor (RawURLDecode cursor).

Definition policy_less (a b : AgentPolicy) : bool := str_ltb (ap_ID a) (ap_ID b).

(** The rows of [WHERE agent_id=? AND deleted_at IS NULL ORDER BY id]. *)
Definition active_policies (st : store) (agentID : bytes) : list AgentPolicy :=
  sort_by policy_less (List.filter (fun p => seq_eqb (ap_AgentID p) agentID && bool_decide (ap_DeletedAt p = None)) (map_to_list (st_policies st)).*2).

(** [listByAgent] with the status [PolicyStatusActive] *)
Definition policies_ListByAgent (st : store) (agentID cursor : bytes) (limit : Z) : Page AgentPolicy :=
  let limit := if (limit <=? 0) || (500 <? limit) then 50%nat else Z.to_nat limit in
  let c := decodeCursor cursor in
  let rows := if bool_decide (c = []) then active_policies st agentID
              else List.filter (fun p => str_ltb c (ap_ID p)) (active_policies st agentID) in
  let out := take (S limit) rows in
  if bool_decide (limit < length out)%nat then
    let items := take limit out in
    mkPage items (encodeCursor (match last items with Some p => ap_ID p | None => [] end)) true
  else mkPage out [] false.

Definition set_policy_deleted (p : AgentPolicy) (deleted : option Z) : AgentPolicy :=
  mkPolicy (ap_ID p) (ap_AgentID p) (ap_TargetHost p) (ap_TargetPort p) (ap_Protocol p) (ap_AllowedCIDRs p) (ap_AllowedPorts p) deleted.

Definition policies_Create (st : store) (v : AgentPolicy) (random : bytes) : store * result unit db_err :=
  withAuthorizationRevision st
    (let dflt s := if bool_decide (s = []) then #"[]" else s in
     let v := mkPolicy (stamp (ap_ID v) #"policy" random) (ap_AgentID v) (ap_TargetHost v) (ap_TargetPort v) (ap_Protocol v) (dflt (ap_AllowedCIDRs v)) (dflt (ap_AllowedPorts v)) (ap_DeletedAt v) in
     if bool_decide (is_Some (st_policies st !! ap_ID v)) then Err ErrUniqueConstraint
     else Ok (with_policies st (<[ap_ID v := v]> (st_policies st)))).

(** An update of the row [id] that satisfies [cond]. *)
Definition update_policy (st : store) (id : bytes) (cond : AgentPolicy -> bool) (f : AgentPolicy -> AgentPolicy) : store * result unit db_err :=
  withAuthorizationRevision st
    (match st_policies st !! id with
     | Some p => if cond p then Ok (with_policies st (<[id := f p]> (st_policies st))) else Err ErrNoRows
     | None => Err ErrNoRows
     end).

Definition policies_Update (st : store) (v : AgentPolicy) : store * result unit db_err :=
  update_policy st (ap_ID v) (fun p => bool_decide (ap_DeletedAt p = None)) (fun p => set_policy_deleted v (ap_DeletedAt p)).
Definition policies_Delete (st : store) (id : bytes) (now : Z) : store * result unit db_err :=
  update_policy st id (fun p => bool_decide (ap_DeletedAt p = None)) (fun p => set_policy_deleted p (Some now)).
Definition policies_Restore (st : store) (id : bytes) : store * result unit db_err :=
  update_policy st id (fun p => bool_decide (is_Some (ap_DeletedAt p))) (fun p => set_policy_deleted p None).

Definition agents_Create (st : store) (id : bytes) (v : Agent) (random : bytes) : store * result unit db_err :=
  withAuthorizationRevision st
    (let id := if bool_decide (id = []) then newAgentID random else id in
     if bool_decide (is_Some (st_agents st !! id)) then Err ErrUniqueConstraint else Ok (with_agents st (<[id := v]> (st_agents st)))).
Definition agents_Update (st : store) (id : bytes) (v : Agent) : store * result unit db_err :=
  withAuthorizationRevision st (if bool_decide (is_Some (st_agents st !! id)) then Ok (with_agents st (<[id := v]> (st_agents st))) else Err ErrNoRows).
Definition agents_Delete (st : store) (id : bytes) : store * result unit db_err :=
  withAuthorizationRevision st (if bool_decide (is_Some (st_agents st !! id)) then Ok (with_agents st (delete id (st_agents st))) else Err ErrNoRows).

(** [taken]: the user name belongs to another row. *)
Definition users_Create (st : store) (id : bytes) (v : User) (taken : bool) (random : bytes) : store * result unit db_err :=
  let id := stamp id #"user" random in
  if taken || bool_decide (is_Some (st_users st !! id)) then (st, Err ErrUniqueConstraint) else (with_users st (<[id := v]> (st_users st)), Ok tt).
Definition users_Update (st : store) (id : bytes) (v : User) (taken : bool) : store * result unit db_err :=
  withAuthorizationRevision st (if bool_decide (is_Some (st_users st !! id)) then if taken then Err ErrUniqueConstraint else Ok (with_users st (<[id := v]> (st_users st))) else Err ErrNoRows).
Definition users_Delete (st : store) (id : bytes) : store * result unit db_err :=
  withAuthorizationRevision st (if bool_decide (is_Some (st_users st !! id)) then Ok (with_users st (delete id (st_users st))) else Err ErrNoRows).
Definition users_SoftDelete (st : store) (id : bytes) (when : Z) : store * result unit db_err :=
  match st_users st !! id with
  | None => (st, Err ErrNoRows)
  | Some u => (with_users st (<[id := mkUser true (Some (default when (us_DeletedAt u)))]> (st_users st)), Ok tt)
  end.
Definition users_Restore (st : store) (id : bytes) : store * result unit db_err :=
  match st_users st !! id with
  | None => (st, Err ErrNoRows)
  | Some u => (with_users st (<[id := mkUser false None]> (st_users st)), Ok tt)
  end.

(** ** The service *)

Inductive cred_err :=
| ErrUnauthenticated | ErrForbidden | ErrInvalidTokenType | ErrInvalidTokenScope
| ErrOwnerRequired | ErrTokenBinding | ErrExpirationPast | ErrSecretStore | ErrDatabase (e : db_err).

Record TokenIdentity := mkIdentity {
  ti_TokenID : bytes;
  ti_OwnerUserID : bytes;
  ti_AgentID : bytes;
  ti_NodeID : bytes;
  ti_ServerNodeIDs : list bytes;
  ti_Prefix : bytes;
  ti_Type : bytes;
  ti_Scope : TokenScope;
}.

Record CreateTokenInput := mkCreateInput {
  ci_Type : bytes;
  ci_OwnerUserID : bytes;
  ci_AgentID : bytes;
  ci_NodeID : bytes;
  ci_Scope : TokenScope;
  ci_ExpiresAt : option Z;
}.

Record CreatedToken := mkCreated { ct_Identity : TokenIdentity; ct_Secret : bytes; ct_ExpiresAt : option Z }.

(** The reads the service is given; [None] is any error. *)
Record repositories := mkRepositories {
  r_tokens_Get : bytes -> option ServiceToken;
  r_tokens_GetByHash : bytes -> option ServiceToken;
  r_users_Get : bytes -> option User;
  r_agents_Get : bytes -> option Agent;
  r_nodes_Get : bytes -> option ServerNode;
  r_policies_ListByAgent : bytes -> bytes -> Z -> option (Page AgentPolicy);
}.

Definition reads_of (st : store) : repositories :=
  mkRepositories (fun id => st_tokens st !! id) (tokens_GetByHash st) (fun id => st_users st !! id) (fun id => st_agents st !! id)
    (fun id => st_nodes st !! id) (fun agentID cursor limit => Some (policies_ListByAgent st agentID cursor limit)).

Definition hashToken (token : bytes) : bytes := hex_bytes (Sum256 token).
Definition tokenPrefix (token : bytes) : bytes := take 8 (hashToken token).

(** [randomToken] on the bytes the random source returned *)
Definition randomToken (random : bytes) : bytes := RawURLEncode random.

Definition validTokenType (tokenType : bytes) : bool :=
  seq_eqb tokenType TokenTypeAgent || seq_eqb tokenType TokenTypeClient || seq_eqb tokenType TokenTypeServerNode.

Definition validateTokenBinding (tokenType owner agentID nodeID : bytes) : result unit cred_err :=
  if negb (validTokenType tokenType) then Err ErrInvalidTokenType
  else if bool_decide (owner = []) then Err ErrOwnerRequired
  else if seq_eqb tokenType TokenTypeAgent then
    if bool_decide (agentID = []) || negb (bool_decide (nodeID = [])) then Err ErrTokenBinding else Ok tt
  else if seq_eqb tokenType TokenTypeClient then
    if negb (bool_decide (agentID = [])) || negb (bool_decide (nodeID = [])) then Err ErrTokenBinding else Ok tt
  else if negb (bool_decide (nodeID = [])) || negb (bool_decide (agentID = [])) then Err ErrInvalidTokenScope else Ok tt.

Definition agent_owned (r : repositories) (agentID owner : bytes) : bool :=
  match r_agents_Get r agentID with
  | Some agent => ag_Enabled agent && seq_eqb (ag_OwnerUserID agent) owner
  | None => false
  end.

Definition validateOwnerAndBinding (r : repositories) (tokenType owner agentID : bytes) : bool :=
  match r_users_Get r owner with
  | None => false
  | Some u =>
      if us_Disabled u || bool_decide (is_Some (us_DeletedAt u)) then false
      else if seq_eqb tokenType TokenTypeAgent then agent_owned r agentID owner else true
  end.

Definition validateScopedServerNodes (r : repositories) (tokenType : bytes) (nodeIDs : list bytes) (now : Z) : bool :=
  negb (seq_eqb tokenType TokenTypeServerNode) ||
  forallb (fun nodeID =>
    match r_nodes_Get r nodeID with
    | Some n => sn_Enabled n && bool_decide (sn_DeletedAt n = None) && match sn_ExpiresAt n with Some e => now <? e | None => true end
    | None => false
    end) nodeIDs.

Definition validateScopedAgents (r : repositories) (tokenType owner bound : bytes) (agentIDs : list bytes) : bool :=
  forallb (fun agentID => (negb (seq_eqb tokenType TokenTypeAgent) || seq_eqb agentID bound) && agent_owned r agentID owner) agentIDs.

Definition createdToken (record : ServiceToken) (scope : TokenScope) (raw : bytes) : CreatedToken :=
  mkCreated (mkIdentity (tk_ID record) (tk_OwnerUserID record) (tk_AgentID record) (tk_NodeID record) [] (tk_Prefix record) (tk_Type record) scope)
    raw (tk_ExpiresAt record).

Section service.
Context `{GoUnicode}.

(** Expired or revoked tokens do not identify anybody. *)
Definition token_live (record : ServiceToken) (now : Z) : bool :=
  bool_decide (tk_RevokedAt record = None) && match tk_ExpiresAt record with Some e => now <? e | None => true end.

Definition identityAndScopeFromRecord (r : repositories) (record : ServiceToken) (now later : Z) : option (TokenIdentity * compiledTokenScope) :=
  if negb (validTokenType (tk_Type record)) || bool_decide (tk_ID record = []) || bool_decide (tk_OwnerUserID record = []) || negb (token_live record now) then None
  else match validateTokenBinding (tk_Type record) (tk_OwnerUserID record) (tk_AgentID record) (tk_NodeID record) with
  | Err _ => None
  | Ok _ =>
      if negb (validateOwnerAndBinding r (tk_Type record) (tk_OwnerUserID record) (tk_AgentID record)) then None
      else
        scope ← decodeTokenScope (tk_Scope record);
        compiled ← compileTokenScope scope;
        if negb (validateScopedServerNodes r (tk_Type record) (ts_ServerNodeIDs (cs_scope compiled)) later) then None
        else Some (mkIdentity (tk_ID record) (tk_OwnerUserID record) (tk_AgentID record) (tk_NodeID record) (ts_ServerNodeIDs (cs_scope compiled))
                     (tk_Prefix record) (tk_Type record) (cs_scope compiled), compiled)
  end.

(** The identity and the token id queued for [TouchLastUsed]. *)
Definition ValidateAs (r : repositories) (raw expected : bytes) (now later : Z) : result (TokenIdentity * bytes) cred_err :=
  if bool_decide (TrimSpace raw = []) || negb (validTokenType expected) then Err ErrUnauthenticated
  else match r_tokens_GetByHash r (hashToken raw) with
  | None => Err ErrUnauthenticated
  | Some record =>
      if negb (seq_eqb (tk_Type record) expected) then Err ErrUnauthenticated
      else match identityAndScopeFromRecord r record now later with
      | None => Err ErrUnauthenticated
      | Some (id, _) => Ok (id, tk_ID record)
      end
  end.

Definition policyPageSize : Z := 100.

(** The rows of one page: an error on any row, or whether one admits. *)
Fixpoint page_allows (items : list AgentPolicy) (req : StreamAuthorizationRequest) (targetIP : IP) (matched : bool) : option bool :=
  match items with
  | [] => Some matched
  | policy :: items' => allowed ← policyAllows policy req targetIP; page_allows items' req targetIP (matched || allowed)
  end.

(** The loop over pages.  [None] is an exhausted fuel. *)
Fixpoint agentPolicyAllows (fuel : nat) (r : repositories) (req : StreamAuthorizationRequest) (targetIP : IP) (cursor : bytes) (matched : bool) :
    option (option bool) :=
  match fuel with
  | O => None
  | S fuel =>
      match r_policies_ListByAgent r (sa_AgentID req) cursor policyPageSize with
      | None => Some None
      | Some page =>
          match page_allows (pg_Items page) req targetIP matched with
          | None => Some None
          | Some matched =>
              if negb (pg_HasMore page) then Some (Some matched)
              else if bool_decide (pg_NextCursor page = []) || seq_eqb (pg_NextCursor page) cursor then Some None
              else agentPolicyAllows fuel r req targetIP (pg_NextCursor page) matched
          end
      end
  end.

Definition within_request_limits (req : StreamAuthorizationRequest) : bool :=
  bool_decide (length (sa_AgentID req) <= maxScopeAgentIDBytes)%nat && bool_decide (length (sa_Protocol req) <= 32)%nat &&
  bool_decide (length (sa_TargetHost req) <= maxPolicyTargetBytes)%nat.

Definition normal_request (req : StreamAuthorizationRequest) : StreamAuthorizationRequest :=
  mkAuthRequest (TrimSpace (sa_AgentID req)) (normalizeProtocol (sa_Protocol req)) (TrimSpace (sa_TargetHost req)) (sa_TargetPort req).

Definition request_valid (req : StreamAuthorizationRequest) : bool :=
  negb (bool_decide (sa_AgentID req = [])) && bool_decide (length (sa_AgentID req) <= maxScopeAgentIDBytes)%nat &&
  negb (bool_decide (sa_Protocol req = [])) && negb (bool_decide (sa_TargetHost req = [])) &&
  bool_decide (length (sa_TargetHost req) <= maxPolicyTargetBytes)%nat && (1 <=? sa_TargetPort req) && (sa_TargetPort req <=? 65535).

(** Every refusal is [ErrForbidden]. *)
Definition AuthorizeStream (fuel : nat) (r : repositories) (id : TokenIdentity) (req : StreamAuthorizationRequest) (now later : Z) : option (result unit cred_err) :=
  if bool_decide (ti_TokenID id = []) || negb (seq_eqb (ti_Type id) TokenTypeClient) then Some (Err ErrForbidden)
  else match r_tokens_Get r (ti_TokenID id) with
  | None => Some (Err ErrForbidden)
  | Some record =>
      if negb (seq_eqb (tk_Type record) TokenTypeClient) || negb (seq_eqb (tk_OwnerUserID record) (ti_OwnerUserID id)) then Some (Err ErrForbidden)
      else match identityAndScopeFromRecord r record now later with
      | None => Some (Err ErrForbidden)
      | Some (current, compiledScope) =>
          if negb (within_request_limits req) then Some (Err ErrForbidden)
          else
            let req := normal_request req in
            if negb (request_valid req) then Some (Err ErrForbidden)
            else if negb (agent_owned r (sa_AgentID req) (ti_OwnerUserID current)) then Some (Err ErrForbidden)
            else
              let targetIP := ParseIP (sa_TargetHost req) in
              if negb (scopeAllows compiledScope req targetIP) then Some (Err ErrForbidden)
              else match agentPolicyAllows fuel r req targetIP [] false with
              | None => None
              | Some (Some true) => Some (Ok tt)
              | Some _ => Some (Err ErrForbidden)
              end
      end
  end.

(** *** Token lifecycle: the checks read through [r], the write is one
    transaction on the store, and a success notifies the decision cache.  The
    encryption of the secret is that of the configured secret store.  The
    records carry an identifier, so the repository assigns none. *)

Definition seal (encrypt : option (bytes -> option sealed_secret)) (raw : bytes) : option (option sealed_secret) :=
  match encrypt with
  | None => Some None
  | Some f => match f raw with Some x => Some (Some x) | None => None end
  end.

Definition Create (r : repositories) (st : store) (encrypt : option (bytes -> option sealed_secret)) (input : CreateTokenInput) (random1 random2 : bytes) (now : Z) :
    store * result CreatedToken cred_err * bool :=
  let owner := TrimSpace (ci_OwnerUserID input) in
  let agentID := TrimSpace (ci_AgentID input) in
  let nodeID := TrimSpace (ci_NodeID input) in
  match validateTokenBinding (ci_Type input) owner agentID nodeID with
  | Err e => (st, Err e, false)
  | Ok _ =>
      match NormalizeTokenScope (ci_Scope input) with
      | None => (st, Err ErrInvalidTokenScope, false)
      | Some scope =>
          if match ci_ExpiresAt input with Some e => e <=? now | None => false end then (st, Err ErrExpirationPast, false)
          else if negb (validateOwnerAndBinding r (ci_Type input) owner agentID) then (st, Err ErrUnauthenticated, false)
          else if negb (validateScopedAgents r (ci_Type input) owner agentID (ts_AgentIDs scope)) then (st, Err ErrInvalidTokenScope, false)
          else if negb (validateScopedServerNodes r (ci_Type input) (ts_ServerNodeIDs scope) now) then (st, Err ErrInvalidTokenScope, false)
          else
            let raw := randomToken random1 in
            match seal encrypt raw with
            | None => (st, Err ErrSecretStore, false)
            | Some sealed =>
                let record := mkToken (#"stok_" ++ take 22 (randomToken random2)) owner agentID nodeID (tokenPrefix raw) (hashToken raw) sealed None
                  (Marshal_scope scope) (ci_Type input) (ci_ExpiresAt input) None None now now in
                match tokens_Create st record [] with
                | (st', Err e) => (st', Err (ErrDatabase e), false)
                | (st', Ok _) => (st', Ok (createdToken record scope raw), true)
                end
            end
      end
  end.

Definition Rotate (r : repositories) (st : store) (encrypt : option (bytes -> option sealed_secret)) (id random1 random2 : bytes) (now : Z) :
    store * result CreatedToken cred_err * bool :=
  match r_tokens_Get r (TrimSpace id) with
  | None => (st, Err (ErrDatabase ErrNoRows), false)
  | Some record =>
      match identityAndScopeFromRecord r record now now with
      | None => (st, Err ErrUnauthenticated, false)
      | Some (identity, _) =>
          let raw := randomToken random1 in
          match seal encrypt raw with
          | None => (st, Err ErrSecretStore, false)
          | Some sealed =>
              let '(secret, read) := match encrypt with None => (tk_Secret record, tk_SecretLastReadAt record) | Some _ => (sealed, None) end in
              let replacement := mkToken (#"stok_" ++ take 22 (randomToken random2)) (tk_OwnerUserID record) (tk_AgentID record) (tk_NodeID record)
                (tokenPrefix raw) (hashToken raw) secret read (tk_Scope record) (tk_Type record) (tk_ExpiresAt record) None None now now in
              match tokens_Rotate st (tk_ID record) replacement now [] with
              | (st', Err e) => (st', Err (ErrDatabase e), false)
              | (st', Ok _) => (st', Ok (createdToken replacement (ti_Scope identity) raw), true)
              end
          end
      end
  end.

Definition Revoke (st : store) (id : bytes) (now : Z) : store * result unit cred_err * bool :=
  match tokens_Revoke st (TrimSpace id) now with
  | (st', Err e) => (st', Err (ErrDatabase e), false)
  | (st', Ok _) => (st', Ok tt, true)
  end.
End service.

(** ** Paging *)

(** Rows are stored under their primary key, which is not empty. *)
Record keyed (st : store) : Prop := {
  ky_tokens : forall id t, st_tokens st !! id = Some t -> tk_ID t = id /\ id <> [];
  ky_hash : forall id id' t t', st_tokens st !! id = Some t -> st_tokens st !! id' = Some t' -> tk_TokenHash t = tk_TokenHash t' -> id = id';
  ky_policies : forall id p, st_policies st !! id = Some p -> ap_ID p = id /\ id <> [];
}.

Lemma encodeCursor_inj a b : encodeCursor a = encodeCursor b -> a = b.
Proof.
  assert (forall s, s <> [] -> RawURLEncode s <> []) as Hn by (intros [|x [|y [|z s]]]; done).
  unfold encodeCursor. destruct (decide (a = [])) as [->|Ha], (decide (b = [])) as [->|Hb]; rewrite ?bool_decide_eq_true_2, ?bool_decide_eq_false_2 by done; try done.
  - intros E. symmetry in E. by apply Hn in E.
  - intros E. by apply Hn in E.
  - intros E. apply (f_equal RawURLDecode) in E. rewrite !RawURL_roundtrip in E. by injection E.
Qed.

Lemma decode_encodeCursor id : decodeCursor (encodeCursor id) = id.
Proof.
  unfold encodeCursor. case_bool_decide as Hx; [by subst|]. unfold decodeCursor. rewrite RawURL_roundtrip.
  rewrite bool_decide_eq_false_2; [done|]. by destruct id as [|x [|y [|z s]]].
Qed.

Lemma encodeCursor_nil id : encodeCursor id = [] <-> id = [].
Proof. split; [|by intros ->]. intros E. apply (encodeCursor_inj id []). by rewrite E. Qed.

(** Rows in strictly increasing order of their identifiers. *)
Inductive increasing : list AgentPolicy -> Prop :=
| increasing_nil : increasing []
| increasing_cons p l : (forall q, q ∈ l -> str_ltb (ap_ID p) (ap_ID q) = true) -> ap_ID p <> [] -> increasing l -> increasing (p :: l).

Lemma active_policies_increasing st agentID : keyed st -> increasing (active_policies st agentID).
Proof.
  intros Hk. unfold active_policies.
  assert (NoDup (ap_ID <$> (map_to_list (st_policies st)).*2)) as Hnd.
  { assert (ap_ID <$> (map_to_list (st_policies st)).*2 = (map_to_list (st_policies st)).*1) as ->; [|apply NoDup_fst_map_to_list].
    rewrite <- list_fmap_compose. apply list_fmap_ext. intros i [id p] Hi. cbn. apply (ky_policies _ Hk), elem_of_map_to_list. by eapply list_elem_of_lookup_2. }
  assert (forall p, p ∈ (map_to_list (st_policies st)).*2 -> ap_ID p <> []) as Hne.
  { intros p ([id q] & -> & Hin%elem_of_map_to_list)%list_elem_of_fmap. destruct (ky_policies _ Hk _ _ Hin) as [<- ?]. done. }
  set (l := (map_to_list (st_policies st)).*2) in *. set (f := fun p => _ && _).
  assert (NoDup (ap_ID <$> sort_by policy_less (List.filter f l))) as Hnd'.
  { rewrite sort_by_perm. clear Hne. induction l as [|x l IH]; [done|]. apply NoDup_cons in Hnd as [Hx Hnd]. cbn [List.filter]. destruct (f x); [|by apply IH].
    cbn. constructor; [|by apply IH]. intros (y & Ey & Hy)%list_elem_of_fmap. apply Hx, list_elem_of_fmap. exists y. split; [done|]. apply list_elem_of_In, filter_In in Hy as [Hy _]. by apply list_elem_of_In. }
  assert (forall p, p ∈ sort_by policy_less (List.filter f l) -> ap_ID p <> []) as Hne'.
  { intros p Hp. rewrite sort_by_perm in Hp. apply list_elem_of_In, filter_In in Hp as [Hp _]. by apply Hne, list_elem_of_In. }
  assert (StronglySorted (not_less policy_less) (sort_by policy_less (List.filter f l))) as Hs.
  { apply sort_by_sorted; unfold policy_less; [intros a b; apply str_ltb_asym|intros a b c; apply str_ltb_trans_false]. }
  induction Hs as [|p k Hs IH Hp]; [constructor|]. apply NoDup_cons in Hnd' as [Hx Hnd']. constructor; [|apply Hne'; by left|apply IH; [done|intros; apply Hne'; by right]].
  intros q Hq. rewrite Forall_forall in Hp. specialize (Hp q Hq). destruct (str_ltb (ap_ID p) (ap_ID q)) eqn:E; [done|]. exfalso. apply Hx.
  apply list_elem_of_fmap. exists q. split; [|done]. symmetry. apply str_ltb_trichotomy; [exact Hp|done].
Qed.

Lemma increasing_app_inv l k : increasing (l ++ k) -> increasing k.
Proof. induction l as [|x l IH]; [done|]. intros Hi. inversion_clear Hi. auto. Qed.

(** The rows after a row are those behind it. *)
Lemma increasing_after pre x post : increasing (pre ++ x :: post) -> List.filter (fun p => str_ltb (ap_ID x) (ap_ID p)) (pre ++ x :: post) = post.
Proof.
  induction pre as [|y pre IH]; cbn [app List.filter]; intros Hi; inversion_clear Hi as [|? ? Hlt Hne Hi'].
  - rewrite str_ltb_irrefl. clear Hi' Hne. induction post as [|z post IH]; [done|]. cbn [List.filter]. rewrite (Hlt z) by (by left). f_equal. apply IH. intros q Hq. apply Hlt. by right.
  - rewrite (str_ltb_asym (ap_ID y) (ap_ID x)) by (apply Hlt, elem_of_app; right; by left). by apply IH.
Qed.

Definition page_of (rows : list AgentPolicy) : Page AgentPolicy :=
  if bool_decide (100 < length rows)%nat then mkPage (take 100 rows) (encodeCursor (match last (take 100 rows) with Some p => ap_ID p | None => [] end)) true
  else mkPage rows [] false.

Lemma page_rows rows :
  (if bool_decide (100 < length (take 101 rows))%nat then
     mkPage (take 100 (take 101 rows)) (encodeCursor (match last (take 100 (take 101 rows)) with Some p => ap_ID p | None => [] end)) true
   else mkPage (take 101 rows) [] false) = page_of rows.
Proof.
  unfold page_of. rewrite length_take, take_take. replace (100 `min` 101)%nat with 100%nat by lia.
  destruct (decide (100 < length rows)%nat).
  - rewrite !bool_decide_eq_true_2 by lia. done.
  - rewrite !bool_decide_eq_false_2 by lia. by rewrite take_ge by lia.
Qed.

(** The first page, and the page behind the row a cursor names. *)
Lemma ListByAgent_first st agentID : policies_ListByAgent st agentID [] policyPageSize = page_of (active_policies st agentID).
Proof. apply page_rows. Qed.

Lemma ListByAgent_after st agentID pre x post : keyed st -> active_policies st agentID = pre ++ x :: post ->
  policies_ListByAgent st agentID (encodeCursor (ap_ID x)) policyPageSize = page_of post.
Proof.
  intros Hk E. pose proof (active_policies_increasing st agentID Hk) as Hi. rewrite E in Hi. unfold policies_ListByAgent. rewrite decode_encodeCursor.
  assert (ap_ID x <> []) as Hx by (apply increasing_app_inv in Hi; by inversion_clear Hi). cbv zeta.
  rewrite (bool_decide_eq_false_2 (ap_ID x = [])) by done. rewrite E, increasing_after by done. apply page_rows.
Qed.

Section paging.
Context `{GoUnicode}.

Lemma page_allows_app a b req ip m : page_allows (a ++ b) req ip m = m' ← page_allows a req ip m; page_allows b req ip m'.
Proof. revert m. induction a as [|p a IH]; intros m; [done|]. cbn. destruct (policyAllows p req ip); [cbn; apply IH|done]. Qed.

Lemma page_allows_spec items req ip m b : page_allows items req ip m = Some b <->
  (forall p, p ∈ items -> is_Some (policyAllows p req ip)) /\ b = m || existsb (fun p => bool_decide (policyAllows p req ip = Some true)) items.
Proof.
  revert m. induction items as [|p items IH]; intros m; cbn [page_allows existsb].
  - rewrite orb_false_r. split; [intros [= <-]; split; [by intros p Hp%not_elem_of_nil|done]|by intros [_ ->]].
  - destruct (policyAllows p req ip) as [a|] eqn:E; cbn [mbind option_bind].
    + rewrite IH. assert (bool_decide (Some a = Some true) = a) as -> by (by destruct a). rewrite orb_assoc. split; intros [Hs ->]; (split; [|done]).
      * intros q [->|Hq]%elem_of_cons; [by rewrite E|by apply Hs].
      * intros q Hq. apply Hs. by right.
    + split; [done|]. intros [Hs _]. destruct (Hs p ltac:(by left)) as [? ?]. congruence.
Qed.

(** The loop over pages visits every active row once, in order, and ends. *)
Lemma agentPolicyAllows_rest st req ip : keyed st -> forall n rest pre cursor m fuel,
  (length rest <= n)%nat -> (length rest < fuel)%nat -> active_policies st (sa_AgentID req) = pre ++ rest ->
  (pre = [] /\ cursor = [] \/ exists x, last pre = Some x /\ cursor = encodeCursor (ap_ID x)) ->
  agentPolicyAllows fuel (reads_of st) req ip cursor m = Some (page_allows rest req ip m).
Proof.
  intros Hk. induction n as [|n IH]; intros rest pre cursor m fuel Hn Hf E Hc; (destruct fuel as [|fuel]; [lia|]); cbn [agentPolicyAllows reads_of r_policies_ListByAgent].
  all: assert (policies_ListByAgent st (sa_AgentID req) cursor policyPageSize = page_of rest) as ->
    by (destruct Hc as [[-> ->]|(x & Hx & ->)]; [rewrite ListByAgent_first; by rewrite E|apply last_Some in Hx as [pre' ->]; apply (ListByAgent_after st _ pre' x rest Hk); by rewrite E, <- app_assoc]).
  all: unfold page_of; case_bool_decide as Hl; cbn [pg_Items pg_HasMore pg_NextCursor negb]; [|by destruct (page_allows rest req ip m)].
  { lia. }
  destruct (last (take 100 rest)) as [y|] eqn:Ey; [|apply last_None in Ey; apply (f_equal length) in Ey; rewrite length_take in Ey; cbn [length] in Ey; lia].
  apply last_Some in Ey as [l Ey]. pose proof (active_policies_increasing st (sa_AgentID req) Hk) as Hi. rewrite E in Hi.
  assert (rest = take 100 rest ++ drop 100 rest) as Er by (by rewrite take_drop). rewrite Er at 2. rewrite page_allows_app.
  destruct (page_allows (take 100 rest) req ip m) as [m'|]; [cbn [mbind option_bind]|done].
  assert (increasing (pre ++ l ++ y :: drop 100 rest)) as Hi'.
  { rewrite Er, Ey in Hi. rewrite <- app_assoc in Hi. exact Hi. }
  assert (ap_ID y <> []) as Hy by (rewrite app_assoc in Hi'; apply increasing_app_inv in Hi'; by inversion_clear Hi').
  rewrite bool_decide_eq_false_2 by (by rewrite encodeCursor_nil). cbn [orb].
  assert (seq_eqb (encodeCursor (ap_ID y)) cursor = false) as ->.
  { apply seq_eqb_neq. destruct Hc as [[_ ->]|(x & Hx & ->)]; [by rewrite encodeCursor_nil|]. intros Eq%encodeCursor_inj. apply last_Some in Hx as [pre' ->].
    rewrite <- app_assoc in Hi'. apply increasing_app_inv in Hi'. inversion_clear Hi' as [|? ? Hlt _ _].
    assert (y ∈ l ++ y :: drop 100 rest) as Hin by (apply elem_of_app; right; by left). apply Hlt in Hin. rewrite Eq, str_ltb_irrefl in Hin. done. }
  apply (IH (drop 100 rest) (pre ++ take 100 rest)); [rewrite length_drop; lia|rewrite length_drop; lia|by rewrite <- app_assoc, <- Er|].
  right. exists y. split; [|done]. rewrite Ey, app_assoc, last_snoc. done.
Qed.
End paging.

(** ** When a stream may be opened *)

Definition active_policy (st : store) (agentID : bytes) (p : AgentPolicy) : Prop :=
  (exists id, st_policies st !! id = Some p) /\ ap_AgentID p = agentID /\ ap_DeletedAt p = None.

Lemma elem_of_active_policies st agentID p : p ∈ active_policies st agentID <-> active_policy st agentID p.
Proof.
  unfold active_policies, active_policy. rewrite sort_by_perm. rewrite list_elem_of_In, filter_In, <- list_elem_of_In, andb_true_iff, seq_eqb_eq, bool_decide_eq_true.
  assert (p ∈ (map_to_list (st_policies st)).*2 <-> exists id, st_policies st !! id = Some p) as ->; [|done].
  rewrite list_elem_of_fmap. split.
  - intros ([id q] & -> & Hin%elem_of_map_to_list). by exists id.
  - intros [id Hid]. exists (id, p). split; [done|by apply elem_of_map_to_list].
Qed.

Section authorization.
Context `{GoUnicode}.

(** The token is a live client token of an active user. *)
Definition live_client (st : store) (id : TokenIdentity) (now : Z) (record : ServiceToken) : Prop :=
  st_tokens st !! ti_TokenID id = Some record /\ tk_Type record = TokenTypeClient /\ tk_OwnerUserID record = ti_OwnerUserID id /\ tk_OwnerUserID record <> [] /\
  tk_AgentID record = [] /\ tk_NodeID record = [] /\ tk_RevokedAt record = None /\ (forall e, tk_ExpiresAt record = Some e -> now < e) /\
  st_users st !! tk_OwnerUserID record = Some (mkUser false None).

(** The rules of the agent: every row is well formed and one admits. *)
Definition policies_admit (st : store) (req : StreamAuthorizationRequest) (ip : IP) : Prop :=
  (forall p, active_policy st (sa_AgentID req) p -> is_Some (policyAllows p req ip)) /\
  exists p, active_policy st (sa_AgentID req) p /\ policyAllows p req ip = Some true.

Definition may_open (st : store) (id : TokenIdentity) (req : StreamAuthorizationRequest) (now : Z) : Prop :=
  let req' := normal_request req in
  let ip := ParseIP (sa_TargetHost req') in
  ti_Type id = TokenTypeClient /\ within_request_limits req = true /\ request_valid req' = true /\
  exists record scope, live_client st id now record /\
    decodeTokenScope (tk_Scope record) = Some scope /\ is_Some (compileTokenScope scope) /\ scope_permits scope req' ip /\
    st_agents st !! sa_AgentID req' = Some (mkAgent (tk_OwnerUserID record) true) /\ policies_admit st req' ip.

Lemma user_active u : us_Disabled u || bool_decide (is_Some (us_DeletedAt u)) = false <-> u = mkUser false None.
Proof.
  destruct u as [[] [x|]]; cbn; by split.
Qed.

Lemma agent_owned_iff st agentID owner : agent_owned (reads_of st) agentID owner = true <-> st_agents st !! agentID = Some (mkAgent owner true).
Proof.
  unfold agent_owned. cbn. destruct (st_agents st !! agentID) as [[o e]|]; cbn; [|done]. rewrite andb_true_iff, seq_eqb_eq. split; [by intros [-> ->]|by intros [= -> ->]].
Qed.

Lemma client_binding record : tk_Type record = TokenTypeClient -> tk_OwnerUserID record <> [] ->
  validateTokenBinding (tk_Type record) (tk_OwnerUserID record) (tk_AgentID record) (tk_NodeID record) = Ok tt <-> tk_AgentID record = [] /\ tk_NodeID record = [].
Proof.
  intros -> Ho. unfold validateTokenBinding. change (validTokenType TokenTypeClient) with true. cbn [negb]. rewrite (bool_decide_eq_false_2 (_ = [])) by done.
  change (seq_eqb TokenTypeClient TokenTypeAgent) with false. change (seq_eqb TokenTypeClient TokenTypeClient) with true. cbv iota.
  destruct (decide (tk_AgentID record = [])), (decide (tk_NodeID record = [])); rewrite ?bool_decide_eq_true_2, ?bool_decide_eq_false_2 by done; cbn; split; (done || by intros []).
Qed.

Lemma token_live_iff record now : token_live record now = true <-> tk_RevokedAt record = None /\ forall e, tk_ExpiresAt record = Some e -> now < e.
Proof.
  unfold token_live. rewrite andb_true_iff, bool_decide_eq_true. destruct (tk_ExpiresAt record) as [e|]; [rewrite Z.ltb_lt; naive_solver|naive_solver].
Qed.

Lemma identity_iff st id record now later compiled cur : keyed st -> st_tokens st !! ti_TokenID id = Some record -> tk_Type record = TokenTypeClient ->
  tk_OwnerUserID record = ti_OwnerUserID id ->
  identityAndScopeFromRecord (reads_of st) record now later = Some (cur, compiled) <->
  live_client st id now record /\ (exists scope, decodeTokenScope (tk_Scope record) = Some scope /\ compileTokenScope scope = Some compiled) /\
  cur = mkIdentity (tk_ID record) (tk_OwnerUserID record) (tk_AgentID record) (tk_NodeID record) (ts_ServerNodeIDs (cs_scope compiled)) (tk_Prefix record) (tk_Type record) (cs_scope compiled).
Proof.
  intros Hk Ht Hty Ho. destruct (ky_tokens _ Hk _ _ Ht) as [Hid Hne]. unfold identityAndScopeFromRecord.
  assert (validTokenType (tk_Type record) = true) as -> by (by rewrite Hty). rewrite (bool_decide_eq_false_2 (tk_ID record = [])) by congruence. cbn [negb orb].
  unfold live_client. destruct (decide (tk_OwnerUserID record = [])) as [E|Hown]; [rewrite bool_decide_eq_true_2 by done; cbn [orb]; naive_solver|].
  rewrite (bool_decide_eq_false_2 (_ = [])) by done. cbn [orb]. destruct (token_live record now) eqn:El; cbn [negb].
  2:{ split; [done|]. intros [(_ & _ & _ & _ & _ & _ & Hr & He & _) _]. by rewrite (proj2 (token_live_iff record now) (conj Hr He)) in El. }
  apply token_live_iff in El as [Hr He]. pose proof (client_binding record Hty Hown) as Hb.
  destruct (validateTokenBinding _ _ _ _) as [[]|]; [|split; [done|]; intros [(_ & _ & _ & _ & Ha & Hn & _) _]; by pose proof (proj2 Hb (conj Ha Hn))].
  destruct (proj1 Hb eq_refl) as [Ha Hn]. unfold validateOwnerAndBinding. cbn [reads_of r_users_Get]. rewrite Hty. change (seq_eqb TokenTypeClient TokenTypeAgent) with false. cbv iota.
  destruct (st_users st !! tk_OwnerUserID record) as [u|] eqn:Eu; [|cbn; naive_solver]. destruct (us_Disabled u || _) eqn:Ea; cbn [negb].
  { split; [done|]. intros [(_ & _ & _ & _ & _ & _ & _ & _ & [= ->]) _]. done. }
  apply user_active in Ea as ->. unfold validateScopedServerNodes. change (seq_eqb TokenTypeClient TokenTypeServerNode) with false. cbn [negb orb].
  destruct (decodeTokenScope (tk_Scope record)) as [scope|]; cbn [mbind option_bind]; [|naive_solver]. destruct (compileTokenScope scope) as [c|] eqn:Ec; cbn [mbind option_bind]; [|naive_solver].
  split; [intros [= <- <-]; split_and!; [done..|by exists scope|done]|]. intros (_ & (sc & [= <-] & Ec') & ->). rewrite Ec in Ec'. by injection Ec' as ->.
Qed.

Lemma refused (P : Prop) : ~ P -> (exists r : result unit cred_err, Some (Err ErrForbidden) = Some r) /\ (Some (Err ErrForbidden) = Some (Ok tt : result unit cred_err) <-> P).
Proof. intros HP. split; [by eexists|by split]. Qed.

(** What is left to decide once the token's row and its scope are known. *)
Lemma owner_facts st id req ip now record scope (A B C : Prop) : st_tokens st !! ti_TokenID id = Some record -> decodeTokenScope (tk_Scope record) = Some scope ->
  (st_agents st !! sa_AgentID req = Some (mkAgent (tk_OwnerUserID record) true) -> scope_permits scope req ip -> policies_admit st req ip -> False) ->
  ~ (A /\ B /\ C /\ exists record scope, live_client st id now record /\ decodeTokenScope (tk_Scope record) = Some scope /\ is_Some (compileTokenScope scope) /\
      scope_permits scope req ip /\ st_agents st !! sa_AgentID req = Some (mkAgent (tk_OwnerUserID record) true) /\ policies_admit st req ip).
Proof.
  intros Et Hd HP (_ & _ & _ & r & sc & (Ht & _) & Hd' & _ & H1 & H2 & H3). rewrite Et in Ht. injection Ht as <-. rewrite Hd in Hd'. injection Hd' as <-. by apply HP.
Qed.

(** C5. A stream is authorized exactly when the stored facts say so: for every
    consistent store and enough fuel for its policy rows, the decision is made,
    and it is positive if and only if the identity is a live client token of
    an active user, the agent is enabled and belongs to that user, the token's
    scope lists the request, and of the agent's active policy rows, read page
    by page, all are well formed and one admits the request. *)
Theorem stream_authorized_iff st id req now later fuel :
  keyed st -> (length (active_policies st (sa_AgentID (normal_request req))) < fuel)%nat ->
  (exists r, AuthorizeStream fuel (reads_of st) id req now later = Some r) /\
  (AuthorizeStream fuel (reads_of st) id req now later = Some (Ok tt) <-> may_open st id req now).
Proof.
  intros Hk Hf. unfold AuthorizeStream, may_open. cbv zeta. set (req' := normal_request req) in *. set (ip := ParseIP (sa_TargetHost req')).
  pose proof refused as Hno.
  destruct (seq_eqb (ti_Type id) TokenTypeClient) eqn:Ety; [|rewrite orb_true_r; apply Hno; intros [Hty _]; by rewrite Hty in Ety]. apply seq_eqb_eq in Ety. rewrite orb_false_r.
  cbn [reads_of r_tokens_Get]. destruct (bool_decide (ti_TokenID id = [])) eqn:Eid.
  { apply bool_decide_eq_true in Eid. apply Hno. intros (_ & _ & _ & record & scope & (Ht & _) & _). rewrite Eid in Ht. by apply (ky_tokens _ Hk) in Ht as [_ ?]. }
  destruct (st_tokens st !! ti_TokenID id) as [record|] eqn:Et; [|apply Hno; intros (_ & _ & _ & r & sc & (Ht & _) & _); congruence].
  destruct (seq_eqb (tk_Type record) TokenTypeClient && seq_eqb (tk_OwnerUserID record) (ti_OwnerUserID id)) eqn:Eo; rewrite <- negb_andb, Eo; cbn [negb].
  2:{ apply Hno. intros (_ & _ & _ & r & sc & (Ht & Hty & Ho & _) & _). rewrite Et in Ht. injection Ht as <-. rewrite Hty, Ho, !seq_eqb_refl in Eo. done. }
  apply andb_prop in Eo as [Hty%seq_eqb_eq Ho%seq_eqb_eq].
  destruct (identityAndScopeFromRecord (reads_of st) record now later) as [[cur c]|] eqn:Ei.
  2:{ apply Hno. intros (_ & _ & _ & r & sc & Hl & Hd & [c Hc] & _). pose proof Hl as (Ht & _). rewrite Et in Ht. injection Ht as <-.
      by rewrite (proj2 (identity_iff st id record now later c _ Hk Et Hty Ho) (conj Hl (conj (ex_intro _ sc (conj Hd Hc)) eq_refl))) in Ei. }
  apply (identity_iff st id record now later c cur Hk Et Hty Ho) in Ei as (Hl & (scope & Hd & Hc) & ->). cbn [ti_OwnerUserID].
  destruct (within_request_limits req) eqn:E1; cbn [negb]; [|apply Hno; by intros (_ & ? & _)]. destruct (request_valid req') eqn:E2; cbn [negb]; [|apply Hno; by intros (_ & _ & ? & _)].
  pose proof (fun A B C => owner_facts st id req' ip now record scope A B C Et Hd) as Hel.
  destruct (agent_owned (reads_of st) (sa_AgentID req') (tk_OwnerUserID record)) eqn:E3; cbn [negb]; [|apply Hno, Hel; intros Ha; by rewrite (proj2 (agent_owned_iff _ _ _) Ha) in E3].
  destruct (scopeAllows c req' ip) eqn:E4; cbn [negb]; [|apply Hno, Hel; intros _ Hs; by rewrite (proj2 (scope_decides scope c req' ip Hc) Hs) in E4].
  rewrite (agentPolicyAllows_rest st req' ip Hk _ (active_policies st (sa_AgentID req')) [] [] false fuel (le_n _)); [|done|done|by left].
  destruct (page_allows (active_policies st (sa_AgentID req')) req' ip false) as [b|] eqn:Ep.
  2:{ apply Hno, Hel. intros _ _ [Hall _]. eassert (page_allows _ req' ip false = Some _) as Hp; [|by rewrite Ep in Hp].
      apply page_allows_spec. split; [|reflexivity]. intros p Hp. by apply Hall, elem_of_active_policies. }
  apply page_allows_spec in Ep as [Hall ->]. cbn [orb]. destruct (existsb _ _) eqn:Ex.
  - split; [by eexists|]. split; [|done]. intros _. apply agent_owned_iff in E3. apply (scope_decides scope c req' ip Hc) in E4. split_and!; [done..|].
    exists record, scope. split_and!; [done|done|by eexists|done|done|]. split; [intros p Hp; by apply Hall, elem_of_active_policies|].
    apply existsb_exists in Ex as (p & Hp%list_elem_of_In & Hp'%bool_decide_eq_true). exists p. split; [by apply elem_of_active_policies|done].
  - apply Hno, Hel. intros _ _ [_ (p & Hp & Hp')]. assert (existsb (fun p => bool_decide (policyAllows p req' ip = Some true)) (active_policies st (sa_AgentID req')) = true) as Hc'; [|congruence].
    apply existsb_exists. exists p. split; [by apply list_elem_of_In, elem_of_active_policies|by apply bool_decide_eq_true].
Qed.
End authorization.

(** ** Histories of the database *)

(** One repository call with its arguments, clock and random bytes. *)
Inductive db_op :=
| op_tokens_Create (v : ServiceToken) (random : bytes)
| op_tokens_Revoke (id : bytes) (when : Z)
| op_tokens_UpdateExpiration (id : bytes) (expires : option Z) (when now : Z)
| op_tokens_UpdateScope (id scope : bytes) (when now : Z)
| op_tokens_TouchLastUsed (id : bytes) (when : Z)
| op_tokens_MarkSecretRead (id : bytes) (when : Z)
| op_tokens_Rotate (oldID : bytes) (replacement : ServiceToken) (when : Z) (random : bytes)
| op_policies_Create (v : AgentPolicy) (random : bytes)
| op_policies_Update (v : AgentPolicy)
| op_policies_Delete (id : bytes) (now : Z)
| op_policies_Restore (id : bytes)
| op_agents_Create (id : bytes) (v : Agent) (random : bytes)
| op_agents_Update (id : bytes) (v : Agent)
| op_agents_Delete (id : bytes)
| op_users_Create (id : bytes) (v : User) (taken : bool) (random : bytes)
| op_users_Update (id : bytes) (v : User) (taken : bool)
| op_users_Delete (id : bytes)
| op_users_SoftDelete (id : bytes) (when : Z)
| op_users_Restore (id : bytes).

Definition run_op (op : db_op) (st : store) : store * result unit db_err :=
  match op with
  | op_tokens_Create v random => tokens_Create st v random
  | op_tokens_Revoke id when => tokens_Revoke st id when
  | op_tokens_UpdateExpiration id expires when now => tokens_UpdateExpiration st id expires when now
  | op_tokens_UpdateScope id scope when now => tokens_UpdateScope st id scope when now
  | op_tokens_TouchLastUsed id when => tokens_TouchLastUsed st id when
  | op_tokens_MarkSecretRead id when => tokens_MarkSecretRead st id when
  | op_tokens_Rotate oldID replacement when random => tokens_Rotate st oldID replacement when random
  | op_policies_Create v random => policies_Create st v random
  | op_policies_Update v => policies_Update st v
  | op_policies_Delete id now => policies_Delete st id now
  | op_policies_Restore id => policies_Restore st id
  | op_agents_Create id v random => agents_Create st id v random
  | op_agents_Update id v => agents_Update st id v
  | op_agents_Delete id => agents_Delete st id
  | op_users_Create id v taken random => users_Create st id v taken random
  | op_users_Update id v taken => users_Update st id v taken
  | op_users_Delete id => users_Delete st id
  | op_users_SoftDelete id when => users_SoftDelete st id when
  | op_users_Restore id => users_Restore st id
  end.

Definition run_ops (ops : list db_op) (st : store) : store := foldl (fun st op => (run_op op st).1) st ops.

Lemma stamp_nonempty id prefix random : stamp id prefix random <> [].
Proof. unfold stamp, newID. case_bool_decide; [|done]. by destruct prefix. Qed.

(** What a repository call does to the token table: nothing, a new row with a
    new hash, or a row replaced by one with the same identifier and hash that
    is not revived, after which a row may be added as well. *)
Inductive token_change (m m' : gmap bytes ServiceToken) : Prop :=
| tokens_kept : m' = m -> token_change m m'
| token_inserted v : tk_ID v <> [] -> m !! tk_ID v = None -> (forall id t, m !! id = Some t -> tk_TokenHash t <> tk_TokenHash v) ->
    m' = <[tk_ID v := v]> m -> token_change m m'
| token_replaced id t t' : m !! id = Some t -> tk_ID t' = tk_ID t -> tk_TokenHash t' = tk_TokenHash t -> (is_Some (tk_RevokedAt t) -> is_Some (tk_RevokedAt t')) ->
    m' = <[id := t']> m -> token_change m m'.

Lemma createServiceToken_change st v random st' : createServiceToken st v random = Ok st' ->
  token_change (st_tokens st) (st_tokens st') /\ st_policies st' = st_policies st.
Proof.
  unfold createServiceToken. cbv zeta. set (w := set_token_id _ _). destruct (_ || _) eqn:E; [done|]. intros [= <-]. split; [|done].
  apply orb_false_iff in E as [E1%bool_decide_eq_false E2%bool_decide_eq_false]. apply (token_inserted _ _ w); [apply stamp_nonempty|by apply eq_None_not_Some| |done].
  intros id t Ht Eh. apply E2. by exists id, t.
Qed.

Lemma set_revoked_change m id t when : m !! id = Some t -> token_change m (<[id := set_revoked t when]> m).
Proof. intros Ht. by apply (token_replaced _ _ id t (set_revoked t when)). Qed.

(** A committed transaction. *)
Lemma withRevision_cases {E} st (o : result store E) (P : store -> Prop) :
  P st -> (forall st', o = Ok st' -> P (mkStore (st_tokens st') (st_users st') (st_agents st') (st_nodes st') (st_policies st') (st_revision st + 1))) ->
  P (withAuthorizationRevision st o).1.
Proof. destruct o; cbn; auto. Qed.

Lemma update_token_change st id f : (forall t, tk_ID (f t) = tk_ID t /\ tk_TokenHash (f t) = tk_TokenHash t /\ tk_RevokedAt (f t) = tk_RevokedAt t) ->
  rtc token_change (st_tokens st) (st_tokens (update_token st id f).1).
Proof.
  intros Hf. unfold update_token. destruct (st_tokens st !! id) as [t|] eqn:Et; [|done]. apply rtc_once. destruct (Hf t) as (H1 & H2 & H3).
  apply (token_replaced _ _ id t (f t)); [done..|by rewrite H3|done].
Qed.

Lemma ensureActive_ok st id now t : ensureActiveServiceTokenForUpdate st id now = Ok t -> st_tokens st !! id = Some t /\ tk_RevokedAt t = None.
Proof.
  unfold ensureActiveServiceTokenForUpdate. destruct (st_tokens st !! id) as [t'|]; [|done]. case_bool_decide as Hr; [done|]. apply eq_None_not_Some in Hr.
  destruct (tk_ExpiresAt t') as [e|]; [destruct (e <=? now); [done|]|]; by intros [= <-].
Qed.

Lemma rotate_change st oldID v when random st' : rotateServiceToken st oldID v when random = Ok st' -> rtc token_change (st_tokens st) (st_tokens st') /\ st_policies st' = st_policies st.
Proof.
  unfold rotateServiceToken. destruct (st_tokens st !! oldID) as [t|] eqn:Et; [|done]. case_bool_decide; [done|]. cbn. destruct (createServiceToken st v random) as [st1|] eqn:Ec; [|done]. cbn [rbind].
  destruct (st_tokens st1 !! oldID) as [t1|] eqn:Et1; [|done]. case_bool_decide; [|done]. intros [= <-]. apply createServiceToken_change in Ec as [Hc Hp]. split; [|done].
  eapply rtc_l; [exact Hc|]. apply rtc_once. by apply set_revoked_change.
Qed.

(** The token table only moves by such changes. *)
Lemma run_op_tokens op st : rtc token_change (st_tokens st) (st_tokens (run_op op st).1).
Proof.
  assert (forall E (o : result store E), (forall st', o = Ok st' -> rtc token_change (st_tokens st) (st_tokens st')) -> rtc token_change (st_tokens st) (st_tokens (withAuthorizationRevision st o).1)) as Hw.
  { intros E o Ho. apply (withRevision_cases st o (fun s => rtc token_change (st_tokens st) (st_tokens s))); [done|exact Ho]. }
  destruct op; cbn [run_op].
  - apply Hw. intros st' [Hc _]%createServiceToken_change. by apply rtc_once.
  - apply Hw. intros st'. destruct (st_tokens st !! id) as [t|] eqn:Et; [|done]. destruct (tk_RevokedAt t); [done|]. intros [= <-]. by apply rtc_once, set_revoked_change.
  - apply Hw. intros st'. destruct (ensureActiveServiceTokenForUpdate st id now) as [t|] eqn:Et; [|done]. intros [= <-]. apply ensureActive_ok in Et as [Et Hr].
    apply rtc_once. by apply (token_replaced _ _ id t (set_expires t expires when)).
  - apply Hw. intros st'. destruct (ensureActiveServiceTokenForUpdate st id now) as [t|] eqn:Et; [|done]. intros [= <-]. apply ensureActive_ok in Et as [Et Hr].
    apply rtc_once. by apply (token_replaced _ _ id t (set_scope t scope when)).
  - by apply update_token_change.
  - by apply update_token_change.
  - apply Hw. intros st' [Hc _]%rotate_change. done.
  - apply Hw. intros st'. cbv zeta. destruct (bool_decide (is_Some _)); [done|]. by intros [= <-].
  - apply Hw. intros st'. destruct (st_policies st !! _); [|done]. case_bool_decide; [|done]. by intros [= <-].
  - apply Hw. intros st'. destruct (st_policies st !! _); [|done]. case_bool_decide; [|done]. by intros [= <-].
  - apply Hw. intros st'. destruct (st_policies st !! _); [|done]. case_bool_decide; [|done]. by intros [= <-].
  - apply Hw. intros st'. cbv zeta. destruct (bool_decide (is_Some _)); [done|]. by intros [= <-].
  - apply Hw. intros st'. case_bool_decide; [|done]. by intros [= <-].
  - apply Hw. intros st'. case_bool_decide; [|done]. by intros [= <-].
  - unfold users_Create. by destruct (_ || _).
  - apply Hw. intros st'. case_bool_decide; [|done]. destruct taken; [done|]. by intros [= <-].
  - apply Hw. intros st'. case_bool_decide; [|done]. by intros [= <-].
  - unfold users_SoftDelete. by destruct (st_users st !! id).
  - unfold users_Restore. by destruct (st_users st !! id).
Qed.

Definition tokens_keyed (m : gmap bytes ServiceToken) : Prop :=
  (forall id t, m !! id = Some t -> tk_ID t = id /\ id <> []) /\
  (forall id id' t t', m !! id = Some t -> m !! id' = Some t' -> tk_TokenHash t = tk_TokenHash t' -> id = id').

Definition policies_keyed (m : gmap bytes AgentPolicy) : Prop := forall id p, m !! id = Some p -> ap_ID p = id /\ id <> [].

Lemma keyed_split st : keyed st <-> tokens_keyed (st_tokens st) /\ policies_keyed (st_policies st).
Proof. split; [by intros []|intros [[] ?]; by constructor]. Qed.

Lemma token_change_keyed m m' : tokens_keyed m -> token_change m m' -> tokens_keyed m'.
Proof.
  intros [Hid Hh] [->|v Hne Hnew Hhash ->|id t t' Ht Hi Hth _ ->]; [done| |].
  - split.
    + intros id t [[<- <-]|[? Ht]]%lookup_insert_Some; [done|by apply Hid].
    + intros i j t t' [[<- <-]|[? Hi]]%lookup_insert_Some [[<- <-]|[? Hj]]%lookup_insert_Some E; [done|by apply Hhash in Hj|by apply Hhash in Hi|by eapply Hh].
  - split.
    + intros i u [[<- <-]|[? Hu]]%lookup_insert_Some; [rewrite Hi; by apply Hid|by apply Hid].
    + intros i j u u' [[<- <-]|[? Hu]]%lookup_insert_Some [[<- <-]|[? Hu']]%lookup_insert_Some E; [done|..|by eapply Hh].
      * eapply Hh; [exact Ht|done|congruence].
      * eapply Hh; [done|exact Ht|congruence].
Qed.

Lemma run_op_policies op st : policies_keyed (st_policies st) -> policies_keyed (st_policies (run_op op st).1).
Proof.
  intros Hk.
  assert (forall E (o : result store E), (forall st', o = Ok st' -> policies_keyed (st_policies st')) -> policies_keyed (st_policies (withAuthorizationRevision st o).1)) as Hw.
  { intros E o Ho. by apply (withRevision_cases st o (fun s => policies_keyed (st_policies s))). }
  assert (forall id cond f, (forall p, st_policies st !! id = Some p -> ap_ID (f p) = id) -> policies_keyed (st_policies (update_policy st id cond f).1)) as Hu.
  { intros id cond f Hf. apply Hw. intros st'. destruct (st_policies st !! id) as [p|] eqn:Ep; [|done]. destruct (cond p); [|done]. intros [= <-]. cbn [st_policies with_policies].
    intros i q [[<- <-]|[? Hq]]%lookup_insert_Some; [split; [by apply Hf|by eapply Hk]|by apply Hk]. }
  assert (forall v, ap_ID v <> [] -> policies_keyed (<[ap_ID v := v]> (st_policies st))) as Hi.
  { intros v Hv i q [[<- <-]|[? Hq]]%lookup_insert_Some; [done|by apply Hk]. }
  destruct op; cbn [run_op].
  - apply Hw. intros st' [_ Hp]%createServiceToken_change. by rewrite Hp.
  - apply Hw. intros st'. destruct (st_tokens st !! id) as [t|]; [|done]. destruct (tk_RevokedAt t); [done|]. by intros [= <-].
  - apply Hw. intros st'. destruct (ensureActiveServiceTokenForUpdate st id now) as [t|]; [|done]. by intros [= <-].
  - apply Hw. intros st'. destruct (ensureActiveServiceTokenForUpdate st id now) as [t|]; [|done]. by intros [= <-].
  - unfold tokens_TouchLastUsed, update_token. by destruct (st_tokens st !! id).
  - unfold tokens_MarkSecretRead, update_token. by destruct (st_tokens st !! id).
  - apply Hw. intros st' [_ Hp]%rotate_change. by rewrite Hp.
  - apply Hw. intros st'. cbv zeta. destruct (bool_decide (is_Some _)); [done|]. intros [= <-]. apply Hi, stamp_nonempty.
  - apply Hu. done.
  - apply Hu. intros p Hp. by destruct (Hk _ _ Hp).
  - apply Hu. intros p Hp. by destruct (Hk _ _ Hp).
  - apply Hw. intros st'. cbv zeta. destruct (bool_decide (is_Some _)); [done|]. by intros [= <-].
  - apply Hw. intros st'. case_bool_decide; [|done]. by intros [= <-].
  - apply Hw. intros st'. case_bool_decide; [|done]. by intros [= <-].
  - unfold users_Create. by destruct (_ || _).
  - apply Hw. intros st'. case_bool_decide; [|done]. destruct taken; [done|]. by intros [= <-].
  - apply Hw. intros st'. case_bool_decide; [|done]. by intros [= <-].
  - unfold users_SoftDelete. by destruct (st_users st !! id).
  - unfold users_Restore. by destruct (st_users st !! id).
Qed.

(** Every repository call keeps the tables consistent. *)
Lemma run_op_keyed op st : keyed st -> keyed (run_op op st).1.
Proof.
  intros [Ht Hp]%keyed_split. apply keyed_split. split; [|by apply run_op_policies].
  pose proof (run_op_tokens op st) as Hr. revert Ht. induction Hr as [|m m1 m2 Hc _ IH]; [done|]. intros Hm. by apply IH, (token_change_keyed m).
Qed.

Lemma run_ops_keyed ops st : keyed st -> keyed (run_ops ops st).
Proof. revert st. induction ops as [|op ops IH]; intros st Hk; [done|]. cbn. by apply IH, run_op_keyed. Qed.

(** The row [id] holds the hash [h] and is revoked. *)
Definition dead_row (id h : bytes) (m : gmap bytes ServiceToken) : Prop := exists t, m !! id = Some t /\ tk_TokenHash t = h /\ is_Some (tk_RevokedAt t).

Lemma dead_row_change id h m m' : dead_row id h m -> token_change m m' -> dead_row id h m'.
Proof.
  intros (t & Ht & Hh & Hr) [->|v _ Hnew _ ->|i u u' Hu _ Huh Hrev ->]; [by exists t| |].
  - exists t. split; [|done]. rewrite lookup_insert_ne; [done|]. intros <-. congruence.
  - destruct (decide (i = id)) as [->|Hn]; [|exists t; by rewrite lookup_insert_ne by done].
    rewrite Ht in Hu. injection Hu as <-. exists u'. rewrite lookup_insert_eq. split_and!; [done|congruence|by apply Hrev].
Qed.

Lemma run_ops_dead id h ops st : dead_row id h (st_tokens st) -> dead_row id h (st_tokens (run_ops ops st)).
Proof.
  revert st. induction ops as [|op ops IH]; intros st Hd; [done|]. cbn. apply IH. pose proof (run_op_tokens op st) as Hr.
  revert Hd. induction Hr as [|m m1 m2 Hc _ IH']; [done|]. intros Hm. by apply IH', (dead_row_change id h m).
Qed.

(** The unique index makes the lookup by hash a function of the row. *)
Lemma GetByHash_iff st h t : keyed st -> tokens_GetByHash st h = Some t <-> (exists id, st_tokens st !! id = Some t) /\ tk_TokenHash t = h.
Proof.
  intros Hk. unfold tokens_GetByHash. set (m := filter _ _).
  assert (forall id u, m !! id = Some u <-> st_tokens st !! id = Some u /\ tk_TokenHash u = h) as Hm by (intros; apply map_lookup_filter_Some).
  destruct (map_to_list m) as [|[i u] l] eqn:El; cbn.
  - split; [done|]. intros [[id Hid] Hh]. assert (m !! id = Some t) as Hin by (by apply Hm). apply map_to_list_empty_iff in El. rewrite El in Hin. done.
  - assert (m !! i = Some u) as Hi by (apply elem_of_map_to_list; rewrite El; by left). apply Hm in Hi as [Hi Hu]. split.
    + intros [= <-]. split; [by exists i|done].
    + intros [[id Hid] Hh]. assert (id = i) as -> by (eapply (ky_hash _ Hk); [done..|congruence]). congruence.
Qed.

Section lifecycle.
Context `{GoUnicode}.

Lemma revoked_no_identity r record now later : is_Some (tk_RevokedAt record) -> identityAndScopeFromRecord r record now later = None.
Proof.
  intros Hr. unfold identityAndScopeFromRecord. assert (token_live record now = false) as ->; [|by rewrite orb_true_r].
  unfold token_live. rewrite bool_decide_eq_false_2; [done|]. by destruct Hr as [? ->].
Qed.

(** A dead row authenticates nobody and authorizes nothing. *)
Lemma dead_refused id h st : keyed st -> dead_row id h (st_tokens st) ->
  (forall raw expected now later, hashToken raw = h -> ValidateAs (reads_of st) raw expected now later = Err ErrUnauthenticated) /\
  (forall fuel identity req now later, ti_TokenID identity = id -> AuthorizeStream fuel (reads_of st) identity req now later = Some (Err ErrForbidden)).
Proof.
  intros Hk (t & Ht & Hh & Hr). split.
  - intros raw expected now later E. unfold ValidateAs. destruct (_ || _); [done|]. cbn [reads_of r_tokens_GetByHash].
    rewrite (proj2 (GetByHash_iff st _ t Hk)) by (split; [by exists id|congruence]). destruct (negb _); [done|]. by rewrite revoked_no_identity.
  - intros fuel identity req now later <-. unfold AuthorizeStream. destruct (_ || _); [done|]. cbn [reads_of r_tokens_Get]. rewrite Ht. destruct (_ || _); [done|].
    by rewrite revoked_no_identity.
Qed.

(** C13. A revocation that succeeds is final: from then on, whatever repository calls
    follow, the secret of that token is not accepted and no stream is
    authorized for its identity. *)
Theorem revocation_final st id now st' note t ops :
  keyed st -> Revoke st id now = (st', Ok tt, note) -> st_tokens st !! TrimSpace id = Some t ->
  note = true /\
  (forall raw expected now' later, hashToken raw = tk_TokenHash t ->
     ValidateAs (reads_of (run_ops ops st')) raw expected now' later = Err ErrUnauthenticated) /\
  (forall fuel identity req now' later, ti_TokenID identity = TrimSpace id ->
     AuthorizeStream fuel (reads_of (run_ops ops st')) identity req now' later = Some (Err ErrForbidden)).
Proof.
  intros Hk E Ht. unfold Revoke in E. destruct (tokens_Revoke st (TrimSpace id) now) as [st1 [[]|]] eqn:Er; [|done]. injection E as <- <-.
  assert (keyed st1) as Hk1 by (change st1 with (st1, @Ok unit db_err tt).1; rewrite <- Er; apply (run_op_keyed (op_tokens_Revoke (TrimSpace id) now)), Hk).
  split; [done|]. apply (dead_refused (TrimSpace id) (tk_TokenHash t)); [by apply run_ops_keyed|]. apply run_ops_dead.
  unfold tokens_Revoke in Er. rewrite Ht in Er. destruct (tk_RevokedAt t); [done|]. injection Er as <-. exists (set_revoked t now). cbn. by rewrite lookup_insert_eq.
Qed.

Lemma RawURLEncode_plain s : Forall (fun c => is_ascii_byte c = true /\ is_space c = false) (RawURLEncode s).
Proof.
  apply RawURLEncode_chars. intros v Hv. assert (is_ascii_byte (url_char v) && negb (is_space (url_char v)) = true) as [? ?%negb_true_iff]%andb_prop; [|done].
  by apply (url_char_all (fun c => is_ascii_byte c && negb (is_space c))).
Qed.

(** The identity of a record, carried over to its replacement. *)
Definition renamed (id : TokenIdentity) (tokenID prefix : bytes) : TokenIdentity :=
  mkIdentity tokenID (ti_OwnerUserID id) (ti_AgentID id) (ti_NodeID id) (ti_ServerNodeIDs id) prefix (ti_Type id) (ti_Scope id).

Lemma replacement_identity r r' t u now later cur c :
  r_users_Get r' = r_users_Get r -> r_agents_Get r' = r_agents_Get r -> r_nodes_Get r' = r_nodes_Get r ->
  tk_ID u <> [] -> tk_OwnerUserID u = tk_OwnerUserID t -> tk_AgentID u = tk_AgentID t -> tk_NodeID u = tk_NodeID t -> tk_Scope u = tk_Scope t -> tk_Type u = tk_Type t ->
  tk_ExpiresAt u = tk_ExpiresAt t -> tk_RevokedAt u = None ->
  identityAndScopeFromRecord r t now later = Some (cur, c) -> identityAndScopeFromRecord r' u now later = Some (renamed cur (tk_ID u) (tk_Prefix u), c).
Proof.
  intros Eu Ea En Hid Ho Hag Hno Hs Hty He Hr. unfold identityAndScopeFromRecord. rewrite Ho, Hag, Hno, Hs, Hty, (bool_decide_eq_false_2 (tk_ID u = [])) by done.
  assert (forall a b d, validateOwnerAndBinding r' a b d = validateOwnerAndBinding r a b d) as -> by (intros; unfold validateOwnerAndBinding, agent_owned; by rewrite Eu, Ea).
  destruct (negb (validTokenType (tk_Type t))) eqn:E1; [done|]. destruct (bool_decide (tk_ID t = [])); [done|]. destruct (bool_decide (tk_OwnerUserID t = [])); [done|]. cbn [orb].
  destruct (token_live t now) eqn:El; [|done]. assert (token_live u now = true) as ->; [|cbn [negb]].
  { apply token_live_iff in El as [_ El]. apply token_live_iff. by rewrite He. }
  destruct (validateTokenBinding _ _ _ _); [|done]. destruct (negb (validateOwnerAndBinding _ _ _ _)); [done|]. destruct (decodeTokenScope _) as [scope|]; cbn [mbind option_bind]; [|done].
  destruct (compileTokenScope scope) as [c'|]; cbn [mbind option_bind]; [|done].
  unfold validateScopedServerNodes. rewrite En. destruct (negb (_ || _)); [done|]. by intros [= <- <-].
Qed.

(** What a successful rotation leaves in the table. *)
Lemma rotate_rows st oldID v when random st' t : rotateServiceToken st oldID v when random = Ok st' -> st_tokens st !! oldID = Some t -> tk_ID v <> [] ->
  st' = with_tokens st (<[oldID := set_revoked t when]> (<[tk_ID v := v]> (st_tokens st))) /\ tk_ID v <> oldID.
Proof.
  intros E Ht Hv. unfold rotateServiceToken in E. rewrite Ht in E. case_bool_decide; [done|]. unfold createServiceToken, stamp in E. cbv zeta in E.
  rewrite (bool_decide_eq_false_2 (tk_ID v = [])) in E by done. assert (set_token_id v (tk_ID v) = v) as Ev by (by destruct v). rewrite Ev in E.
  destruct (_ || _) eqn:Ex; [done|]. cbn [rbind] in E. apply orb_false_iff in Ex as [Ex%bool_decide_eq_false _].
  assert (tk_ID v <> oldID) as Hne by (intros Heq; apply Ex; rewrite Heq; by eexists). cbn [st_tokens with_tokens] in E. rewrite lookup_insert_ne, Ht in E by done.
  case_bool_decide; [|done]. injection E as <-. done.
Qed.

(** A rotation moves a token's rights to a new secret: the new secret is
    accepted for the same owner, binding, type and scope, and the old secret and
    identity are refused, whatever repository calls follow. *)
Theorem rotation_transfers st encrypt id random1 random2 now st' created note :
  keyed st -> length random1 = 32%nat -> Rotate (reads_of st) st encrypt id random1 random2 now = (st', Ok created, note) ->
  exists old cur c newID prefix, st_tokens st !! TrimSpace id = Some old /\ identityAndScopeFromRecord (reads_of st) old now now = Some (cur, c) /\
    ValidateAs (reads_of st') (ct_Secret created) (tk_Type old) now now = Ok (renamed cur newID prefix, newID) /\
    forall ops, (forall raw expected now' later, hashToken raw = tk_TokenHash old -> ValidateAs (reads_of (run_ops ops st')) raw expected now' later = Err ErrUnauthenticated) /\
      (forall fuel identity req now' later, ti_TokenID identity = TrimSpace id -> AuthorizeStream fuel (reads_of (run_ops ops st')) identity req now' later = Some (Err ErrForbidden)).
Proof.
  intros Hk Hl E. unfold Rotate in E. cbn [reads_of r_tokens_Get] in E. destruct (st_tokens st !! TrimSpace id) as [old|] eqn:Et; [|done].
  destruct (identityAndScopeFromRecord (reads_of st) old now now) as [[cur c]|] eqn:Ei; [|done]. destruct (seal encrypt (randomToken random1)) as [sealed|]; [|done].
  destruct (match encrypt with None => _ | Some _ => _ end) as [secret read]. cbv zeta in E. set (u := mkToken _ _ _ _ _ _ _ _ _ _ _ _ _ _ _) in E.
  pose proof (run_op_keyed (op_tokens_Rotate (tk_ID old) u now []) st Hk) as Hk'. cbn [run_op] in Hk'.
  destruct (tokens_Rotate st (tk_ID old) u now []) as [st1 [[]|]] eqn:Er; [|done]. injection E as <- <- <-. cbn [fst] in Hk'.
  destruct (ky_tokens _ Hk _ _ Et) as [Hid _]. rewrite Hid in Er. unfold tokens_Rotate in Er. destruct (rotateServiceToken st (TrimSpace id) u now []) as [st2|] eqn:Erow; [|done].
  apply (rotate_rows _ _ _ _ _ _ old) in Erow as [-> Hne]; [|done|done]. injection Er as <-. set (st1 := mkStore _ _ _ _ _ _) in *.
  exists old, cur, c, (tk_ID u), (tk_Prefix u). split_and!; [done|done| |].
  - unfold ValidateAs. cbn [ct_Secret createdToken]. unfold randomToken. rewrite TrimSpace_Forall by apply RawURLEncode_plain.
    rewrite bool_decide_eq_false_2 by (by destruct random1 as [|? [|? [|? ?]]]). assert (validTokenType (tk_Type old) = true) as ->; [|cbn [negb orb]].
    { unfold identityAndScopeFromRecord in Ei. by destruct (validTokenType (tk_Type old)). }
    cbn [reads_of r_tokens_GetByHash]. rewrite (proj2 (GetByHash_iff st1 _ u Hk')); [|split; [exists (tk_ID u); subst st1; cbn; by rewrite lookup_insert_ne, lookup_insert_eq|done]].
    cbn [tk_Type u]. rewrite seq_eqb_refl. cbn [negb]. by rewrite (replacement_identity (reads_of st) _ old u now now cur c).
  - intros ops. apply (dead_refused (TrimSpace id) (tk_TokenHash old)); [by apply run_ops_keyed|]. apply run_ops_dead. exists (set_revoked old now). subst st1. cbn. by rewrite lookup_insert_eq.
Qed.
End lifecycle.

(** ** The authorization revision *)

(** The columns of a token that a decision can depend on. *)
Definition rights (t : ServiceToken) : ServiceToken :=
  mkToken (tk_ID t) (tk_OwnerUserID t) (tk_AgentID t) (tk_NodeID t) (tk_Prefix t) (tk_TokenHash t) None None (tk_Scope t) (tk_Type t) (tk_ExpiresAt t) (tk_RevokedAt t) None 0 0.

(** Two states with the same rights: they differ in bookkeeping columns only. *)
Definition same_rights (st st' : store) : Prop := exists m, st' = with_tokens st m /\ rights <$> m = rights <$> st_tokens st.

#[global] Instance same_rights_preorder : PreOrder same_rights.
Proof.
  split.
  - intros st. exists (st_tokens st). by destruct st.
  - intros a b c (m & -> & Hm) (m' & -> & Hm'). exists m'. split; [done|]. cbn in Hm'. congruence.
Qed.

(** Calls on accounts that do not take part in the revision. *)
Definition account_lifecycle (op : db_op) : bool :=
  match op with op_users_Create _ _ _ _ | op_users_SoftDelete _ _ | op_users_Restore _ => true | _ => false end.

Lemma withRevision_revision {E} st (o : result store E) : st_revision st <= st_revision (withAuthorizationRevision st o).1 /\
  (st_revision (withAuthorizationRevision st o).1 = st_revision st -> (withAuthorizationRevision st o).1 = st).
Proof. destruct o; cbn; split; try lia; done. Qed.

Lemma update_token_revision st id f : (forall t, rights (f t) = rights t) -> st_revision (update_token st id f).1 = st_revision st /\ same_rights st (update_token st id f).1.
Proof.
  intros Hf. unfold update_token. destruct (st_tokens st !! id) as [t|] eqn:Et; cbn; split; try done. eexists. split; [done|].
  rewrite fmap_insert, Hf, <- fmap_insert. by rewrite insert_id.
Qed.

Lemma run_op_revision op st : st_revision st <= st_revision (run_op op st).1 /\
  (account_lifecycle op = false -> st_revision (run_op op st).1 = st_revision st -> same_rights st (run_op op st).1).
Proof.
  assert (forall E (o : result store E) (P : Prop), st_revision st <= st_revision (withAuthorizationRevision st o).1 /\
    (P -> st_revision (withAuthorizationRevision st o).1 = st_revision st -> same_rights st (withAuthorizationRevision st o).1)) as Hw.
  { intros E o P. destruct (withRevision_revision st o) as [Hle Heq]. split; [done|]. intros _ ->%Heq. done. }
  destruct op; cbn [run_op]; try apply Hw; try (split; [|done]).
  - destruct (update_token_revision st id (fun t => set_last_used t when)) as [Hr Hs]; [done|]. unfold tokens_TouchLastUsed. rewrite Hr. split; [lia|done].
  - destruct (update_token_revision st id (fun t => set_secret_read t when)) as [Hr Hs]; [done|]. unfold tokens_MarkSecretRead. rewrite Hr. split; [lia|done].
  - unfold users_Create. destruct (_ || _); cbn; lia.
  - unfold users_SoftDelete. destruct (st_users st !! id); cbn; lia.
  - unfold users_Restore. destruct (st_users st !! id); cbn; lia.
Qed.

Lemma run_ops_revision ops st : st_revision st <= st_revision (run_ops ops st) /\
  (Forall (fun op => account_lifecycle op = false) ops -> st_revision (run_ops ops st) = st_revision st -> same_rights st (run_ops ops st)).
Proof.
  revert st. induction ops as [|op ops IH]; intros st; [split; [done|done]|]. change (run_ops (op :: ops) st) with (run_ops ops (run_op op st).1). destruct (run_op_revision op st) as [Hle Hop], (IH (run_op op st).1) as [Hle' Hops].
  split; [lia|]. intros [Ho Hos]%Forall_cons Heq. etrans; [apply Hop; [done|lia]|apply Hops; [done|lia]].
Qed.

Section revision.
Context `{GoUnicode}.

Lemma agentPolicyAllows_ext r r' fuel req ip cursor m : r_policies_ListByAgent r' = r_policies_ListByAgent r ->
  agentPolicyAllows fuel r' req ip cursor m = agentPolicyAllows fuel r req ip cursor m.
Proof.
  intros E. revert cursor m. induction fuel as [|fuel IH]; intros cursor m; [done|]. cbn [agentPolicyAllows]. rewrite E.
  destruct (r_policies_ListByAgent r _ _ _) as [page|]; [|done]. destruct (page_allows _ _ _ _); [|done]. destruct (negb _); [done|]. destruct (_ || _); [done|]. apply IH.
Qed.

Lemma rights_lookup (m m' : gmap bytes ServiceToken) id : rights <$> m' = rights <$> m -> rights <$> m' !! id = rights <$> m !! id.
Proof. intros E. rewrite <- !lookup_fmap. by rewrite E. Qed.

Lemma identity_rights (r r' : repositories) t t' now later : rights t' = rights t ->
  r_users_Get r' = r_users_Get r -> r_agents_Get r' = r_agents_Get r -> r_nodes_Get r' = r_nodes_Get r ->
  identityAndScopeFromRecord r' t' now later = identityAndScopeFromRecord r t now later.
Proof.
  intros Er Eu Ea En. change (identityAndScopeFromRecord r' t' now later) with (identityAndScopeFromRecord r' (rights t') now later).
  change (identityAndScopeFromRecord r t now later) with (identityAndScopeFromRecord r (rights t) now later). rewrite Er.
  unfold identityAndScopeFromRecord, validateOwnerAndBinding, validateScopedServerNodes, agent_owned. by rewrite Eu, Ea, En.
Qed.

Lemma same_rights_decide st st' : keyed st -> keyed st' -> same_rights st st' ->
  (forall fuel id req now later, AuthorizeStream fuel (reads_of st') id req now later = AuthorizeStream fuel (reads_of st) id req now later) /\
  (forall raw expected now later, ValidateAs (reads_of st') raw expected now later = ValidateAs (reads_of st) raw expected now later).
Proof.
  intros Hk Hk' (m & -> & Hm). split.
  - intros fuel id req now later. unfold AuthorizeStream. destruct (_ || _); [done|]. cbn [reads_of r_tokens_Get st_tokens with_tokens].
    pose proof (rights_lookup _ _ (ti_TokenID id) Hm) as Hl. destruct (m !! ti_TokenID id) as [t'|], (st_tokens st !! ti_TokenID id) as [t|]; cbn in Hl; try done. injection Hl as Hl0.
    assert (rights t' = rights t) as Hl by (unfold rights; congruence). clear Hl0.
    assert (tk_Type t' = tk_Type t /\ tk_OwnerUserID t' = tk_OwnerUserID t) as [-> ->] by (injection Hl; done). destruct (_ || _); [done|].
    rewrite (identity_rights (reads_of st) (reads_of (with_tokens st m)) t t') by done. destruct (identityAndScopeFromRecord _ _ _ _) as [[cur c]|]; [|done].
    destruct (negb _); [done|]. cbv zeta. by rewrite (agentPolicyAllows_ext (reads_of st) (reads_of (with_tokens st m))).
  - intros raw expected now later. unfold ValidateAs. destruct (_ || _); [done|]. cbn [reads_of r_tokens_GetByHash].
    assert (rights <$> tokens_GetByHash (with_tokens st m) (hashToken raw) = (rights <$> tokens_GetByHash st (hashToken raw) : option ServiceToken)) as Hg.
    { apply option_eq. intros u. rewrite !fmap_Some. setoid_rewrite GetByHash_iff; [|done..]. cbn [st_tokens with_tokens]. split; intros (t & [[id Ht] Hh] & ->).
      - pose proof (rights_lookup _ _ id Hm) as Hl. rewrite Ht in Hl. symmetry in Hl. apply fmap_Some in Hl as (t' & Ht' & E). exists t'. split; [split; [by exists id|injection E; congruence]|done].
      - pose proof (rights_lookup _ _ id Hm) as Hl. rewrite Ht in Hl. apply fmap_Some in Hl as (t' & Ht' & E). exists t'. split; [split; [by exists id|injection E; congruence]|done]. }
    destruct (tokens_GetByHash (with_tokens st m) _) as [t'|], (tokens_GetByHash st _) as [t|]; cbn in Hg; try done. injection Hg as Hg0.
    assert (rights t' = rights t) as Hg by (unfold rights; congruence). clear Hg0.
    assert (tk_Type t' = tk_Type t /\ tk_ID t' = tk_ID t) as [-> ->] by (injection Hg; done). destruct (negb _); [done|].
    by rewrite (identity_rights (reads_of st) (reads_of (with_tokens st m)) t t').
Qed.


(** An owner that is no active user identifies nobody. *)
Lemma inactive_owner r record now later :
  (forall u, r_users_Get r (tk_OwnerUserID record) = Some u -> us_Disabled u = true) -> identityAndScopeFromRecord r record now later = None.
Proof.
  intros Hu. unfold identityAndScopeFromRecord. destruct (_ || _); [done|]. destruct (validateTokenBinding _ _ _ _); [|done].
  unfold validateOwnerAndBinding. destruct (r_users_Get r (tk_OwnerUserID record)) as [u|]; [|done]. by rewrite (Hu u).
Qed.

(** C32. Soft deletion of an account is outside that guard: after the owner of an
    authorized identity is deleted, the stream is refused, and the revision does
    not tell. *)
Theorem soft_delete_keeps_revision st id req now when fuel later :
  AuthorizeStream fuel (reads_of st) id req now later = Some (Ok tt) ->
  st_revision (users_SoftDelete st (ti_OwnerUserID id) when).1 = st_revision st /\
  AuthorizeStream fuel (reads_of (users_SoftDelete st (ti_OwnerUserID id) when).1) id req now later = Some (Err ErrForbidden).
Proof.
  intros Hok. unfold users_SoftDelete. split; [by destruct (st_users st !! ti_OwnerUserID id)|]. revert Hok. unfold AuthorizeStream. destruct (_ || _); [done|].
  assert (forall t, tk_OwnerUserID t = ti_OwnerUserID id -> st_users st !! ti_OwnerUserID id = None -> identityAndScopeFromRecord (reads_of st) t now later = None) as Hn.
  { intros t Ho Hu. apply inactive_owner. intros u. cbn. rewrite Ho, Hu. done. }
  cbn [reads_of r_tokens_Get]. destruct (st_tokens st !! ti_TokenID id) as [t|] eqn:Et; [|done].
  destruct (negb (seq_eqb (tk_Type t) TokenTypeClient)) eqn:E1; [done|]. destruct (seq_eqb (tk_OwnerUserID t) (ti_OwnerUserID id)) eqn:E2; [|done]. cbn [negb orb]. apply seq_eqb_eq in E2.
  destruct (st_users st !! ti_OwnerUserID id) as [u|] eqn:Eu; [|by rewrite (Hn t E2 eq_refl)]. intros _. cbn [fst st_tokens with_users]. rewrite Et, E1, E2, seq_eqb_refl. cbn [negb orb].
  rewrite inactive_owner; [done|]. intros v. cbn. rewrite E2, lookup_insert_eq. by intros [= <-].
Qed.
End revision.

(** ** A concrete database *)

Definition sample_secret : bytes := #"c2VjcmV0".
Definition sample_token : ServiceToken :=
  mkToken #"stok_1" #"u" [] [] #"pref" (hashToken sample_secret) None None #"{}" TokenTypeClient (Some 1000) None None 0 0.
Definition sample_store : store :=
  mkStore {[ #"stok_1" := sample_token ]} {[ #"u" := mkUser false None ]} {[ #"a1" := mkAgent #"u" true ]} ∅
    {[ #"p1" := mkPolicy #"p1" #"a1" #"db.example" 5432 #"tcp" #"[]" #"[]" None; #"p2" := mkPolicy #"p2" #"a1" #"*" 22 #"tcp" #"[]" #"[]" None ]} 7.
Definition sample_identity : TokenIdentity := mkIdentity #"stok_1" #"u" [] [] [] #"pref" TokenTypeClient (mkScope [] [] [] [] []).
Definition sample_request : StreamAuthorizationRequest := mkAuthRequest #"a1" #"TCP" #"db.example" 5432.

Lemma sample_keyed : keyed sample_store.
Proof.
  apply keyed_split. unfold sample_store. cbn [st_tokens st_policies]. split; [split|].
  - intros id t [<- <-]%lookup_singleton_Some. split; [reflexivity|discriminate].
  - intros i j t u [<- _]%lookup_singleton_Some [<- _]%lookup_singleton_Some _. reflexivity.
  - intros id p [[<- <-]|[_ [<- <-]%lookup_singleton_Some]]%lookup_insert_Some; (split; [reflexivity|discriminate]).
Qed.

Lemma stream_authorized_iff_witness :
  length (active_policies sample_store #"a1") = 2%nat /\ @may_open ascii_unicode sample_store sample_identity sample_request 999.
Proof.
  split; [by vm_compute|].
  apply (@stream_authorized_iff ascii_unicode sample_store sample_identity sample_request 999 0 3%nat); [apply sample_keyed|apply Nat.ltb_lt; by vm_compute|by vm_compute].
Defined.

Lemma revocation_final_witness :
  @ValidateAs ascii_unicode (reads_of sample_store) sample_secret TokenTypeClient 10 10 = Ok (sample_identity, #"stok_1") /\
  @ValidateAs ascii_unicode (reads_of (run_ops [op_tokens_UpdateExpiration #"stok_1" None 20 20; op_tokens_Create sample_token []] (@Revoke ascii_unicode sample_store #" stok_1" 15).1.1))
    sample_secret TokenTypeClient 30 30 = Err ErrUnauthenticated.
Proof.
  split; [by vm_compute|].
  pose proof (@revocation_final ascii_unicode sample_store #" stok_1" 15 (@Revoke ascii_unicode sample_store #" stok_1" 15).1.1 true sample_token
    [op_tokens_UpdateExpiration #"stok_1" None 20 20; op_tokens_Create sample_token []] sample_keyed ltac:(by vm_compute) ltac:(by vm_compute)) as (_ & Hv & _).
  exact (Hv sample_secret TokenTypeClient 30 30 eq_refl).
Defined.

Definition sample_rotation : store * result CreatedToken cred_err * bool :=
  @Rotate ascii_unicode (reads_of sample_store) sample_store None #"stok_1" (replicate 32 "A"%char) (replicate 32 "B"%char) 15.

Lemma rotation_transfers_witness : exists created newID prefix cur,
  sample_rotation.1.2 = Ok created /\
  @ValidateAs ascii_unicode (reads_of sample_rotation.1.1) (ct_Secret created) TokenTypeClient 15 15 = Ok (renamed cur newID prefix, newID) /\
  @ValidateAs ascii_unicode (reads_of sample_rotation.1.1) sample_secret TokenTypeClient 15 15 = Err ErrUnauthenticated.
Proof.
  assert (exists created, sample_rotation = (sample_rotation.1.1, Ok created, true)) as [created E] by (eexists; vm_compute; reflexivity).
  destruct (@rotation_transfers ascii_unicode sample_store None #"stok_1" (replicate 32 "A"%char) (replicate 32 "B"%char) 15 sample_rotation.1.1 created true sample_keyed eq_refl E)
    as (old & cur & c & newID & prefix & Ho & _ & Hv & Hd).
  assert (st_tokens sample_store !! @TrimSpace ascii_unicode #"stok_1" = Some sample_token) as Hs by (vm_compute; reflexivity).
  rewrite Hs in Ho. apply Some_inj in Ho as <-. exists created, newID, prefix, cur. split; [rewrite E; reflexivity|]. split; [exact Hv|].
  exact (proj1 (Hd []) sample_secret TokenTypeClient 15 15 eq_refl).
Defined.


Lemma soft_delete_keeps_revision_witness :
  @AuthorizeStream ascii_unicode 3 (reads_of sample_store) sample_identity sample_request 999 999 = Some (Ok tt) /\
  st_revision (users_SoftDelete sample_store #"u" 990).1 = 7 /\
  @AuthorizeStream ascii_unicode 3 (reads_of (users_SoftDelete sample_store #"u" 990).1) sample_identity sample_request 999 999 = Some (Err ErrForbidden).
Proof.
  split; [by vm_compute|]. apply (@soft_delete_keeps_revision ascii_unicode sample_store sample_identity sample_request 999 990 3 999). by vm_compute.
Defined.
