(* ===== verification/GoHmac.v ===== *)
(** * Hash-based message authentication and base32

    [crypto/sha1], [crypto/hmac] with it, and [encoding/base32.StdEncoding] of
    the Go standard library, as the one-time-password code uses them. *)

From stdpp Require Import base list strings.
From Stdlib Require Import Ascii Lia.
From S2P Require Import Prelude GoStrings GoCrypto.
Local Open Scope Z_scope.

(** ** SHA-1 *)

Definition rotl (n x : Z) : Z := rotr (32 - n) x.

Definition sha1_init : list Z := [0x67452301; 0xEFCDAB89; 0x98BADCFE; 0x10325476; 0xC3D2E1F0].

(** The message schedule, newest word first. *)
Fixpoint sha1_expand (n : nat) (rev : list Z) : list Z :=
  match n with
  | O => rev
  | S n' =>
      let w i := nth i rev 0 in
      sha1_expand n' (rotl 1 (Z.lxor (Z.lxor (w 2%nat) (w 7%nat)) (Z.lxor (w 13%nat) (w 15%nat))) :: rev)
  end.

(** One round with the function and the constant of its quarter. *)
Definition sha1_round (st : list Z) (tw : nat * Z) : list Z :=
  match st with
  | [a; b; c; d; e] =>
      let '(f, k) :=
        match (tw.1 / 20)%nat with
        | 0%nat => (Z.lxor (Z.land b c) (Z.land (2 ^ 32 - 1 - b) d), 0x5A827999)
        | 1%nat => (Z.lxor (Z.lxor b c) d, 0x6ED9EBA1)
        | 2%nat => (Z.lxor (Z.lxor (Z.land b c) (Z.land b d)) (Z.land c d), 0x8F1BBCDC)
        | _ => (Z.lxor (Z.lxor b c) d, 0xCA62C1D6)
        end in
      [add32 (add32 (rotl 5 a) f) (add32 e (add32 k tw.2)); a; rotl 30 b; c; d]
  | _ => st
  end.

Definition sha1_block (st : list Z) (blk : bytes) : list Z :=
  let w := reverse (sha1_expand 64 (reverse (words_of 16 blk))) in
  zip_with add32 st (foldl sha1_round st (zip (seq 0 80) w)).

Fixpoint sha1_blocks (n : nat) (st : list Z) (s : bytes) : list Z :=
  match n with
  | O => st
  | S n' => sha1_blocks n' (sha1_block st (take 64 s)) (drop 64 s)
  end.

Definition sha1_Sum (s : bytes) : bytes :=
  let len := length s in
  let zeros := ((119 - len mod 64) mod 64)%nat in
  let padded := s ++ [byte_of 128] ++ replicate zeros (byte_of 0) ++ be_put 8 (8 * Z.of_nat len) in
  concat (be_put 4 <$> sha1_blocks (length padded / 64) sha1_init padded).

(** ** HMAC *)

Definition xor_byte (v : Z) (b : byte) : byte := byte_of (Z.lxor v (byte_val b)).

Definition hmac_sha1 (key msg : bytes) : bytes :=
  let key := if bool_decide (64 < length key)%nat then sha1_Sum key else key in
  let key := key ++ replicate (64 - length key) (byte_of 0) in
  sha1_Sum ((xor_byte 92 <$> key) ++ sha1_Sum ((xor_byte 54 <$> key) ++ msg)).

(** ** Base32 *)

Definition b32_char (v : Z) : byte := if v <? 26 then byte_of (65 + v) else byte_of (24 + v).

Definition b32_val (c : byte) : option Z :=
  let v := byte_val c in
  if is_upper c then Some (v - 65) else if (50 <=? v) && (v <=? 55) then Some (v - 24) else None.

(** The value of five bytes, most significant first, as eight digits. *)
Definition b32_digits (v : Z) : bytes := (fun i => b32_char (v / 32 ^ Z.of_nat (7 - i) mod 32)) <$> seq 0 8.

(** [EncodeToString] without padding; a short last group is completed with zero
    bytes and cut to the digits it needs. *)
Fixpoint b32_encode (s : bytes) : bytes :=
  match s with
  | a :: b :: c :: d :: e :: s' => b32_digits (be_get [a; b; c; d; e]) ++ b32_encode s'
  | [] => []
  | _ =>
      let n := length s in
      take ((8 * n + 4) / 5) (b32_digits (be_get (s ++ replicate (5 - n) (byte_of 0))))
  end.

(** Eight characters; only the last group may be padded, and only to the
    lengths that whole bytes give. *)
Definition b32_group (q : bytes) (final : bool) : option bytes :=
  let digits := if final then take (length q - length (filter (fun c => c = pad_char) q)) q else q in
  let pads := drop (length digits) q in
  if negb (forallb (fun c => beq c pad_char) pads) || negb (bool_decide (length digits ∈ [2; 4; 5; 7; 8]%nat)) then None
  else
    vs ← mapM b32_val digits;
    Some (take (5 * length digits / 8) (be_put 5 (foldl (fun acc v => acc * 32 + v) 0 (vs ++ replicate (8 - length digits) 0)))).

Fixpoint b32_groups (n : nat) (s : bytes) : option bytes :=
  match n with
  | O => Some []
  | S n' =>
      match s with
      | [] => Some []
      | _ =>
          if bool_decide (length s < 8)%nat then None
          else
            g ← b32_group (take 8 s) (bool_decide (length s = 8)%nat);
            rest ← b32_groups n' (drop 8 s);
            Some (g ++ rest)
      end
  end.

(** [base32.StdEncoding.DecodeString] *)
Definition b32_DecodeString (s : bytes) : option bytes :=
  let s := List.filter (fun c => negb (is_newline c)) s in
  b32_groups (length s) s.

(** ** Published vectors *)

Lemma sha1_abc : be_get (sha1_Sum #"abc") = 0xa9993e364706816aba3e25717850c26c9cd0d89d.
Proof. by vm_compute. Qed.

(** RFC 2202, test case 2. *)
Lemma hmac_sha1_vector : be_get (hmac_sha1 #"Jefe" #"what do ya want for nothing?") = 0xeffcdf6ae5eb2fa2d27416d5f184df9c259a7c79.
Proof. by vm_compute. Qed.

(** RFC 4648, section 10. *)
Lemma b32_vectors :
  b32_encode <$> [ #"f"; #"fo"; #"foo"; #"foob"; #"fooba"; #"foobar"] = [ #"MY"; #"MZXQ"; #"MZXW6"; #"MZXW6YQ"; #"MZXW6YTB"; #"MZXW6YTBOI"] /\
  mapM b32_DecodeString [ #"MY======"; #"MZXQ===="; #"MZXW6==="; #"MZXW6YQ="; #"MZXW6YTB"; #"MZXW6YTBOI======"]
    = Some [ #"f"; #"fo"; #"foo"; #"foob"; #"fooba"; #"foobar"] /\
  b32_DecodeString <$> [ #"M======="; #"MZX====="; #"MY==A==="; #"MY======MY======"; #"my======"] = [None; None; None; None; None].
Proof. by vm_compute. Qed.

Lemma length_sha1_Sum s : length (sha1_Sum s) = 20%nat.
Proof.
  unfold sha1_Sum. set (n := (_ / 64)%nat). set (p := s ++ _). clearbody n p.
  assert (forall st l, length st = 5%nat -> length (sha1_blocks n st l) = 5%nat) as Hb.
  { induction n as [|n IH]; intros st l Hst; [done|]. cbn [sha1_blocks]. apply IH. unfold sha1_block. rewrite length_zip_with.
    assert (forall k, length (foldl sha1_round st k) = 5%nat) as ->; [|by rewrite Hst].
    intros k. revert st Hst. induction k as [|x k IHk]; intros st Hst; [done|]. cbn [foldl]. apply IHk.
    destruct st as [|a [|b [|c [|d [|e [|]]]]]]; try done. cbn [sha1_round]. by destruct (x.1 / 20)%nat as [|[|[|]]]. }
  specialize (Hb sha1_init p eq_refl). destruct (sha1_blocks n sha1_init p) as [|a [|b [|c [|d [|e [|]]]]]]; try done.
Qed.

(** Base32 digits are upper-case letters and the digits 2 to 7. *)
Definition is_b32 (c : byte) : bool := is_upper c || ((50 <=? byte_val c) && (byte_val c <=? 55)).

Lemma b32_char_digit v : 0 <= v < 32 -> is_b32 (b32_char v) = true /\ b32_val (b32_char v) = Some v.
Proof.
  intros Hv. assert (forallb (fun n => is_b32 (b32_char (Z.of_nat n)) && bool_decide (b32_val (b32_char (Z.of_nat n)) = Some (Z.of_nat n))) (seq 0 32) = true) as Hall by (by vm_compute).
  rewrite forallb_forall in Hall. specialize (Hall (Z.to_nat v)). rewrite Z2Nat.id, andb_true_iff, bool_decide_eq_true in Hall by lia. apply Hall, in_seq. lia.
Qed.

Lemma b32_digits_b32 v : Forall (fun c => is_b32 c = true) (b32_digits v).
Proof. unfold b32_digits. apply Forall_fmap, Forall_true. intros i. apply b32_char_digit, Z.mod_pos_bound. lia. Qed.

Lemma b32_encode_b32 s : Forall (fun c => is_b32 c = true) (b32_encode s).
Proof.
  assert (forall n l, (length l <= n)%nat -> Forall (fun c => is_b32 c = true) (b32_encode l)) as Hn; [|by apply (Hn (length s))].
  induction n as [|n IH]; intros l Hl; (destruct l as [|a [|b [|c [|d [|e l]]]]]; [constructor|..]); cbn [length] in Hl; try lia; cbn [b32_encode];
    try (apply Forall_take, b32_digits_b32). apply Forall_app. split; [apply b32_digits_b32|]. apply IH. lia.
Qed.

Lemma length_b32_encode_groups k s : length s = (5 * k)%nat -> length (b32_encode s) = (8 * k)%nat.
Proof.
  revert s. induction k as [|k IH]; intros s Hs; [by destruct s|]. destruct s as [|a [|b [|c [|d [|e s]]]]]; cbn [length] in Hs; try lia.
  cbn [b32_encode]. rewrite length_app, IH by lia. change (length (b32_digits _)) with 8%nat. lia.
Qed.

(** Eight digits spell the value they were taken from. *)
Lemma b32_group_digits v final : 0 <= v < 32 ^ 8 -> b32_group (b32_digits v) final = Some (be_put 5 v).
Proof.
  intros Hv. assert (Forall (fun c => c <> pad_char) (b32_digits v)) as Hp.
  { eapply Forall_impl; [apply b32_digits_b32|]. intros c Hc ->. done. }
  unfold b32_group. assert ((if final then take (length (b32_digits v) - length (filter (fun c => c = pad_char) (b32_digits v))) (b32_digits v) else b32_digits v) = b32_digits v) as ->.
  { destruct final; [|done]. assert (filter (fun c => c = pad_char) (b32_digits v) = []) as ->; [|by rewrite Nat.sub_0_r, firstn_all].
    induction Hp as [|c l Hc _ IH]; [done|]. by rewrite filter_cons_False. }
  assert (mapM b32_val (b32_digits v) = Some ((fun i => v / 32 ^ Z.of_nat (7 - i) mod 32) <$> seq 0 8)) as Hm.
  { unfold b32_digits. apply mapM_Some_2, Forall2_fmap_l, Forall2_fmap_r. induction (seq 0 8) as [|i l IH]; constructor; [|done]. apply b32_char_digit, Z.mod_pos_bound. lia. }
  change (length (b32_digits v)) with 8%nat. rewrite drop_ge by done. cbn [forallb negb orb]. rewrite bool_decide_eq_true_2 by (repeat constructor). cbn [negb]. rewrite Hm.
  cbn [mbind option_bind]. rewrite app_nil_r. change (5 * 8 / 8)%nat with 5%nat. rewrite take_ge by (by rewrite length_be_put). do 2 f_equal. cbn [seq fmap list_fmap foldl Nat.sub].
  change (Z.of_nat 7) with 7. change (Z.of_nat 6) with 6. change (Z.of_nat 5) with 5. change (Z.of_nat 4) with 4. change (Z.of_nat 3) with 3. change (Z.of_nat 2) with 2. change (Z.of_nat 1) with 1. change (Z.of_nat 0) with 0.
  Z.to_euclidean_division_equations. lia.
Qed.

Lemma filter_id {A} (f : A -> bool) l : Forall (fun x => f x = true) l -> List.filter f l = l.
Proof. induction 1 as [|x l Hx _ IH]; [done|]. cbn. by rewrite Hx, IH. Qed.

(** Whole groups of five bytes are encoded without padding and read back. *)
Lemma b32_roundtrip k s : length s = (5 * k)%nat -> b32_DecodeString (b32_encode s) = Some s.
Proof.
  intros Hs. unfold b32_DecodeString.
  assert (List.filter (fun c => negb (is_newline c)) (b32_encode s) = b32_encode s) as ->.
  { apply filter_id. eapply Forall_impl; [apply b32_encode_b32|]. unfold is_b32, is_upper, is_newline. intros c Hc. cbn. lia. }
  rewrite (length_b32_encode_groups k) by done. assert (forall n, (k <= n)%nat -> b32_groups n (b32_encode s) = Some s) as Hg; [|apply Hg; lia].
  revert s Hs. induction k as [|k IH]; intros s Hs n Hn; [by destruct s, n|]. destruct s as [|a [|b [|c [|d [|e s]]]]]; cbn [length] in Hs; try lia.
  destruct n as [|n]; [lia|]. cbn [b32_encode]. set (q := b32_digits _). assert (length q = 8%nat) as Hq by done.
  cbn [b32_groups]. destruct (q ++ b32_encode s) as [|x t] eqn:Et; [by apply (f_equal length) in Et; rewrite length_app, Hq in Et|]. rewrite <- Et. clear x t Et.
  rewrite bool_decide_eq_false_2 by (rewrite length_app; lia). rewrite take_app_length' by done. rewrite drop_app_length' by done.
  pose proof (be_get_range [a; b; c; d; e]) as Hr. cbn [length] in Hr. unfold q. rewrite b32_group_digits by (change (256 ^ Z.of_nat 5) with (32 ^ 8) in Hr; done).
  cbn [mbind option_bind]. rewrite IH by lia. cbn [mbind option_bind]. rewrite (be_put_get' 5 [a; b; c; d; e]) by done. done.
Qed.
