(* ===== verification/SecondFactor.v ===== *)
(** * Passwords, one-time codes and recovery codes

    [internal/auth/password.go], [totp.go] and [recovery_code.go].  The Argon2id
    key derivation is a third-party package and a parameter; SHA-1, HMAC, base32
    and base64 are those of the Go library.  Random bytes and clock readings (in
    nanoseconds since the epoch) are arguments. *)

From stdpp Require Import base list gmap strings.
From Stdlib Require Import Ascii ZArith Lia.
From S2P Require Import Prelude GoStrings GoCrypto GoHmac.
Local Open Scope Z_scope.

(** [argon2.IDKey] of golang.org/x/crypto: password, salt, time, memory,
    threads and key length. *)
Class Argon2 := IDKey : bytes -> bytes -> Z -> Z -> Z -> Z -> bytes.

(** ** Passwords *)

Definition argonMemory : Z := 65536.
Definition argonTime : Z := 3.
Definition argonThreads : Z := 2.
Definition argonKeyLen : Z := 32.
Definition argonSaltLen : nat := 16.

(** [strconv.ParseUint(s, 10, 32)] *)
Definition ParseUint32 (s : bytes) : option Z :=
  if bool_decide (s = []) then None else n ← parse_digits 0 s; if n <=? max_uint32 then Some n else None.

Fixpoint or_bytes (a b : bytes) : Z :=
  match a, b with
  | x :: a', y :: b' => Z.lor (Z.lxor (byte_val x) (byte_val y)) (or_bytes a' b')
  | _, _ => 0
  end.

Definition constantTimeEqual (a b : bytes) : bool :=
  if negb (bool_decide (length a = length b)) then false else or_bytes a b =? 0.

(** The cost parameters, later ones overriding earlier ones; [None] when one of
    them is malformed. *)
Fixpoint phc_params (parts : list bytes) (params : gmap bytes Z) : option (gmap bytes Z) :=
  match parts with
  | [] => Some params
  | p :: parts' =>
      let '(k, v, found) := Cut p "="%char in
      if negb found then None else n ← ParseUint32 v; phc_params parts' (<[k := n]> params)
  end.

Section passwords.
Context `{Argon2}.

Definition hashPassword (password salt : bytes) : option bytes :=
  if bool_decide (password = []) then None
  else
    let hash := IDKey password salt argonTime argonMemory argonThreads argonKeyLen in
    Some (#"$argon2id$v=19$m=" ++ Itoa argonMemory ++ #",t=" ++ Itoa argonTime ++ #",p=" ++ Itoa argonThreads ++ #"$" ++ RawStdEncode salt ++ #"$" ++ RawStdEncode hash).

Definition verifyPassword (password encoded : bytes) : bool :=
  match Split encoded "$"%char with
  | [_; alg; version; costs; salt64; want64] =>
      if negb (seq_eqb alg #"argon2id") || negb (seq_eqb version #"v=19") then false
      else match phc_params (Split costs comma) ∅ with
      | None => false
      | Some params =>
          match params !! #"m", params !! #"t", params !! #"p" with
          | Some memory, Some timeCost, Some threads =>
              if (memory <? 8192) || (1048576 <? memory) || (timeCost =? 0) || (10 <? timeCost) || (threads =? 0) || (32 <? threads) then false
              else match RawStdDecode salt64, RawStdDecode want64 with
              | Some salt, Some want =>
                  if bool_decide (length salt < 8)%nat || bool_decide (64 < length salt)%nat || bool_decide (want = []) || bool_decide (64 < length want)%nat then false
                  else constantTimeEqual (IDKey password salt timeCost memory threads (Z.of_nat (length want))) want
              | _, _ => false
              end
          | _, _, _ => false
          end
      end
  | _ => false
  end.
End passwords.

(** ** Time-based one-time codes *)

Record TOTPParams := mkTOTPParams { tp_Digits : Z; tp_Period : Z; tp_Skew : Z }.

Definition DefaultTOTPParams : TOTPParams := mkTOTPParams 6 (30 * Second) 1.

Inductive totp_err := errTOTPDigits | errTOTPPeriod | errTOTPSkew | errTOTPSecret | errTOTPIssuer | errTOTPAccount.

Definition validate_params (p : TOTPParams) : result TOTPParams totp_err :=
  if negb (tp_Digits p =? 6) && negb (tp_Digits p =? 8) then Err errTOTPDigits
  else if (tp_Period p <? 15 * Second) || (120 * Second <? tp_Period p) then Err errTOTPPeriod
  else if (tp_Skew p <? 0) || (2 <? tp_Skew p) then Err errTOTPSkew
  else Ok p.

Definition totpSecretBytes : nat := 20.
Definition GenerateTOTPSecret (random : bytes) : bytes := b32_encode random.

(** [Unix] rounds down; the division of two int64 truncates. *)
Definition toptStep (at_ period : Z) : Z := Z.quot (at_ / Second) (Z.quot period Second).

Definition hotp (secret : bytes) (counter digits : Z) : bytes :=
  let sum := hmac_sha1 secret (be_put 8 counter) in
  let offset := Z.to_nat (Z.land (byte_val (nth 19 sum (byte_of 0))) 15) in
  let value := Z.land (be_get (slice offset (offset + 4) sum)) 0x7fffffff in
  let modulus := Nat.iter (Z.to_nat digits) (fun m => uint 32 (m * 10)) 1 in
  let code := Itoa (value mod modulus) in
  replicate (Z.to_nat digits - length code) "0"%char ++ code.

Definition skewOrder (skew : Z) : list Z := 0 :: (seq 1 (Z.to_nat skew) ≫= fun d => [- Z.of_nat d; Z.of_nat d]).

Fixpoint try_steps (secret code : bytes) (current digits : Z) (offsets : list Z) : option Z :=
  match offsets with
  | [] => None
  | offset :: offsets' =>
      let step := current + offset in
      if step <? 0 then try_steps secret code current digits offsets'
      else if seq_eqb (hotp secret step digits) code then Some step
      else try_steps secret code current digits offsets'
  end.

Section totp.
Context `{GoUnicode}.

Definition decodeTOTPSecret (secret : bytes) : option bytes :=
  let normalized := List.filter (fun c => negb (beq c " "%char)) (ToUpper (TrimSpace secret)) in
  let pad := (length normalized mod 8)%nat in
  let normalized := if bool_decide (pad = 0)%nat then normalized else normalized ++ replicate (8 - pad) pad_char in
  decoded ← b32_DecodeString normalized;
  if bool_decide (decoded = []) then None else Some decoded.

Definition TOTPCode (secret : bytes) (at_ : Z) (params : TOTPParams) : result bytes totp_err :=
  let! p := validate_params params in
  match decodeTOTPSecret secret with
  | None => Err errTOTPSecret
  | Some decoded => Ok (hotp decoded (toptStep at_ (tp_Period p)) (tp_Digits p))
  end.

(** The accepted step, or [None] for a wrong code. *)
Definition VerifyTOTP (secret code : bytes) (at_ : Z) (params : TOTPParams) : result (option Z) totp_err :=
  let! p := validate_params params in
  match decodeTOTPSecret secret with
  | None => Err errTOTPSecret
  | Some decoded =>
      let code := TrimSpace code in
      if negb (Z.of_nat (length code) =? tp_Digits p) then Ok None
      else match Atoi code with
      | None => Ok None
      | Some _ => Ok (try_steps decoded code (toptStep at_ (tp_Period p)) (tp_Digits p) (skewOrder (tp_Skew p)))
      end
  end.
End totp.

(** *** [OTPAuthURL] *)

Definition is_unreserved (c : byte) : bool :=
  is_upper c || is_lower c || is_digit c || existsb (beq c) #"-_.~".

Definition upper_hex (v : Z) : byte := if v <? 10 then byte_of (48 + v) else byte_of (55 + v).
Definition percent (c : byte) : bytes := ["%"%char; upper_hex (byte_val c / 16); upper_hex (byte_val c mod 16)].

(** [url.PathEscape] and [url.QueryEscape] *)
Definition PathEscape (s : bytes) : bytes := s ≫= fun c => if is_unreserved c || existsb (beq c) #"$&+:=@" then [c] else percent c.
Definition QueryEscape (s : bytes) : bytes := s ≫= fun c => if beq c " "%char then ["+"%char] else if is_unreserved c then [c] else percent c.

Section otpauth.
Context `{GoUnicode}.

Definition OTPAuthURL (issuer account secret : bytes) (params : TOTPParams) : result bytes totp_err :=
  let! p := validate_params params in
  let issuer := TrimSpace issuer in
  if bool_decide (issuer = []) || bool_decide (64 < length issuer)%nat || ContainsByte issuer colon then Err errTOTPIssuer
  else
    let account := TrimSpace account in
    if bool_decide (account = []) then Err errTOTPAccount
    else match decodeTOTPSecret secret with
    | None => Err errTOTPSecret
    | Some _ =>
        let query := #"algorithm=SHA1&digits=" ++ Itoa (tp_Digits p) ++ #"&issuer=" ++ QueryEscape issuer ++ #"&period=" ++ Itoa (Z.quot (tp_Period p) Second) ++
          #"&secret=" ++ QueryEscape (ToUpper (TrimSpace secret)) in
        Ok (#"otpauth://totp/" ++ PathEscape issuer ++ #":" ++ PathEscape account ++ #"?" ++ query)
    end.
End otpauth.

(** ** Recovery codes *)

Definition recoveryCodePrefix : bytes := #"tmrc-".
Definition recoveryCodeEntropy : nat := 16.
Definition recoveryCodeDigits : nat := 20.

Section recovery.
Context `{GoUnicode}.

Definition normalizeRecoveryCode (code : bytes) : bytes :=
  List.filter (fun c => negb (beq c dash)) (List.filter (fun c => negb (beq c " "%char)) (ToUpper (TrimSpace code))).

Definition HashRecoveryCode (code : bytes) : bytes := Sum256 (normalizeRecoveryCode code).

Definition RecoveryCodeMatches (storedHash candidate : bytes) : bool :=
  if negb (bool_decide (length storedHash = 32%nat)) then false else seq_eqb storedHash (HashRecoveryCode candidate).

Definition IsRecoveryCode (candidate : bytes) : bool := HasPrefix (ToLower (TrimSpace candidate)) recoveryCodePrefix.

Definition recovery_code (random : bytes) : bytes := recoveryCodePrefix ++ take recoveryCodeDigits (b32_encode random).

(** The loop that redraws duplicates, over the buffers the random source
    returns; [None] when they run out. *)
Fixpoint draw_codes (buffers : list bytes) (count : nat) (codes : list bytes) {struct count} : option (list bytes) :=
  match count with
  | O => Some codes
  | S count' =>
      (fix draw (buffers : list bytes) : option (list bytes) :=
         match buffers with
         | [] => None
         | b :: buffers' =>
             if bool_decide (recovery_code b ∈ codes) then draw buffers' else draw_codes buffers' count' (codes ++ [recovery_code b])
         end) buffers
  end.

Definition GenerateRecoveryCodes (count : Z) (buffers : list bytes) : option (list bytes * list bytes) :=
  if count <=? 0 then None
  else match draw_codes buffers (Z.to_nat count) [] with
  | None => None
  | Some codes => Some (codes, HashRecoveryCode <$> codes)
  end.
End recovery.

(** ** One-time codes *)

Lemma decimal_modulus digits : digits = 6 \/ digits = 8 -> Nat.iter (Z.to_nat digits) (fun m => uint 32 (m * 10)) 1 = 10 ^ digits.
Proof. by intros [-> | ->]. Qed.

Lemma length_digits_of fuel n k : 0 <= n < 10 ^ Z.of_nat k -> (0 < k)%nat -> (length (digits_of fuel n) <= k)%nat.
Proof.
  revert fuel n. induction k as [|k IH]; intros fuel n Hn Hk; [lia|]. destruct fuel as [|fuel]; [cbn; lia|]. cbn [digits_of]. rewrite length_app. cbn [length].
  destruct (Z.ltb_spec n 10); [cbn; lia|]. destruct k as [|k]; [cbn in Hn; lia|].
  assert (length (digits_of fuel (n / 10)) <= S k)%nat; [|lia]. apply IH; [|lia]. replace (Z.of_nat (S (S k))) with (Z.of_nat (S k) + 1) in Hn by lia.
  rewrite Z.pow_add_r in Hn by lia. split; [apply Z.div_pos; lia|apply Z.div_lt_upper_bound; lia].
Qed.

(** A code has exactly the configured number of decimal digits. *)
Lemma hotp_shape secret counter digits : digits = 6 \/ digits = 8 ->
  Z.of_nat (length (hotp secret counter digits)) = digits /\ Forall (fun c => is_digit c = true) (hotp secret counter digits).
Proof.
  intros Hd. unfold hotp. rewrite (decimal_modulus _ Hd). set (v := Z.land _ _). assert (0 <= v mod 10 ^ digits < 10 ^ digits) as Hv by (apply Z.mod_pos_bound; by destruct Hd as [-> | ->]).
  set (code := Itoa (v mod 10 ^ digits)). assert (length code <= Z.to_nat digits)%nat as Hl.
  { unfold code, Itoa. destruct (Z.ltb_spec (v mod 10 ^ digits) 0); [lia|]. apply length_digits_of; [by rewrite Z2Nat.id by (destruct Hd; lia)|destruct Hd; lia]. }
  split; [rewrite length_app, length_replicate; destruct Hd; lia|]. apply Forall_app. split; [by apply Forall_replicate|]. apply Itoa_digits. lia.
Qed.

Lemma try_steps_some secret code current digits offsets step : try_steps secret code current digits offsets = Some step ->
  step - current ∈ offsets /\ 0 <= step /\ hotp secret step digits = code.
Proof.
  induction offsets as [|o offsets IH]; cbn [try_steps]; [done|]. destruct (Z.ltb_spec (current + o) 0) as [|Hp]; [intros E; destruct (IH E) as (? & ? & ?); split_and!; [by right|done|done]|].
  destruct (seq_eqb _ _) eqn:E; [|intros E'; destruct (IH E') as (? & ? & ?); split_and!; [by right|done|done]]. intros [= <-]. apply seq_eqb_eq in E.
  split_and!; [|done|done]. replace (current + o - current) with o by lia. by left.
Qed.

Lemma try_steps_complete secret code current digits offsets o : o ∈ offsets -> 0 <= current + o -> hotp secret (current + o) digits = code ->
  is_Some (try_steps secret code current digits offsets).
Proof.
  induction offsets as [|x offsets IH]; intros Hin Hp Hc; [by apply not_elem_of_nil in Hin|]. cbn [try_steps].
  apply elem_of_cons in Hin as [->|Hin].
  - destruct (Z.ltb_spec (current + x) 0); [lia|]. by rewrite (proj2 (seq_eqb_eq _ _) Hc).
  - destruct (current + x <? 0); [by apply IH|]. destruct (seq_eqb _ _); [done|by apply IH].
Qed.

Lemma elem_of_skewOrder skew o : 0 <= skew -> o ∈ skewOrder skew <-> - skew <= o <= skew.
Proof.
  intros Hs. unfold skewOrder. rewrite elem_of_cons, list_elem_of_bind. split.
  - intros [->|(d & Ho & Hd)]; [lia|]. apply elem_of_seq in Hd. set_unfold. lia.
  - intros Ho. destruct (decide (o = 0)) as [->|]; [by left|right]. exists (Z.to_nat (Z.abs o)). split; [set_unfold; lia|]. apply elem_of_seq. lia.
Qed.

Section totp_lemmas.
Context `{GoUnicode}.

Lemma valid_params p q : validate_params p = Ok q -> q = p /\ (tp_Digits p = 6 \/ tp_Digits p = 8) /\ 0 <= tp_Skew p <= 2 /\ 15 * Second <= tp_Period p <= 120 * Second.
Proof.
  unfold validate_params. destruct (_ && _) eqn:E1; [done|]. destruct (_ || _) eqn:E2; [done|]. destruct ((_ <? 0) || _) eqn:E3; [done|]. intros [= <-].
  apply andb_false_iff in E1. apply orb_false_iff in E2, E3. split_and!; [done|..]; try lia.
Qed.

Lemma digits_atoi code : Forall (fun c => is_digit c = true) code -> (6 <= length code <= 8)%nat -> is_Some (Atoi code).
Proof.
  intros Hd Hl.
  assert (forall s acc, Forall (fun c => is_digit c = true) s -> 0 <= acc -> exists n, parse_digits acc s = Some n /\ 0 <= n < (acc + 1) * 10 ^ Z.of_nat (length s)) as Hp.
  { clear. induction s as [|c s IH]; intros acc Hs Ha; [exists acc; cbn; split; [done|lia]|]. inversion_clear Hs as [|? ? Hc Hs']. cbn [parse_digits]. rewrite Hc.
    assert (0 <= byte_val c - 48 <= 9) as Hr by (unfold is_digit in Hc; lia). destruct (IH (acc * 10 + (byte_val c - 48)) Hs' ltac:(lia)) as (n & En & Hn). exists n. split; [done|].
    cbn [length]. rewrite Nat2Z.inj_succ, Z.pow_succ_r by lia. nia. }
  destruct (Hp code 0 Hd ltac:(lia)) as (n & En & Hn). assert (n < 10 ^ 8) as Hb.
  { eapply Z.lt_le_trans; [apply Hn|]. rewrite Z.mul_1_l. apply Z.pow_le_mono_r; lia. }
  rewrite (Atoi_digits code n); [by eexists|by destruct code; [cbn in Hl; lia|]|done|done|unfold max_int64; lia].
Qed.

Lemma code_digit_plain c : is_digit c = true -> is_ascii_byte c = true /\ is_space c = false.
Proof. unfold is_digit, is_ascii_byte, is_space. intros Hc. lia. Qed.

(** C38. The verifier accepts exactly the codes of the steps around the current one,
    and answers with a step the code belongs to. *)
Theorem totp_accepts_iff secret key code at_ params :
  is_ok (validate_params params) = true -> decodeTOTPSecret secret = Some key ->
  exists answer, VerifyTOTP secret code at_ params = Ok answer /\
    (forall step, answer = Some step -> Z.abs (step - toptStep at_ (tp_Period params)) <= tp_Skew params /\ 0 <= step /\ hotp key step (tp_Digits params) = TrimSpace code) /\
    (forall step, Z.abs (step - toptStep at_ (tp_Period params)) <= tp_Skew params -> 0 <= step -> hotp key step (tp_Digits params) = TrimSpace code -> is_Some answer).
Proof.
  intros Hp Hk. unfold VerifyTOTP. destruct (validate_params params) as [p|] eqn:Ev; [|done]. apply valid_params in Ev as (-> & Hd & Hs & _). cbn [rbind]. rewrite Hk.
  set (current := toptStep at_ (tp_Period params)).
  destruct (Z.eqb_spec (Z.of_nat (length (TrimSpace code))) (tp_Digits params)) as [El|Hl]; cbn [negb].
  2:{ exists None. split_and!; [done|done|]. intros step _ _ E. destruct (hotp_shape key step _ Hd) as [Hlen _]. rewrite E in Hlen. done. }
  destruct (Atoi (TrimSpace code)) as [n|] eqn:Ea.
  - eexists. split; [done|]. split.
    + intros step (Ho & Hz & He)%try_steps_some. rewrite elem_of_skewOrder in Ho by lia. split_and!; [lia|done|done].
    + intros step Hab Hz He. apply (try_steps_complete _ _ _ _ _ (step - current)); [apply elem_of_skewOrder; lia|lia|]. by replace (current + (step - current)) with step by lia.
  - exists None. split_and!; [done|done|]. intros step _ _ E. destruct (hotp_shape key step _ Hd) as [Hlen Hdig]. rewrite E in Hlen, Hdig.
    destruct (digits_atoi _ Hdig) as [m Hm]; [destruct Hd; lia|congruence].
Qed.

(** The code an authenticator shows is accepted as long as the clocks are within
    the skew. *)
Theorem totp_code_accepted secret code at_ at' params :
  TOTPCode secret at_ params = Ok code -> 0 <= toptStep at_ (tp_Period params) ->
  Z.abs (toptStep at_ (tp_Period params) - toptStep at' (tp_Period params)) <= tp_Skew params ->
  exists step, VerifyTOTP secret code at' params = Ok (Some step).
Proof.
  unfold TOTPCode, VerifyTOTP. destruct (validate_params params) as [p|] eqn:Ev; [|done]. apply valid_params in Ev as (-> & Hd & Hs & _). cbn [rbind].
  destruct (decodeTOTPSecret secret) as [key|]; [|done]. intros [= <-] Hz Hab. set (c := hotp _ _ _). destruct (hotp_shape key (toptStep at_ (tp_Period params)) _ Hd) as [Hlen Hdig]. fold c in Hlen, Hdig.
  rewrite TrimSpace_Forall by (eapply Forall_impl; [exact Hdig|apply code_digit_plain]). rewrite Hlen, Z.eqb_refl. cbn [negb].
  destruct (digits_atoi _ Hdig) as [m ->]; [destruct Hd; lia|].
  destruct (try_steps_complete key c (toptStep at' (tp_Period params)) (tp_Digits params) (skewOrder (tp_Skew params)) (toptStep at_ (tp_Period params) - toptStep at' (tp_Period params))) as [step ->];
    [apply elem_of_skewOrder; lia|lia|by replace (toptStep at' _ + _) with (toptStep at_ (tp_Period params)) by lia|by exists step].
Qed.
End totp_lemmas.

(** RFC 6238, appendix B: the code for the first vector, at 59 seconds. *)
Definition rfc_secret : bytes := #"GEZDGNBVGY3TQOJQGEZDGNBVGY3TQOJQ".

Lemma totp_accepts_iff_witness :
  @VerifyTOTP ascii_unicode rfc_secret #" 94287082" (85 * Second) (mkTOTPParams 8 (30 * Second) 1) = Ok (Some 1) /\
  @VerifyTOTP ascii_unicode rfc_secret #"94287082" (95 * Second) (mkTOTPParams 8 (30 * Second) 1) = Ok None.
Proof.
  destruct (@totp_accepts_iff ascii_unicode rfc_secret #"12345678901234567890" #" 94287082" (85 * Second) (mkTOTPParams 8 (30 * Second) 1)) as (answer & Ha & _ & Hc);
    [by vm_compute|by vm_compute|]. split; [|by vm_compute].
  assert (is_Some answer) as _ by (apply (Hc 1); by vm_compute). rewrite Ha. vm_compute in Ha. by rewrite <- Ha.
Defined.

Lemma totp_code_accepted_witness : exists code step,
  @TOTPCode ascii_unicode rfc_secret (1111111109 * Second) (mkTOTPParams 8 (30 * Second) 1) = Ok code /\ code = #"07081804" /\
  @VerifyTOTP ascii_unicode rfc_secret code (1111111109 * Second + 30 * Second) (mkTOTPParams 8 (30 * Second) 1) = Ok (Some step).
Proof.
  destruct (@totp_code_accepted ascii_unicode rfc_secret #"07081804" (1111111109 * Second) (1111111109 * Second + 30 * Second) (mkTOTPParams 8 (30 * Second) 1)) as [step Hs];
    [by vm_compute..|]. exists #"07081804", step. split; [by vm_compute|]. split; [reflexivity|exact Hs].
Defined.

(** ** Secrets and recovery codes *)

Lemma b32_plain c : is_b32 c = true -> is_ascii_byte c = true /\ is_space c = false /\ upper_byte c = c /\ beq c " "%char = false /\ beq c dash = false.
Proof.
  intros Hc. assert (forallb (fun n => let c := byte_of (Z.of_nat n) in negb (is_b32 c) || (is_ascii_byte c && negb (is_space c) && beq (upper_byte c) c && negb (beq c " "%char) && negb (beq c dash))) (seq 0 256) = true) as Hall by (by vm_compute).
  rewrite forallb_forall in Hall. pose proof (byte_val_range c) as Hr. specialize (Hall (Z.to_nat (byte_val c))). rewrite Z2Nat.id, byte_of_val in Hall by lia.
  cbv zeta in Hall. rewrite Hc in Hall. cbn [negb orb] in Hall. assert (In (Z.to_nat (byte_val c)) (seq 0 256)) as Hin by (apply in_seq; lia).
  apply Hall in Hin. rewrite !andb_true_iff, !negb_true_iff, beq_eq in Hin. tauto.
Qed.

Section secrets.
Context `{GoUnicode}.

Lemma b32_ToUpper s : Forall (fun c => is_b32 c = true) s -> ToUpper (TrimSpace s) = s.
Proof.
  intros Hs. rewrite TrimSpace_Forall by (eapply Forall_impl; [exact Hs|]; intros c (? & ? & _)%b32_plain; done).
  unfold ToUpper. assert (isASCII s = true) as -> by (apply isASCII_Forall; eapply Forall_impl; [exact Hs|]; by intros c (? & _)%b32_plain).
  induction Hs as [|c s (_ & _ & Hc & _)%b32_plain _ IH]; [done|]. cbn. rewrite Hc. f_equal. exact IH.
Qed.

(** The secret shown at enrolment decodes to the random bytes it was made of. *)
Theorem totp_secret_roundtrip random : length random = totpSecretBytes -> decodeTOTPSecret (GenerateTOTPSecret random) = Some random.
Proof.
  intros Hl. unfold decodeTOTPSecret, GenerateTOTPSecret. pose proof (b32_encode_b32 random) as Hb. rewrite b32_ToUpper by done.
  rewrite filter_id by (eapply Forall_impl; [exact Hb|]; intros c (_ & _ & _ & -> & _)%b32_plain; done). cbv zeta.
  rewrite (length_b32_encode_groups 4) by done. rewrite bool_decide_eq_true_2 by done. rewrite (b32_roundtrip 4) by done. cbn [mbind option_bind].
  rewrite bool_decide_eq_false_2; [done|]. by intros ->.
Qed.

Lemma draw_codes_spec buffers count codes out : draw_codes buffers count codes = Some out -> NoDup codes ->
  NoDup out /\ length out = (length codes + count)%nat /\ forall c, c ∈ out -> c ∈ codes \/ exists b, b ∈ buffers /\ c = recovery_code b.
Proof.
  revert buffers codes. induction count as [|count IH]; intros buffers codes E Hn; [injection E as <-; split_and!; [done|lia|by left]|].
  cbn [draw_codes] in E. induction buffers as [|b buffers IHb]; [done|]. case_bool_decide as Hin.
  - destruct (IHb E) as (? & ? & Hc). split_and!; [done|done|]. intros c Hx. destruct (Hc c Hx) as [?|(b' & ? & ?)]; [by left|right; exists b'; split; [by right|done]].
  - destruct (IH _ _ E) as (? & Hl & Hc); [apply NoDup_app; split_and!; [done|intros x Hx Hx'; apply list_elem_of_singleton in Hx'; by subst|apply NoDup_singleton]|].
    split_and!; [done|rewrite length_app in Hl; cbn in Hl; lia|]. intros c Hx. destruct (Hc c Hx) as [[?|Hx']%elem_of_app|(b' & ? & ?)]; [by left| |right; exists b'; split; [by right|done]].
    apply list_elem_of_singleton in Hx'. right. exists b. split; [by left|done].
Qed.

(** Enrolment hands out the requested number of distinct codes; each of them is
    recognised as a recovery code and matches the digest stored for it, and a
    one-time code is never taken for one. *)
Theorem recovery_codes_usable count buffers codes hashes :
  GenerateRecoveryCodes count buffers = Some (codes, hashes) ->
  NoDup codes /\ Z.of_nat (length codes) = count /\
  (forall i code hash, codes !! i = Some code -> hashes !! i = Some hash -> IsRecoveryCode code = true /\ RecoveryCodeMatches hash code = true) /\
  (forall secret counter digits, digits = 6 \/ digits = 8 -> IsRecoveryCode (hotp secret counter digits) = false).
Proof.
  unfold GenerateRecoveryCodes. destruct (Z.leb_spec count 0); [done|]. destruct (draw_codes buffers (Z.to_nat count) []) as [out|] eqn:Ed; [|done]. intros [= <- <-].
  apply draw_codes_spec in Ed as (Hn & Hl & Hc); [|by apply NoDup_nil]. cbn in Hl. split_and!; [done|lia| |].
  - intros i code hash Hi Hh. rewrite list_lookup_fmap, Hi in Hh. injection Hh as <-. split.
    + destruct (Hc code) as [Hx|(b & _ & ->)]; [by eapply list_elem_of_lookup_2|by apply not_elem_of_nil in Hx|]. unfold IsRecoveryCode, recovery_code.
      set (body := take _ _). assert (Forall (fun c => is_b32 c = true) body) as Hb by (apply Forall_take, b32_encode_b32).
      assert (Forall (fun c => is_ascii_byte c = true /\ is_space c = false) (recoveryCodePrefix ++ body)) as Hp
        by (apply Forall_app; split; [by repeat constructor|eapply Forall_impl; [exact Hb|]; intros c (? & ? & _)%b32_plain; done]).
      rewrite TrimSpace_Forall by done. unfold ToLower. assert (isASCII (recoveryCodePrefix ++ body) = true) as -> by (apply isASCII_Forall; eapply Forall_impl; [exact Hp|]; by intros c []).
      rewrite fmap_app. change (lower_byte <$> recoveryCodePrefix) with recoveryCodePrefix. apply HasPrefix_app.
    + unfold RecoveryCodeMatches, HashRecoveryCode. rewrite length_Sum256. cbn. apply seq_eqb_refl.
  - intros secret counter digits Hd. destruct (hotp_shape secret counter digits Hd) as [Hlen Hdig]. unfold IsRecoveryCode.
    rewrite TrimSpace_Forall by (eapply Forall_impl; [exact Hdig|apply code_digit_plain]). destruct (HasPrefix _ _) eqn:E; [|done]. apply HasPrefix_spec in E as [k E].
    assert (isASCII (hotp secret counter digits) = true) as Ha by (apply isASCII_Forall; eapply Forall_impl; [exact Hdig|]; intros d Hd0; by apply code_digit_plain).
    unfold ToLower in E. rewrite Ha in E. destruct (hotp secret counter digits) as [|c l]; [done|]. cbn in E. injection E as Ec _. inversion_clear Hdig as [|? ? Hdc _].
    unfold lower_byte in Ec. assert (is_upper c = false) as Hu by (unfold is_digit in Hdc; unfold is_upper; lia). rewrite Hu in Ec. by subst c.
Qed.
End secrets.

Lemma totp_secret_roundtrip_witness : @decodeTOTPSecret ascii_unicode (GenerateTOTPSecret #"12345678901234567890") = Some #"12345678901234567890".
Proof. apply (@totp_secret_roundtrip ascii_unicode #"12345678901234567890"). reflexivity. Defined.

Definition sample_buffers : list bytes := [replicate 16 "A"%char; replicate 16 "A"%char; replicate 16 "B"%char].

Lemma recovery_codes_usable_witness : exists codes hashes,
  @GenerateRecoveryCodes ascii_unicode 2 sample_buffers = Some (codes, hashes) /\ NoDup codes /\ codes !! 0%nat = Some #"tmrc-IFAUCQKBIFAUCQKBIFAU".
Proof.
  assert (exists x, @GenerateRecoveryCodes ascii_unicode 2 sample_buffers = Some x /\ x.1 !! 0%nat = Some #"tmrc-IFAUCQKBIFAUCQKBIFAU") as ([codes hashes] & E & Hc)
    by (eexists; split; vm_compute; reflexivity).
  exists codes, hashes. split; [exact E|]. split; [apply (@recovery_codes_usable ascii_unicode 2 sample_buffers codes hashes E)|exact Hc].
Defined.

(** ** Passwords *)

Lemma lxor_byte_zero x y : Z.lxor (byte_val x) (byte_val y) = 0 <-> x = y.
Proof. rewrite Z.lxor_eq_0_iff. split; [apply byte_val_inj|by intros ->]. Qed.

Lemma or_bytes_zero a b : length a = length b -> or_bytes a b = 0 <-> a = b.
Proof.
  revert b. induction a as [|x a IH]; intros [|y b] Hl; try done. cbn [or_bytes]. rewrite Z.lor_eq_0_iff, lxor_byte_zero, IH by (cbn in Hl; lia).
  split; [by intros [-> ->]|by intros [= -> ->]].
Qed.

Lemma constantTimeEqual_spec a b : constantTimeEqual a b = bool_decide (a = b).
Proof.
  unfold constantTimeEqual. destruct (decide (length a = length b)) as [E|Hn]; [rewrite (bool_decide_eq_true_2 (length a = length b)) by done|rewrite (bool_decide_eq_false_2 (length a = length b)) by done]; cbn [negb].
  - apply eq_true_iff_eq. rewrite Z.eqb_eq, bool_decide_eq_true. by apply or_bytes_zero.
  - symmetry. apply bool_decide_eq_false_2. by intros ->.
Qed.

Lemma RawStd_no_dollar s : "$"%char ∉ RawStdEncode s.
Proof.
  unfold RawStdEncode. intros (c & Hc & Hin)%list_elem_of_fmap. assert (Forall (fun c => beq "$"%char (if beq c "-"%char then "+"%char else if beq c "_"%char then "/"%char else c) = false) (RawURLEncode s)) as Hf.
  { apply RawURLEncode_chars. intros v Hv. apply negb_true_iff.
    by apply (url_char_all (fun c => negb (beq "$"%char (if beq c "-"%char then "+"%char else if beq c "_"%char then "/"%char else c)))). }
  rewrite Forall_forall in Hf. specialize (Hf c Hin). by rewrite <- Hc, beq_refl in Hf.
Qed.

(** What is stored for a password accepts a candidate exactly when both derive
    the same key under the stored salt; in particular it accepts the password
    itself,. *)
Theorem password_roundtrip `{Argon2} password salt encoded candidate :
  (forall p s t m th n, length (IDKey p s t m th n) = Z.to_nat n) -> length salt = argonSaltLen -> hashPassword password salt = Some encoded ->
  verifyPassword candidate encoded =
    bool_decide (IDKey candidate salt argonTime argonMemory argonThreads argonKeyLen = IDKey password salt argonTime argonMemory argonThreads argonKeyLen).
Proof.
  intros Hlen Hs. unfold hashPassword. case_bool_decide; [done|]. set (hash := IDKey password salt _ _ _ _). intros E. apply Some_inj in E as <-.
  assert (length hash = 32%nat) as Hh by apply Hlen. unfold verifyPassword.
  assert (Split (#"$argon2id$v=19$m=" ++ Itoa argonMemory ++ #",t=" ++ Itoa argonTime ++ #",p=" ++ Itoa argonThreads ++ #"$" ++ RawStdEncode salt ++ #"$" ++ RawStdEncode hash) "$"%char
    = [[]; #"argon2id"; #"v=19"; #"m=65536,t=3,p=2"; RawStdEncode salt; RawStdEncode hash]) as ->.
  { rewrite <- (Split_Join [[]; #"argon2id"; #"v=19"; #"m=65536,t=3,p=2"; RawStdEncode salt; RawStdEncode hash] "$"%char); [done|done|].
    repeat constructor; try apply RawStd_no_dollar; by apply ContainsByte_false. }
  change (negb (seq_eqb #"argon2id" #"argon2id") || negb (seq_eqb #"v=19" #"v=19")) with false. cbv iota.
  assert (phc_params (Split #"m=65536,t=3,p=2" comma) ∅ = Some {[ #"p" := 2; #"t" := 3; #"m" := 65536 ]}) as -> by (by vm_compute).
  change ({[ #"p" := 2; #"t" := 3; #"m" := 65536 ]} !! #"m" : option Z) with (Some 65536).
  change ({[ #"p" := 2; #"t" := 3; #"m" := 65536 ]} !! #"t" : option Z) with (Some 3).
  change ({[ #"p" := 2; #"t" := 3; #"m" := 65536 ]} !! #"p" : option Z) with (Some 2). cbv iota.
  change ((65536 <? 8192) || _ || _ || _ || _ || _) with false. cbv iota. rewrite !RawStd_roundtrip, Hs, Hh.
  rewrite (bool_decide_eq_false_2 (hash = [])) by (by intros E; rewrite E in Hh). change (bool_decide _ || _ || false || _) with false. cbv iota.
  rewrite constantTimeEqual_spec. done.
Qed.

(** A derivation that keeps the first 32 bytes of salt and password. *)
Definition sample_argon : Argon2 := fun p s _ _ _ n => take (Z.to_nat n) (s ++ p ++ replicate (Z.to_nat n) (byte_of 0)).

Lemma password_roundtrip_witness : exists encoded, @hashPassword sample_argon #"hunter2" #"0123456789abcdef" = Some encoded /\
  @verifyPassword sample_argon #"hunter2" encoded = true /\ @verifyPassword sample_argon #"hunter3" encoded = false.
Proof.
  eexists. split; [reflexivity|]. split.
  - rewrite (@password_roundtrip sample_argon #"hunter2" #"0123456789abcdef" _ #"hunter2"); [by vm_compute| |reflexivity|reflexivity].
    intros. unfold IDKey, sample_argon. rewrite length_take, !length_app, length_replicate. lia.
  - rewrite (@password_roundtrip sample_argon #"hunter2" #"0123456789abcdef" _ #"hunter3"); [by vm_compute| |reflexivity|reflexivity].
    intros. unfold IDKey, sample_argon. rewrite length_take, !length_app, length_replicate. lia.
Defined.
