(* ===== verification/IdentityStore.v ===== *)
(** * The identity database

    The tables and repositories behind console logins
    ([internal/storage/identity_repository.go] with the user lookups of
    [repository.go]), and request handlers as sequences of database
    transactions.

    [idb] is one state of the database.  A repository method is a function on
    it.  A handler is a [prog]: it performs atomic actions (a transaction, a
    single statement outside one, or a clock reading), each on whatever state
    the database is in when its turn comes, so handlers of concurrent requests
    interleave between any two actions and a failing connection is a handler
    that stops early.  The clock is read once per action.  The base64 text of
    encrypted columns and the detail text of audit rows are left out. *)

From stdpp Require Import base list gmap sets strings relations.
From Stdlib Require Import Ascii ZArith Lia.
From S2P Require Import Prelude GoStrings GoCrypto GoHmac SecondFactor.
Local Open Scope Z_scope.

(** ** Rows *)

Inductive MFAMode := MFAModeDisabled | MFAModeOptional | MFAModeRequired.
Inductive MFAStatus := MFAStatusPending | MFAStatusEnabled.
Inductive ChallengeKind := ChallengeKindLoginMFA | ChallengeKindOIDCState | ChallengeKindLoginTicket.

#[global] Instance MFAMode_eq_dec : EqDecision MFAMode.
Proof. solve_decision. Defined.
#[global] Instance MFAStatus_eq_dec : EqDecision MFAStatus.
Proof. solve_decision. Defined.
#[global] Instance ChallengeKind_eq_dec : EqDecision ChallengeKind.
Proof. solve_decision. Defined.

Definition PasswordHashNone : bytes := #"*".

Record Account := mkAccount {
  ac_ID : bytes;
  ac_Username : bytes;
  ac_PasswordHash : bytes;
  ac_Disabled : bool;
  ac_DeletedAt : option Z;
  ac_MFARequired : bool;
}.

Record AuthSettings := mkSettings {
  as_MFAMode : MFAMode;
  as_DeviceTrustEnabled : bool;
  as_DeviceTrustTTLSeconds : Z;
  as_AllowTrustedDeviceBypass : bool;
  as_MaxTrustedDevices : Z;
  as_SessionTokenTTLSeconds : Z;
}.

(** A sealed value: ciphertext, nonce, key identifier and version. *)
Record envelope := mkEnvelope { en_Ciphertext : bytes; en_Nonce : bytes; en_KeyID : bytes; en_Version : Z }.

Record UserMFA := mkMFA {
  um_Secret : envelope;
  um_Status : MFAStatus;
  um_EnrolledAt : Z;
  um_EnabledAt : option Z;
  um_LastUsedAt : option Z;
  um_LastUsedStep : Z;
}.

Record RecoveryCode := mkRecovery { rc_UserID : bytes; rc_Hash : bytes; rc_UsedAt : option Z }.

Record UserDevice := mkDevice {
  ud_ID : bytes;
  ud_UserID : bytes;
  ud_TokenHash : bytes;
  ud_Name : bytes;
  ud_UserAgent : bytes;
  ud_IP : bytes;
  ud_TrustedAt : Z;
  ud_ExpiresAt : Z;
  ud_LastSeenAt : option Z;
  ud_RevokedAt : option Z;
}.

Record AuthChallenge := mkChallenge {
  ch_Kind : ChallengeKind;
  ch_UserID : bytes;
  ch_Payload : envelope;
  ch_Attempts : Z;
  ch_MaxAttempts : Z;
  ch_ConsumedAt : option Z;
  ch_ExpiresAt : Z;
  ch_CreatedAt : Z;
}.

Record AuthLoginAttempt := mkAttempt { la_Attempts : Z; la_WindowStart : Z; la_BlockedUntil : option Z; la_UpdatedAt : Z }.

Record APIToken := mkAPIToken { at_UserID : bytes; at_TokenHash : bytes; at_ExpiresAt : option Z; at_RevokedAt : option Z }.

Record AuditLog := mkAudit { au_ActorUserID : bytes; au_Action : bytes; au_ResourceType : bytes; au_ResourceID : bytes }.

Record idb := mkIDB {
  d_users : gmap bytes Account;
  d_settings : option AuthSettings;
  d_mfa : gmap bytes UserMFA;
  d_codes : list RecoveryCode;
  d_devices : gmap bytes UserDevice;
  d_challenges : gmap bytes AuthChallenge;
  d_attempts : gmap bytes AuthLoginAttempt;
  d_tokens : list APIToken;
  d_audits : list AuditLog;
}.

Definition set_settings (d : idb) (x : option AuthSettings) : idb :=
  mkIDB (d_users d) x (d_mfa d) (d_codes d) (d_devices d) (d_challenges d) (d_attempts d) (d_tokens d) (d_audits d).
Definition set_mfa (d : idb) (x : gmap bytes UserMFA) : idb :=
  mkIDB (d_users d) (d_settings d) x (d_codes d) (d_devices d) (d_challenges d) (d_attempts d) (d_tokens d) (d_audits d).
Definition set_codes (d : idb) (x : list RecoveryCode) : idb :=
  mkIDB (d_users d) (d_settings d) (d_mfa d) x (d_devices d) (d_challenges d) (d_attempts d) (d_tokens d) (d_audits d).
Definition set_devices (d : idb) (x : gmap bytes UserDevice) : idb :=
  mkIDB (d_users d) (d_settings d) (d_mfa d) (d_codes d) x (d_challenges d) (d_attempts d) (d_tokens d) (d_audits d).
Definition set_challenges (d : idb) (x : gmap bytes AuthChallenge) : idb :=
  mkIDB (d_users d) (d_settings d) (d_mfa d) (d_codes d) (d_devices d) x (d_attempts d) (d_tokens d) (d_audits d).
Definition set_attempts (d : idb) (x : gmap bytes AuthLoginAttempt) : idb :=
  mkIDB (d_users d) (d_settings d) (d_mfa d) (d_codes d) (d_devices d) (d_challenges d) x (d_tokens d) (d_audits d).
Definition set_tokens (d : idb) (x : list APIToken) : idb :=
  mkIDB (d_users d) (d_settings d) (d_mfa d) (d_codes d) (d_devices d) (d_challenges d) (d_attempts d) x (d_audits d).
Definition audits_Create (d : idb) (a : AuditLog) : idb :=
  mkIDB (d_users d) (d_settings d) (d_mfa d) (d_codes d) (d_devices d) (d_challenges d) (d_attempts d) (d_tokens d) (d_audits d ++ [a]).

Inductive id_err :=
| ErrNoRows | ErrDuplicate | ErrMFAStepReplay | ErrUserIDRequired
| ErrSecretStorageUnavailable | ErrMFANotEnrolled | ErrMFAPendingNotConfirmed | ErrMFACodeInvalid | ErrMFAReplayDetected
| ErrMFARequiredByPolicy | ErrMFAAlreadyEnabled | ErrCurrentPasswordRequired | ErrCurrentPasswordInvalid
| ErrDeviceTrustDisabled | ErrDeviceNotFound | ErrForbidden
| ErrLoginThrottled (retryAfter : Z) | ErrChallengeInvalid | ErrChallengeExhausted | ErrInvalidLogin
| ErrAuthPolicyInvalid | ErrUnauthenticated | ErrPayloadRequired | ErrRecoveryCodes | ErrEncrypt | ErrDecrypt | ErrTOTP (e : totp_err).

(** ** Users and settings *)

(** [SELECT ... WHERE username=?] under the unique index. *)
Definition users_GetByUsername (d : idb) (name : bytes) : option Account :=
  snd <$> head (map_to_list (filter (fun kv => ac_Username kv.2 = name) (d_users d))).

Definition settings_SeedIfMissing (d : idb) (defaults : AuthSettings) : idb * AuthSettings :=
  match d_settings d with
  | Some existing => (d, existing)
  | None => (set_settings d (Some defaults), defaults)
  end.

Definition settings_Update (d : idb) (s : AuthSettings) : result idb id_err :=
  match d_settings d with
  | Some _ => Ok (set_settings d (Some s))
  | None => Err ErrNoRows
  end.

(** ** Second factors *)

(** An insert, or for an existing row an update that resets the guard. *)
Definition mfa_Upsert (d : idb) (userID : bytes) (v : UserMFA) : result idb id_err :=
  if bool_decide (userID = []) then Err ErrUserIDRequired
  else match d_mfa d !! userID with
  | None => Ok (set_mfa d (<[userID := v]> (d_mfa d)))
  | Some _ => Ok (set_mfa d (<[userID := mkMFA (um_Secret v) (um_Status v) (um_EnrolledAt v) None None (-1)]> (d_mfa d)))
  end.

Definition mfa_SetStatus (d : idb) (userID : bytes) (status : MFAStatus) (when : Z) : result idb id_err :=
  match d_mfa d !! userID with
  | None => Err ErrNoRows
  | Some r => Ok (set_mfa d (<[userID := mkMFA (um_Secret r) status (um_EnrolledAt r) (Some when) (um_LastUsedAt r) (um_LastUsedStep r)]> (d_mfa d)))
  end.

(** [UPDATE ... WHERE user_id=? AND last_used_step<?] *)
Definition mfa_MarkUsed (d : idb) (userID : bytes) (step when : Z) : result idb id_err :=
  match d_mfa d !! userID with
  | Some r =>
      if um_LastUsedStep r <? step
      then Ok (set_mfa d (<[userID := mkMFA (um_Secret r) (um_Status r) (um_EnrolledAt r) (um_EnabledAt r) (Some when) step]> (d_mfa d)))
      else Err ErrMFAStepReplay
  | None => Err ErrMFAStepReplay
  end.

Definition mfa_TouchLastUsed (d : idb) (userID : bytes) (when : Z) : idb :=
  match d_mfa d !! userID with
  | Some r => set_mfa d (<[userID := mkMFA (um_Secret r) (um_Status r) (um_EnrolledAt r) (um_EnabledAt r) (Some when) (um_LastUsedStep r)]> (d_mfa d))
  | None => d
  end.

(** The callers ignore a missing row. *)
Definition mfa_Delete (d : idb) (userID : bytes) : idb := set_mfa d (delete userID (d_mfa d)).

(** ** Recovery codes *)

Definition codes_DeleteByUser (d : idb) (userID : bytes) : idb :=
  set_codes d (filter (fun c => rc_UserID c <> userID) (d_codes d)).

Fixpoint insert_codes (userID : bytes) (hashes : list bytes) (rows : list RecoveryCode) : result (list RecoveryCode) id_err :=
  match hashes with
  | [] => Ok rows
  | h :: hashes' =>
      if existsb (fun c => seq_eqb (rc_Hash c) h) rows then Err ErrDuplicate
      else insert_codes userID hashes' (rows ++ [mkRecovery userID h None])
  end.

Definition codes_ReplaceAll (d : idb) (userID : bytes) (hashes : list bytes) : result idb id_err :=
  if bool_decide (userID = []) then Err ErrUserIDRequired
  else
    let d := codes_DeleteByUser d userID in
    let! rows := insert_codes userID hashes (d_codes d) in Ok (set_codes d rows).

Definition code_matches (userID hash : bytes) (c : RecoveryCode) : bool :=
  seq_eqb (rc_UserID c) userID && seq_eqb (rc_Hash c) hash && bool_decide (rc_UsedAt c = None).

Definition codes_Consume (d : idb) (userID hash : bytes) (now : Z) : idb * bool :=
  (set_codes d ((fun c => if code_matches userID hash c then mkRecovery (rc_UserID c) (rc_Hash c) (Some now) else c) <$> d_codes d),
   existsb (code_matches userID hash) (d_codes d)).

Definition codes_CountUnused (d : idb) (userID : bytes) : Z :=
  Z.of_nat (length (List.filter (fun c => seq_eqb (rc_UserID c) userID && bool_decide (rc_UsedAt c = None)) (d_codes d))).

(** ** Trusted devices *)

Definition device_active (u : UserDevice) (userID : bytes) (now : Z) : bool :=
  seq_eqb (ud_UserID u) userID && bool_decide (ud_RevokedAt u = None) && (now <? ud_ExpiresAt u).

Definition truncateField `{GoUnicode} (value : bytes) (max : nat) : bytes := take max (TrimSpace value).

Definition devices_Create `{GoUnicode} (d : idb) (v : UserDevice) : result idb id_err :=
  if bool_decide (is_Some (d_devices d !! ud_ID v)) || bool_decide (map_Exists (fun _ u => ud_TokenHash u = ud_TokenHash v) (d_devices d)) then Err ErrDuplicate
  else Ok (set_devices d (<[ud_ID v := mkDevice (ud_ID v) (ud_UserID v) (ud_TokenHash v) (ud_Name v) (truncateField (ud_UserAgent v) 512)
             (truncateField (ud_IP v) 64) (ud_TrustedAt v) (ud_ExpiresAt v) (ud_LastSeenAt v) (ud_RevokedAt v)]> (d_devices d))).

Definition devices_GetByTokenHash (d : idb) (hash : bytes) : option UserDevice :=
  if bool_decide (hash = []) then None
  else snd <$> head (map_to_list (filter (fun kv => ud_TokenHash kv.2 = hash) (d_devices d))).

Definition devices_Get (d : idb) (userID deviceID : bytes) : option UserDevice :=
  u ← d_devices d !! deviceID; if seq_eqb (ud_UserID u) userID then Some u else None.

Definition touch_device (u : UserDevice) (seen : option Z) (revoked : option Z) (name : bytes) : UserDevice :=
  mkDevice (ud_ID u) (ud_UserID u) (ud_TokenHash u) name (ud_UserAgent u) (ud_IP u) (ud_TrustedAt u) (ud_ExpiresAt u) seen revoked.

Definition devices_Rename `{GoUnicode} (d : idb) (userID deviceID name : bytes) : result idb id_err :=
  match devices_Get d userID deviceID with
  | None => Err ErrNoRows
  | Some u => Ok (set_devices d (<[deviceID := touch_device u (ud_LastSeenAt u) (ud_RevokedAt u) (truncateField name 191)]> (d_devices d)))
  end.

Definition devices_Touch (d : idb) (id : bytes) (when : Z) : idb :=
  match d_devices d !! id with
  | None => d
  | Some u => set_devices d (<[id := touch_device u (Some when) (ud_RevokedAt u) (ud_Name u)]> (d_devices d))
  end.

Definition revoked_at (u : UserDevice) (when : Z) : option Z := Some (default when (ud_RevokedAt u)).

Definition devices_Revoke (d : idb) (userID deviceID : bytes) (when : Z) : result idb id_err :=
  match devices_Get d userID deviceID with
  | None => Err ErrNoRows
  | Some u => Ok (set_devices d (<[deviceID := touch_device u (ud_LastSeenAt u) (revoked_at u when) (ud_Name u)]> (d_devices d)))
  end.

Definition devices_RevokeAllForUser (d : idb) (userID : bytes) (when : Z) : idb * Z :=
  (set_devices d ((fun u => if seq_eqb (ud_UserID u) userID then touch_device u (ud_LastSeenAt u) (revoked_at u when) (ud_Name u) else u) <$> d_devices d),
   Z.of_nat (size (filter (fun kv => ud_UserID kv.2 = userID /\ ud_RevokedAt kv.2 = None) (d_devices d)))).

Definition active_devices (d : idb) (userID : bytes) (now : Z) : list UserDevice :=
  List.filter (fun u => device_active u userID now) (map_to_list (d_devices d)).*2.

Definition devices_CountActive (d : idb) (userID : bytes) (now : Z) : Z := Z.of_nat (length (active_devices d userID now)).

(** [ORDER BY COALESCE(last_seen_at, trusted_at), id] *)
Definition seen_before (a b : UserDevice) : bool :=
  let s u := default (ud_TrustedAt u) (ud_LastSeenAt u) in
  (s a <? s b) || ((s a =? s b) && str_ltb (ud_ID a) (ud_ID b)).

Definition devices_OldestActive (d : idb) (userID : bytes) (now : Z) : option UserDevice := head (sort_by seen_before (active_devices d userID now)).

Definition devices_DeleteExpired (d : idb) (olderThan : Z) : idb :=
  set_devices d (filter (fun kv => (ud_ExpiresAt kv.2 <? olderThan) || match ud_RevokedAt kv.2 with Some r => r <? olderThan | None => false end = false) (d_devices d)).

(** ** Challenges *)

Definition challenges_Create (d : idb) (id : bytes) (v : AuthChallenge) : result idb id_err :=
  if bool_decide (id = []) || bool_decide (en_Ciphertext (ch_Payload v) = []) then Err ErrPayloadRequired
  else if bool_decide (is_Some (d_challenges d !! id)) then Err ErrDuplicate
  else
    let maxAttempts := if ch_MaxAttempts v <=? 0 then 1 else ch_MaxAttempts v in
    Ok (set_challenges d (<[id := mkChallenge (ch_Kind v) (ch_UserID v) (ch_Payload v) (ch_Attempts v) maxAttempts (ch_ConsumedAt v) (ch_ExpiresAt v) (ch_CreatedAt v)]> (d_challenges d))).

Definition set_consumed (c : AuthChallenge) (when : option Z) : AuthChallenge :=
  mkChallenge (ch_Kind c) (ch_UserID c) (ch_Payload c) (ch_Attempts c) (ch_MaxAttempts c) when (ch_ExpiresAt c) (ch_CreatedAt c).

Definition challenges_Consume (d : idb) (id : bytes) (when : Z) : idb * bool :=
  match d_challenges d !! id with
  | Some c => if bool_decide (ch_ConsumedAt c = None) then (set_challenges d (<[id := set_consumed c (Some when)]> (d_challenges d)), true) else (d, false)
  | None => (d, false)
  end.

Definition add_attempt (c : AuthChallenge) (now : Z) : AuthChallenge :=
  let attempts := ch_Attempts c + 1 in
  mkChallenge (ch_Kind c) (ch_UserID c) (ch_Payload c) attempts (ch_MaxAttempts c) (if ch_MaxAttempts c <=? attempts then Some now else None) (ch_ExpiresAt c) (ch_CreatedAt c).

Definition challenges_IncrementAttempts (d : idb) (id : bytes) (now : Z) : idb * (Z * bool) :=
  match d_challenges d !! id with
  | Some c =>
      if bool_decide (ch_ConsumedAt c = None)
      then (set_challenges d (<[id := add_attempt c now]> (d_challenges d)), (ch_Attempts c + 1, ch_MaxAttempts c <=? ch_Attempts c + 1))
      else (d, (0, true))
  | None => (d, (0, true))
  end.

Definition challenges_DeleteExpired (d : idb) (now : Z) : idb :=
  set_challenges d (filter (fun kv => ~ (ch_ExpiresAt kv.2 < now)) (d_challenges d)).

(** ** Login attempts: single statements on the connection pool *)

(** The first statement of [RegisterFailure]; [false] when there is no row. *)
Definition attempts_bump (d : idb) (key : bytes) (window now : Z) : idb * bool :=
  match d_attempts d !! key with
  | Some r =>
      let fresh := la_WindowStart r <? now - window in
      (set_attempts d (<[key := mkAttempt (if fresh then 1 else la_Attempts r + 1) (if fresh then now else la_WindowStart r) None now]> (d_attempts d)), true)
  | None => (d, false)
  end.

(** The insert of a first failure; a row that appeared meanwhile wins. *)
Definition attempts_insert (d : idb) (key : bytes) (now : Z) : idb :=
  if bool_decide (is_Some (d_attempts d !! key)) then d else set_attempts d (<[key := mkAttempt 1 now None now]> (d_attempts d)).

Definition attempts_block (d : idb) (key : bytes) (now block : Z) : idb :=
  match d_attempts d !! key with
  | Some r => set_attempts d (<[key := mkAttempt (la_Attempts r) (la_WindowStart r) (Some (now + block)) now]> (d_attempts d))
  | None => d
  end.

(** How long the bucket stays blocked; a failed read reads as no row. *)
Definition attempts_IsBlocked (d : idb) (key : bytes) (now : Z) : option Z :=
  match d_attempts d !! key with
  | Some r =>
      match la_BlockedUntil r with
      | Some until => if negb (now <? until) then None else Some ((until - now + Second / 2) / Second * Second + Second)
      | None => None
      end
  | None => None
  end.

Definition attempts_RegisterSuccess (d : idb) (key : bytes) : idb := if bool_decide (key = []) then d else set_attempts d (delete key (d_attempts d)).

Definition attempts_DeleteExpired (d : idb) (olderThan : Z) : idb :=
  set_attempts d (filter (fun kv => ~ (la_UpdatedAt kv.2 < olderThan)) (d_attempts d)).

(** ** Handlers *)

Inductive prog (A : Type) : Type :=
| Ret (a : A)
| Act (X : Type) (f : Z -> idb -> idb * X) (k : X -> prog A).
Arguments Ret {A}.
Arguments Act {A X}.

Fixpoint pbind {A B} (p : prog A) (g : A -> prog B) : prog B :=
  match p with
  | Ret a => g a
  | Act f k => Act f (fun x => pbind (k x) g)
  end.

(** Sequencing that stops at the first error. *)
Definition pthen {A B E} (p : prog (result A E)) (g : A -> prog (result B E)) : prog (result B E) :=
  pbind p (fun r => match r with Ok a => g a | Err e => Ret (Err e) end).

Declare Scope prog_scope.
Notation "'do!' x := p 'in' k" := (pthen p (fun x => k)) (at level 200, x pattern, p at level 100, k at level 200) : prog_scope.
Notation "'run!' x := p 'in' k" := (pbind p (fun x => k)) (at level 200, x pattern, p at level 100, k at level 200) : prog_scope.
Open Scope prog_scope.

Definition clock : prog Z := Act (fun now d => (d, now)) Ret.

(** A read, and a transaction that an error rolls back. *)
Definition query {X} (f : Z -> idb -> X) : prog X := Act (fun now d => (d, f now d)) Ret.
Definition tx {X} (f : Z -> idb -> result (idb * X) id_err) : prog (result X id_err) :=
  Act (fun now d => match f now d with Ok (d', x) => (d', Ok x) | Err e => (d, Err e) end) Ret.
Definition tx_ {X} (f : Z -> idb -> idb * X) : prog X := Act f Ret.

(** An execution: the clock and the state each action found, any state at all
    since other handlers run in between. *)
Fixpoint exec {A} (p : prog A) (tr : list (Z * idb)) (out : A) : Prop :=
  match p, tr with
  | Ret a, [] => out = a
  | Act f k, (now, d) :: tr' => exec (k (f now d).2) tr' out
  | _, _ => False
  end.

(** The execution of a handler that nothing interferes with. *)
Fixpoint run {A} (p : prog A) (clock : nat -> Z) (d : idb) : idb * A :=
  match p with
  | Ret a => (d, a)
  | Act f k => let '(d', x) := f (clock 0%nat) d in run (k x) (fun n => clock (S n)) d'
  end.

(** Every action of a handler relates the states around it. *)
Fixpoint guarantees {A} (R : Z -> idb -> idb -> Prop) (p : prog A) : Prop :=
  match p with
  | Ret _ => True
  | Act f k => (forall now d, R now d (f now d).1) /\ forall x, guarantees R (k x)
  end.

(** Concurrent requests: new handlers arrive, and any of them takes its next
    action. *)
Inductive pool_step (handler : prog unit -> Prop) : idb * list (prog unit) -> idb * list (prog unit) -> Prop :=
| pool_spawn d ps p : handler p -> pool_step handler (d, ps) (d, ps ++ [p])
| pool_act d ps i X (f : Z -> idb -> idb * X) k now : ps !! i = Some (Act f k) -> pool_step handler (d, ps) ((f now d).1, <[i := k (f now d).2]> ps).

Lemma guarantees_bind {A B} R (p : prog A) (g : A -> prog B) : guarantees R p -> (forall a, guarantees R (g a)) -> guarantees R (pbind p g).
Proof. intros Hp Hg. induction p as [a|X f k IH]; cbn in *; [apply Hg|]. destruct Hp as [Hf Hk]. split; [exact Hf|]. intros x. by apply IH. Qed.

Lemma guarantees_then {A B E} R (p : prog (result A E)) (g : A -> prog (result B E)) : guarantees R p -> (forall a, guarantees R (g a)) -> guarantees R (pthen p g).
Proof. intros Hp Hg. apply guarantees_bind; [done|]. by intros [a|e]. Qed.

Lemma guarantees_mono {A} (R R' : Z -> idb -> idb -> Prop) (p : prog A) : (forall now d d', R now d d' -> R' now d d') -> guarantees R p -> guarantees R' p.
Proof. intros HR. induction p as [a|X f k IH]; cbn; [done|]. intros [Hf Hk]. split; [intros; by apply HR|intros x; by apply IH]. Qed.

(** Whatever the interleaving, the database moves by what the handlers
    guarantee. *)
Lemma pool_moves (handler : prog unit -> Prop) R d ps d' ps' :
  (forall p, handler p -> guarantees R p) -> Forall (guarantees R) ps -> rtc (pool_step handler) (d, ps) (d', ps') ->
  rtc (fun d d' => exists now, R now d d') d d' /\ Forall (guarantees R) ps'.
Proof.
  intros HR Hps Hr. remember (d, ps) as s eqn:Es. remember (d', ps') as s' eqn:Es'. revert d ps d' ps' Es Es' Hps.
  induction Hr as [s|s s1 s2 Hs Hr IH]; intros d ps d' ps' -> Es' Hps; [injection Es' as <- <-; done|].
  inversion Hs as [d0 ps0 p Hp|d0 ps0 i X f k now Hi]; subst.
  - apply (IH d (ps ++ [p]) d' ps'); [done|done|]. apply Forall_app. split; [done|]. constructor; [by apply HR|done].
  - assert (guarantees R (Act f k)) as [Hf Hk] by (by eapply Forall_lookup_1 in Hi).
    destruct (IH (f now d).1 (<[i := k (f now d).2]> ps) d' ps') as [Hd Hp]; [done|done|by apply Forall_insert|].
    split; [|done]. eapply rtc_l; [by exists now|done].
Qed.

(** Executions of composed handlers. *)
Lemma exec_bind {A B} (p : prog A) (g : A -> prog B) tr b : exec (pbind p g) tr b -> exists tr1 tr2 a, tr = tr1 ++ tr2 /\ exec p tr1 a /\ exec (g a) tr2 b.
Proof.
  revert tr. induction p as [a|X f k IH]; intros tr; cbn [pbind]; intros Hx; [by exists [], tr, a|]. destruct tr as [|[now d] tr]; [done|]. cbn [exec] in Hx.
  apply IH in Hx as (tr1 & tr2 & a & -> & H1 & H2). by exists ((now, d) :: tr1), tr2, a.
Qed.

Lemma exec_then {A B E} (p : prog (result A E)) (g : A -> prog (result B E)) tr b : exec (pthen p g) tr (Ok b) ->
  exists tr1 tr2 a, tr = tr1 ++ tr2 /\ exec p tr1 (Ok a) /\ exec (g a) tr2 (Ok b).
Proof. intros (tr1 & tr2 & [a|e] & -> & H1 & H2)%exec_bind; [by exists tr1, tr2, a|]. destruct tr2; done. Qed.

(** The state a single action found. *)
Lemma exec_query {X} (f : Z -> idb -> X) tr x : exec (query f) tr x -> exists now d, tr = [(now, d)] /\ x = f now d.
Proof. destruct tr as [|[now d] [|]]; try done. intros ->. by exists now, d. Qed.

Lemma exec_clock tr now : exec clock tr now -> exists d, tr = [(now, d)].
Proof. destruct tr as [|[n d] [|]]; try done. intros ->. by exists d. Qed.

Lemma exec_tx {X} (f : Z -> idb -> result (idb * X) id_err) tr r : exec (tx f) tr r ->
  exists now d, tr = [(now, d)] /\ match f now d with Ok (_, x) => r = Ok x | Err e => r = Err e end.
Proof. destruct tr as [|[now d] [|]]; try done. cbn. intros ->. exists now, d. split; [done|]. by destruct (f now d) as [[]|]. Qed.

Lemma exec_tx_ {X} (f : Z -> idb -> idb * X) tr x : exec (tx_ f) tr x -> exists now d, tr = [(now, d)] /\ x = (f now d).2.
Proof. destruct tr as [|[now d] [|]]; try done. intros ->. by exists now, d. Qed.

(** The states an undisturbed run goes through: it is one of the executions. *)
Fixpoint run_trace {A} (p : prog A) (clock : nat -> Z) (d : idb) : list (Z * idb) :=
  match p with
  | Ret _ => []
  | Act f k => (clock 0%nat, d) :: run_trace (k (f (clock 0%nat) d).2) (fun n => clock (S n)) (f (clock 0%nat) d).1
  end.

Lemma run_exec {A} (p : prog A) clk d : exec p (run_trace p clk d) (run p clk d).2.
Proof.
  revert clk d. induction p as [a|X f k IH]; intros clk d; [done|]. cbn [run run_trace exec]. destruct (f (clk 0%nat) d) as [d' x]. apply IH.
Qed.

(** A run of a sequence is the runs of its parts, the second with the rest of
    the clock. *)
Lemma run_bind {A B} (p : prog A) (g : A -> prog B) clk d :
  run (pbind p g) clk d = run (g (run p clk d).2) (fun i => clk (length (run_trace p clk d) + i)%nat) (run p clk d).1.
Proof.
  revert clk d. induction p as [a|X f k IH]; intros clk d; [done|]. cbn [pbind run run_trace]. destruct (f (clk 0%nat) d) as [d' x]. cbn [fst snd]. by rewrite IH.
Qed.
