(* ===== verification/Login.v ===== *)
(** * Console logins and second factors

    [internal/auth]: the challenge store ([challenge.go]), the second-factor
    service ([mfa_service.go]), trusted devices ([device_service.go]), the
    effective policy ([policy.go], [auth_policy_service.go]), console tokens
    ([service.go]) and the login flow ([login_service.go]).

    Every service method is a handler of [IdentityStore]: the transactions and
    reads of the source in their order, with the decisions between them.  The
    random values a handler draws are its arguments; the secret provider is the
    source's interface of that name. *)

From stdpp Require Import base list gmap sets strings relations.
From Stdlib Require Import Ascii ZArith Lia.
From S2P Require Import Prelude GoStrings GoCrypto GoJson Credentials GoHmac SecondFactor IdentityStore.
Local Open Scope Z_scope.

(** [SecretProvider]: whether a key is configured, sealing (with the nonce
    drawn for it) and opening. *)
Class SecretProvider := {
  Available : bool;
  Encrypt : bytes -> bytes -> option envelope;
  Decrypt : envelope -> option bytes;
}.

Definition Minute : Z := 60 * Second.
Definition Hour : Z := 60 * Minute.

(** ** The effective policy *)

Record AuthPolicy := mkAuthPolicy {
  po_Mode : MFAMode;
  po_Required : bool;
  po_DeviceTrustEnabled : bool;
  po_AllowTrustedDeviceBypass : bool;
  po_SessionTokenTTL : Z;
}.

Definition ResolvePolicy (settings : AuthSettings) (user : Account) (mfaEnabled : bool) : AuthPolicy :=
  let required :=
    if ac_MFARequired user then true
    else match as_MFAMode settings with
    | MFAModeRequired => true
    | MFAModeOptional => mfaEnabled
    | MFAModeDisabled => false
    end in
  mkAuthPolicy (as_MFAMode settings) required (as_DeviceTrustEnabled settings) (as_AllowTrustedDeviceBypass settings && as_DeviceTrustEnabled settings)
    (as_SessionTokenTTLSeconds settings * Second).

Definition DefaultAuthSettings (mode : MFAMode) (deviceTrust bypass : bool) (deviceTTL maxDevices sessionTTL : Z) : AuthSettings :=
  let deviceTTL := if deviceTTL <=? 0 then 30 * 24 * Hour else deviceTTL in
  let maxDevices := if maxDevices <=? 0 then 10 else maxDevices in
  let sessionTTL := if sessionTTL <? 0 then 0 else sessionTTL in
  mkSettings mode deviceTrust (Z.quot deviceTTL Second) bypass maxDevices (Z.quot sessionTTL Second).

Definition MinDeviceTrustTTLSeconds : Z := 3600.
Definition MaxDeviceTrustTTLSeconds : Z := 7776000.
Definition MinTrustedDevices : Z := 1.
Definition MaxTrustedDevices : Z := 100.

Record AuthPolicyInput := mkPolicyInput {
  pi_MFAMode : bytes;
  pi_DeviceTrustEnabled : bool;
  pi_DeviceTrustTTLSeconds : Z;
  pi_AllowTrustedDeviceBypass : bool;
  pi_MaxTrustedDevices : Z;
  pi_SessionTokenTTLSeconds : Z;
}.

Definition mode_of (s : bytes) : option MFAMode :=
  if seq_eqb s #"disabled" then Some MFAModeDisabled
  else if seq_eqb s #"optional" then Some MFAModeOptional
  else if seq_eqb s #"required" then Some MFAModeRequired
  else None.

(** The settings row of an input that passes [ValidateAuthPolicyInput] *)
Definition ValidateAuthPolicyInput (inp : AuthPolicyInput) : option AuthSettings :=
  match mode_of (pi_MFAMode inp) with
  | None => None
  | Some mode =>
      if (pi_DeviceTrustTTLSeconds inp <? MinDeviceTrustTTLSeconds) || (MaxDeviceTrustTTLSeconds <? pi_DeviceTrustTTLSeconds inp) then None
      else if (pi_MaxTrustedDevices inp <? MinTrustedDevices) || (MaxTrustedDevices <? pi_MaxTrustedDevices inp) then None
      else if pi_SessionTokenTTLSeconds inp <? 0 then None
      else if pi_AllowTrustedDeviceBypass inp && negb (pi_DeviceTrustEnabled inp) then None
      else Some (mkSettings mode (pi_DeviceTrustEnabled inp) (pi_DeviceTrustTTLSeconds inp) (pi_AllowTrustedDeviceBypass inp) (pi_MaxTrustedDevices inp) (pi_SessionTokenTTLSeconds inp))
  end.

(** [AuthPolicyService.Get] and [Update] *)
Definition policy_Get (defaults : AuthSettings) : prog AuthSettings := tx_ (fun _ d => settings_SeedIfMissing d defaults).

Definition policy_Update (defaults : AuthSettings) (actor : bytes) (inp : AuthPolicyInput) : prog (result AuthSettings id_err) :=
  match ValidateAuthPolicyInput inp with
  | None => Ret (Err ErrAuthPolicyInvalid)
  | Some next =>
      run! _ := policy_Get defaults in
      tx (fun _ d => let! d := settings_Update d next in Ok (audits_Create d (mkAudit actor #"auth.policy.update" #"auth_settings" #"global"), next))
  end.

(** ** Challenges *)

Record Challenge := mkChallengeView { cv_ID : bytes; cv_UserID : bytes; cv_Payload : list (bytes * bytes) }.

Definition defaultChallengeTTL : Z := 5 * Minute.

(** The payload's JSON text; its keys are given in order. *)
Definition payload_text (payload : list (bytes * bytes)) : bytes := encode_object ((fun kv => (kv.1, encode_string kv.2)) <$> payload).

(** [json.Unmarshal] into a [map[string]string] *)
Definition payload_of (text : bytes) : option (list (bytes * bytes)) :=
  match parse_json text with
  | Some (JObject ms) => mapM (fun kv => match kv.2 with JString s => Some (kv.1, s) | JNull => Some (kv.1, []) | _ => None end) ms
  | Some JNull => Some []
  | _ => None
  end.

Definition challenge_id (random : bytes) : bytes := #"ch_" ++ randomToken random.

Section services.
Context `{GoUnicode} `{Argon2} `{SecretProvider}.

Definition challenge_Create (kind : ChallengeKind) (userID : bytes) (payload : list (bytes * bytes)) (ttl maxAttempts : Z) (nonce random : bytes) : prog (result bytes id_err) :=
  if negb Available then Ret (Err ErrSecretStorageUnavailable)
  else match Encrypt nonce (payload_text payload) with
  | None => Ret (Err ErrEncrypt)
  | Some sealed =>
      let ttl := if ttl <=? 0 then defaultChallengeTTL else ttl in
      let maxAttempts := if maxAttempts <=? 0 then 1 else maxAttempts in
      run! now := clock in
      tx (fun _ d => let! d := challenges_Create d (challenge_id random) (mkChallenge kind userID sealed 0 maxAttempts None (now + ttl) now) in Ok (d, challenge_id random))
  end.

(** An absent, consumed, expired or foreign row is not told apart. *)
Definition challenge_Load (id : bytes) (kind : ChallengeKind) : prog (result Challenge id_err) :=
  run! row := query (fun _ d => if bool_decide (id = []) then None else d_challenges d !! id) in
  run! now := clock in
  match row with
  | None => Ret (Err ErrChallengeInvalid)
  | Some c =>
      if negb (bool_decide (ch_Kind c = kind)) || bool_decide (is_Some (ch_ConsumedAt c)) || negb (now <? ch_ExpiresAt c) then Ret (Err ErrChallengeInvalid)
      else if negb Available then Ret (Err ErrSecretStorageUnavailable)
      else match Decrypt (ch_Payload c) with
      | None => Ret (Err ErrChallengeInvalid)
      | Some plain =>
          match (if bool_decide (plain = []) then Some [] else payload_of plain) with
          | None => Ret (Err ErrChallengeInvalid)
          | Some payload => Ret (Ok (mkChallengeView id (ch_UserID c) payload))
          end
      end
  end.

Definition challenge_Consume (id : bytes) : prog bool := tx_ (fun now d => challenges_Consume d id now).
Definition challenge_Fail (id : bytes) : prog (Z * bool) := tx_ (fun now d => challenges_IncrementAttempts d id now).

(** ** Second factors *)

Record MFAConfig := mkMFAConfig { mc_Issuer : bytes; mc_Params : TOTPParams; mc_RecoveryCodes : Z; mc_EnrollmentTTL : Z }.

Record VerifyResult := mkVerifyResult { vr_Method : bytes; vr_RemainingRecoveryCodes : Z; vr_RecoveryCodesExhausted : bool }.
Record Enrollment := mkEnrollment { er_Secret : bytes; er_OTPAuthURL : bytes; er_RecoveryCodes : list bytes; er_ExpiresAt : Z }.

Variable mcfg : MFAConfig.

(** The row and whether it is usable: a pending enrolment expires. *)
Definition mfa_usable (row : UserMFA) (now : Z) : bool :=
  negb (bool_decide (um_Status row = MFAStatusPending) && negb (now <? um_EnrolledAt row + mc_EnrollmentTTL mcfg)).

Definition mfa_load (userID : bytes) : prog (option UserMFA) :=
  run! row := query (fun _ d => d_mfa d !! userID) in
  run! now := clock in
  Ret (match row with Some r => if mfa_usable r now then Some r else None | None => None end).

Definition IsEnabled (userID : bytes) : prog bool :=
  run! row := mfa_load userID in Ret (match row with Some r => bool_decide (um_Status r = MFAStatusEnabled) | None => false end).

Definition openSecret (row : UserMFA) : result bytes id_err :=
  if negb Available then Err ErrSecretStorageUnavailable else match Decrypt (um_Secret row) with Some s => Ok s | None => Err ErrDecrypt end.

(** The loaded row must be there and confirmed. *)
Definition require_enabled (row : option UserMFA) : result UserMFA id_err :=
  match row with
  | None => Err ErrMFANotEnrolled
  | Some r => if negb (bool_decide (um_Status r = MFAStatusEnabled)) then Err ErrMFAPendingNotConfirmed else Ok r
  end.

(** The step a code belongs to at a clock reading. *)
Definition check_code (row : UserMFA) (code : bytes) (now : Z) : result Z id_err :=
  let! secret := openSecret row in
  match VerifyTOTP secret code now (mc_Params mcfg) with
  | Err e => Err (ErrTOTP e)
  | Ok None => Err ErrMFACodeInvalid
  | Ok (Some step) => Ok step
  end.

Definition mark_used (d : idb) (userID : bytes) (step now : Z) : result idb id_err :=
  match mfa_MarkUsed d userID step now with
  | Err ErrMFAStepReplay => Err ErrMFAReplayDetected
  | r => r
  end.

Definition remainingRecoveryCodes (userID : bytes) : prog Z := tx_ (fun _ d => (d, codes_CountUnused d userID)).

Definition recovery_tx (userID hash : bytes) (now : Z) (d : idb) : result (idb * option Z) id_err :=
  let '(d', ok) := codes_Consume d userID hash now in
  if negb ok then Ok (d', None)
  else Ok (audits_Create (mfa_TouchLastUsed d' userID now) (mkAudit userID #"auth.mfa.verify" #"user_mfa" userID), Some (codes_CountUnused d' userID)).

Definition verifyRecoveryCode (userID code : bytes) : prog (result VerifyResult id_err) :=
  do! unused := tx (recovery_tx userID (HashRecoveryCode code)) in
  match unused with
  | None => Ret (Err ErrMFACodeInvalid)
  | Some remaining => Ret (Ok (mkVerifyResult #"recovery" remaining (remaining =? 0)))
  end.

Definition totp_tx (userID : bytes) (step now : Z) (d : idb) : result (idb * unit) id_err :=
  let! d := mark_used d userID step now in Ok (audits_Create d (mkAudit userID #"auth.mfa.verify" #"user_mfa" userID), tt).

Definition VerifyCode (userID code : bytes) : prog (result VerifyResult id_err) :=
  run! row := mfa_load userID in
  match require_enabled row with
  | Err e => Ret (Err e)
  | Ok r =>
      if IsRecoveryCode code then verifyRecoveryCode userID code
      else
        run! now := clock in
        match check_code r code now with
        | Err e => Ret (Err e)
        | Ok step =>
            do! _ := tx (totp_tx userID step) in
            run! remaining := remainingRecoveryCodes userID in
            Ret (Ok (mkVerifyResult #"totp" remaining (remaining =? 0)))
        end
  end.

(** [Enroll] on the random bytes of the secret, of the seal and of the codes *)
Definition enroll_tx (userID currentPassword : bytes) (sealed : envelope) (hashes : list bytes) (now : Z) (d : idb) : result (idb * bytes) id_err :=
  match d_users d !! userID with
  | None => Err ErrNoRows
  | Some user =>
      let proved :=
        if bool_decide (ac_PasswordHash user = PasswordHashNone) then Ok tt
        else if bool_decide (currentPassword = []) then Err ErrCurrentPasswordRequired
        else if verifyPassword currentPassword (ac_PasswordHash user) then Ok tt
        else Err ErrCurrentPasswordInvalid in
      let! _ := proved in
      let! d := mfa_Upsert d userID (mkMFA sealed MFAStatusPending now None None (-1)) in
      let! d := codes_ReplaceAll d userID hashes in
      Ok (audits_Create d (mkAudit userID #"auth.mfa.enroll" #"user_mfa" userID), ac_Username user)
  end.

Definition Enroll (userID currentPassword random nonce : bytes) (rnds : list bytes) : prog (result Enrollment id_err) :=
  if negb Available then Ret (Err ErrSecretStorageUnavailable)
  else
    let secret := GenerateTOTPSecret random in
    match Encrypt nonce secret with
    | None => Ret (Err ErrEncrypt)
    | Some sealed =>
        match GenerateRecoveryCodes (mc_RecoveryCodes mcfg) rnds with
        | None => Ret (Err ErrRecoveryCodes)
        | Some (codes, hashes) =>
            do! account := tx (enroll_tx userID currentPassword sealed hashes) in
            match OTPAuthURL (mc_Issuer mcfg) account secret (mc_Params mcfg) with
            | Err e => Ret (Err (ErrTOTP e))
            | Ok url => run! now := clock in Ret (Ok (mkEnrollment secret url codes (now + mc_EnrollmentTTL mcfg)))
            end
        end
    end.

Definition enable_tx (userID : bytes) (step now : Z) (d : idb) : result (idb * unit) id_err :=
  let! d := mark_used d userID step now in
  let! d := mfa_SetStatus d userID MFAStatusEnabled now in
  Ok (audits_Create d (mkAudit userID #"auth.mfa.enable" #"user_mfa" userID), tt).

Definition Enable (userID code : bytes) : prog (result unit id_err) :=
  run! row := mfa_load userID in
  match row with
  | None => Ret (Err ErrMFANotEnrolled)
  | Some r =>
      if bool_decide (um_Status r = MFAStatusEnabled) then Ret (Err ErrMFAAlreadyEnabled)
      else
        run! now := clock in
        match check_code r code now with
        | Err e => Ret (Err e)
        | Ok step => tx (enable_tx userID step)
        end
  end.

(** What [Disable] and [AdminReset] remove, devices included. *)
Definition clear_tx (actor action userID : bytes) (now : Z) (d : idb) : idb * unit :=
  let d := (devices_RevokeAllForUser (codes_DeleteByUser (mfa_Delete d userID) userID) userID now).1 in
  (audits_Create d (mkAudit actor action #"user_mfa" userID), tt).

Definition Disable (userID code : bytes) (policy : AuthPolicy) : prog (result unit id_err) :=
  if po_Required policy then Ret (Err ErrMFARequiredByPolicy)
  else
    run! row := mfa_load userID in
    match require_enabled row with
    | Err e => Ret (Err e)
    | Ok _ =>
        do! _ := VerifyCode userID code in
        run! _ := tx_ (clear_tx userID #"auth.mfa.disable" userID) in Ret (Ok tt)
    end.

Definition AdminReset (actorID userID : bytes) : prog unit := tx_ (clear_tx actorID #"auth.mfa.reset" userID).

Definition regenerate_tx (userID : bytes) (step : Z) (hashes : list bytes) (now : Z) (d : idb) : result (idb * unit) id_err :=
  let! d := mark_used d userID step now in
  let! d := codes_ReplaceAll d userID hashes in
  Ok (audits_Create d (mkAudit userID #"auth.mfa.recovery_regenerate" #"user_mfa" userID), tt).

Definition RegenerateRecoveryCodes (userID code : bytes) (rnds : list bytes) : prog (result (list bytes) id_err) :=
  run! row := mfa_load userID in
  match require_enabled row with
  | Err e => Ret (Err e)
  | Ok r =>
      run! now := clock in
      match check_code r code now with
      | Err e => Ret (Err e)
      | Ok step =>
          match GenerateRecoveryCodes (mc_RecoveryCodes mcfg) rnds with
          | None => Ret (Err ErrRecoveryCodes)
          | Some (codes, hashes) => do! _ := tx (regenerate_tx userID step hashes) in Ret (Ok codes)
          end
      end
  end.

(** ** Trusted devices *)

Record DeviceTrustConfig := mkDeviceTrust { dt_Enabled : bool; dt_TTL : Z; dt_MaxPerUser : Z; dt_TouchThrottle : Z }.

Definition HashDeviceToken (token : bytes) : bytes := hex_bytes (Sum256 (TrimSpace token)).

(** The configuration of one decision under a settings row. *)
Definition with_settings (cfg : DeviceTrustConfig) (s : AuthSettings) : DeviceTrustConfig :=
  mkDeviceTrust (as_DeviceTrustEnabled s)
    (if 0 <? as_DeviceTrustTTLSeconds s then as_DeviceTrustTTLSeconds s * Second else dt_TTL cfg)
    (if 0 <? as_MaxTrustedDevices s then as_MaxTrustedDevices s else dt_MaxPerUser cfg)
    (dt_TouchThrottle cfg).

Definition device_defaults (cfg : DeviceTrustConfig) : AuthSettings :=
  DefaultAuthSettings MFAModeDisabled (dt_Enabled cfg) true (dt_TTL cfg) (dt_MaxPerUser cfg) 0.

Definition effective (cfg : DeviceTrustConfig) (d : idb) : idb * DeviceTrustConfig :=
  let '(d, s) := settings_SeedIfMissing d (device_defaults cfg) in (d, with_settings cfg s).

Definition effectiveForRead (cfg : DeviceTrustConfig) (d : idb) : DeviceTrustConfig :=
  match d_settings d with None => cfg | Some s => with_settings cfg s end.

(** The least recently seen device makes room. *)
Definition evict (d : idb) (userID : bytes) (maxPerUser now clk : Z) : result idb id_err :=
  if maxPerUser <=? devices_CountActive d userID clk then
    match devices_OldestActive d userID clk with
    | None => Ok d
    | Some oldest => devices_Revoke d userID (ud_ID oldest) now
    end
  else Ok d.

Definition device_tx (cfg : DeviceTrustConfig) (userID userAgent ip token deviceID : bytes) (now clk : Z) (d : idb) : result (idb * UserDevice) id_err :=
  let '(d, eff) := effective cfg d in
  if negb (dt_Enabled eff) then Err ErrDeviceTrustDisabled
  else
    let! d := evict d userID (dt_MaxPerUser eff) now clk in
    let v := mkDevice deviceID userID (HashDeviceToken token) [] userAgent ip now (now + dt_TTL eff) (Some now) None in
    let! d := devices_Create d v in
    Ok (audits_Create d (mkAudit userID #"auth.device.trust" #"user_device" deviceID), v).

Definition device_Issue (cfg : DeviceTrustConfig) (userID userAgent ip random idRandom : bytes) : prog (result (bytes * UserDevice) id_err) :=
  if bool_decide (TrimSpace userID = []) then Ret (Err ErrUserIDRequired)
  else
    let token := RawURLEncode random in
    run! now := clock in
    do! device := tx (device_tx cfg userID userAgent ip token (newID #"device" idRandom) now) in
    Ret (Ok (token, device)).

Definition device_Validate (cfg : DeviceTrustConfig) (token : bytes) : prog (option UserDevice) :=
  let token := TrimSpace token in
  if bool_decide (token = []) then Ret None
  else
    run! found := query (fun _ d => if negb (dt_Enabled (effectiveForRead cfg d)) then None else devices_GetByTokenHash d (HashDeviceToken token)) in
    match found with
    | None => Ret None
    | Some device =>
        run! now := clock in
        if bool_decide (is_Some (ud_RevokedAt device)) || negb (now <? ud_ExpiresAt device) then Ret None
        else
          let stale := match ud_LastSeenAt device with None => true | Some seen => dt_TouchThrottle cfg <=? now - seen end in
          if stale then run! _ := tx_ (fun _ d => (devices_Touch d (ud_ID device) now, tt)) in Ret (Some (touch_device device (Some now) (ud_RevokedAt device) (ud_Name device)))
          else Ret (Some device)
    end.

Definition device_Rename (userID deviceID name : bytes) : prog (result unit id_err) :=
  tx (fun _ d => match devices_Get d userID deviceID with None => Err ErrDeviceNotFound | Some _ => let! d := devices_Rename d userID deviceID name in Ok (d, tt) end).

Definition device_Revoke (actorID userID deviceID : bytes) (actorIsAdmin : bool) : prog (result unit id_err) :=
  if negb actorIsAdmin && negb (seq_eqb actorID userID) then Ret (Err ErrForbidden)
  else tx (fun now d =>
    match devices_Get d userID deviceID with
    | None => Err ErrDeviceNotFound
    | Some _ => let! d := devices_Revoke d userID deviceID now in Ok (audits_Create d (mkAudit actorID #"auth.device.revoke" #"user_device" deviceID), tt)
    end).

Definition device_RevokeAll (actorID userID : bytes) (actorIsAdmin : bool) : prog (result Z id_err) :=
  if negb actorIsAdmin && negb (seq_eqb actorID userID) then Ret (Err ErrForbidden)
  else tx (fun now d =>
    let '(d, count) := devices_RevokeAllForUser d userID now in
    if count =? 0 then Ok (d, 0) else Ok (audits_Create d (mkAudit actorID #"auth.device.revoke_all" #"user_device" userID), count)).

(** ** Console tokens *)

Definition tokens_Create (d : idb) (v : APIToken) : result idb id_err :=
  if existsb (fun t => seq_eqb (at_TokenHash t) (at_TokenHash v)) (d_tokens d) then Err ErrDuplicate else Ok (set_tokens d (d_tokens d ++ [v])).

Definition tokens_GetByHash (d : idb) (hash : bytes) : option APIToken := List.find (fun t => seq_eqb (at_TokenHash t) hash) (d_tokens d).

Definition IssueToken (userID : bytes) (ttl : Z) (random : bytes) : prog (result bytes id_err) :=
  if bool_decide (TrimSpace userID = []) then Ret (Err ErrUserIDRequired)
  else
    let plain := randomToken random in
    run! now := clock in
    tx (fun _ d => let! d := tokens_Create d (mkAPIToken userID (hashToken plain) (if 0 <? ttl then Some (now + ttl) else None) None) in Ok (d, plain)).

(** Whether an account may hold a session. *)
Definition active (user : Account) : bool := negb (ac_Disabled user || bool_decide (is_Some (ac_DeletedAt user))).

Definition ValidateToken (plain : bytes) : prog (result Account id_err) :=
  if bool_decide (TrimSpace plain = []) then Ret (Err ErrUnauthenticated)
  else
    run! row := query (fun _ d => tokens_GetByHash d (hashToken plain)) in
    run! now := clock in
    match row with
    | None => Ret (Err ErrUnauthenticated)
    | Some t =>
        if bool_decide (is_Some (at_RevokedAt t)) || match at_ExpiresAt t with Some e => negb (now <? e) | None => false end then Ret (Err ErrUnauthenticated)
        else
          run! user := query (fun _ d => d_users d !! at_UserID t) in
          match user with
          | Some u => if active u then Ret (Ok u) else Ret (Err ErrUnauthenticated)
          | None => Ret (Err ErrUnauthenticated)
          end
    end.

(** ** The login flow *)

Record LoginConfig := mkLoginConfig {
  lc_MaxAttempts : Z;
  lc_Window : Z;
  lc_Block : Z;
  lc_ChallengeTTL : Z;
  lc_ChallengeMaxAttempts : Z;
  lc_Defaults : AuthSettings;
}.

Definition DefaultLoginConfig : LoginConfig :=
  mkLoginConfig 10 (5 * Minute) (10 * Minute) (5 * Minute) 5 (DefaultAuthSettings MFAModeDisabled true true (30 * 24 * Hour) 10 0).

Inductive LoginState := LoginStateAuthenticated | LoginStateMFARequired.

Record LoginRequest := mkLoginRequest {
  lr_Username : bytes;
  lr_Password : bytes;
  lr_ClientIP : bytes;
  lr_UserAgent : bytes;
  lr_TrustDevice : bool;
  lr_DeviceToken : bytes;
}.

(** The outcome without an error; the throttled and the invalid state are the
    errors of those names. *)
Record LoginOutcome := mkOutcome {
  lo_State : LoginState;
  lo_Token : bytes;
  lo_User : Account;
  lo_ChallengeID : bytes;
  lo_Methods : list bytes;
  lo_ExpiresAt : Z;
  lo_Method : bytes;
  lo_DeviceTrusted : bool;
  lo_DeviceToken : bytes;
  lo_DeviceExpiresAt : Z;
  lo_RecoveryCodesExhausted : bool;
}.

(** The random bytes of one login: of the token, the device, its identifier,
    the challenge's seal and its identifier. *)
Record randoms := mkRandoms { rn_Token : bytes; rn_Device : bytes; rn_DeviceID : bytes; rn_Nonce : bytes; rn_Challenge : bytes }.

Variable lcfg : LoginConfig.
(** [None] in a deployment without device trust *)
Variable devices : option DeviceTrustConfig.

Definition loginBucketKey (username clientIP : bytes) : bytes := hex_bytes (Sum256 (ToLower username ++ #"|" ++ TrimSpace clientIP)).

Definition audit (actor action resourceType resourceID : bytes) : prog unit :=
  tx_ (fun _ d => (audits_Create d (mkAudit actor action resourceType resourceID), tt)).

Definition login_settings : prog AuthSettings := tx_ (fun _ d => settings_SeedIfMissing d (lc_Defaults lcfg)).

(** [RegisterFailure]: four statements outside a transaction. *)
Definition RegisterFailure (key : bytes) (window maxAttempts block : Z) : prog (result bool id_err) :=
  if bool_decide (key = []) then Ret (Err ErrPayloadRequired)
  else
    let maxAttempts := if maxAttempts <=? 0 then 1 else maxAttempts in
    run! now := clock in
    run! found := tx_ (fun _ d => attempts_bump d key window now) in
    run! _ := (if found : bool then Ret tt else tx_ (fun _ d => (attempts_insert d key now, tt))) in
    run! row := query (fun _ d => d_attempts d !! key) in
    match row with
    | None => Ret (Err ErrNoRows)
    | Some r =>
        if la_Attempts r <? maxAttempts then Ret (Ok false)
        else run! _ := tx_ (fun _ d => (attempts_block d key now block, tt)) in Ret (Ok true)
    end.

Definition failLogin (bucket userID : bytes) : prog (result LoginOutcome id_err) :=
  do! _ := RegisterFailure bucket (lc_Window lcfg) (lc_MaxAttempts lcfg) (lc_Block lcfg) in
  run! _ := audit userID #"auth.login.failure" #"user" userID in
  Ret (Err ErrInvalidLogin).

(** The session of [issue] without a device, and with one. *)
Definition session (user : Account) (token method : bytes) (trusted : bool) : LoginOutcome :=
  mkOutcome LoginStateAuthenticated token user [] [] 0 method trusted [] 0 false.

Definition with_device (o : LoginOutcome) (token : bytes) (expires : Z) : LoginOutcome :=
  mkOutcome (lo_State o) (lo_Token o) (lo_User o) (lo_ChallengeID o) (lo_Methods o) (lo_ExpiresAt o) (lo_Method o) true token expires (lo_RecoveryCodesExhausted o).

Definition with_exhausted (o : LoginOutcome) (x : bool) : LoginOutcome :=
  mkOutcome (lo_State o) (lo_Token o) (lo_User o) (lo_ChallengeID o) (lo_Methods o) (lo_ExpiresAt o) (lo_Method o) (lo_DeviceTrusted o) (lo_DeviceToken o) (lo_DeviceExpiresAt o) x.

(** Device trust is best effort: a disabled policy does not fail the login. *)
Definition trust_device (o : LoginOutcome) (user : Account) (userAgent clientIP : bytes) (rn : randoms) : prog (result LoginOutcome id_err) :=
  match devices with
  | None => Ret (Ok o)
  | Some cfg =>
      run! r := device_Issue cfg (ac_ID user) userAgent clientIP (rn_Device rn) (rn_DeviceID rn) in
      match r with
      | Err ErrDeviceTrustDisabled => Ret (Ok o)
      | Err e => Ret (Err e)
      | Ok (token, device) => Ret (Ok (with_device o token (ud_ExpiresAt device)))
      end
  end.

Definition issue (user : Account) (method clientIP userAgent : bytes) (trustDevice alreadyTrusted : bool) (policy : AuthPolicy) (rn : randoms) : prog (result LoginOutcome id_err) :=
  do! token := IssueToken (ac_ID user) (po_SessionTokenTTL policy) (rn_Token rn) in
  do! outcome := (if trustDevice then trust_device (session user token method alreadyTrusted) user userAgent clientIP rn else Ret (Ok (session user token method alreadyTrusted))) in
  run! _ := audit (ac_ID user) #"auth.login.success" #"user" (ac_ID user) in
  Ret (Ok outcome).

Definition requireMFA (user : Account) (method clientIP : bytes) (mfaEnabled : bool) (rn : randoms) : prog (result LoginOutcome id_err) :=
  let methods := #"totp" :: (if mfaEnabled then [ #"recovery"] else []) in
  do! id := challenge_Create ChallengeKindLoginMFA (ac_ID user) [(#"ip", clientIP); (#"method", method)] (lc_ChallengeTTL lcfg) (lc_ChallengeMaxAttempts lcfg) (rn_Nonce rn) (rn_Challenge rn) in
  run! _ := audit (ac_ID user) #"auth.login.mfa_required" #"user" (ac_ID user) in
  run! now := clock in
  Ret (Ok (mkOutcome LoginStateMFARequired [] user id methods (now + lc_ChallengeTTL lcfg) [] false [] 0 false)).

(** Whether a presented device token stands in for the second factor. *)
Definition device_bypass (user : Account) (policy : AuthPolicy) (deviceToken : bytes) : prog bool :=
  match devices with
  | Some cfg =>
      if po_AllowTrustedDeviceBypass policy && negb (bool_decide (TrimSpace deviceToken = [])) then
        run! device := device_Validate cfg deviceToken in
        Ret (match device with Some u => seq_eqb (ud_UserID u) (ac_ID user) | None => false end)
      else Ret false
  | None => Ret false
  end.

Definition complete (user : Account) (method clientIP userAgent : bytes) (trustDevice : bool) (deviceToken : bytes) (rn : randoms) : prog (result LoginOutcome id_err) :=
  run! settings := login_settings in
  run! mfaEnabled := IsEnabled (ac_ID user) in
  let policy := ResolvePolicy settings user mfaEnabled in
  if negb (po_Required policy) then issue user method clientIP userAgent trustDevice false policy rn
  else
    run! bypass := device_bypass user policy deviceToken in
    if bypass : bool then issue user method clientIP userAgent false true policy rn
    else requireMFA user method clientIP mfaEnabled rn.

Definition Login (req : LoginRequest) (rn : randoms) : prog (result LoginOutcome id_err) :=
  let username := TrimSpace (lr_Username req) in
  let bucket := loginBucketKey username (lr_ClientIP req) in
  run! blocked := query (fun now d => attempts_IsBlocked d bucket now) in
  match blocked with
  | Some retryAfter => run! _ := audit [] #"auth.login.throttled" #"auth_login_attempt" bucket in Ret (Err (ErrLoginThrottled retryAfter))
  | None =>
      run! user := query (fun _ d => users_GetByUsername d username) in
      match user with
      | None => failLogin bucket []
      | Some u =>
          if negb (active u) || bool_decide (ac_PasswordHash u = PasswordHashNone) || negb (verifyPassword (lr_Password req) (ac_PasswordHash u)) then failLogin bucket (ac_ID u)
          else
            run! _ := tx_ (fun _ d => (attempts_RegisterSuccess d bucket, tt)) in
            complete u #"password" (lr_ClientIP req) (lr_UserAgent req) (lr_TrustDevice req) (lr_DeviceToken req) rn
      end
  end.

(** Only a wrong or replayed code is charged to the challenge. *)
Definition charge (challengeID userID : bytes) (e : id_err) : prog (result LoginOutcome id_err) :=
  run! verdict := challenge_Fail challengeID in
  run! _ := audit userID #"auth.login.failure" #"user" userID in
  Ret (Err (if verdict.2 : bool then ErrChallengeExhausted else e)).

Definition VerifyMFA (challengeID code clientIP userAgent : bytes) (trustDevice : bool) (rn : randoms) : prog (result LoginOutcome id_err) :=
  do! challenge := challenge_Load (TrimSpace challengeID) ChallengeKindLoginMFA in
  run! found := query (fun _ d => d_users d !! cv_UserID challenge) in
  match found with
  | None => Ret (Err ErrInvalidLogin)
  | Some user =>
      if negb (active user) then Ret (Err ErrInvalidLogin)
      else
        run! r := VerifyCode (ac_ID user) code in
        match r with
        | Err ErrMFACodeInvalid => charge (cv_ID challenge) (ac_ID user) ErrMFACodeInvalid
        | Err ErrMFAReplayDetected => charge (cv_ID challenge) (ac_ID user) ErrMFAReplayDetected
        | Err e => Ret (Err e)
        | Ok verified =>
            run! consumed := challenge_Consume (cv_ID challenge) in
            if negb consumed then Ret (Err ErrChallengeInvalid)
            else
              run! settings := login_settings in
              do! outcome := issue user (vr_Method verified) clientIP userAgent trustDevice false (ResolvePolicy settings user true) rn in
              Ret (Ok (with_exhausted outcome (vr_RecoveryCodesExhausted verified)))
        end
  end.

Definition IssueForAuthenticatedUser (user : Account) (method clientIP userAgent : bytes) (trustDevice : bool) (deviceToken : bytes) (rn : randoms) : prog (result LoginOutcome id_err) :=
  let method := if bool_decide (TrimSpace method = []) then #"oidc" else method in
  complete user method clientIP userAgent trustDevice deviceToken rn.

Definition PrepareOIDCLogin (user : Account) (clientIP deviceToken : bytes) (rn : randoms) : prog (result LoginOutcome id_err) :=
  run! settings := login_settings in
  run! mfaEnabled := IsEnabled (ac_ID user) in
  let policy := ResolvePolicy settings user mfaEnabled in
  if negb (po_Required policy) then Ret (Ok (session user [] #"oidc" false))
  else
    run! bypass := device_bypass user policy deviceToken in
    if bypass : bool then Ret (Ok (session user [] #"oidc" true)) else requireMFA user #"oidc" clientIP mfaEnabled rn.

Definition IssueSession (user : Account) (method clientIP userAgent : bytes) (trustDevice alreadyTrusted : bool) (rn : randoms) : prog (result LoginOutcome id_err) :=
  run! settings := login_settings in
  run! mfaEnabled := (if alreadyTrusted then Ret true else IsEnabled (ac_ID user)) in
  issue user method clientIP userAgent trustDevice alreadyTrusted (ResolvePolicy settings user mfaEnabled) rn.

(** The last value under a key, as a decoded map has it. *)
Definition payload_get (payload : list (bytes * bytes)) (key : bytes) : bytes := default [] (snd <$> last (List.filter (fun kv => seq_eqb kv.1 key) payload)).

(** [exchangeOIDCTicket] of the HTTP layer *)
Definition exchangeOIDCTicket (ticket clientIP userAgent : bytes) (trustDevice : bool) (rn : randoms) : prog (result LoginOutcome id_err) :=
  do! challenge := challenge_Load (TrimSpace ticket) ChallengeKindLoginTicket in
  run! consumed := challenge_Consume (cv_ID challenge) in
  if negb consumed then Ret (Err ErrChallengeInvalid)
  else
    run! found := query (fun _ d => d_users d !! cv_UserID challenge) in
    match found with
    | None => Ret (Err ErrChallengeInvalid)
    | Some user =>
        if negb (active user) then Ret (Err ErrChallengeInvalid)
        else IssueSession user #"oidc" clientIP userAgent trustDevice (seq_eqb (payload_get (cv_Payload challenge) #"deviceTrusted") #"true") rn
    end.

(** [AuthMaintenanceSweeper.SweepOnce] *)
Definition SweepOnce (retention : Z) : prog unit :=
  run! now := clock in
  tx_ (fun _ d => (attempts_DeleteExpired (devices_DeleteExpired (challenges_DeleteExpired d now) (now - retention)) (now - retention), tt)).
End services.
