(* ===== verification/LoginSafety.v ===== *)
(** * What a console session proves

    Theorems about the handlers of [Login] under arbitrary interference: what
    the database must have held, at the moments a handler looked, for it to end
    in a session. *)

From stdpp Require Import base list gmap sets strings relations.
From Stdlib Require Import Ascii ZArith Lia.
From S2P Require Import Prelude GoStrings GoCrypto GoJson Credentials GoHmac SecondFactor IdentityStore Login.
Local Open Scope Z_scope.

(** Splits an execution of a handler into those of its parts. *)
Ltac exec_cases :=
  repeat (cbn beta iota in *;
  match goal with
  | H : exec (Ret _) ?tr _ |- _ => destruct tr; [cbn [exec] in H|by destruct H]
  | H : Ok _ = Ok _ |- _ => injection H as H
  | H : Ok _ = Err _ |- _ => discriminate H
  | H : exec (pthen _ _) _ (Ok _) |- _ => let t1 := fresh "tr" in let t2 := fresh "tr" in let a := fresh "a" in apply exec_then in H as (t1 & t2 & a & -> & ? & ?)
  | H : exec (pbind _ _) _ _ |- _ => let t1 := fresh "tr" in let t2 := fresh "tr" in let a := fresh "a" in apply exec_bind in H as (t1 & t2 & a & -> & ? & ?)
  | H : exec (query _) _ _ |- _ => let n := fresh "now" in let d := fresh "d" in apply exec_query in H as (n & d & -> & H); try match type of H with ?x = _ => is_var x; subst x end
  | H : exec clock _ _ |- _ => let d := fresh "d" in apply exec_clock in H as (d & ->)
  | H : exec (tx_ _) _ _ |- _ => let n := fresh "now" in let d := fresh "d" in apply exec_tx_ in H as (n & d & -> & H); try match type of H with ?x = _ => is_var x; subst x end
  | H : exec (tx _) _ (Ok _) |- _ => let n := fresh "now" in let d := fresh "d" in let E := fresh "E" in apply exec_tx in H as (n & d & -> & E)
  end).

Section sessions.
Context `{GoUnicode} `{Argon2} `{SecretProvider}.
Context (mcfg : MFAConfig) (lcfg : LoginConfig) (devices : option DeviceTrustConfig).

(** Whether the database shows a confirmed second factor at a clock reading. *)
Definition factor_enabled (d : idb) (userID : bytes) (now : Z) : bool :=
  match d_mfa d !! userID with
  | Some r => mfa_usable mcfg r now && bool_decide (um_Status r = MFAStatusEnabled)
  | None => false
  end.

(** A device token that is trusted at a clock reading. *)
Definition trusted_device (cfg : DeviceTrustConfig) (d : idb) (token userID : bytes) (now : Z) : Prop :=
  dt_Enabled (effectiveForRead cfg d) = true /\
  exists u, devices_GetByTokenHash d (HashDeviceToken (TrimSpace token)) = Some u /\ ud_RevokedAt u = None /\ now < ud_ExpiresAt u /\ ud_UserID u = userID.

(** What a handler saw that let it skip the second factor. *)
Definition factor_waived (tr : list (Z * idb)) (user : Account) (token : bytes) : Prop :=
  exists n0 d0 n1 d1 n2 d2, (n0, d0) ∈ tr /\ (n1, d1) ∈ tr /\ (n2, d2) ∈ tr /\
  let policy := ResolvePolicy (settings_SeedIfMissing d0 (lc_Defaults lcfg)).2 user (factor_enabled d1 (ac_ID user) n2) in
  po_Required policy = false \/
  po_AllowTrustedDeviceBypass policy = true /\
  exists cfg n3 d3 n4 d4, devices = Some cfg /\ (n3, d3) ∈ tr /\ (n4, d4) ∈ tr /\ trusted_device cfg d3 token (ac_ID user) n4.

Lemma exec_IsEnabled userID tr b : exec (IsEnabled mcfg userID) tr b -> exists n1 d1 n2 d2, tr = [(n1, d1); (n2, d2)] /\ b = factor_enabled d1 userID n2.
Proof.
  unfold IsEnabled, mfa_load. intros Hx. exec_cases. subst. eexists _, _, _, _. split; [done|]. unfold factor_enabled.
  destruct (d_mfa _ !! userID) as [r|]; [|done]. by destruct (mfa_usable _ _ _).
Qed.

Lemma exec_Validate cfg token tr u : exec (device_Validate cfg token) tr (Some u) ->
  exists n3 d3 n4 d4, (n3, d3) ∈ tr /\ (n4, d4) ∈ tr /\ trusted_device cfg d3 token (ud_UserID u) n4.
Proof.
  unfold device_Validate. destruct (bool_decide (TrimSpace token = [])); [intros Hx; by exec_cases|]. intros Hx. exec_cases.
  destruct (dt_Enabled (effectiveForRead cfg d)) eqn:Een; cbn [negb] in *; [|by exec_cases].
  destruct (devices_GetByTokenHash _ _) as [v|] eqn:Eget; [|by exec_cases]. exec_cases. destruct (bool_decide (is_Some (ud_RevokedAt v))) eqn:Erev; cbn [orb] in *; [by exec_cases|].
  destruct (Z.ltb_spec a (ud_ExpiresAt v)) as [Hexp|]; cbn [negb] in *; [|by exec_cases].
  assert (ud_UserID u = ud_UserID v) as -> by (destruct (match ud_LastSeenAt v with None => true | _ => _ end); exec_cases; by simplify_eq).
  exists now, d, a, d0. split_and!; [set_solver|set_solver|]. split; [done|]. exists v. split_and!; [done| |done|done].
  apply bool_decide_eq_false in Erev. by destruct (ud_RevokedAt v); [destruct Erev; eexists|].
Qed.

Lemma exec_bypass user policy token tr : exec (device_bypass devices user policy token) tr true ->
  po_AllowTrustedDeviceBypass policy = true /\
  exists cfg n3 d3 n4 d4, devices = Some cfg /\ (n3, d3) ∈ tr /\ (n4, d4) ∈ tr /\ trusted_device cfg d3 token (ac_ID user) n4.
Proof.
  unfold device_bypass. destruct devices as [cfg|]; [|intros Hx; by exec_cases].
  destruct (po_AllowTrustedDeviceBypass policy); cbn [andb]; [|intros Hx; by exec_cases]. destruct (negb _); [|intros Hx; by exec_cases].
  intros Hx. exec_cases. destruct a as [u|]; [|done]. match goal with Hv : exec (device_Validate _ _) _ _ |- _ => apply exec_Validate in Hv as (n3 & d3 & n4 & d4 & Hd3 & Hd4 & Ht) end. split; [done|].
  match goal with E : true = seq_eqb _ _ |- _ => symmetry in E; apply seq_eqb_eq in E; rewrite <- E end.
  exists cfg, n3, d3, n4, d4. split_and!; [done|set_solver|set_solver|done].
Qed.

(** The outcome of [issue] is a session of the account it was asked for. *)
Lemma exec_issue user method ip agent trust already policy rn tr o : exec (issue devices user method ip agent trust already policy rn) tr (Ok o) ->
  lo_State o = LoginStateAuthenticated /\ lo_User o = user /\ lo_Token o = randomToken (rn_Token rn) /\ lo_Method o = method.
Proof.
  unfold issue. intros Hx. exec_cases. subst. match goal with Hi : exec (IssueToken _ _ _) _ _ |- _ => unfold IssueToken in Hi; destruct (bool_decide _) in Hi end; [by exec_cases|].
  exec_cases. assert (a = randomToken (rn_Token rn)) as ->.
  { match goal with E : match _ with Ok _ => _ | Err _ => _ end |- _ => destruct (tokens_Create _ _) in E; cbn in E; congruence end. }
  destruct trust; [|by exec_cases; simplify_eq]. unfold trust_device in *. destruct devices as [cfg|]; [|by exec_cases; simplify_eq].
  exec_cases. match goal with r : result _ _ |- _ => destruct r as [[token u]|[]] end; exec_cases; by simplify_eq.
Qed.

Lemma exec_complete user method ip agent trust token rn tr o :
  exec (complete mcfg lcfg devices user method ip agent trust token rn) tr (Ok o) -> lo_State o = LoginStateAuthenticated ->
  lo_User o = user /\ lo_Token o = randomToken (rn_Token rn) /\ factor_waived tr user token.
Proof.
  unfold complete, login_settings. intros Hx Hs. exec_cases. match goal with Hi : exec (IsEnabled _ _) _ _ |- _ => apply exec_IsEnabled in Hi as (n1 & d1 & n2 & d2 & -> & ->) end.
  destruct (po_Required _) eqn:Ereq; cbn [negb] in *.
  - exec_cases. match goal with Hb : exec (device_bypass _ _ _ _) _ ?b |- _ => destruct b end.
    + match goal with Hi : exec (issue _ _ _ _ _ _ _ _ _) _ _, Hb : exec (device_bypass _ _ _ _) _ _ |- _ =>
        apply exec_issue in Hi as (_ & -> & -> & _); apply exec_bypass in Hb as (Hallow & cfg & n3 & d3 & n4 & d4 & Hd & Hd3 & Hd4 & Ht) end.
      split_and!; [done|done|]. eexists _, _, n1, d1, n2, d2. split_and!; [by left|set_solver|set_solver|]. right. split; [done|].
      exists cfg, n3, d3, n4, d4. split_and!; [done|set_solver|set_solver|done].
    + unfold requireMFA in *. exec_cases. by subst.
  - match goal with Hi : exec (issue _ _ _ _ _ _ _ _ _) _ _ |- _ => apply exec_issue in Hi as (_ & -> & -> & _) end.
    split_and!; [done|done|]. eexists _, _, n1, d1, n2, d2. split_and!; [by left|set_solver|set_solver|]. by left.
Qed.

(** C6. However other requests interleave with it, a password login that ends
    in a session read an active account of that name whose stored hash the
    password verifies, and afterwards read a policy under which that account
    needed no second factor, or one that lets a trusted device stand in for it
    and a live device of that same account under the presented token. *)
Theorem login_session_earned req rn tr o :
  exec (Login mcfg lcfg devices req rn) tr (Ok o) -> lo_State o = LoginStateAuthenticated ->
  exists n d tr1 tr2, tr = tr1 ++ (n, d) :: tr2 /\
  users_GetByUsername d (TrimSpace (lr_Username req)) = Some (lo_User o) /\ active (lo_User o) = true /\
  ac_PasswordHash (lo_User o) <> PasswordHashNone /\ verifyPassword (lr_Password req) (ac_PasswordHash (lo_User o)) = true /\
  factor_waived tr2 (lo_User o) (lr_DeviceToken req).
Proof.
  unfold Login. intros Hx Hs. exec_cases. destruct (attempts_IsBlocked _ _ _); [by exec_cases|]. exec_cases.
  destruct (users_GetByUsername _ _) as [u|] eqn:Eu; [|by unfold failLogin in *; exec_cases].
  destruct (active u) eqn:Ea; cbn [negb orb] in *; [|by unfold failLogin in *; exec_cases].
  destruct (bool_decide (ac_PasswordHash u = PasswordHashNone)) eqn:En; cbn [orb] in *; [by unfold failLogin in *; exec_cases|].
  destruct (verifyPassword _ _) eqn:Ev; cbn [negb] in *; [|by unfold failLogin in *; exec_cases]. exec_cases.
  match goal with Hc : exec (complete _ _ _ _ _ _ _ _ _ _) _ _ |- _ => destruct (exec_complete _ _ _ _ _ _ _ _ _ Hc Hs) as (-> & _ & n0 & d0' & Hw) end.
  eexists _, _, [_], _. split_and!; [reflexivity|done|done|by apply bool_decide_eq_false in En|done|].
  destruct Hw as (n1 & d1' & n2 & d2' & Hin0 & Hin1 & Hin2 & Hp). exists n0, d0', n1, d1', n2, d2'. split_and!; [set_solver|set_solver|set_solver|].
  destruct Hp as [Hp|(Ha & cfg & n3 & d3 & n4 & d4 & Hd & Hd3 & Hd4 & Ht)]; [by left|right]. split; [done|]. exists cfg, n3, d3, n4, d4. split_and!; [done|set_solver|set_solver|done].
Qed.

(** ** The second step *)

(** A one-time code was checked against the stored secret at one reading of
    the clock, and its step was still unused when it was recorded. *)
Definition totp_accepted (tr : list (Z * idb)) (userID code : bytes) : Prop :=
  exists n1 d1 n2 d2 n3 d3 r r' secret step, (n1, d1) ∈ tr /\ (n2, d2) ∈ tr /\ (n3, d3) ∈ tr /\
  d_mfa d1 !! userID = Some r /\ um_Status r = MFAStatusEnabled /\ openSecret r = Ok secret /\
  VerifyTOTP secret code n2 (mc_Params mcfg) = Ok (Some step) /\ d_mfa d3 !! userID = Some r' /\ um_LastUsedStep r' < step.

(** A recovery code of the account was there and unused when it was spent. *)
Definition recovery_accepted (tr : list (Z * idb)) (userID code : bytes) : Prop :=
  exists n1 d1 n2 d2 r c, (n1, d1) ∈ tr /\ (n2, d2) ∈ tr /\ d_mfa d1 !! userID = Some r /\ um_Status r = MFAStatusEnabled /\
  c ∈ d_codes d2 /\ rc_UserID c = userID /\ rc_Hash c = HashRecoveryCode code /\ rc_UsedAt c = None.

Lemma code_matches_true userID hash c : code_matches userID hash c = true <-> rc_UserID c = userID /\ rc_Hash c = hash /\ rc_UsedAt c = None.
Proof.
  unfold code_matches. rewrite !andb_true_iff, !seq_eqb_eq. split; [|intros (-> & -> & Hu); split; [done|by apply bool_decide_eq_true]].
  intros [[-> ->] Hu]. apply bool_decide_eq_true in Hu. done.
Qed.

Lemma exec_load userID tr r : exec (mfa_load mcfg userID) tr (Some r) -> exists n1 d1 n2 d2, tr = [(n1, d1); (n2, d2)] /\ d_mfa d1 !! userID = Some r.
Proof.
  unfold mfa_load. intros Hx. exec_cases. destruct (d_mfa _ !! userID) as [r0|] eqn:Er; [|done]. destruct (mfa_usable _ _ _); [|done].
  simplify_eq. by eexists _, _, _, _.
Qed.

Lemma require_enabled_ok row r : require_enabled row = Ok r -> row = Some r /\ um_Status r = MFAStatusEnabled.
Proof. destruct row as [r0|]; [|done]. cbn. destruct (bool_decide _) eqn:E; [|done]. intros [= ->]. by apply bool_decide_eq_true in E. Qed.

Lemma mark_used_ok d userID step now d' : mark_used d userID step now = Ok d' -> exists r, d_mfa d !! userID = Some r /\ um_LastUsedStep r < step /\
  d' = set_mfa d (<[userID := mkMFA (um_Secret r) (um_Status r) (um_EnrolledAt r) (um_EnabledAt r) (Some now) step]> (d_mfa d)).
Proof.
  unfold mark_used, mfa_MarkUsed. destruct (d_mfa d !! userID) as [r|]; [|done]. destruct (Z.ltb_spec (um_LastUsedStep r) step); [|done]. intros [= <-]. by exists r.
Qed.

Lemma exec_recovery userID code tr v : exec (verifyRecoveryCode userID code) tr (Ok v) ->
  vr_Method v = #"recovery" /\ exists n d c, tr = [(n, d)] /\ c ∈ d_codes d /\ rc_UserID c = userID /\ rc_Hash c = HashRecoveryCode code /\ rc_UsedAt c = None.
Proof.
  unfold verifyRecoveryCode. intros Hx. exec_cases. destruct a as [n|]; exec_cases. split; [by subst|].
  eexists _, _. unfold recovery_tx in E. cbn [codes_Consume] in E. destruct (existsb _ _) eqn:Ex; cbn [negb] in E; [|done].
  apply existsb_exists in Ex as (c & Hc & Hm). apply code_matches_true in Hm. exists c. split_and!; [done|by apply list_elem_of_In|apply Hm..].
Qed.

Lemma exec_VerifyCode userID code tr v : exec (VerifyCode mcfg userID code) tr (Ok v) ->
  vr_Method v = #"totp" /\ totp_accepted tr userID code \/ vr_Method v = #"recovery" /\ recovery_accepted tr userID code.
Proof.
  unfold VerifyCode. intros Hx. exec_cases. destruct (require_enabled a) as [r|e] eqn:Er; [|by exec_cases]. apply require_enabled_ok in Er as [-> Hst].
  match goal with Hl : exec (mfa_load _ _) _ _ |- _ => apply exec_load in Hl as (n1 & d1 & n1' & d1' & -> & Hr) end.
  destruct (IsRecoveryCode code).
  - right. match goal with Hv : exec (verifyRecoveryCode _ _) _ _ |- _ => apply exec_recovery in Hv as (Hm & n & d & c & -> & Hc) end.
    split; [done|]. exists n1, d1, n, d, r, c. split_and!; [set_solver|set_solver|done|done|apply Hc..].
  - left. exec_cases. destruct (check_code _ _ _ _) as [step|e] eqn:Ec; [|by exec_cases]. unfold remainingRecoveryCodes in *. exec_cases. split; [by subst|].
    unfold check_code in Ec. destruct (openSecret r) as [secret|] eqn:Es; [|done]. cbn [rbind] in Ec. destruct (VerifyTOTP _ _ _ _) as [[st|]|] eqn:Ev; [|done|done].
    injection Ec as ->. destruct (totp_tx _ _ _ _) as [[d' []]|] eqn:Et; [|done]. unfold totp_tx in Et. destruct (mark_used _ _ _ _) as [dm|] eqn:Em; [|done].
    apply mark_used_ok in Em as (r' & Hr' & Hlt & _).
    eexists n1, d1, a, _, _, d2, r, r', secret, step. split_and!; [by left|do 2 right; by left|do 3 right; by left|done..].
Qed.

(** A live challenge of a kind, as a handler read it. *)
Definition live_challenge (d : idb) (id : bytes) (kind : ChallengeKind) (userID : bytes) (now : Z) : Prop :=
  exists c, d_challenges d !! id = Some c /\ ch_Kind c = kind /\ ch_UserID c = userID /\ ch_ConsumedAt c = None /\ now < ch_ExpiresAt c.

Lemma exec_Load id kind tr v : exec (challenge_Load id kind) tr (Ok v) ->
  exists n1 d1 n2 d2, tr = [(n1, d1); (n2, d2)] /\ cv_ID v = id /\ live_challenge d1 id kind (cv_UserID v) n2.
Proof.
  unfold challenge_Load. intros Hx. exec_cases. destruct (bool_decide (id = [])); [by exec_cases|]. destruct (d_challenges d !! id) as [c|] eqn:Ec; [|by exec_cases].
  destruct (bool_decide (ch_Kind c = kind)) eqn:Ek; cbn [negb orb] in *; [|by exec_cases].
  destruct (bool_decide (is_Some (ch_ConsumedAt c))) eqn:Eu; cbn [orb] in *; [by exec_cases|]. destruct (_ <? ch_ExpiresAt c) eqn:El; cbn [negb] in *; [|by exec_cases].
  destruct Available; cbn [negb] in *; [|by exec_cases]. destruct (Decrypt _) as [plain|]; [|by exec_cases]. destruct (if bool_decide _ then _ else _) as [pl|]; [|by exec_cases].
  exec_cases. subst v. eexists _, _, _, _. split_and!; [done|done|]. exists c. split_and!; [done|by apply bool_decide_eq_true in Ek|done| |by apply Z.ltb_lt].
  apply bool_decide_eq_false in Eu. by destruct (ch_ConsumedAt c); [destruct Eu; eexists|].
Qed.

Lemma exec_Consume id tr : exec (challenge_Consume id) tr true -> exists n d c, tr = [(n, d)] /\ d_challenges d !! id = Some c /\ ch_ConsumedAt c = None.
Proof.
  unfold challenge_Consume. intros Hx. exec_cases. eexists _, _. match goal with E : true = _ |- _ => revert E end. unfold challenges_Consume.
  destruct (d_challenges _ !! id) as [c|] eqn:Ec; [|done]. destruct (bool_decide (ch_ConsumedAt c = None)) eqn:E; [|done]. intros _. exists c. split_and!; [done|done|by apply bool_decide_eq_true in E].
Qed.

(** C7. However other requests interleave with it, a second step that ends in
    a session read a live [login_mfa] challenge under the presented identifier,
    then the active account it was opened for, then either a one-time code of
    that account's confirmed secret whose step no earlier code had used, or an
    unused recovery code of that account, and then found the challenge still
    unconsumed when it consumed it. *)
Theorem second_step_earned challengeID code ip agent trust rn tr o :
  exec (VerifyMFA mcfg lcfg devices challengeID code ip agent trust rn) tr (Ok o) ->
  let id := TrimSpace challengeID in
  lo_State o = LoginStateAuthenticated /\ active (lo_User o) = true /\
  exists n1 d1 n2 d2 n3 d3 userID trC n4 d4 c trI, tr = (n1, d1) :: (n2, d2) :: (n3, d3) :: trC ++ (n4, d4) :: trI /\
  live_challenge d1 id ChallengeKindLoginMFA userID n2 /\ d_users d3 !! userID = Some (lo_User o) /\
  (totp_accepted trC (ac_ID (lo_User o)) code \/ recovery_accepted trC (ac_ID (lo_User o)) code) /\
  d_challenges d4 !! id = Some c /\ ch_ConsumedAt c = None.
Proof.
  cbn zeta. unfold VerifyMFA. intros Hx. exec_cases. match goal with Hl : exec (challenge_Load _ _) _ _ |- _ => apply exec_Load in Hl as (n1 & d1 & n2 & d2 & -> & Hid & Hlive) end.
  destruct (d_users d !! cv_UserID a) as [user|] eqn:Eu; [|by exec_cases]. destruct (active user) eqn:Ea; cbn [negb] in *; [|by exec_cases]. exec_cases.
  match goal with Hv : exec (VerifyCode _ _ _) _ ?r |- _ => destruct r as [v|e] end; [|by destruct e; unfold charge in *; exec_cases].
  exec_cases. match goal with Hc : exec (challenge_Consume _) _ ?b |- _ => destruct b end; cbn [negb] in *; [|by exec_cases].
  unfold login_settings in *. exec_cases.
  match goal with Hv : exec (VerifyCode _ _ _) _ _, Hc : exec (challenge_Consume _) _ _, Hi : exec (issue _ _ _ _ _ _ _ _ _) _ _ |- _ =>
    apply exec_VerifyCode in Hv; apply exec_Consume in Hc as (n4 & d4 & c & -> & Hc & Hcn); apply exec_issue in Hi as (Hst & Hu & _) end.
  subst o. cbn [with_exhausted lo_State lo_User]. rewrite Hst, Hu. rewrite Hid in *. split_and!; [done|done|].
  eexists n1, d1, n2, d2, _, _, (cv_UserID a), _, n4, d4, c, _. split_and!; [reflexivity|done|done|tauto|done|done].
Qed.
End sessions.

(** ** A sample deployment *)

(** A provider that marks what it sealed. *)
Definition sample_provider : SecretProvider := {|
  Available := true;
  Encrypt nonce plain := Some (mkEnvelope ("!"%char :: plain) nonce #"default" 1);
  Decrypt e := match en_Ciphertext e with c :: plain => if beq c "!"%char then Some plain else None | [] => None end;
|}.

Definition sample_mfa_config : MFAConfig := mkMFAConfig #"TunnelMesh" (mkTOTPParams 8 (30 * Second) 1) 1 (15 * Minute).
Definition sample_device_config : DeviceTrustConfig := mkDeviceTrust true (30 * 24 * Hour) 10 (5 * Minute).
Definition sample_account : Account :=
  mkAccount #"u1" #"alice" (default [] (@hashPassword sample_argon #"hunter2" #"0123456789abcdef")) false None false.
Definition sample_settings (mode : MFAMode) : AuthSettings := mkSettings mode true 3600 true 2 600.
Definition sample_factor : UserMFA := mkMFA (mkEnvelope ("!"%char :: rfc_secret) [] #"default" 1) MFAStatusEnabled 0 (Some 0) None (-1).
Definition sample_challenge : AuthChallenge :=
  mkChallenge ChallengeKindLoginMFA #"u1" (mkEnvelope (#"!" ++ payload_text [(#"ip", #"10.0.0.1"); (#"method", #"password")]) [] #"default" 1) 0 5 None (300 * Second) 0.
Definition sample_db (mode : MFAMode) : idb :=
  mkIDB {[ #"u1" := sample_account ]} (Some (sample_settings mode)) {[ #"u1" := sample_factor ]} [mkRecovery #"u1" (@HashRecoveryCode ascii_unicode #"tmrc-aaaa") None] ∅ {[ #"ch_1" := sample_challenge ]} ∅ [] [].
Definition sample_request : LoginRequest := mkLoginRequest #" alice" #"hunter2" #"10.0.0.1" #"curl" false [].
Definition sample_randoms : randoms := mkRandoms #"token" #"device" #"id" #"nonce" #"challenge".
Definition sample_clock (n : nat) : Z := 59 * Second.

Notation sample_Login := (@Login ascii_unicode sample_argon sample_provider sample_mfa_config DefaultLoginConfig (Some sample_device_config)).
Notation sample_VerifyMFA := (@VerifyMFA ascii_unicode sample_provider sample_mfa_config DefaultLoginConfig (Some sample_device_config)).

Lemma login_session_earned_witness : exists tr o, exec (sample_Login sample_request sample_randoms) tr (Ok o) /\ lo_State o = LoginStateAuthenticated /\
  @verifyPassword sample_argon #"hunter2" (ac_PasswordHash (lo_User o)) = true.
Proof.
  assert (exists o, (run (sample_Login sample_request sample_randoms) sample_clock (sample_db MFAModeDisabled)).2 = Ok o /\ lo_State o = LoginStateAuthenticated) as (o & E & Hs)
    by (vm_compute; eexists; split; reflexivity).
  pose proof (run_exec (sample_Login sample_request sample_randoms) sample_clock (sample_db MFAModeDisabled)) as Hx. rewrite E in Hx.
  destruct (@login_session_earned ascii_unicode sample_argon sample_provider sample_mfa_config DefaultLoginConfig (Some sample_device_config) _ _ _ _ Hx Hs) as (n & d & tr1 & tr2 & _ & _ & _ & _ & Hv & _).
  eexists _, o. split; [exact Hx|]. split; [exact Hs|exact Hv].
Defined.

Lemma second_step_earned_witness : exists tr o, exec (sample_VerifyMFA #"ch_1" #"94287082" #"10.0.0.1" #"curl" false sample_randoms) tr (Ok o) /\
  lo_State o = LoginStateAuthenticated /\ active (lo_User o) = true.
Proof.
  assert (exists o, (run (sample_VerifyMFA #"ch_1" #"94287082" #"10.0.0.1" #"curl" false sample_randoms) sample_clock (sample_db MFAModeOptional)).2 = Ok o) as (o & E)
    by (vm_compute; eexists; reflexivity).
  pose proof (run_exec (sample_VerifyMFA #"ch_1" #"94287082" #"10.0.0.1" #"curl" false sample_randoms) sample_clock (sample_db MFAModeOptional)) as Hx. rewrite E in Hx.
  destruct (@second_step_earned ascii_unicode sample_provider sample_mfa_config DefaultLoginConfig (Some sample_device_config) _ _ _ _ _ _ _ _ Hx) as (Hs & Ha & _).
  eexists _, o. split; [exact Hx|]. split; [exact Hs|exact Ha].
Defined.
