(* ===== verification/LoginRaces.v ===== *)
(** * Credentials that are spent once

    The identity requests of [Login] running concurrently: whatever their
    interleaving, a consumed challenge, an accepted one-time code and a spent
    recovery code stay spent, and a challenge never outlives its guess budget.

    A run is a path of [pool_step]: requests arrive at any time and each step is
    one transaction of one of them.  [limits] says which challenge identifiers,
    enrolments and recovery codes the requests of a run may bring in, so that a
    theorem can exclude a colliding random draw or a new enrolment. *)

From stdpp Require Import base list gmap sets strings relations.
From Stdlib Require Import Ascii ZArith Lia.
From S2P Require Import Prelude GoStrings GoCrypto GoJson Credentials GoHmac SecondFactor IdentityStore Login LoginSafety.
Local Open Scope Z_scope.

Record limits := mkLimits {
  lm_creates : bytes -> Prop;
  lm_enrolls : bytes -> Prop;
  lm_recodes : bytes -> list bytes -> Prop;
}.

(** The guess budget of a challenge row. *)
Definition within_budget (c : AuthChallenge) : Prop :=
  0 <= ch_Attempts c <= ch_MaxAttempts c /\ (ch_ConsumedAt c = None -> ch_Attempts c < ch_MaxAttempts c).

(** How one row may evolve: a consumed one not at all. *)
Definition evolves (c c' : AuthChallenge) : Prop :=
  (is_Some (ch_ConsumedAt c) -> c' = c) /\ (within_budget c -> within_budget c').

Section requests.
Context `{GoUnicode} `{Argon2} `{SecretProvider}.
Context (mcfg : MFAConfig) (lcfg : LoginConfig) (devices : option DeviceTrustConfig) (lm : limits).

Definition drop_result {A} (p : prog A) : prog unit := run! _ := p in Ret tt.

(** The requests of the identity services. *)
Inductive request : prog unit -> Prop :=
| rq_login req rn : lm_creates lm (challenge_id (rn_Challenge rn)) -> request (drop_result (Login mcfg lcfg devices req rn))
| rq_verify id code ip agent trust rn : request (drop_result (VerifyMFA mcfg lcfg devices id code ip agent trust rn))
| rq_authenticated user method ip agent trust token rn : lm_creates lm (challenge_id (rn_Challenge rn)) ->
    request (drop_result (IssueForAuthenticatedUser mcfg lcfg devices user method ip agent trust token rn))
| rq_prepare user ip token rn : lm_creates lm (challenge_id (rn_Challenge rn)) -> request (drop_result (PrepareOIDCLogin mcfg lcfg devices user ip token rn))
| rq_challenge kind userID payload ttl maxAttempts nonce random : lm_creates lm (challenge_id random) ->
    request (drop_result (challenge_Create kind userID payload ttl maxAttempts nonce random))
| rq_consume id : request (drop_result (challenge_Consume id))
| rq_ticket ticket ip agent trust rn : request (drop_result (exchangeOIDCTicket mcfg lcfg devices ticket ip agent trust rn))
| rq_enroll userID password random nonce rnds codes hashes : lm_enrolls lm userID ->
    GenerateRecoveryCodes (mc_RecoveryCodes mcfg) rnds = Some (codes, hashes) -> lm_recodes lm userID hashes ->
    request (drop_result (Enroll mcfg userID password random nonce rnds))
| rq_enable userID code : request (drop_result (Enable mcfg userID code))
| rq_disable userID code policy : request (drop_result (Disable mcfg userID code policy))
| rq_reset actorID userID : request (drop_result (AdminReset actorID userID))
| rq_regenerate userID code rnds codes hashes : GenerateRecoveryCodes (mc_RecoveryCodes mcfg) rnds = Some (codes, hashes) -> lm_recodes lm userID hashes ->
    request (drop_result (RegenerateRecoveryCodes mcfg userID code rnds))
| rq_device_rename userID deviceID name : request (drop_result (device_Rename userID deviceID name))
| rq_device_revoke actorID userID deviceID admin : request (drop_result (device_Revoke actorID userID deviceID admin))
| rq_device_revoke_all actorID userID admin : request (drop_result (device_RevokeAll actorID userID admin))
| rq_token plain : request (drop_result (ValidateToken plain))
| rq_policy actor inp : request (drop_result (policy_Update (lc_Defaults lcfg) actor inp))
| rq_sweep retention : request (SweepOnce retention).

(** What every transaction of every request does to the three tables. *)
Definition challenge_moves (d d' : idb) : Prop := forall id c', d_challenges d' !! id = Some c' ->
  (exists c, d_challenges d !! id = Some c /\ evolves c c') \/ lm_creates lm id /\ within_budget c'.

Definition mfa_moves (d d' : idb) : Prop := forall userID r', d_mfa d' !! userID = Some r' ->
  (exists r, d_mfa d !! userID = Some r /\ um_LastUsedStep r <= um_LastUsedStep r') \/ lm_enrolls lm userID.

Definition code_moves (d d' : idb) : Prop := forall c, c ∈ d_codes d' -> rc_UsedAt c = None ->
  c ∈ d_codes d \/ exists hashes, lm_recodes lm (rc_UserID c) hashes /\ rc_Hash c ∈ hashes.

Definition moves (now : Z) (d d' : idb) : Prop := challenge_moves d d' /\ mfa_moves d d' /\ code_moves d d'.

#[global] Instance evolves_preorder : PreOrder evolves.
Proof.
  split; [by intros c; split|]. intros a b c [Hab Bab] [Hbc Bbc]. split; [|tauto]. intros Ha. specialize (Hab Ha) as ->. by apply Hbc.
Qed.

#[global] Instance moves_preorder now : PreOrder (moves now).
Proof.
  split.
  - intros d. split_and!; [intros id c E; left; by exists c|intros u r E; left; by exists r|intros c Hc _; by left].
  - intros d1 d2 d3 (C1 & M1 & K1) (C2 & M2 & K2). split_and!.
    + intros id c3 E3. destruct (C2 _ _ E3) as [(c2 & E2 & V2)|?]; [|by right]. destruct (C1 _ _ E2) as [(c1 & E1 & V1)|[Hc B2]]; [|right; split; [done|by apply V2]].
      left. exists c1. split; [done|by etrans].
    + intros u r3 E3. destruct (M2 _ _ E3) as [(r2 & E2 & V2)|?]; [|by right]. destruct (M1 _ _ E2) as [(r1 & E1 & V1)|?]; [|by right]. left. exists r1. split; [done|lia].
    + intros c Hc Hu. destruct (K2 _ Hc Hu) as [Hc2|?]; [|by right]. by apply K1.
Qed.

(** A transaction that leaves the three tables alone. *)
Lemma moves_same now d d' : d_challenges d' = d_challenges d -> d_mfa d' = d_mfa d -> d_codes d' = d_codes d -> moves now d d'.
Proof. intros E1 E2 E3. unfold moves, challenge_moves, mfa_moves, code_moves. rewrite E1, E2, E3. apply (reflexivity (R := moves now)). Qed.

(** A transaction that writes one of them. *)
Lemma moves_mfa now d m : mfa_moves d (set_mfa d m) -> moves now d (set_mfa d m).
Proof. intros Hm. split_and!; [intros id c E; left; by exists c|done|intros c Hc _; by left]. Qed.

Lemma moves_codes now d l : code_moves d (set_codes d l) -> moves now d (set_codes d l).
Proof. intros Hm. split_and!; [intros id c E; left; by exists c|intros u r E; left; by exists r|done]. Qed.

Lemma moves_challenges now d m : challenge_moves d (set_challenges d m) -> moves now d (set_challenges d m).
Proof. intros Hm. split_and!; [done|intros u r E; left; by exists r|intros c Hc _; by left]. Qed.

Lemma mfa_moves_insert d userID r r' : d_mfa d !! userID = Some r -> um_LastUsedStep r <= um_LastUsedStep r' -> mfa_moves d (set_mfa d (<[userID := r']> (d_mfa d))).
Proof.
  intros Hr Hle u v E. cbn in E. destruct (decide (u = userID)) as [->|Hne]; [rewrite lookup_insert_eq in E|rewrite lookup_insert_ne in E by done].
  - injection E as <-. left. by exists r.
  - left. by exists v.
Qed.

Lemma moves_mark_used now d userID step t d' : mark_used d userID step t = Ok d' -> moves now d d'.
Proof. intros (r & Hr & Hlt & ->)%mark_used_ok. apply moves_mfa. eapply mfa_moves_insert; [done|cbn; lia]. Qed.

Lemma moves_SetStatus now d userID status t d' : mfa_SetStatus d userID status t = Ok d' -> moves now d d'.
Proof.
  unfold mfa_SetStatus. destruct (d_mfa d !! userID) as [r|] eqn:Er; [|done]. intros [= <-]. apply moves_mfa. eapply mfa_moves_insert; [done|cbn; lia].
Qed.

Lemma moves_Touch now d userID t : moves now d (mfa_TouchLastUsed d userID t).
Proof.
  unfold mfa_TouchLastUsed. destruct (d_mfa d !! userID) as [r|] eqn:Er; [|reflexivity]. apply moves_mfa. eapply mfa_moves_insert; [done|cbn; lia].
Qed.

Lemma moves_Delete now d userID : moves now d (mfa_Delete d userID).
Proof. apply moves_mfa. intros u r E. cbn in E. apply lookup_delete_Some in E as [_ E]. left. by exists r. Qed.

Lemma moves_Upsert now d userID v d' : lm_enrolls lm userID -> mfa_Upsert d userID v = Ok d' -> moves now d d'.
Proof.
  intros He. unfold mfa_Upsert. destruct (bool_decide _); [done|].
  assert (forall w, moves now d (set_mfa d (<[userID := w]> (d_mfa d)))) as Hw.
  { intros w. apply moves_mfa. intros u r E. cbn in E. destruct (decide (u = userID)) as [->|Hne]; [by right|]. rewrite lookup_insert_ne in E by done. left. by exists r. }
  destruct (d_mfa d !! userID); intros [= <-]; apply Hw.
Qed.

Lemma moves_DeleteByUser now d userID : moves now d (codes_DeleteByUser d userID).
Proof. apply moves_codes. intros c Hc _. cbn in Hc. apply list_elem_of_filter in Hc. left. apply Hc. Qed.

Lemma insert_codes_rows userID hashes rows rows' c : insert_codes userID hashes rows = Ok rows' -> c ∈ rows' -> c ∈ rows \/ rc_UserID c = userID /\ rc_Hash c ∈ hashes.
Proof.
  revert rows. induction hashes as [|h hashes IH]; intros rows; cbn [insert_codes]; [intros [= <-]; tauto|]. destruct (existsb _ _); [done|]. intros E Hc.
  destruct (IH _ E Hc) as [[Hr|Hr]%elem_of_app|[? ?]]; [by left|apply list_elem_of_singleton in Hr as ->; right; split; [done|by left]|right; split; [done|by right]].
Qed.

Lemma moves_ReplaceAll now d userID hashes d' : lm_recodes lm userID hashes -> codes_ReplaceAll d userID hashes = Ok d' -> moves now d d'.
Proof.
  intros Hr. unfold codes_ReplaceAll. destruct (bool_decide _); [done|]. destruct (insert_codes _ _ _) as [rows|] eqn:E; [|done]. intros [= <-].
  etrans; [apply (moves_DeleteByUser now d userID)|]. apply moves_codes. intros c Hc _. destruct (insert_codes_rows _ _ _ _ _ E Hc) as [?|[<- ?]]; [by left|right; by exists hashes].
Qed.

Lemma moves_Consume now d userID hash t : moves now d (codes_Consume d userID hash t).1.
Proof.
  apply moves_codes. intros c Hc Hu. cbn in Hc. apply list_elem_of_fmap in Hc as (c0 & -> & Hc0). destruct (code_matches _ _ _); [done|by left].
Qed.

Lemma challenge_moves_insert d id c c' : d_challenges d !! id = Some c -> evolves c c' -> challenge_moves d (set_challenges d (<[id := c']> (d_challenges d))).
Proof.
  intros Hc Hle i v E. cbn in E. destruct (decide (i = id)) as [->|Hne]; [rewrite lookup_insert_eq in E|rewrite lookup_insert_ne in E by done].
  - injection E as <-. left. by exists c.
  - left. by exists v.
Qed.

Lemma moves_challenges_Consume now d id t : moves now d (challenges_Consume d id t).1.
Proof.
  unfold challenges_Consume. destruct (d_challenges d !! id) as [c|] eqn:Ec; [|reflexivity]. destruct (bool_decide (ch_ConsumedAt c = None)) eqn:En; [|reflexivity].
  apply bool_decide_eq_true in En. apply moves_challenges. eapply challenge_moves_insert; [done|]. split; [rewrite En; by intros [? ?]|].
  intros [Hr Hlt]. split; [done|]. done.
Qed.

Lemma moves_Increment now d id t : moves now d (challenges_IncrementAttempts d id t).1.
Proof.
  unfold challenges_IncrementAttempts. destruct (d_challenges d !! id) as [c|] eqn:Ec; [|reflexivity]. destruct (bool_decide (ch_ConsumedAt c = None)) eqn:En; [|reflexivity].
  apply bool_decide_eq_true in En. apply moves_challenges. eapply challenge_moves_insert; [done|]. split; [rewrite En; by intros [? ?]|].
  intros [Hr Hlt]. specialize (Hlt En). unfold within_budget, add_attempt. cbn. split; [lia|]. destruct (Z.leb_spec (ch_MaxAttempts c) (ch_Attempts c + 1)); [done|lia].
Qed.

Lemma moves_challenges_Create now d id v d' : lm_creates lm id -> ch_Attempts v = 0 -> challenges_Create d id v = Ok d' -> moves now d d'.
Proof.
  intros Hc Ha. unfold challenges_Create. destruct (_ || _); [done|]. destruct (bool_decide _); [done|]. intros [= <-]. apply moves_challenges.
  intros i c E. cbn in E. destruct (decide (i = id)) as [->|Hne]; [rewrite lookup_insert_eq in E; injection E as <-; right|rewrite lookup_insert_ne in E by done; left; by exists c].
  split; [done|]. unfold within_budget. cbn. rewrite Ha. destruct (Z.leb_spec (ch_MaxAttempts v) 0); lia.
Qed.

Lemma moves_DeleteExpired now d t : moves now d (challenges_DeleteExpired d t).
Proof. apply moves_challenges. intros id c E. cbn in E. apply map_lookup_filter_Some in E as [E _]. left. by exists c. Qed.
End requests.


(** ** Every request stays within the moves *)

Lemma guar_query {X} (R : Z -> idb -> idb -> Prop) (f : Z -> idb -> X) : (forall now d, R now d d) -> guarantees R (query f).
Proof. by intros HR. Qed.

Lemma guar_clock (R : Z -> idb -> idb -> Prop) : (forall now d, R now d d) -> guarantees R clock.
Proof. by intros HR. Qed.

Lemma guar_tx_ {X} (R : Z -> idb -> idb -> Prop) (f : Z -> idb -> idb * X) : (forall now d, R now d (f now d).1) -> guarantees R (tx_ f).
Proof. by intros HR. Qed.

Lemma guar_tx {X} (R : Z -> idb -> idb -> Prop) (f : Z -> idb -> result (idb * X) id_err) :
  (forall now d, R now d d) -> (forall now d d' x, f now d = Ok (d', x) -> R now d d') -> guarantees R (tx f).
Proof. intros Hr HR. split; [|done]. intros now d. destruct (f now d) as [[d' x]|e] eqn:E; [by eapply HR|apply Hr]. Qed.

(** Walks a handler down to its transactions. *)
Ltac guar :=
  repeat match goal with
  | |- guarantees _ (Ret _) => exact I
  | |- guarantees _ (pthen _ _) => apply guarantees_then; [|intro]
  | |- guarantees _ (pbind _ _) => apply guarantees_bind; [|intro]
  | |- guarantees _ (query _) => apply guar_query; intros; reflexivity
  | |- guarantees _ clock => apply guar_clock; intros; reflexivity
  | |- guarantees _ (match ?x with _ => _ end) => destruct x eqn:?
  end.

(** Splits a transaction at its fallible steps. *)
Ltac tx_cases := repeat match goal with
  | H : rbind ?r _ = Ok _ |- _ => destruct r eqn:?; cbn [rbind] in H; [|discriminate H]
  | H : Ok _ = Ok _ |- _ => injection H as <- <-
  | H : Err _ = Ok _ |- _ => discriminate H
  | H : match ?x with _ => _ end = Ok _ |- _ => destruct x eqn:?
  end.

Section guarantees.
Context `{GoUnicode} `{Argon2} `{SecretProvider}.
Context (mcfg : MFAConfig) (lcfg : LoginConfig) (devices : option DeviceTrustConfig) (lm : limits).
Notation R := (moves lm).

Lemma moves_audit now d a : R now d (audits_Create d a).
Proof. by apply moves_same. Qed.

Lemma moves_settings now d s : R now d (settings_SeedIfMissing d s).1.
Proof. unfold settings_SeedIfMissing. destruct (d_settings d); [reflexivity|by apply moves_same]. Qed.

Lemma moves_RevokeAll now d userID t : R now d (devices_RevokeAllForUser d userID t).1.
Proof. by apply moves_same. Qed.

Lemma guar_audit a b c e : guarantees R (audit a b c e).
Proof. apply guar_tx_. intros. apply moves_audit. Qed.

Lemma guar_settings : guarantees R (login_settings lcfg).
Proof. apply guar_tx_. intros. apply moves_settings. Qed.

Lemma guar_load userID : guarantees R (mfa_load mcfg userID).
Proof. unfold mfa_load. guar. Qed.

Lemma guar_challenge_Load id kind : guarantees R (challenge_Load id kind).
Proof. unfold challenge_Load. guar. Qed.

Lemma guar_challenge_Create kind userID payload ttl m nonce random : lm_creates lm (challenge_id random) -> guarantees R (challenge_Create kind userID payload ttl m nonce random).
Proof.
  intros Hc. unfold challenge_Create. guar. apply guar_tx; [intros; reflexivity|]. intros now d d' x E. tx_cases. eapply moves_challenges_Create; [exact Hc| |eassumption]. reflexivity.
Qed.

Lemma guar_challenge_Consume id : guarantees R (challenge_Consume id).
Proof. apply guar_tx_. intros. apply moves_challenges_Consume. Qed.

Lemma guar_challenge_Fail id : guarantees R (challenge_Fail id).
Proof. apply guar_tx_. intros. apply moves_Increment. Qed.

Lemma guar_recovery userID hash : guarantees R (tx (recovery_tx userID hash)).
Proof.
  apply guar_tx; [intros; reflexivity|]. intros now d d' x E. unfold recovery_tx in E. pose proof (moves_Consume lm now d userID hash now) as Hm.
  destruct (codes_Consume d userID hash now) as [dc ok]. tx_cases; [exact Hm|]. etrans; [exact Hm|]. etrans; [apply moves_Touch|apply moves_audit].
Qed.

Lemma guar_totp userID step : guarantees R (tx (totp_tx userID step)).
Proof. apply guar_tx; [intros; reflexivity|]. intros now d d' x E. unfold totp_tx in E. tx_cases. etrans; [by eapply moves_mark_used|apply moves_audit]. Qed.

Lemma guar_enable userID step : guarantees R (tx (enable_tx userID step)).
Proof.
  apply guar_tx; [intros; reflexivity|]. intros now d d' x E. unfold enable_tx in E. tx_cases. etrans; [by eapply moves_mark_used|]. etrans; [by eapply moves_SetStatus|apply moves_audit].
Qed.

Lemma guar_clear actor action userID : guarantees R (tx_ (clear_tx actor action userID)).
Proof.
  apply guar_tx_. intros now d. unfold clear_tx. cbn [fst]. etrans; [|apply moves_audit]. etrans; [|apply moves_RevokeAll]. etrans; [apply (moves_Delete lm now d userID)|apply moves_DeleteByUser].
Qed.

Lemma guar_regenerate userID step hashes : lm_recodes lm userID hashes -> guarantees R (tx (regenerate_tx userID step hashes)).
Proof.
  intros Hr. apply guar_tx; [intros; reflexivity|]. intros now d d' x E. unfold regenerate_tx in E. tx_cases. etrans; [by eapply moves_mark_used|]. etrans; [by eapply moves_ReplaceAll|apply moves_audit].
Qed.

Lemma guar_enroll userID password sealed hashes : lm_enrolls lm userID -> lm_recodes lm userID hashes -> guarantees R (tx (enroll_tx userID password sealed hashes)).
Proof.
  intros He Hr. apply guar_tx; [intros; reflexivity|]. intros now d d' x E. unfold enroll_tx in E. destruct (d_users d !! userID); [|done]. cbn zeta in E.
  destruct (if bool_decide _ then _ else _); cbn [rbind] in E; [|done]. tx_cases. etrans; [by eapply moves_Upsert|]. etrans; [by eapply moves_ReplaceAll|apply moves_audit].
Qed.

Lemma moves_devices_Create now d v d' : devices_Create d v = Ok d' -> R now d d'.
Proof. unfold devices_Create. destruct (_ || _); [done|]. intros [= <-]. by apply moves_same. Qed.

Lemma moves_devices_Revoke now d userID id t d' : devices_Revoke d userID id t = Ok d' -> R now d d'.
Proof. unfold devices_Revoke. destruct (devices_Get _ _ _); [|done]. intros [= <-]. by apply moves_same. Qed.

Lemma guar_device_tx cfg userID agent ip token id t : guarantees R (tx (device_tx cfg userID agent ip token id t)).
Proof.
  apply guar_tx; [intros; reflexivity|]. intros now d d' x E. unfold device_tx, effective in E. pose proof (moves_settings now d (device_defaults cfg)) as Hs.
  destruct (settings_SeedIfMissing _ _) as [ds s]. cbn [fst] in Hs. destruct (negb _); [done|]. unfold evict in E. tx_cases; (etrans; [exact Hs|]);
    (etrans; [|apply moves_audit]); simplify_eq; eauto using moves_devices_Create. etrans; eauto using moves_devices_Create, moves_devices_Revoke.
Qed.

Lemma guar_device_Issue cfg userID agent ip random id : guarantees R (device_Issue cfg userID agent ip random id).
Proof. unfold device_Issue. guar. apply guar_device_tx. Qed.

Lemma guar_device_Validate cfg token : guarantees R (device_Validate cfg token).
Proof. unfold device_Validate. guar. apply guar_tx_. intros. unfold devices_Touch. destruct (d_devices _ !! _); [by apply moves_same|reflexivity]. Qed.

Lemma guar_bypass user policy token : guarantees R (device_bypass devices user policy token).
Proof. unfold device_bypass. guar. apply guar_device_Validate. Qed.

Lemma guar_IssueToken userID ttl random : guarantees R (IssueToken userID ttl random).
Proof.
  unfold IssueToken. guar. apply guar_tx; [intros; reflexivity|]. intros now d d' x E. tx_cases. unfold tokens_Create in *. destruct (existsb _ _); simplify_eq. by apply moves_same.
Qed.

Lemma guar_issue user method ip agent trust already policy rn : guarantees R (issue devices user method ip agent trust already policy rn).
Proof. unfold issue, trust_device. guar; auto using guar_IssueToken, guar_device_Issue, guar_audit. Qed.

Lemma guar_RegisterFailure key window m block : guarantees R (RegisterFailure key window m block).
Proof.
  unfold RegisterFailure. guar; apply guar_tx_; intros; [unfold attempts_bump|unfold attempts_insert|unfold attempts_block].
  - destruct (d_attempts _ !! _); [by apply moves_same|reflexivity].
  - cbn. destruct (bool_decide (is_Some _)); [reflexivity|by apply moves_same].
  - cbn. destruct (d_attempts _ !! _); [by apply moves_same|reflexivity].
Qed.

Lemma guar_failLogin bucket userID : guarantees R (failLogin lcfg bucket userID).
Proof. unfold failLogin. guar; auto using guar_RegisterFailure, guar_audit. Qed.

Lemma guar_requireMFA user method ip enabled rn : lm_creates lm (challenge_id (rn_Challenge rn)) -> guarantees R (requireMFA lcfg user method ip enabled rn).
Proof. intros Hc. unfold requireMFA. guar; auto using guar_challenge_Create, guar_audit. Qed.

Lemma guar_IsEnabled userID : guarantees R (IsEnabled mcfg userID).
Proof. unfold IsEnabled. guar. apply guar_load. Qed.

Lemma guar_complete user method ip agent trust token rn : lm_creates lm (challenge_id (rn_Challenge rn)) -> guarantees R (complete mcfg lcfg devices user method ip agent trust token rn).
Proof. intros Hc. unfold complete. guar; auto using guar_settings, guar_IsEnabled, guar_issue, guar_bypass, guar_requireMFA. Qed.

Lemma guar_Login req rn : lm_creates lm (challenge_id (rn_Challenge rn)) -> guarantees R (Login mcfg lcfg devices req rn).
Proof.
  intros Hc. unfold Login. guar; auto using guar_audit, guar_failLogin, guar_complete. apply guar_tx_. intros. unfold attempts_RegisterSuccess.
  destruct (bool_decide (loginBucketKey _ _ = [])); [reflexivity|by apply moves_same].
Qed.

Lemma guar_VerifyCode userID code : guarantees R (VerifyCode mcfg userID code).
Proof. unfold VerifyCode, verifyRecoveryCode, remainingRecoveryCodes. guar; auto using guar_load, guar_recovery, guar_totp. apply guar_tx_. intros. reflexivity. Qed.

Lemma guar_VerifyMFA id code ip agent trust rn : guarantees R (VerifyMFA mcfg lcfg devices id code ip agent trust rn).
Proof. unfold VerifyMFA, charge. guar; auto using guar_challenge_Load, guar_VerifyCode, guar_challenge_Fail, guar_audit, guar_challenge_Consume, guar_settings, guar_issue. Qed.

Lemma guar_ticket ticket ip agent trust rn : guarantees R (exchangeOIDCTicket mcfg lcfg devices ticket ip agent trust rn).
Proof. unfold exchangeOIDCTicket, IssueSession. guar; auto using guar_challenge_Load, guar_challenge_Consume, guar_settings, guar_IsEnabled, guar_issue. Qed.

Lemma guar_sweep retention : guarantees R (SweepOnce retention).
Proof. unfold SweepOnce. guar. apply guar_tx_. intros. cbn [fst]. etrans; [apply moves_DeleteExpired|]. by apply moves_same. Qed.

Lemma guar_policy actor inp : guarantees R (policy_Update (lc_Defaults lcfg) actor inp).
Proof.
  unfold policy_Update, policy_Get. guar; [apply guar_tx_; intros; apply moves_settings|]. apply guar_tx; [intros; reflexivity|]. intros now d d' x E. tx_cases.
  unfold settings_Update in *. destruct (d_settings d); simplify_eq. by apply moves_same.
Qed.

Lemma guar_device_changes actorID userID deviceID name admin :
  guarantees R (device_Rename userID deviceID name) /\ guarantees R (device_Revoke actorID userID deviceID admin) /\ guarantees R (device_RevokeAll actorID userID admin).
Proof.
  split_and!; [|unfold device_Revoke; guar|unfold device_RevokeAll; guar]; (apply guar_tx; [intros; reflexivity|]); intros now d d' x E.
  - unfold devices_Rename in E. tx_cases. destruct (devices_Get _ _ _); [|done]. simplify_eq. by apply moves_same.
  - destruct (devices_Get _ _ _); [|done]. tx_cases. etrans; [by eapply moves_devices_Revoke|apply moves_audit].
  - pose proof (moves_RevokeAll now d userID now) as Hm. destruct (devices_RevokeAllForUser _ _ _) as [dr n]. tx_cases; [done|]. etrans; [exact Hm|apply moves_audit].
Qed.

(** Every transaction of every request is one of the moves. *)
Lemma request_moves p : request mcfg lcfg devices lm p -> guarantees R p.
Proof.
  destruct 1 as [| | | | | | |userID password random nonce rnds codes hashes He Eg Hr| | | |userID code rnds codes hashes Eg Hr| | | | | |]; [..|apply guar_sweep];
    (apply guarantees_bind; [|done]).
  - by apply guar_Login.
  - apply guar_VerifyMFA.
  - by apply guar_complete.
  - unfold PrepareOIDCLogin. guar; auto using guar_settings, guar_IsEnabled, guar_bypass, guar_requireMFA.
  - by apply guar_challenge_Create.
  - apply guar_challenge_Consume.
  - apply guar_ticket.
  - unfold Enroll. rewrite Eg. guar. by apply guar_enroll.
  - unfold Enable. guar; auto using guar_load, guar_enable.
  - unfold Disable. guar; auto using guar_load, guar_VerifyCode, guar_clear.
  - apply guar_clear.
  - unfold RegenerateRecoveryCodes. rewrite Eg. guar; auto using guar_load, guar_regenerate.
  - apply (guar_device_changes [] userID deviceID name true).
  - apply (guar_device_changes actorID userID deviceID [] admin).
  - apply (guar_device_changes actorID userID [] [] admin).
  - unfold ValidateToken. guar.
  - apply guar_policy.
Qed.
End guarantees.

(** ** Spent credentials *)

Section spent.
Context `{GoUnicode} `{Argon2} `{SecretProvider}.
Context (mcfg : MFAConfig) (lcfg : LoginConfig) (devices : option DeviceTrustConfig) (lm : limits).
Notation step := (pool_step (request mcfg lcfg devices lm)).

(** What a run does from any state its handlers are resumed in. *)
Lemma run_moves d0 d1 ps1 d1' d2 ps2 : rtc step (d0, []) (d1, ps1) -> rtc step (d1', ps1) (d2, ps2) -> moves lm 0 d1' d2.
Proof.
  intros Hr1 Hr2. destruct (pool_moves _ (moves lm) _ _ _ _ (request_moves mcfg lcfg devices lm) (Forall_nil_2 _) Hr1) as [_ Hps].
  destruct (pool_moves _ (moves lm) _ _ _ _ (request_moves mcfg lcfg devices lm) Hps Hr2) as [Hd _]. clear -Hd.
  induction Hd as [d|d d' d'' [now Hs] _ IH]; [reflexivity|]. transitivity d'; [exact Hs|exact IH].
Qed.

(** C8. A challenge is consumed at most once: after a request has consumed it,
    no interleaving of requests, those already in flight included, brings the
    database to a state in which consuming it succeeds again, provided no later
    challenge draws the same identifier. *)
Theorem challenge_consumed_once d0 d1 ps1 d1' d2 ps2 id t t' :
  ~ lm_creates lm id -> rtc step (d0, []) (d1, ps1) -> challenges_Consume d1 id t = (d1', true) -> rtc step (d1', ps1) (d2, ps2) ->
  challenges_Consume d2 id t' = (d2, false).
Proof.
  intros Hid Hr1 Hc Hr2. destruct (run_moves _ _ _ _ _ _ Hr1 Hr2) as (Hm & _). unfold challenges_Consume in *.
  destruct (d_challenges d1 !! id) as [c|] eqn:Ec; [|done]. destruct (bool_decide (ch_ConsumedAt c = None)); [|done]. injection Hc as <-.
  destruct (d_challenges d2 !! id) as [c2|] eqn:E2; [|done]. destruct (Hm _ _ E2) as [(c1 & E1 & Hk & _)|[? _]]; [|done].
  cbn in E1. rewrite lookup_insert_eq in E1. injection E1 as <-. by rewrite (Hk (mk_is_Some _ _ eq_refl)).
Qed.

(** C9. The guess budget holds under any interleaving: no challenge records
    more failures than it allows, and one that has recorded as many is consumed,
    so neither a right code nor another guess can use it. *)
Theorem challenge_budget_kept d ps d' ps' :
  (forall id c, d_challenges d !! id = Some c -> within_budget c) -> Forall (request mcfg lcfg devices lm) ps -> rtc step (d, ps) (d', ps') ->
  forall id c, d_challenges d' !! id = Some c ->
  0 <= ch_Attempts c <= ch_MaxAttempts c /\
  (ch_Attempts c = ch_MaxAttempts c -> forall t, challenges_Consume d' id t = (d', false) /\ challenges_IncrementAttempts d' id t = (d', (0, true))).
Proof.
  intros Hb Hps Hr id c Hc. assert (Forall (guarantees (moves lm)) ps) as Hg by (eapply Forall_impl; [exact Hps|apply request_moves]).
  destruct (pool_moves _ (moves lm) _ _ _ _ (request_moves mcfg lcfg devices lm) Hg Hr) as [Hd _].
  assert (within_budget c) as [Hr' Hlt].
  { clear -Hb Hd Hc. revert id c Hc. induction Hd as [d|d d1 d2 [now [Hm _]] _ IH]; [done|]. apply IH. intros id c E. destruct (Hm _ _ E) as [(c0 & E0 & _ & Hk)|[_ Hk]]; [|done].
    eapply Hk, Hb, E0. }
  split; [done|]. intros Heq t. unfold challenges_Consume, challenges_IncrementAttempts. rewrite Hc. destruct (ch_ConsumedAt c) eqn:En; [done|]. specialize (Hlt eq_refl). lia.
Qed.

(** C10. A one-time code is accepted at most once: once a step was recorded for
    an account, no interleaving of requests brings the database to a state in
    which that step, or an earlier one, is recorded again, until the account
    enrols anew. *)
Theorem totp_step_once d0 d1 ps1 d1' d2 ps2 userID step step' t t' :
  ~ lm_enrolls lm userID -> rtc (pool_step (request mcfg lcfg devices lm)) (d0, []) (d1, ps1) -> mark_used d1 userID step t = Ok d1' ->
  rtc (pool_step (request mcfg lcfg devices lm)) (d1', ps1) (d2, ps2) -> step' <= step -> mark_used d2 userID step' t' = Err ErrMFAReplayDetected.
Proof.
  intros Hid Hr1 Hc Hr2 Hle. destruct (run_moves _ _ _ _ _ _ Hr1 Hr2) as (_ & Hm & _). apply mark_used_ok in Hc as (r & Hr & Hlt & ->).
  unfold mark_used, mfa_MarkUsed. destruct (d_mfa d2 !! userID) as [r2|] eqn:E2; [|done]. destruct (Hm _ _ E2) as [(r1 & E1 & Hs)|?]; [|done].
  cbn in E1. rewrite lookup_insert_eq in E1. injection E1 as <-. cbn in Hs. destruct (Z.ltb_spec (um_LastUsedStep r2) step'); [lia|done].
Qed.

(** A recovery code is accepted at most once: once it was spent, no
    interleaving of requests brings the database to a state in which spending
    it succeeds again, provided no later set of codes of the account contains
    it. *)
Theorem recovery_code_once d0 d1 ps1 d1' d2 ps2 userID hash t t' :
  (forall hashes, lm_recodes lm userID hashes -> hash ∉ hashes) -> rtc step (d0, []) (d1, ps1) -> codes_Consume d1 userID hash t = (d1', true) ->
  rtc step (d1', ps1) (d2, ps2) -> (codes_Consume d2 userID hash t').2 = false.
Proof.
  intros Hid Hr1 Hc Hr2. destruct (run_moves _ _ _ _ _ _ Hr1 Hr2) as (_ & _ & Hm). injection Hc as <- _. cbn [codes_Consume snd].
  destruct (existsb _ _) eqn:Ex; [|done]. exfalso. apply existsb_exists in Ex as (c & Hin & Hu). apply list_elem_of_In in Hin. pose proof Hu as (Hcu & Hch & Hn)%code_matches_true.
  destruct (Hm _ Hin Hn) as [Hold|(hashes & Hre & Hh)]; [|rewrite Hcu, Hch in *; by eapply Hid].
  cbn in Hold. apply list_elem_of_fmap in Hold as (c0 & -> & _). destruct (code_matches userID hash c0) eqn:E0; [done|congruence].
Qed.
End spent.

(** ** Sample runs *)

(** Requests that bring in no challenge, enrolment or recovery code. *)
Definition sample_limits : limits := mkLimits (fun _ => False) (fun _ => False) (fun _ _ => False).
Notation sample_step := (pool_step (@request ascii_unicode sample_argon sample_provider sample_mfa_config DefaultLoginConfig (Some sample_device_config) sample_limits)).

(** A request to consume the sample challenge arrives and runs. *)
Lemma sample_run d : rtc sample_step (d, []) ((challenges_Consume d #"ch_1" 70).1, [Ret tt]).
Proof.
  eapply rtc_l; [apply pool_spawn, (rq_consume _ _ _ _ #"ch_1")|]. apply rtc_once. cbn [app]. unfold drop_result, challenge_Consume, tx_. cbn [pbind].
  match goal with |- pool_step _ (_, [Act ?f ?k]) _ => exact (pool_act _ d [Act f k] 0 _ f k 70 eq_refl) end.
Qed.

Lemma challenge_consumed_once_witness : exists d2, rtc sample_step ((challenges_Consume (sample_db MFAModeOptional) #"ch_1" 60).1, []) (d2, [Ret tt]) /\
  challenges_Consume d2 #"ch_1" 80 = (d2, false).
Proof.
  eexists. split; [apply sample_run|]. eapply (@challenge_consumed_once ascii_unicode sample_argon sample_provider sample_mfa_config DefaultLoginConfig (Some sample_device_config) sample_limits
    (sample_db MFAModeOptional) (sample_db MFAModeOptional) [] _ _ _ #"ch_1" 60 80); [intros []|apply rtc_refl|vm_compute; reflexivity|apply sample_run].
Defined.

Lemma challenge_budget_kept_witness : exists c, d_challenges (challenges_Consume (sample_db MFAModeOptional) #"ch_1" 70).1 !! #"ch_1" = Some c /\ 0 <= ch_Attempts c <= ch_MaxAttempts c.
Proof.
  set (d' := (challenges_Consume (sample_db MFAModeOptional) #"ch_1" 70).1). assert (d_challenges d' !! #"ch_1" = Some (set_consumed sample_challenge (Some 70))) as E by (vm_compute; reflexivity).
  exists (set_consumed sample_challenge (Some 70)). split; [exact E|].
  refine (proj1 (@challenge_budget_kept ascii_unicode sample_argon sample_provider sample_mfa_config DefaultLoginConfig (Some sample_device_config) sample_limits
    (sample_db MFAModeOptional) [] d' _ _ (Forall_nil_2 _) (sample_run _) #"ch_1" _ E)).
  intros id c Ec. change (({[ #"ch_1" := sample_challenge ]} : gmap bytes AuthChallenge) !! id = Some c) in Ec. apply lookup_singleton_Some in Ec as [_ <-]. split; cbn; lia.
Defined.

Lemma totp_step_once_witness : exists d1 d2, mark_used (sample_db MFAModeOptional) #"u1" 1 60 = Ok d1 /\ rtc sample_step (d1, []) (d2, [Ret tt]) /\
  mark_used d2 #"u1" 1 80 = Err ErrMFAReplayDetected.
Proof.
  eexists _, _. split; [reflexivity|]. split; [apply sample_run|].
  eapply (@totp_step_once ascii_unicode sample_argon sample_provider sample_mfa_config DefaultLoginConfig (Some sample_device_config) sample_limits
    (sample_db MFAModeOptional) (sample_db MFAModeOptional) [] _ _ _ #"u1" 1 1 60 80); [intros []|apply rtc_refl|reflexivity|apply sample_run|lia].
Defined.

Lemma recovery_code_once_witness : exists d1 d2, codes_Consume (sample_db MFAModeOptional) #"u1" (@HashRecoveryCode ascii_unicode #"TMRC-AAAA ") 60 = (d1, true) /\
  rtc sample_step (d1, []) (d2, [Ret tt]) /\ (codes_Consume d2 #"u1" (@HashRecoveryCode ascii_unicode #"tmrc-aaaa") 80).2 = false.
Proof.
  assert (@HashRecoveryCode ascii_unicode #"TMRC-AAAA " = @HashRecoveryCode ascii_unicode #"tmrc-aaaa") as Eh by (vm_compute; reflexivity). rewrite Eh.
  set (d1 := (codes_Consume (sample_db MFAModeOptional) #"u1" (@HashRecoveryCode ascii_unicode #"tmrc-aaaa") 60).1).
  assert (codes_Consume (sample_db MFAModeOptional) #"u1" (@HashRecoveryCode ascii_unicode #"tmrc-aaaa") 60 = (d1, true)) as E by (vm_compute; reflexivity).
  exists d1, (challenges_Consume d1 #"ch_1" 70).1. split; [exact E|]. split; [apply sample_run|].
  exact (@recovery_code_once ascii_unicode sample_argon sample_provider sample_mfa_config DefaultLoginConfig (Some sample_device_config) sample_limits
    (sample_db MFAModeOptional) (sample_db MFAModeOptional) [] d1 _ _ #"u1" _ 60 80 (fun _ (F : False) => match F with end) (rtc_refl _ _) E (sample_run d1)).
Defined.
