(* ===== verification/LoginFlow.v ===== *)
(** * Console logins that nothing interferes with

    Functional theorems about the handlers of [Login] run alone: the login
    throttle, the cap on trusted devices, the completion of a two-step login and
    what a new enrolment does to an existing second factor. *)

From stdpp Require Import base list gmap sets strings relations.
From Stdlib Require Import Ascii ZArith Lia.
From S2P Require Import Prelude GoStrings GoCrypto GoJson Credentials GoHmac SecondFactor IdentityStore Login LoginSafety.
Local Open Scope Z_scope.

Section throttle.
Context `{GoUnicode} `{Argon2} `{SecretProvider}.
Context (mcfg : MFAConfig) (lcfg : LoginConfig) (devices : option DeviceTrustConfig).

(** The throttle row of a bucket after one more failure. *)
Definition failed_row (old : option AuthLoginAttempt) (now : Z) : AuthLoginAttempt :=
  let fresh := match old with Some r => la_WindowStart r <? now - lc_Window lcfg | None => true end in
  let attempts := match old with Some r => if fresh then 1 else la_Attempts r + 1 | None => 1 end in
  let start := match old with Some r => if fresh then now else la_WindowStart r | None => now end in
  let limit := if lc_MaxAttempts lcfg <=? 0 then 1 else lc_MaxAttempts lcfg in
  mkAttempt attempts start (if attempts <? limit then None else Some (now + lc_Block lcfg)) now.

Lemma bucket_nonempty username ip : loginBucketKey username ip <> [].
Proof. unfold loginBucketKey. pose proof (length_Sum256 (ToLower username ++ #"|" ++ TrimSpace ip)) as Hl. by destruct (Sum256 _). Qed.

Lemma run_RegisterFailure key clk d : key <> [] ->
  run (RegisterFailure key (lc_Window lcfg) (lc_MaxAttempts lcfg) (lc_Block lcfg)) clk d =
  (set_attempts d (<[key := failed_row (d_attempts d !! key) (clk 0%nat)]> (d_attempts d)), Ok (bool_decide (is_Some (la_BlockedUntil (failed_row (d_attempts d !! key) (clk 0%nat)))))).
Proof.
  intros Hk. unfold RegisterFailure, failed_row. rewrite (bool_decide_eq_false_2 (key = [])) by done. cbn [run pbind clock tx_ query]. unfold attempts_bump, attempts_insert.
  set (limit := if lc_MaxAttempts lcfg <=? 0 then 1 else _). destruct (d_attempts d !! key) as [r|] eqn:Er; cbn [run pbind tx_ query fst snd].
  - cbn [d_attempts set_attempts]. rewrite lookup_insert_eq. cbn [la_Attempts la_WindowStart la_BlockedUntil].
    destruct (_ <? limit) eqn:El; cbn [run pbind tx_ fst snd]; [done|]. unfold attempts_block. cbn [d_attempts set_attempts]. rewrite lookup_insert_eq.
    unfold set_attempts. cbn. by rewrite insert_insert_eq.
  - rewrite (bool_decide_eq_false_2 (is_Some (d_attempts d !! key))) by (rewrite Er; by intros [? ?]). cbn [d_attempts set_attempts]. rewrite lookup_insert_eq. cbn [la_Attempts].
    destruct (_ <? limit) eqn:El; cbn [run pbind tx_ fst snd]; [done|]. unfold attempts_block. cbn [d_attempts set_attempts]. rewrite lookup_insert_eq.
    unfold set_attempts. cbn. by rewrite insert_insert_eq.
Qed.

(** The bucket a request falls into, and whether its password is refused. *)
Definition bucket_of (req : LoginRequest) : bytes := loginBucketKey (TrimSpace (lr_Username req)) (lr_ClientIP req).

Definition refused (d : idb) (req : LoginRequest) : bool :=
  match users_GetByUsername d (TrimSpace (lr_Username req)) with
  | None => true
  | Some u => negb (active u) || bool_decide (ac_PasswordHash u = PasswordHashNone) || negb (verifyPassword (lr_Password req) (ac_PasswordHash u))
  end.

(** A refused password moves its bucket by one failure. *)
Lemma run_refused req rn clk d : attempts_IsBlocked d (bucket_of req) (clk 0%nat) = None -> refused d req = true ->
  exists a, run (Login mcfg lcfg devices req rn) clk d =
  (audits_Create (set_attempts d (<[bucket_of req := failed_row (d_attempts d !! bucket_of req) (clk 2%nat)]> (d_attempts d))) a, Err ErrInvalidLogin).
Proof.
  intros Hb Hr. unfold Login, refused in *. fold (bucket_of req). cbn [run pbind query]. rewrite Hb. cbn [run pbind query].
  assert (forall userID, exists a, run (failLogin lcfg (bucket_of req) userID) (fun n => clk (S (S n))) d =
    (audits_Create (set_attempts d (<[bucket_of req := failed_row (d_attempts d !! bucket_of req) (clk 2%nat)]> (d_attempts d))) a, Err ErrInvalidLogin)) as Hf.
  { intros userID. unfold failLogin, pthen. rewrite run_bind, run_RegisterFailure by apply bucket_nonempty. cbn [fst snd run pbind audit tx_]. by eexists. }
  destruct (users_GetByUsername _ _) as [u|]; [|apply Hf]. rewrite Hr. apply Hf.
Qed.

Lemma run_throttled req rn clk d retry : attempts_IsBlocked d (bucket_of req) (clk 0%nat) = Some retry ->
  run (Login mcfg lcfg devices req rn) clk d = (audits_Create d (mkAudit [] #"auth.login.throttled" #"auth_login_attempt" (bucket_of req)), Err (ErrLoginThrottled retry)).
Proof. intros Hb. unfold Login. fold (bucket_of req). cbn [run pbind query]. by rewrite Hb. Qed.

(** Logins one after the other. *)
Fixpoint run_logins (d : idb) (reqs : list (LoginRequest * randoms * (nat -> Z))) : idb * list (result LoginOutcome id_err) :=
  match reqs with
  | [] => (d, [])
  | (req, rn, clk) :: reqs' =>
      let '(d1, r) := run (Login mcfg lcfg devices req rn) clk d in
      let '(d2, rs) := run_logins d1 reqs' in (d2, r :: rs)
  end.

(** The throttle row after [n] failures since [t0], the last at [t]. *)
Definition after_failures (n : nat) (t0 t : Z) (row : option AuthLoginAttempt) : Prop :=
  match n with
  | O => row = None
  | S _ => exists r, row = Some r /\ la_Attempts r = Z.of_nat n /\ t0 <= la_WindowStart r /\
      la_BlockedUntil r = if Z.of_nat n <? lc_MaxAttempts lcfg then None else Some (t + lc_Block lcfg)
  end.

Lemma after_failures_step n t0 t t' row : 0 < lc_MaxAttempts lcfg -> t0 <= t' <= t0 + lc_Window lcfg -> after_failures n t0 t row -> after_failures (S n) t0 t' (Some (failed_row row t')).
Proof.
  intros Hm Ht Ha. unfold failed_row. destruct (Z.leb_spec (lc_MaxAttempts lcfg) 0); [lia|]. destruct n as [|n].
  - cbn in Ha. subst row. eexists. split; [reflexivity|]. cbn [la_Attempts la_WindowStart la_BlockedUntil]. split_and!; [done|lia|done].
  - destruct Ha as (r & -> & Hn & Hs & _). destruct (Z.ltb_spec (la_WindowStart r) (t' - lc_Window lcfg)); [lia|]. eexists. split; [reflexivity|]. cbn [la_Attempts la_WindowStart la_BlockedUntil].
    rewrite Hn. replace (Z.of_nat (S n) + 1) with (Z.of_nat (S (S n))) by lia. by split_and!.
Qed.

Lemma run_logins_refused t0 bucket reqs n t d :
  0 < lc_MaxAttempts lcfg -> Z.of_nat (n + length reqs) <= lc_MaxAttempts lcfg -> after_failures n t0 t (d_attempts d !! bucket) ->
  Forall (fun q => bucket_of q.1.1 = bucket /\ refused d q.1.1 = true /\ t0 <= q.2 2%nat <= t0 + lc_Window lcfg) reqs ->
  exists d', run_logins d reqs = (d', replicate (length reqs) (Err ErrInvalidLogin)) /\ d_tokens d' = d_tokens d /\
  after_failures (n + length reqs) t0 (default t ((fun q => q.2 2%nat) <$> last reqs)) (d_attempts d' !! bucket).
Proof.
  intros Hm. revert n t d. induction reqs as [|[[req rn] clk] reqs IH]; intros n t d Hn Ha Hf.
  { exists d. rewrite Nat.add_0_r. by split_and!. }
  apply Forall_cons in Hf as [(Hb & Hr & Ht) Hf]. cbn [fst snd] in *. cbn [length] in Hn.
  assert (attempts_IsBlocked d (bucket_of req) (clk 0%nat) = None) as Hnb.
  { unfold attempts_IsBlocked. rewrite Hb. destruct n; [by rewrite Ha|]. destruct Ha as (r & -> & _ & _ & ->). by destruct (Z.ltb_spec (Z.of_nat (S n)) (lc_MaxAttempts lcfg)); [|lia]. }
  destruct (run_refused req rn clk d Hnb Hr) as [a Hrun]. rewrite Hb in Hrun. cbn [run_logins]. rewrite Hrun.
  match type of Hrun with _ = (?d1, _) => destruct (IH (S n) (clk 2%nat) d1) as (d' & Hd' & Htk & Haf) end; [lia| |exact Hf|].
  { cbn. rewrite lookup_insert_eq. by eapply after_failures_step. }
  rewrite Hd'. exists d'. split_and!; [done|done|]. cbn [length]. rewrite Nat.add_succ_r. destruct reqs as [|q reqs]; [exact Haf|].
  change (last ((req, rn, clk) :: q :: reqs)) with (last (q :: reqs)). destruct (last (q :: reqs)) eqn:El; [exact Haf|]. by apply last_None in El.
Qed.

End throttle.

(** ** A new enrolment *)

Section reenrolment.
Context `{GoUnicode} `{Argon2} `{SecretProvider}.
Context (mcfg : MFAConfig) (lcfg : LoginConfig) (devices : option DeviceTrustConfig).

(** What a successful enrolment leaves in the account's row. *)
Lemma enroll_pending userID password sealed hashes now d d' name : enroll_tx userID password sealed hashes now d = Ok (d', name) ->
  d_mfa d' !! userID = Some (mkMFA sealed MFAStatusPending now None None (-1)) /\ d_settings d' = d_settings d.
Proof.
  unfold enroll_tx. destruct (d_users d !! userID) as [user|]; [|done]. cbn zeta. destruct (if bool_decide _ then _ else _); cbn [rbind]; [|done].
  destruct (mfa_Upsert _ _ _) as [d1|] eqn:E1; cbn [rbind]; [|done]. destruct (codes_ReplaceAll _ _ _) as [d2|] eqn:E2; cbn [rbind]; [|done]. intros [= <- _].
  unfold codes_ReplaceAll in E2. destruct (bool_decide _); [done|]. destruct (insert_codes _ _ _); [|done]. injection E2 as <-.
  unfold mfa_Upsert in E1. destruct (bool_decide _); [done|]. destruct (d_mfa d !! userID); injection E1 as <-; cbn; by rewrite lookup_insert_eq.
Qed.

End reenrolment.

(** ** The cap on trusted devices *)

Definition count_by (f : UserDevice -> bool) (m : gmap bytes UserDevice) : Z := Z.of_nat (length (List.filter f (map_to_list m).*2)).

Lemma length_filter_perm {A} (f : A -> bool) l k : l ≡ₚ k -> length (List.filter f l) = length (List.filter f k).
Proof. induction 1 as [|x l k _ IH|x y l|l k j _ IH1 _ IH2]; cbn [List.filter]; [done|destruct (f x); cbn [length]; by rewrite IH|by destruct (f x), (f y)|by rewrite IH1]. Qed.

Lemma count_by_insert_new f m k v : m !! k = None -> count_by f (<[k := v]> m) = count_by f m + (if f v then 1 else 0).
Proof.
  intros Hk. unfold count_by. rewrite (length_filter_perm f _ (v :: (map_to_list m).*2)) by (by rewrite map_to_list_insert).
  cbn [List.filter]. destruct (f v); cbn [length]; lia.
Qed.

Lemma count_by_insert f m k u v : m !! k = Some u -> count_by f (<[k := v]> m) + (if f u then 1 else 0) = count_by f m + (if f v then 1 else 0).
Proof.
  intros Hk. rewrite <- (insert_delete_id m k u Hk) at 2. rewrite <- insert_delete_eq, !count_by_insert_new by apply lookup_delete_eq. lia.
Qed.

Section cap.
Context `{GoUnicode}.

Definition devices_keyed (d : idb) : Prop := forall k u, d_devices d !! k = Some u -> ud_ID u = k.

Lemma devices_CountActive_count d userID t : devices_CountActive d userID t = count_by (fun u => device_active u userID t) (d_devices d).
Proof. done. Qed.

Lemma OldestActive_spec d userID t : devices_keyed d -> 0 < devices_CountActive d userID t ->
  exists u, devices_OldestActive d userID t = Some u /\ d_devices d !! ud_ID u = Some u /\ device_active u userID t = true.
Proof.
  intros Hk Hc. unfold devices_OldestActive. destruct (sort_by seen_before (active_devices d userID t)) as [|u l] eqn:E.
  { apply sort_by_nil_inv in E. unfold devices_CountActive in Hc. rewrite E in Hc. cbn in Hc. lia. }
  exists u. split; [done|]. assert (u ∈ active_devices d userID t) as Hin by (rewrite <- (sort_by_perm seen_before), E; by left). unfold active_devices in Hin. apply list_elem_of_In, filter_In in Hin as [Hin Ha].
  split; [|done]. apply list_elem_of_In, list_elem_of_fmap in Hin as ([k u'] & -> & Hin). apply elem_of_map_to_list in Hin. cbn in *. by rewrite (Hk _ _ Hin).
Qed.

(** Making room revokes a device of a full account. *)
Lemma evict_room d userID max now t d' : devices_keyed d -> 0 < max -> evict d userID max now t = Ok d' ->
  devices_keyed d' /\ devices_CountActive d' userID t <= Z.max (max - 1) (devices_CountActive d userID t - 1).
Proof.
  intros Hk Hm. unfold evict. destruct (Z.leb_spec max (devices_CountActive d userID t)) as [Hfull|]; [|intros [= <-]; split; [done|lia]].
  destruct (OldestActive_spec d userID t Hk ltac:(lia)) as (u & -> & Hu & Ha). unfold devices_Revoke, devices_Get. rewrite Hu. cbn [mbind option_bind].
  pose proof Ha as [[Hid _]%andb_prop _]%andb_prop. rewrite Hid. intros [= <-]. split.
  - intros k v E. cbn in E. destruct (decide (k = ud_ID u)) as [->|Hne]; [rewrite lookup_insert_eq in E; by injection E as <-|]. rewrite lookup_insert_ne in E by done. by apply Hk.
  - rewrite !devices_CountActive_count. cbn [d_devices set_devices]. pose proof (count_by_insert (fun u => device_active u userID t) (d_devices d) (ud_ID u) u
      (touch_device u (ud_LastSeenAt u) (revoked_at u now) (ud_Name u)) Hu) as Hc. cbn beta in Hc. rewrite Ha in Hc.
    assert (device_active (touch_device u (ud_LastSeenAt u) (revoked_at u now) (ud_Name u)) userID t = false) as Hn.
    { unfold device_active, touch_device, revoked_at. cbn. by rewrite andb_false_r. }
    rewrite Hn in Hc. rewrite devices_CountActive_count in Hfull. lia.
Qed.

(** Trusting a device never takes an account above the cap in force: it
    ends with at most as many live devices as the policy allows, or, where a
    lowered cap left it with more, with no more than it had. *)
Theorem device_cap_kept cfg userID agent ip token id now t d d' v :
  devices_keyed d -> 0 < dt_MaxPerUser (effective cfg d).2 -> device_tx cfg userID agent ip token id now t d = Ok (d', v) ->
  devices_keyed d' /\ devices_CountActive d' userID t <= Z.max (dt_MaxPerUser (effective cfg d).2) (devices_CountActive d userID t).
Proof.
  intros Hk Hm. unfold device_tx. assert (d_devices (effective cfg d).1 = d_devices d) as Ed.
  { unfold effective, settings_SeedIfMissing. by destruct (d_settings d). }
  destruct (effective cfg d) as [d0 eff]. cbn [fst snd] in *. destruct (negb _); [done|]. destruct (evict _ _ _ _ _) as [d1|] eqn:E1; cbn [rbind]; [|done].
  destruct (evict_room d0 userID (dt_MaxPerUser eff) now t d1) as [Hk1 Hc1]; [intros k u; rewrite Ed; apply Hk|done|done|].
  replace (devices_CountActive d0 userID t) with (devices_CountActive d userID t) in Hc1 by (rewrite !devices_CountActive_count; by rewrite Ed).
  destruct (devices_Create _ _) as [d2|] eqn:E2; cbn [rbind]; [|done]. intros [= <- _]. unfold devices_Create in E2. destruct (bool_decide (is_Some _)) eqn:Enew; cbn [orb] in E2; [done|].
  destruct (bool_decide (map_Exists _ _)); [done|]. injection E2 as <-. apply bool_decide_eq_false, eq_None_not_Some in Enew. cbn [ud_ID] in *. split.
  - intros k u E. cbn in E. destruct (decide (k = id)) as [->|Hne]; [rewrite lookup_insert_eq in E; by injection E as <-|]. rewrite lookup_insert_ne in E by done. by apply Hk1.
  - rewrite (devices_CountActive_count (audits_Create _ _)). cbn [d_devices set_devices audits_Create]. rewrite count_by_insert_new by done.
    rewrite <- (devices_CountActive_count d1). match goal with |- context [if ?b then 1 else 0] => destruct b end; lia.
Qed.
End cap.

(** ** A login that completes *)

Section completion.
Context `{GoUnicode} `{Argon2} `{SecretProvider}.
Context (mcfg : MFAConfig) (lcfg : LoginConfig) (devices : option DeviceTrustConfig).

Lemma payload_roundtrip ip method : utf8 ip -> utf8 method -> payload_of (payload_text [(#"ip", ip); (#"method", method)]) = Some [(#"ip", ip); (#"method", method)].
Proof.
  intros Hi Hm. unfold payload_of, payload_text. rewrite (parse_object 0 _ [(#"ip", JString ip); (#"method", JString method)]); [done| |by apply Nat.leb_le].
  repeat constructor; cbn [fst snd]; try (by apply scans_string); apply utf8_ascii; by repeat constructor.
Qed.

Lemma url_text_plain random : random <> [] -> TrimSpace (RawURLEncode random) = RawURLEncode random /\ RawURLEncode random <> [].
Proof. intros Hr. split; [apply TrimSpace_Forall, RawURLEncode_plain|by destruct random as [|? [|? [|? ?]]]]. Qed.

Lemma challenge_id_plain random : TrimSpace (challenge_id random) = challenge_id random /\ challenge_id random <> [].
Proof. split; [|done]. apply TrimSpace_Forall, Forall_app. split; [by repeat constructor|apply RawURLEncode_plain]. Qed.

(** The challenge a first step leaves behind. *)
Lemma run_requireMFA user method ip enabled rn clk d d' o : run (requireMFA lcfg user method ip enabled rn) clk d = (d', Ok o) ->
  exists sealed max, Available = true /\ Encrypt (rn_Nonce rn) (payload_text [(#"ip", ip); (#"method", method)]) = Some sealed /\ lo_ChallengeID o = challenge_id (rn_Challenge rn) /\
  lo_User o = user /\ d_challenges d' !! challenge_id (rn_Challenge rn) =
    Some (mkChallenge ChallengeKindLoginMFA (ac_ID user) sealed 0 max None (clk 0%nat + (if lc_ChallengeTTL lcfg <=? 0 then defaultChallengeTTL else lc_ChallengeTTL lcfg)) (clk 0%nat)).
Proof.
  unfold requireMFA, challenge_Create. destruct Available; cbn [negb pthen pbind run]; [|done]. destruct (Encrypt _ _) as [sealed|]; cbn [run pbind]; [|done].
  cbn [pbind clock run tx]. unfold challenges_Create. destruct (_ || _); cbn [rbind run pbind]; [done|]. destruct (bool_decide _); cbn [rbind run pbind audit tx_ clock]; [done|].
  intros [= <- <-]. eexists sealed, _. split_and!; [done|done|done|done|]. cbn. by rewrite lookup_insert_eq.
Qed.

Lemma run_IssueToken userID ttl random clk d : TrimSpace userID <> [] -> Forall (fun t => at_TokenHash t <> hashToken (randomToken random)) (d_tokens d) ->
  run (IssueToken userID ttl random) clk d =
  (set_tokens d (d_tokens d ++ [mkAPIToken userID (hashToken (randomToken random)) (if 0 <? ttl then Some (clk 0%nat + ttl) else None) None]), Ok (randomToken random)).
Proof.
  intros Hu Hf. unfold IssueToken. rewrite (bool_decide_eq_false_2 (TrimSpace userID = [])) by done. cbn [run pbind clock tx]. unfold tokens_Create. cbn [at_TokenHash].
  destruct (existsb _ _) eqn:E; [|done]. apply existsb_exists in E as (t & Hin & Ht). apply seq_eqb_eq in Ht. rewrite Forall_forall in Hf. destruct (Hf t); [by apply list_elem_of_In|done].
Qed.

Lemma run_issue user method ip agent already policy rn clk d : TrimSpace (ac_ID user) <> [] -> Forall (fun t => at_TokenHash t <> hashToken (randomToken (rn_Token rn))) (d_tokens d) ->
  exists k, run (issue devices user method ip agent false already policy rn) clk d =
  (audits_Create (set_tokens d (d_tokens d ++ [mkAPIToken (ac_ID user) (hashToken (randomToken (rn_Token rn))) (if 0 <? po_SessionTokenTTL policy then Some (clk k + po_SessionTokenTTL policy) else None) None]))
     (mkAudit (ac_ID user) #"auth.login.success" #"user" (ac_ID user)), Ok (session user (randomToken (rn_Token rn)) method already)).
Proof. intros Hu Hf. exists 0%nat. unfold issue, pthen. rewrite run_bind, run_IssueToken by done. done. Qed.

(** A first step that asks for a second factor leaves its challenge behind. *)
Lemma run_Login_mfa req rn clk d d' o : run (Login mcfg lcfg devices req rn) clk d = (d', Ok o) -> lo_State o = LoginStateMFARequired ->
  exists sealed max k, Available = true /\ Encrypt (rn_Nonce rn) (payload_text [(#"ip", lr_ClientIP req); (#"method", #"password")]) = Some sealed /\
  lo_ChallengeID o = challenge_id (rn_Challenge rn) /\ d_challenges d' !! challenge_id (rn_Challenge rn) =
    Some (mkChallenge ChallengeKindLoginMFA (ac_ID (lo_User o)) sealed 0 max None (clk k + (if lc_ChallengeTTL lcfg <=? 0 then defaultChallengeTTL else lc_ChallengeTTL lcfg)) (clk k)).
Proof.
  assert (forall user method ip agent trust already policy rn clk d d', run (issue devices user method ip agent trust already policy rn) clk d = (d', Ok o) -> lo_State o = LoginStateAuthenticated) as Hno.
  { intros user method ip agent trust already policy rn0 clk0 d0 d0' E. pose proof (run_exec (issue devices user method ip agent trust already policy rn0) clk0 d0) as Hx.
    rewrite E in Hx. by apply exec_issue in Hx as (? & _). }
  intros Hx Hs. unfold Login in Hx. cbn [pbind query run] in Hx. destruct (attempts_IsBlocked _ _ _); [done|]. cbn [pbind query run] in Hx.
  assert (forall bucket userID clk, (run (failLogin lcfg bucket userID) clk d).2 <> Ok o) as Hfail.
  { intros bucket userID clk0 E. pose proof (run_exec (failLogin lcfg bucket userID) clk0 d) as Hf. rewrite E in Hf. revert Hf. generalize (run_trace (failLogin lcfg bucket userID) clk0 d). intros tr Hf. unfold failLogin in Hf. by exec_cases. }
  destruct (users_GetByUsername _ _) as [user|]; [|by destruct (Hfail _ _ _ (f_equal snd Hx))].
  destruct (_ || _); [by destruct (Hfail _ _ _ (f_equal snd Hx))|]. cbn [pbind tx_ run] in Hx. unfold complete in Hx. rewrite !run_bind in Hx.
  destruct (po_Required _); cbn [negb] in Hx; [|by apply Hno in Hx; congruence]. rewrite run_bind in Hx. destruct (run (device_bypass _ _ _ _) _ _).2; [by apply Hno in Hx; congruence|].
  apply run_requireMFA in Hx as (sealed & max & Ha & He & Hid & <- & Hc). by eexists sealed, max, _.
Qed.

Lemma run_Load id kind clk d c plain payload : id <> [] -> d_challenges d !! id = Some c -> ch_Kind c = kind -> ch_ConsumedAt c = None -> (forall i, clk i < ch_ExpiresAt c) ->
  Available = true -> Decrypt (ch_Payload c) = Some plain -> plain <> [] -> payload_of plain = Some payload ->
  run (challenge_Load id kind) clk d = (d, Ok (mkChallengeView id (ch_UserID c) payload)).
Proof.
  intros Hid Hc Hk Hn Hx Ha Hd Hp Hpl. unfold challenge_Load. cbn [run pbind query clock]. rewrite (bool_decide_eq_false_2 (id = [])) by done. rewrite Hc, Hk, Hn, Ha, Hd.
  rewrite (bool_decide_eq_true_2 (kind = kind)) by done. rewrite (bool_decide_eq_false_2 (is_Some None)) by (by intros [? ?]). rewrite (proj2 (Z.ltb_lt _ _) (Hx _)).
  cbn [negb orb]. rewrite (bool_decide_eq_false_2 (plain = [])) by done. by rewrite Hpl.
Qed.

Lemma run_VerifyCode userID code clk d r secret : d_mfa d !! userID = Some r -> um_Status r = MFAStatusEnabled -> openSecret r = Ok secret -> IsRecoveryCode code = false ->
  (forall i, exists step, VerifyTOTP secret code (clk i) (mc_Params mcfg) = Ok (Some step) /\ um_LastUsedStep r < step) ->
  exists r' a v, run (VerifyCode mcfg userID code) clk d = (audits_Create (set_mfa d (<[userID := r']> (d_mfa d))) a, Ok v) /\ vr_Method v = #"totp".
Proof.
  intros Hr Hst Hs Hc Hv. unfold VerifyCode. rewrite run_bind. unfold mfa_load. cbn [run pbind query clock fst snd]. rewrite Hr. unfold mfa_usable. rewrite Hst. cbn [negb bool_decide].
  change (bool_decide (MFAStatusEnabled = MFAStatusPending)) with false. cbn [negb andb require_enabled]. rewrite Hst. change (bool_decide (MFAStatusEnabled = MFAStatusEnabled)) with true.
  cbn [negb]. rewrite Hc. cbn [run pbind clock]. match goal with |- context [check_code mcfg r code ?t] => destruct (Hv 2%nat) as (step & Hok & Hlt); change t with (clk 2%nat) end.
  unfold check_code. rewrite Hs. cbn [rbind]. rewrite Hok. cbn [pthen pbind tx run]. unfold totp_tx, mark_used, mfa_MarkUsed. rewrite Hr, (proj2 (Z.ltb_lt _ _) Hlt). cbn [rbind run pbind].
  by eexists _, _, _.
Qed.

Lemma run_ValidateToken plain user hash expires clk d before : TrimSpace plain = plain -> plain <> [] -> hash = hashToken plain ->
  d_tokens d = before ++ [mkAPIToken (ac_ID user) hash expires None] -> Forall (fun t => at_TokenHash t <> hash) before -> d_users d !! ac_ID user = Some user -> active user = true ->
  (forall e, expires = Some e -> forall i, clk i < e) -> run (ValidateToken plain) clk d = (d, Ok user).
Proof.
  intros Ht Hp -> Hd Hf Hu Ha He. unfold ValidateToken. rewrite Ht, (bool_decide_eq_false_2 (plain = [])) by done. cbn [run pbind query clock].
  assert (tokens_GetByHash d (hashToken plain) = Some (mkAPIToken (ac_ID user) (hashToken plain) expires None)) as ->.
  { unfold tokens_GetByHash. rewrite Hd. clear -Hf. induction Hf as [|t before Ht _ IH]; cbn [app List.find at_TokenHash]; [by rewrite seq_eqb_refl|].
    destruct (seq_eqb (at_TokenHash t) _) eqn:E; [by apply seq_eqb_eq in E|exact IH]. }
  cbn [at_RevokedAt at_ExpiresAt at_UserID]. rewrite (bool_decide_eq_false_2 (is_Some None)) by (by intros [? ?]). cbn [orb].
  destruct expires as [e|]; [rewrite (proj2 (Z.ltb_lt _ _) (He e eq_refl _))|]; cbn [negb run pbind query]; by rewrite Hu, Ha.
Qed.

(** The second step on a live challenge of an account with a fresh code. *)
Lemma run_VerifyMFA id code ip agent rn clk d c plain payload user r secret :
  TrimSpace id = id -> id <> [] -> d_challenges d !! id = Some c -> ch_Kind c = ChallengeKindLoginMFA -> ch_ConsumedAt c = None -> (forall i, clk i < ch_ExpiresAt c) ->
  Available = true -> Decrypt (ch_Payload c) = Some plain -> plain <> [] -> payload_of plain = Some payload ->
  d_users d !! ch_UserID c = Some user -> active user = true -> TrimSpace (ac_ID user) <> [] ->
  d_mfa d !! ac_ID user = Some r -> um_Status r = MFAStatusEnabled -> openSecret r = Ok secret -> IsRecoveryCode code = false ->
  (forall i, exists step, VerifyTOTP secret code (clk i) (mc_Params mcfg) = Ok (Some step) /\ um_LastUsedStep r < step) ->
  Forall (fun t => at_TokenHash t <> hashToken (randomToken (rn_Token rn))) (d_tokens d) ->
  let ttl := as_SessionTokenTTLSeconds (settings_SeedIfMissing d (lc_Defaults lcfg)).2 * Second in
  exists d' o k, run (VerifyMFA mcfg lcfg devices id code ip agent false rn) clk d = (d', Ok o) /\ lo_State o = LoginStateAuthenticated /\ lo_User o = user /\
  lo_Token o = randomToken (rn_Token rn) /\ lo_Method o = #"totp" /\ d_users d' = d_users d /\
  d_tokens d' = d_tokens d ++ [mkAPIToken (ac_ID user) (hashToken (randomToken (rn_Token rn))) (if 0 <? ttl then Some (clk k + ttl) else None) None].
Proof.
  intros Htrim Hid Hc Hk Hn Hx Ha Hd Hp Hpl Hu Hact Hne Hr Hst Hs Hrec Hv Hf ttl. unfold VerifyMFA, pthen. rewrite Htrim, run_bind, (run_Load id _ clk d c plain payload) by done.
  cbn [fst snd cv_UserID cv_ID]. cbn [run pbind query]. rewrite Hu, Hact. cbn [negb]. rewrite run_bind.
  match goal with |- context [run (VerifyCode _ _ _) ?c _] => destruct (run_VerifyCode (ac_ID user) code c d r secret Hr Hst Hs Hrec (fun i => Hv _)) as (r' & a & v & Hrun & Hm) end.
  rewrite Hrun. cbn [fst snd]. rewrite run_bind. unfold challenge_Consume, challenges_Consume. cbn [run tx_ fst snd d_challenges audits_Create set_mfa]. rewrite Hc, Hn.
  change (bool_decide (None = None)) with true. cbn [fst snd negb]. unfold login_settings, tx_. cbn [run pbind].
  set (d2 := set_challenges _ _). assert (settings_SeedIfMissing d2 (lc_Defaults lcfg) = (set_settings d2 (Some (settings_SeedIfMissing d (lc_Defaults lcfg)).2), (settings_SeedIfMissing d (lc_Defaults lcfg)).2)) as ->.
  { unfold settings_SeedIfMissing, d2. cbn [d_settings set_challenges audits_Create set_mfa]. destruct (d_settings d) eqn:Es; cbn [snd]; [|done]. unfold set_settings. cbn. by rewrite <- Es. }
  rewrite run_bind. match goal with |- context [run (issue _ ?u ?m ?i ?g false false ?po ?rn) ?c ?dd] => destruct (run_issue u m i g false po rn c dd Hne Hf) as [k Hi] end.
  rewrite Hi. cbn [fst snd run]. eexists _, _, _. split_and!; [reflexivity|done|done|done|done|done|reflexivity].
Qed.

(** C11. A two-step login completes when nothing interferes: after a password
    login that asked for a second factor, presenting its challenge with a fresh
    code of the account's confirmed secret before the challenge expires ends in
    a session, and the token of that session is then accepted as that account's
    until its lifetime has passed.  The secret provider opens what it sealed,
    the client address is UTF-8 text, and the drawn token is not empty and not
    one already issued. *)
Theorem two_step_login_completes req rn1 clk1 d d1 o1 code ip agent rn2 clk2 user r secret :
  (forall nonce plain sealed, Encrypt nonce plain = Some sealed -> Decrypt sealed = Some plain) -> utf8 (lr_ClientIP req) -> rn_Token rn2 <> [] ->
  run (Login mcfg lcfg devices req rn1) clk1 d = (d1, Ok o1) -> lo_State o1 = LoginStateMFARequired ->
  (forall i j, clk2 i < clk1 j + (if lc_ChallengeTTL lcfg <=? 0 then defaultChallengeTTL else lc_ChallengeTTL lcfg)) ->
  d_users d1 !! ac_ID (lo_User o1) = Some user -> ac_ID user = ac_ID (lo_User o1) -> active user = true -> TrimSpace (ac_ID user) <> [] ->
  d_mfa d1 !! ac_ID user = Some r -> um_Status r = MFAStatusEnabled -> openSecret r = Ok secret -> IsRecoveryCode code = false ->
  (forall i, exists step, VerifyTOTP secret code (clk2 i) (mc_Params mcfg) = Ok (Some step) /\ um_LastUsedStep r < step) ->
  Forall (fun t => at_TokenHash t <> hashToken (randomToken (rn_Token rn2))) (d_tokens d1) ->
  let ttl := as_SessionTokenTTLSeconds (settings_SeedIfMissing d1 (lc_Defaults lcfg)).2 * Second in
  exists d2 o2, run (VerifyMFA mcfg lcfg devices (lo_ChallengeID o1) code ip agent false rn2) clk2 d1 = (d2, Ok o2) /\
  lo_State o2 = LoginStateAuthenticated /\ lo_User o2 = user /\
  forall clk3, (0 < ttl -> forall i j, clk3 i < clk2 j + ttl) -> run (ValidateToken (lo_Token o2)) clk3 d2 = (d2, Ok user).
Proof.
  intros Hlaw Hip Htok Hlog Hs Hclk Hu Hid Hact Hne Hr Hst Hsec Hrec Hv Hf ttl. destruct (run_Login_mfa _ _ _ _ _ _ Hlog Hs) as (sealed & max & k & Ha & He & Hcid & Hc).
  destruct (challenge_id_plain (rn_Challenge rn1)) as [Ht1 Ht2]. rewrite Hcid.
  destruct (run_VerifyMFA (challenge_id (rn_Challenge rn1)) code ip agent rn2 clk2 d1 _ (payload_text [(#"ip", lr_ClientIP req); (#"method", #"password")])
    [(#"ip", lr_ClientIP req); (#"method", #"password")] user r secret Ht1 Ht2 Hc) as (d2 & o2 & k2 & Hrun & Ho1 & Ho2 & Ho3 & _ & Hus & Htk); try done.
  - intros i. apply Hclk.
  - by eapply Hlaw.
  - apply payload_roundtrip; [done|]. apply utf8_ascii. by repeat constructor.
  - exists d2, o2. split_and!; [done|done|done|]. intros clk3 H3. rewrite Ho3. destruct (url_text_plain (rn_Token rn2) Htok) as [Hp1 Hp2].
    eapply run_ValidateToken; [exact Hp1|exact Hp2|reflexivity|exact Htk|exact Hf|by rewrite Hus, Hid|exact Hact|].
    fold ttl. intros e. destruct (Z.ltb_spec 0 ttl) as [Hl|]; [|done]. intros [= <-] i. by apply H3.
Qed.
End completion.

(** ** Sample runs *)

Definition sample_login_config : LoginConfig := mkLoginConfig 2 (5 * Minute) (10 * Minute) (5 * Minute) 5 (sample_settings MFAModeDisabled).
Definition wrong_request : LoginRequest := mkLoginRequest #"Alice" #"guess" #"10.0.0.1" #"curl" false [].
Definition sample_bucket : bytes := @bucket_of ascii_unicode wrong_request.

Notation throttled_Login := (@Login ascii_unicode sample_argon sample_provider sample_mfa_config sample_login_config (Some sample_device_config)).


(** The sample account with its factor, after enrolling with the password. *)
Definition sample_reenrolled : result (idb * bytes) id_err :=
  @enroll_tx sample_argon #"u1" #"hunter2" (mkEnvelope #"!GEZDGNBVGY3TQOJQ" [] #"default" 1) [ #"h"] (59 * Second) (sample_db MFAModeOptional).
Notation sample_complete := (@complete ascii_unicode sample_provider sample_mfa_config DefaultLoginConfig (Some sample_device_config) sample_account #"password" #"10.0.0.1" #"curl" false [] sample_randoms).


Lemma device_cap_kept_witness : exists d' v, @device_tx ascii_unicode sample_device_config #"u1" #"curl" #"10.0.0.1" #"token" #"dev-1" 60 60 (sample_db MFAModeOptional) = Ok (d', v) /\
  devices_CountActive d' #"u1" 60 <= 2.
Proof.
  destruct (@device_tx ascii_unicode sample_device_config #"u1" #"curl" #"10.0.0.1" #"token" #"dev-1" 60 60 (sample_db MFAModeOptional)) as [[d' v]|e] eqn:E; [|vm_compute in E; discriminate E].
  exists d', v. split; [reflexivity|]. refine (proj2 (@device_cap_kept ascii_unicode sample_device_config #"u1" #"curl" #"10.0.0.1" #"token" #"dev-1" 60 60 (sample_db MFAModeOptional) d' v _ _ E)).
  - intros k u Hk. discriminate Hk.
  - reflexivity.
Defined.

Lemma two_step_login_completes_witness : exists d1 o1 d2 o2,
  run (sample_Login sample_request sample_randoms) sample_clock (sample_db MFAModeOptional) = (d1, Ok o1) /\
  run (sample_VerifyMFA (lo_ChallengeID o1) #"94287082" #"10.0.0.1" #"curl" false sample_randoms) sample_clock d1 = (d2, Ok o2) /\
  run (@ValidateToken ascii_unicode (lo_Token o2)) sample_clock d2 = (d2, Ok sample_account).
Proof.
  set (first := run (sample_Login sample_request sample_randoms) sample_clock (sample_db MFAModeOptional)).
  assert (exists o1, first.2 = Ok o1 /\ lo_State o1 = LoginStateMFARequired /\ lo_User o1 = sample_account) as (o1 & Eo & Hs & Hu) by (vm_compute; eexists; split_and!; reflexivity).
  assert (d_users first.1 = {[ #"u1" := sample_account ]} /\ d_mfa first.1 = {[ #"u1" := sample_factor ]} /\ d_tokens first.1 = [] /\ d_settings first.1 = Some (sample_settings MFAModeOptional))
    as (Eu & Em & Et & Es) by (vm_compute; split_and!; reflexivity).
  assert (first = (first.1, Ok o1)) as Efirst by (rewrite <- Eo; apply surjective_pairing).
  destruct (@two_step_login_completes ascii_unicode sample_argon sample_provider sample_mfa_config DefaultLoginConfig (Some sample_device_config) sample_request sample_randoms sample_clock
    (sample_db MFAModeOptional) first.1 o1 #"94287082" #"10.0.0.1" #"curl" sample_randoms sample_clock sample_account sample_factor rfc_secret) as (d2 & o2 & H2 & _ & _ & H3).
  - intros nonce plain sealed [= <-]. reflexivity.
  - apply utf8_ascii. by repeat constructor.
  - discriminate.
  - exact Efirst.
  - exact Hs.
  - intros i j. reflexivity.
  - rewrite Hu, Eu. reflexivity.
  - by rewrite Hu.
  - reflexivity.
  - discriminate.
  - rewrite Em. reflexivity.
  - reflexivity.
  - reflexivity.
  - reflexivity.
  - intros i. exists 1. split; [vm_compute; reflexivity|reflexivity].
  - rewrite Et. constructor.
  - exists first.1, o1, d2, o2. split; [exact Efirst|]. split; [exact H2|]. apply H3. unfold settings_SeedIfMissing. rewrite Es. intros _ i j. reflexivity.
Defined.
