(* ===== verification/SelfUpdate.v ===== *)
(** * Automatic upgrades

    [internal/semver] (release versions), the upgrade policy of
    [internal/selfupdate/planner.go], the persisted state and the version
    directories of [store.go], and the bookkeeping of [upgrader.go].

    [disk] is the update directory without its staging area.  What the operating
    system answers (whether a save or a removal succeeds, what the release
    source, the download and the preflight report) is an argument of each
    operation.  A save is a rename, so it happens entirely or not at all, and a
    process that dies in an operation leaves the disk of the same operation with
    the remaining steps failing.  A path is represented by the version it is
    built from, and the reasons of decisions are abbreviated.  The fault hooks of
    the tests are absent, and a directory that cannot be listed or created is one
    in which nothing can be removed. *)

From stdpp Require Import base list gmap sets strings sorting relations.
From Stdlib Require Import Ascii ZArith Lia.
From S2P Require Import Prelude GoStrings.
Local Open Scope Z_scope.

(** ** Release versions *)

Record Version := mkVersion { v_Major : Z; v_Minor : Z; v_Patch : Z; v_Pre : bytes }.

Definition parseNumber (s : bytes) : option Z :=
  if bool_decide (s = []) || negb (forallb is_digit s) then None else Atoi s.

Definition validPre (pre : bytes) : bool := forallb (fun c => is_lower c || is_upper c || is_digit c || beq c dot) pre.

(** [strings.Compare] *)
Definition str_compare (a b : bytes) : Z := if seq_eqb a b then 0 else if str_ltb a b then -1 else 1.

Fixpoint compare_pairs (pairs : list (Z * Z)) (rest : Z) : Z :=
  match pairs with
  | [] => rest
  | (a, b) :: pairs' => if a =? b then compare_pairs pairs' rest else if a <? b then -1 else 1
  end.

Definition Compare (v o : Version) : Z :=
  compare_pairs [(v_Major v, v_Major o); (v_Minor v, v_Minor o); (v_Patch v, v_Patch o)]
    (if seq_eqb (v_Pre v) (v_Pre o) then 0
     else if bool_decide (v_Pre v = []) then 1
     else if bool_decide (v_Pre o = []) then -1
     else str_compare (v_Pre v) (v_Pre o)).

Definition IsPre (v : Version) : bool := negb (bool_decide (v_Pre v = [])).

Definition version_String (v : Version) : bytes :=
  #"v" ++ Itoa (v_Major v) ++ #"." ++ Itoa (v_Minor v) ++ #"." ++ Itoa (v_Patch v) ++ (if bool_decide (v_Pre v = []) then [] else #"-" ++ v_Pre v).

Definition Min (a b : Version) : Version := if Compare a b <=? 0 then a else b.

Definition Parse `{GoUnicode} (s : bytes) : option Version :=
  let s := TrimPrefix (TrimSpace s) #"v" in
  if bool_decide (s = []) then None
  else
    let '(core, pre, hasPre) := Cut s dash in
    if hasPre && bool_decide (pre = []) then None
    else match Split core dot with
    | [a; b; c] =>
        match parseNumber a, parseNumber b, parseNumber c with
        | Some major, Some minor, Some patch => if hasPre && negb (validPre pre) then None else Some (mkVersion major minor patch pre)
        | _, _, _ => None
        end
    | _ => None
    end.

(** ** Persisted state *)

Record Pending := mkPending { pe_Target : bytes; pe_From : bytes; pe_StartedAt : Z }.
Record BadMark := mkBadMark { bm_Reason : bytes; bm_Until : Z }.
Record State := mkState { st_Current : bytes; st_Previous : bytes; st_Pending : option Pending; st_Bad : gmap bytes BadMark; st_LastCheck : Z }.

Definition empty_state : State := mkState [] [] None ∅ 0.

Definition IsBad (s : State) (version : bytes) (now : Z) : bool :=
  match st_Bad s !! version with Some mark => now <? bm_Until mark | None => false end.

Definition MarkBad (s : State) (version reason : bytes) (now ttl : Z) : State :=
  mkState (st_Current s) (st_Previous s) (st_Pending s) (<[version := mkBadMark reason (now + ttl)]> (st_Bad s)) (st_LastCheck s).

Definition Expire (s : State) (now : Z) : State :=
  mkState (st_Current s) (st_Previous s) (st_Pending s) (filter (fun kv => now < bm_Until kv.2) (st_Bad s)) (st_LastCheck s).

(** [state.json] as a reader finds it. *)
Inductive state_file := FileMissing | FileUnreadable | FileDamaged | FileDocument (schema : Z) (st : State).

(** The version directories, and whether each holds the binary. *)
Record disk := mkDisk { dk_file : state_file; dk_versions : gmap bytes bool }.

Inductive update_err := ErrIO | ErrNotReleaseName | ErrSource | ErrDownload | ErrPreflight.

(** What the file system answers during one operation. *)
Record io := mkIO { io_saves : bool; io_removes : bytes -> bool }.

Definition stateSchema : Z := 1.

Definition Load (d : disk) : result State update_err :=
  match dk_file d with
  | FileMissing => Ok empty_state
  | FileUnreadable => Err ErrIO
  | FileDamaged => Ok empty_state
  | FileDocument schema st => if stateSchema <? schema then Ok empty_state else Ok st
  end.

Definition Save (i : io) (d : disk) (st : State) : result disk update_err :=
  if io_saves i then Ok (mkDisk (FileDocument stateSchema st) (dk_versions d)) else Err ErrIO.

Definition RemoveAll (i : io) (d : disk) (version : bytes) : disk :=
  if io_removes i version then mkDisk (dk_file d) (delete version (dk_versions d)) else d.

(** ** The policy *)

Record Decision := mkDecision { dc_Upgrade : bool; dc_Target : Version; dc_Reason : bytes }.
Definition no_upgrade (reason : bytes) : Decision := mkDecision false (mkVersion 0 0 0 []) reason.

Section upgrader.
Context `{GoUnicode}.

(** A directory is built only from the canonical name of a release. *)
Definition versionDir (version : bytes) : option bytes :=
  match Parse version with
  | Some parsed => if seq_eqb (version_String parsed) version then Some version else None
  | None => None
  end.

Definition Decide (current : bytes) (st : State) (now : Z) (latest : Version) (serverVersion : bytes) : Decision :=
  match Parse current with
  | None => no_upgrade #"development"
  | Some cur =>
      match Parse serverVersion with
      | None => no_upgrade #"server version unknown"
      | Some server =>
          let target := Min latest server in
          if Compare target cur <=? 0 then no_upgrade #"already current"
          else if IsPre target && negb (IsPre cur) then no_upgrade #"pre-release"
          else if IsBad st (version_String target) now then no_upgrade #"failed recently"
          else mkDecision true target []
      end
  end.

(** [Prune]: the directories of releases, newest first; the first [keep] and
    the protected ones stay. *)
Definition release_dirs (d : disk) : list (bytes * Version) :=
  sort_by (fun a b => 0 <? Compare a.2 b.2)
    (omap (fun name => match Parse name with Some v => if seq_eqb (version_String v) name then Some (name, v) else None | None => None end) (map_to_list (dk_versions d)).*1).

Fixpoint remove_versions (i : io) (names : list bytes) (d : disk) : disk :=
  match names with
  | [] => d
  | name :: names' => remove_versions i names' (RemoveAll i d name)
  end.

Definition prunable (d : disk) (keep : Z) (inUse : list bytes) : list bytes :=
  List.filter (fun name => negb (existsb (seq_eqb name) inUse)) (drop (Z.to_nat keep) (release_dirs d)).*1.

Definition Prune (i : io) (d : disk) (keep : Z) (inUse : list bytes) : disk * result unit update_err :=
  (remove_versions i (prunable d keep inUse) d, if forallb (io_removes i) (prunable d keep inUse) then Ok tt else Err ErrIO).

(** ** The upgrader *)

Record Upgrader := mkUpgrader { up_InstalledVersion : bytes; up_BadVersionTTL : Z; up_KeepVersions : Z; up_CheckInterval : Z; up_FirstCheckDelay : Z; up_FirstCheckJitter : Z }.
Record Candidate := mkCandidate { ca_Version : bytes }.
Record ReadyInfo := mkReadyInfo { ri_Version : bytes; ri_ServerVersion : bytes }.

Variable u : Upgrader.

Definition installedIsNewer (current : bytes) : bool :=
  if bool_decide (current = []) then false
  else match Parse current, Parse (up_InstalledVersion u) with
  | Some cur, Some installed => 0 <=? Compare installed cur
  | _, _ => false
  end.

Definition rollbackInState (i : io) (st : State) (d : disk) (reason : bytes) (now : Z) : State * disk :=
  let abandoned := match st_Pending st with Some p => pe_Target p | None => st_Current st end in
  let '(st, d) :=
    if bool_decide (abandoned = []) then (st, d)
    else (MarkBad st abandoned reason now (up_BadVersionTTL u), if bool_decide (is_Some (versionDir abandoned)) then RemoveAll i d abandoned else d) in
  (mkState (st_Previous st) [] None (st_Bad st) (st_LastCheck st), d).

Definition Resume (i : io) (d : disk) (now : Z) : disk * result unit update_err :=
  match Load d with
  | Err e => (d, Err e)
  | Ok st =>
      let '(st, d) := match st_Pending st with Some _ => rollbackInState i st d #"the supervisor stopped during the upgrade trial" now | None => (st, d) end in
      let st := if installedIsNewer (st_Current st) then mkState [] [] (st_Pending st) (st_Bad st) (st_LastCheck st) else st in
      let st := Expire st now in
      match Save i d st with
      | Err e => (d, Err e)
      | Ok d => Prune i d (up_KeepVersions u) [st_Current st; st_Previous st]
      end
  end.

(** The version to launch, [None] for the installed binary, and whether it is
    on trial. *)
Definition Binary (d : disk) : option bytes * bool :=
  match Load d with
  | Err _ => (None, false)
  | Ok st =>
      if bool_decide (st_Current st = []) then (None, false)
      else match versionDir (st_Current st) with
      | None => (None, false)
      | Some dir =>
          if installedIsNewer (st_Current st) then (None, false)
          else if negb (bool_decide (dk_versions d !! dir = Some true)) then (None, false)
          else (Some dir, match st_Pending st with Some p => seq_eqb (pe_Target p) (st_Current st) | None => false end)
      end
  end.

(** [draw] is the number the random source gives, [Int63n] its remainder. *)
Definition NextCheck (first : bool) (draw : Z) : Z :=
  if up_CheckInterval u <=? 0 then 0
  else if first then
    let delay := if up_FirstCheckDelay u <=? 0 then 60 * Second else up_FirstCheckDelay u in
    let jitter := if up_FirstCheckJitter u <=? 0 then 300 * Second else up_FirstCheckJitter u in
    delay + draw mod jitter
  else up_CheckInterval u + draw mod (up_CheckInterval u / 4 + 1).

Definition recordCheck (i : io) (d : disk) (now : Z) : disk :=
  match Load d with
  | Err _ => d
  | Ok st => match Save i d (mkState (st_Current st) (st_Previous st) (st_Pending st) (st_Bad st) now) with Ok d => d | Err _ => d end
  end.

Definition blacklist (i : io) (d : disk) (version reason : bytes) (now : Z) : disk :=
  let d := match Load d with
    | Err _ => d
    | Ok st => match Save i d (MarkBad st version reason now (up_BadVersionTTL u)) with Ok d => d | Err _ => d end
    end in
  if bool_decide (is_Some (versionDir version)) then RemoveAll i d version else d.

(** [Install]: the directory is cleared, then the staged binary is renamed into
    its place. *)
Definition Install (i : io) (d : disk) (version : bytes) (renames : bool) : disk * result unit update_err :=
  match versionDir version with
  | None => (d, Err ErrNotReleaseName)
  | Some dir =>
      if negb (io_removes i dir) then (d, Err ErrIO)
      else if negb renames then (RemoveAll i d dir, Err ErrIO)
      else (mkDisk (dk_file d) (<[dir := true]> (dk_versions d)), Ok tt)
  end.

(** What the release source, the download with its staging directory, the rename
    and the preflight of one check answer, and whether its context ended. *)
Record check_env := mkCheckEnv { ce_latest : option Version; ce_downloads : bool; ce_installs : bool; ce_preflight : bool; ce_cancelled : bool }.

Definition Check_ (i : io) (d : disk) (now : Z) (running : ReadyInfo) (env : check_env) : disk * result (option Candidate) update_err :=
  match ce_latest env with
  | None => (d, Err ErrSource)
  | Some latest =>
      match Load d with
      | Err e => (d, Err e)
      | Ok st =>
          let decision := Decide (ri_Version running) st now latest (ri_ServerVersion running) in
          let d := recordCheck i d now in
          if negb (dc_Upgrade decision) then (d, Ok None)
          else if negb (ce_downloads env) then (d, Err ErrDownload)
          else
            let tag := version_String (dc_Target decision) in
            match Install i d tag (ce_installs env) with
            | (d, Err e) => (d, Err e)
            | (d, Ok _) =>
                if ce_preflight env then (d, Ok (Some (mkCandidate tag)))
                else (if ce_cancelled env then d else blacklist i d tag #"preflight" now, Err ErrPreflight)
            end
      end
  end.

Definition Activate (i : io) (d : disk) (now : Z) (c : Candidate) : disk * result unit update_err :=
  match Load d with
  | Err e => (d, Err e)
  | Ok st =>
      match Save i d (mkState (ca_Version c) (st_Current st) (Some (mkPending (ca_Version c) (st_Current st) now)) (st_Bad st) (st_LastCheck st)) with
      | Ok d => (d, Ok tt)
      | Err e => (d, Err e)
      end
  end.

Definition Commit (i : io) (d : disk) (now : Z) : disk * result unit update_err :=
  match Load d with
  | Err e => (d, Err e)
  | Ok st =>
      let st := Expire (mkState (st_Current st) (st_Previous st) None (st_Bad st) (st_LastCheck st)) now in
      match Save i d st with
      | Ok d => Prune i d (up_KeepVersions u) [st_Current st; st_Previous st]
      | Err e => (d, Err e)
      end
  end.

Definition Rollback (i : io) (d : disk) (reason : bytes) (now : Z) : disk * result unit update_err :=
  match Load d with
  | Err e => (d, Err e)
  | Ok st =>
      let '(st, d) := rollbackInState i st d reason now in
      match Save i d st with
      | Ok d => (d, Ok tt)
      | Err e => (d, Err e)
      end
  end.
End upgrader.

(** ** Versions are totally ordered, printed and parsed *)

Lemma str_compare_cases a b : str_compare a b = 0 /\ a = b \/ str_compare a b = -1 /\ str_ltb a b = true \/ str_compare a b = 1 /\ str_ltb b a = true.
Proof.
  unfold str_compare. destruct (seq_eqb a b) eqn:E; [apply seq_eqb_eq in E; tauto|]. destruct (str_ltb a b) eqn:L; [tauto|]. right. right. split; [done|].
  destruct (str_ltb b a) eqn:L'; [done|]. apply seq_eqb_neq in E. by destruct E; apply str_ltb_trichotomy.
Qed.

(** Where two versions are ordered: the first number that differs, then the
    label, with no label last. *)
Definition version_lt (v o : Version) : Prop :=
  v_Major v < v_Major o \/ v_Major v = v_Major o /\ (v_Minor v < v_Minor o \/ v_Minor v = v_Minor o /\ (v_Patch v < v_Patch o \/ v_Patch v = v_Patch o /\
    (v_Pre v <> [] /\ v_Pre o = [] \/ v_Pre v <> [] /\ v_Pre o <> [] /\ str_ltb (v_Pre v) (v_Pre o) = true))).

Lemma Compare_cases v o : Compare v o = -1 /\ version_lt v o \/ Compare v o = 0 /\ v = o \/ Compare v o = 1 /\ version_lt o v.
Proof.
  unfold Compare, version_lt. cbn [compare_pairs]. destruct v as [a b c p], o as [a' b' c' p']. cbn [v_Major v_Minor v_Patch v_Pre].
  destruct (Z.eqb_spec a a') as [->|]; [|destruct (Z.ltb_spec a a'); [left|right; right]; (split; [done|lia])].
  destruct (Z.eqb_spec b b') as [->|]; [|destruct (Z.ltb_spec b b'); [left|right; right]; (split; [done|lia])].
  destruct (Z.eqb_spec c c') as [->|]; [|destruct (Z.ltb_spec c c'); [left|right; right]; (split; [done|lia])].
  destruct (seq_eqb p p') eqn:E; [apply seq_eqb_eq in E as ->; right; left; done|]. apply seq_eqb_neq in E.
  destruct (decide (p = [])) as [->|Hp]; [rewrite bool_decide_eq_true_2 by done; right; right; split; [done|]; do 3 (right; split; [done|]); left; split; congruence|].
  rewrite (bool_decide_eq_false_2 (p = [])) by done.
  destruct (decide (p' = [])) as [->|Hp']; [rewrite bool_decide_eq_true_2 by done; left; split; [done|]; do 3 (right; split; [done|]); left; split; congruence|].
  rewrite bool_decide_eq_false_2 by done. destruct (str_compare_cases p p') as [[-> ->]|[[-> Hl]|[-> Hl]]]; [done|left|right; right]; (split; [done|]); do 3 (right; split; [done|]); by right.
Qed.

Lemma version_lt_irrefl v : ~ version_lt v v.
Proof. unfold version_lt. rewrite str_ltb_irrefl. intros [?|[_ [?|[_ [?|[_ [[]|[_ [_ ?]]]]]]]]]; congruence || lia. Qed.

Lemma version_lt_trans a b c : version_lt a b -> version_lt b c -> version_lt a c.
Proof.
  unfold version_lt. intros [?|[E1 Hab]] [?|[E2 Hbc]]; [left; lia..|]. right. split; [lia|]. destruct Hab as [?|[E3 Hab]], Hbc as [?|[E4 Hbc]]; [left; lia..|]. right. split; [lia|].
  destruct Hab as [?|[E5 Hab]], Hbc as [?|[E6 Hbc]]; [left; lia..|]. right. split; [lia|].
  destruct Hab as [[Ha Hb]|(Ha & Hb & Hl)], Hbc as [[Hb' Hc]|(Hb' & Hc & Hl')]; [done|done|by left|right]. split_and!; [done|done|by eapply str_ltb_trans].
Qed.

Lemma Compare_refl v : Compare v v = 0.
Proof. by destruct (Compare_cases v v) as [[_ ?%version_lt_irrefl]|[[? _]|[_ ?%version_lt_irrefl]]]. Qed.

Lemma Compare_antisym v o : Compare o v = - Compare v o.
Proof.
  destruct (Compare_cases v o) as [[-> L]|[[-> ->]|[-> L]]]; [|by rewrite Compare_refl|]; destruct (Compare_cases o v) as [[E L']|[[E ->]|[E L']]]; rewrite ?E; try done;
    exfalso; eapply version_lt_irrefl; (exact L || by eapply version_lt_trans).
Qed.

Lemma Min_below a b : Compare (Min a b) a <= 0 /\ Compare (Min a b) b <= 0.
Proof. unfold Min. destruct (Z.leb_spec (Compare a b) 0); rewrite Compare_refl; [lia|]. rewrite Compare_antisym. lia. Qed.

(** The order of release versions is total: versions compare equal exactly
    when they are equal, the comparison the other way round is its opposite, and
    it is transitive; [Min] is the lower of its arguments. *)
Theorem version_order_total a b c :
  (Compare a b = 0 <-> a = b) /\ Compare b a = - Compare a b /\ (Compare a b <= 0 -> Compare b c <= 0 -> Compare a c <= 0) /\
  Compare (Min a b) a <= 0 /\ Compare (Min a b) b <= 0 /\ (Min a b = a \/ Min a b = b).
Proof.
  destruct (Min_below a b). split_and!; [|apply Compare_antisym| |done|done|unfold Min; destruct (_ <=? 0); tauto].
  - split; [|intros ->; apply Compare_refl]. by destruct (Compare_cases a b) as [[-> _]|[[_ ?]|[-> _]]].
  - intros Hab Hbc. destruct (Compare_cases a b) as [[E1 L1]|[[E1 ->]|[E1 _]]]; [|done|lia]. destruct (Compare_cases b c) as [[E2 L2]|[[E2 ->]|[E2 _]]]; [|lia|lia].
    pose proof (version_lt_trans _ _ _ L1 L2) as L. destruct (Compare_cases a c) as [[-> _]|[[-> _]|[_ L']]]; [lia|lia|]. exfalso. eapply version_lt_irrefl, version_lt_trans; eassumption.
Qed.

(** The versions the release pipeline produces. *)
Definition version_ok (v : Version) : Prop :=
  0 <= v_Major v <= max_int64 /\ 0 <= v_Minor v <= max_int64 /\ 0 <= v_Patch v <= max_int64 /\ validPre (v_Pre v) = true.

(** The bytes of a release name. *)
Definition release_char (c : byte) : bool := is_lower c || is_upper c || is_digit c || beq c dot || beq c dash.

Lemma release_char_plain c : release_char c = true -> (is_ascii_byte c = true /\ is_space c = false) /\ c <> slash /\ c <> "\"%char.
Proof. destruct c as [[] [] [] [] [] [] [] []]; vm_compute; intros; repeat split; congruence. Qed.

Lemma validPre_chars pre : validPre pre = true -> Forall (fun c => release_char c = true /\ c <> dash) pre.
Proof.
  unfold validPre. rewrite forallb_forall. intros Hv. apply Forall_forall. intros c Hc. apply list_elem_of_In, Hv in Hc. unfold release_char. rewrite Hc.
  split; [done|]. intros ->. by vm_compute in Hc.
Qed.

Lemma Itoa_release n : 0 <= n -> Forall (fun c => release_char c = true) (Itoa n).
Proof. intros Hn. eapply Forall_impl; [by apply Itoa_digits|]. intros c Hc. unfold release_char. by rewrite Hc, !orb_true_r. Qed.

Lemma version_String_chars v : version_ok v -> Forall (fun c => release_char c = true) (version_String v).
Proof.
  intros ([Ha _] & [Hb _] & [Hc _] & Hp). unfold version_String. rewrite !Forall_app. split_and!; try (by apply Itoa_release); try (by repeat constructor).
  case_bool_decide; [constructor|]. rewrite Forall_app. split; [by repeat constructor|]. eapply Forall_impl; [by apply validPre_chars|]. by intros ? [].
Qed.

Lemma parseNumber_Itoa n : 0 <= n <= max_int64 -> parseNumber (Itoa n) = Some n.
Proof.
  intros Hn. unfold parseNumber. rewrite bool_decide_eq_false_2 by (apply Itoa_not_nil; lia).
  rewrite (proj2 (forallb_forall _ _)); [by apply Atoi_Itoa|]. intros c Hc. apply (proj1 (Forall_forall _ _) (Itoa_digits n (proj1 Hn))). by apply list_elem_of_In.
Qed.

Lemma parseNumber_range s n : parseNumber s = Some n -> 0 <= n <= max_int64.
Proof.
  unfold parseNumber. destruct s as [|c s]; [done|]. destruct (forallb is_digit (c :: s)) eqn:Hd; [|done]. simpl in Hd. apply andb_true_iff in Hd as [Hc _].
  rewrite bool_decide_eq_false_2 by done. cbn [orb negb]. unfold Atoi. destruct (is_digit_not c Hc) as (H1 & H2 & _). rewrite (proj2 (beq_neq _ _) H1), (proj2 (beq_neq _ _) H2).
  destruct (parse_digits 0 (c :: s)) as [k|] eqn:E; [|done]. apply parse_digits_nonneg in E; [|done]. destruct ((_ <=? k) && (k <=? _)) eqn:R; [|done].
  apply andb_true_iff in R as [_ R%Z.leb_le]. intros [= <-]. done.
Qed.

Section releases.
Context `{GoUnicode}.

Lemma Parse_ok s v : Parse s = Some v -> version_ok v.
Proof.
  unfold Parse. cbn zeta. case_bool_decide; [done|]. destruct (Cut _ dash) as [[core pre] has] eqn:Ec. destruct (has && bool_decide (pre = [])); [done|].
  destruct (Split core dot) as [|a [|b [|c [|]]]]; try done. destruct (parseNumber a) as [x|] eqn:Ea; [|done]. destruct (parseNumber b) as [y|] eqn:Eb; [|done].
  destruct (parseNumber c) as [z|] eqn:Ez; [|done]. destruct (has && negb (validPre pre)) eqn:Hp; [done|]. intros [= <-]. unfold version_ok. cbn [v_Major v_Minor v_Patch v_Pre].
  split_and!; try (eapply parseNumber_range; eassumption). destruct has; [by apply negb_false_iff in Hp|]. by apply Cut_false in Ec as [-> _].
Qed.

Lemma Parse_String v : version_ok v -> Parse (version_String v) = Some v.
Proof.
  intros Hv. pose proof (version_String_chars v Hv) as Hch. unfold Parse.
  rewrite TrimSpace_Forall by (eapply Forall_impl; [exact Hch|]; intros c Hc; by apply release_char_plain in Hc as [? _]).
  destruct Hv as (Ha & Hb & Hc & Hp). destruct v as [a b c pre]. unfold version_String. cbn [v_Major v_Minor v_Patch v_Pre] in *. rewrite TrimPrefix_app. cbn zeta.
  set (core := Itoa a ++ #"." ++ Itoa b ++ #"." ++ Itoa c).
  assert (dash ∉ core) as Hd by (subst core; rewrite !elem_of_app; intros [X|[X|[X|[X|X]]]]; try (eapply (Itoa_not_elem _ dash); [| |exact X]; done || lia); by apply list_elem_of_singleton in X).
  assert (Split core dot = [Itoa a; Itoa b; Itoa c]) as Hs by (apply (Split_Join [Itoa a; Itoa b; Itoa c] dot); [done|]; repeat constructor; apply Itoa_not_elem; done || lia).
  destruct (decide (pre = [])) as [->|Hne].
  - rewrite (bool_decide_eq_true_2 ([] = [])), app_nil_r by done. fold core. rewrite bool_decide_eq_false_2, Cut_no_sep, Hs, !parseNumber_Itoa; done || lia || (intros E; by rewrite E in Hs).
  - rewrite (bool_decide_eq_false_2 (pre = [])) by done. replace (_ ++ _) with (core ++ dash :: pre) by (subst core; by rewrite <- !app_assoc).
    rewrite bool_decide_eq_false_2, Cut_app by (done || by destruct core). rewrite bool_decide_eq_false_2 by done. rewrite Hs, !parseNumber_Itoa, Hp by lia. done.
Qed.

Lemma versionDir_Some version dir : versionDir version = Some dir <-> dir = version /\ exists v, version_ok v /\ version = version_String v.
Proof.
  unfold versionDir. split.
  - destruct (Parse version) as [v|] eqn:E; [|done]. destruct (seq_eqb _ _) eqn:Es; [|done]. apply seq_eqb_eq in Es. intros [= <-]. split; [done|]. exists v. split; [by eapply Parse_ok|done].
  - intros (-> & v & Hv & ->). by rewrite Parse_String, seq_eqb_refl.
Qed.

(** C39. A release name printed is parsed back to the same version, and what is
    parsed is always printable; so a directory is built exactly from the printed
    names of releases, and such a name is one path element under [versions/]: it
    starts with [v] and contains no separator, whatever [state.json] says. *)
Theorem version_names_safe v name :
  (version_ok v -> Parse (version_String v) = Some v) /\ (Parse name = Some v -> version_ok v) /\
  (is_Some (versionDir name) <-> exists w, version_ok w /\ name = version_String w) /\
  (is_Some (versionDir name) -> (exists rest, name = #"v" ++ rest) /\ slash ∉ name /\ ("\"%char : byte) ∉ name).
Proof.
  assert (is_Some (versionDir name) <-> exists w, version_ok w /\ name = version_String w) as Hd.
  { split; [intros [d Hd]; by apply versionDir_Some in Hd as [_ ?]|]. intros Hw. exists name. by apply versionDir_Some. }
  split_and!; [apply Parse_String|apply Parse_ok|done|]. intros Hn. apply Hd in Hn as (w & Hw & ->). split; [by eexists|]. pose proof (version_String_chars w Hw) as Hc.
  rewrite Forall_forall in Hc. split; intros Hin; by apply Hc, release_char_plain in Hin as (_ & ? & ?).
Qed.
End releases.

(** ** The policy, trials and bans *)

(** One call into the upgrader.  [Check_] is a call like the others: it takes the
    state lock only for its own reads and writes. *)
Inductive upgrade_op :=
  | OpResume
  | OpCheck (running : ReadyInfo) (env : check_env)
  | OpActivate (c : Candidate)
  | OpCommit
  | OpRollback (reason : bytes).

(** The operations that end a trial as failed: a rollback, and the start of a
    supervisor whose predecessor died. *)
Definition fails_trial (o : upgrade_op) : Prop := match o with OpResume | OpRollback _ => True | _ => False end.

(** The version on trial, according to the recorded state. *)
Definition on_trial (d : disk) (p : Pending) : Prop := exists st, Load d = Ok st /\ st_Pending st = Some p.

(** A recorded trial is of the current version, with the way back recorded. *)
Definition trial_recorded (d : disk) : Prop := forall st p, Load d = Ok st -> st_Pending st = Some p -> st_Current st = pe_Target p /\ st_Previous st = pe_From p.

(** The version is marked at least until [until]. *)
Definition banned (version : bytes) (until : Z) (d : disk) : Prop := exists st m, Load d = Ok st /\ st_Bad st !! version = Some m /\ until <= bm_Until m.

(** Calls with the clock and the file system they meet, the clock never going
    back. *)
Fixpoint timed (from : Z) (calls : list (Z * io * upgrade_op)) : Prop :=
  match calls with
  | [] => True
  | (now, _, _) :: calls' => from <= now /\ timed now calls'
  end.

Section trials.
Context `{GoUnicode}.
Variable u : Upgrader.

Definition apply_op (i : io) (now : Z) (o : upgrade_op) (d : disk) : disk :=
  match o with
  | OpResume => (Resume u i d now).1
  | OpCheck running env => (Check_ u i d now running env).1
  | OpActivate c => (Activate i d now c).1
  | OpCommit => (Commit u i d now).1
  | OpRollback reason => (Rollback u i d reason now).1
  end.

Definition apply_ops (calls : list (Z * io * upgrade_op)) (d : disk) : disk := fold_left (fun d '(now, i, o) => apply_op i now o d) calls d.

(** *** What touches the state file *)

Lemma Load_versions f vs vs' : Load (mkDisk f vs) = Load (mkDisk f vs').
Proof. done. Qed.

Lemma RemoveAll_file i d v : dk_file (RemoveAll i d v) = dk_file d.
Proof. unfold RemoveAll. by destruct (io_removes i v). Qed.

Lemma Load_file d d' : dk_file d' = dk_file d -> Load d' = Load d.
Proof. unfold Load. by intros ->. Qed.

Lemma remove_versions_file i names : forall d, dk_file (remove_versions i names d) = dk_file d.
Proof. induction names as [|n names IH]; intros d; simpl; [done|]. by rewrite IH, RemoveAll_file. Qed.

Lemma remove_versions_other i names v : forall d, v ∉ names -> dk_versions (remove_versions i names d) !! v = dk_versions d !! v.
Proof.
  induction names as [|n names IH]; intros d Hv; simpl; [done|]. apply not_elem_of_cons in Hv as [Hn Hv]. rewrite IH by done. unfold RemoveAll.
  destruct (io_removes i n); [|done]. simpl. by rewrite lookup_delete_ne.
Qed.

Lemma Save_cases i d st : io_saves i = true /\ Save i d st = Ok (mkDisk (FileDocument stateSchema st) (dk_versions d)) \/ io_saves i = false /\ Save i d st = Err ErrIO.
Proof. unfold Save. destruct (io_saves i); tauto. Qed.

Lemma Load_saved st vs : Load (mkDisk (FileDocument stateSchema st) vs) = Ok st.
Proof. done. Qed.

(** The state of a rollback, the directory apart. *)
Definition rolled (reason : bytes) (now : Z) (st : State) : State :=
  let abandoned := match st_Pending st with Some p => pe_Target p | None => st_Current st end in
  let st := if bool_decide (abandoned = []) then st else MarkBad st abandoned reason now (up_BadVersionTTL u) in
  mkState (st_Previous st) [] None (st_Bad st) (st_LastCheck st).

Lemma rollbackInState_rolled i st d reason now :
  (rollbackInState u i st d reason now).1 = rolled reason now st /\ dk_file (rollbackInState u i st d reason now).2 = dk_file d /\
  forall v, (forall p, st_Pending st = Some p -> pe_Target p <> v) -> (st_Pending st = None -> st_Current st <> v) -> dk_versions (rollbackInState u i st d reason now).2 !! v = dk_versions d !! v.
Proof.
  unfold rollbackInState, rolled. cbn zeta. set (a := match st_Pending st with Some p => _ | None => _ end). destruct (bool_decide (a = [])); simpl; [done|]. split; [done|].
  split; [case_bool_decide; [apply RemoveAll_file|done]|]. intros v Hp Hn. case_bool_decide; [|done]. unfold RemoveAll. destruct (io_removes i a); [|done]. simpl. apply lookup_delete_ne.
  subst a. destruct (st_Pending st); auto.
Qed.

Definition resumed (now : Z) (st : State) : State :=
  let st := match st_Pending st with Some _ => rolled #"the supervisor stopped during the upgrade trial" now st | None => st end in
  Expire (if installedIsNewer u (st_Current st) then mkState [] [] (st_Pending st) (st_Bad st) (st_LastCheck st) else st) now.

(** What a call that saves its state writes, as a relation: a check may only add
    a mark and its time. *)
Definition state_step (now : Z) (o : upgrade_op) (st st' : State) : Prop :=
  match o with
  | OpResume => st' = resumed now st
  | OpCheck _ _ => st_Current st' = st_Current st /\ st_Previous st' = st_Previous st /\ st_Pending st' = st_Pending st /\
      (st_Bad st' = st_Bad st \/ exists v reason, st_Bad st' = <[v := mkBadMark reason (now + up_BadVersionTTL u)]> (st_Bad st))
  | OpActivate c => st' = mkState (ca_Version c) (st_Current st) (Some (mkPending (ca_Version c) (st_Current st) now)) (st_Bad st) (st_LastCheck st)
  | OpCommit => st' = Expire (mkState (st_Current st) (st_Previous st) None (st_Bad st) (st_LastCheck st)) now
  | OpRollback reason => st' = rolled reason now st
  end.

Lemma Prune_file i d keep inUse : dk_file (Prune i d keep inUse).1 = dk_file d.
Proof. apply remove_versions_file. Qed.

Lemma Resume_effect i now d st : Load d = Ok st -> if io_saves i then Load (apply_op i now OpResume d) = Ok (resumed now st) else Load (apply_op i now OpResume d) = Ok st.
Proof.
  intros HL. unfold apply_op, Resume, resumed. rewrite HL. destruct (st_Pending st) eqn:Hp.
  - destruct (rollbackInState_rolled i st d #"the supervisor stopped during the upgrade trial" now) as (E1 & E2 & _). destruct (rollbackInState _ _ _ _ _ _) as [st' d']. simpl in E1, E2 |- *. subst st'.
    unfold Save. destruct (io_saves i); [by rewrite (Load_file _ _ (Prune_file _ _ _ _))|]. simpl. by rewrite (Load_file _ _ E2).
  - unfold Save. destruct (io_saves i); [by rewrite (Load_file _ _ (Prune_file _ _ _ _))|done].
Qed.

Lemma Rollback_effect i now reason d st : Load d = Ok st -> if io_saves i then Load (apply_op i now (OpRollback reason) d) = Ok (rolled reason now st) else Load (apply_op i now (OpRollback reason) d) = Ok st.
Proof.
  intros HL. unfold apply_op, Rollback. rewrite HL. destruct (rollbackInState_rolled i st d reason now) as (E1 & E2 & _).
  destruct (rollbackInState _ _ _ _ _ _) as [st' d']. simpl in E1, E2 |- *. subst st'. unfold Save. destruct (io_saves i); [done|]. simpl. by rewrite (Load_file _ _ E2).
Qed.

Lemma Install_file i d v r : dk_file (Install i d v r).1 = dk_file d.
Proof. unfold Install. destruct (versionDir v); [|done]. destruct (negb _); [done|]. destruct (negb _); [apply RemoveAll_file|done]. Qed.

Lemma recordCheck_effect i d now st : Load d = Ok st ->
  dk_versions (recordCheck i d now) = dk_versions d /\
  exists t, Load (recordCheck i d now) = Ok (mkState (st_Current st) (st_Previous st) (st_Pending st) (st_Bad st) t).
Proof. intros HL. unfold recordCheck, Save. rewrite HL. destruct (io_saves i); split; try done; [by eexists|]. exists (st_LastCheck st). rewrite HL. by destruct st. Qed.

Lemma blacklist_effect i d v reason now st : Load d = Ok st ->
  if io_saves i then Load (blacklist u i d v reason now) = Ok (MarkBad st v reason now (up_BadVersionTTL u)) else Load (blacklist u i d v reason now) = Ok st.
Proof.
  intros HL. unfold blacklist, Save. rewrite HL. destruct (io_saves i); (case_bool_decide; [rewrite (Load_file _ _ (RemoveAll_file _ _ _))|]); done.
Qed.

Lemma Check_effect i now running env d st : Load d = Ok st ->
  exists st', Load (apply_op i now (OpCheck running env) d) = Ok st' /\ state_step now (OpCheck running env) st st'.
Proof.
  intros HL. unfold apply_op, Check_, state_step. destruct (ce_latest env) as [latest|]; [|exists st; tauto]. rewrite HL.
  destruct (recordCheck_effect i d now st HL) as [_ [t Ht]]. cbn zeta. set (st1 := mkState _ _ _ _ t) in Ht. set (dc := Decide _ _ _ _ _).
  destruct (dc_Upgrade dc); simpl; [|exists st1; tauto]. destruct (ce_downloads env); simpl; [|exists st1; tauto].
  pose proof (Install_file i (recordCheck i d now) (version_String (dc_Target dc)) (ce_installs env)) as HI.
  destruct (Install _ _ _ _) as [d1 [|]]; simpl in HI |- *; [|exists st1; rewrite (Load_file _ _ HI); tauto].
  assert (Load d1 = Ok st1) as HL1 by (by rewrite (Load_file _ _ HI)). destruct (ce_preflight env); [exists st1; tauto|]. simpl. destruct (ce_cancelled env); [exists st1; tauto|].
  pose proof (blacklist_effect i d1 (version_String (dc_Target dc)) #"preflight" now st1 HL1) as HB. destruct (io_saves i); eexists; (split; [exact HB|]); simpl; [|tauto].
  split_and!; try done. right. by do 2 eexists.
Qed.

Lemma op_effect i now o d st : Load d = Ok st -> exists st', Load (apply_op i now o d) = Ok st' /\ (st' = st \/ state_step now o st st').
Proof.
  intros HL. destruct o as [|running env|c| |reason].
  - pose proof (Resume_effect i now d st HL) as HE. destruct (io_saves i); eexists; (split; [exact HE|]); [by right|by left].
  - destruct (Check_effect i now running env d st HL) as (st' & ? & ?). eauto.
  - unfold apply_op, Activate, Save. rewrite HL. destruct (io_saves i); simpl; [eexists; split; [by rewrite Load_saved|]; by right|eauto].
  - unfold apply_op, Commit, Save. rewrite HL. destruct (io_saves i); [rewrite (Load_file _ _ (Prune_file _ _ _ _)); simpl; eexists; split; [by rewrite Load_saved|]; by right|eauto].
  - pose proof (Rollback_effect i now reason d st HL) as HE. destruct (io_saves i); eexists; (split; [exact HE|]); [by right|by left].
Qed.

(** A call that cannot read the state changes nothing. *)
Lemma op_unreadable i now o d e : Load d = Err e -> apply_op i now o d = d.
Proof. intros HL. destruct o; unfold apply_op, Resume, Check_, Activate, Commit, Rollback; rewrite ?HL; try done. by destruct (ce_latest env). Qed.

Lemma Expire_Pending st now : st_Pending (Expire st now) = st_Pending st.
Proof. done. Qed.

Lemma rolled_Pending reason now st : st_Pending (rolled reason now st) = None.
Proof. done. Qed.

Lemma resumed_Pending now st : st_Pending (resumed now st) = None.
Proof. unfold resumed. destruct (st_Pending st) eqn:E; case_match; simpl; done. Qed.

Lemma trial_recorded_op i now o d : trial_recorded d -> trial_recorded (apply_op i now o d).
Proof.
  intros HT. destruct (Load d) as [st|e] eqn:HL; [|by rewrite (op_unreadable i now o d e HL)]. destruct (op_effect i now o d st HL) as (st' & HL' & Hs).
  intros s p Hs1 Hp. rewrite HL' in Hs1. injection Hs1 as <-. destruct Hs as [->|Hs]; [by apply (HT st)|].
  destruct o; simpl in Hs; [subst st'; by rewrite resumed_Pending in Hp| |subst st'; simpl in Hp; by injection Hp as <-|by subst st'|by subst st'].
  destruct Hs as (-> & -> & E & _). rewrite E in Hp. by apply (HT st).
Qed.

Lemma banned_op i now o v until d : until <= now + up_BadVersionTTL u -> now < until -> banned v until d -> banned v until (apply_op i now o d).
Proof.
  intros Hu Hn (st & m & HL & Hm & Hle). destruct (op_effect i now o d st HL) as (st' & HL' & [->|Hs]); [by exists st, m|].
  assert (forall s, (exists m, st_Bad s !! v = Some m /\ until <= bm_Until m) -> exists m, st_Bad (Expire s now) !! v = Some m /\ until <= bm_Until m) as HX.
  { intros s (m' & Hm' & ?). exists m'. split; [|done]. simpl. apply map_lookup_filter_Some. split; [done|]. simpl. lia. }
  assert (forall w reason (bad : gmap bytes BadMark), (exists m, bad !! v = Some m /\ until <= bm_Until m) -> exists m, <[w := mkBadMark reason (now + up_BadVersionTTL u)]> bad !! v = Some m /\ until <= bm_Until m) as HI.
  { intros w reason bad (m' & Hm' & ?). destruct (decide (w = v)) as [->|]; [eexists; split; [by rewrite lookup_insert_eq|done]|]. exists m'. by rewrite lookup_insert_ne. }
  assert (forall reason, exists m, st_Bad (rolled reason now st) !! v = Some m /\ until <= bm_Until m) as HR.
  { intros reason. unfold rolled. cbn zeta. case_bool_decide; simpl; [by exists m|]. apply HI. by exists m. }
  enough (exists m, st_Bad st' !! v = Some m /\ until <= bm_Until m) as (m' & ? & ?) by (by exists st', m').
  destruct o; simpl in Hs.
  - subst st'. apply HX. destruct (st_Pending st); (destruct (installedIsNewer u _); [apply (HR _) || (by exists m)|apply (HR _) || (by exists m)]).
  - destruct Hs as (_ & _ & _ & [->|(w & reason & ->)]); [by exists m|]. apply HI. by exists m.
  - subst st'. by exists m.
  - subst st'. apply HX. by exists m.
  - subst st'. apply HR.
Qed.

Lemma banned_ops v until calls : forall from d, timed from calls -> until <= from + up_BadVersionTTL u -> Forall (fun c => c.1.1 < until) calls ->
  banned v until d -> banned v until (apply_ops calls d).
Proof.
  induction calls as [|[[now i] o] calls IH]; intros from d; simpl; [done|]. intros [Hf Ht] Hu [Hn Hc]%Forall_cons Hb. simpl in Hn. apply (IH now); [done|lia|done|]. apply banned_op; [lia|done|done].
Qed.

Lemma trial_recorded_ops calls : forall d, trial_recorded d -> trial_recorded (apply_ops calls d).
Proof. induction calls as [|[[now i] o] calls IH]; intros d Hd; simpl; [done|]. apply IH. by apply trial_recorded_op. Qed.

(** A failed trial marks its version. *)
Lemma failed_trial_banned i now o d p : on_trial d p -> pe_Target p <> [] -> io_saves i = true -> 0 < up_BadVersionTTL u -> fails_trial o ->
  banned (pe_Target p) (now + up_BadVersionTTL u) (apply_op i now o d).
Proof.
  intros (st & HL & Hp) Hne Hs Httl Ho.
  assert (forall reason, st_Bad (rolled reason now st) !! pe_Target p = Some (mkBadMark reason (now + up_BadVersionTTL u))) as HR.
  { intros reason. unfold rolled. rewrite Hp. cbn zeta. rewrite bool_decide_eq_false_2 by done. simpl. by rewrite lookup_insert_eq. }
  destruct o; try done; [pose proof (Resume_effect i now d st HL) as HE|pose proof (Rollback_effect i now reason d st HL) as HE]; rewrite Hs in HE; do 2 eexists; (split; [exact HE|]).
  - unfold resumed. rewrite Hp. destruct (installedIsNewer _ _); (split; [apply map_lookup_filter_Some; split; [apply HR|simpl; lia]|simpl; lia]).
  - split; [apply HR|simpl; lia].
Qed.

(** The upgrade policy. *)
Lemma Decide_target current st now latest server target :
  dc_Upgrade (Decide current st now latest server) = true -> dc_Target (Decide current st now latest server) = target -> IsBad st (version_String target) now = false.
Proof.
  unfold Decide. destruct (Parse current) as [cur|]; [|done]. destruct (Parse server) as [srv|]; [|done]. cbn zeta. destruct (_ <=? 0); [done|]. destruct (_ && _); [done|].
  destruct (IsBad _ _ _) eqn:E; [done|]. simpl. by intros _ <-.
Qed.

(** What a check offers was decided from the state it loaded, and is installed. *)
Lemma Check_offers i d now running env d' c st : Load d = Ok st -> Check_ u i d now running env = (d', Ok (Some c)) ->
  exists latest, ce_latest env = Some latest /\ let dc := Decide (ri_Version running) st now latest (ri_ServerVersion running) in
    dc_Upgrade dc = true /\ ca_Version c = version_String (dc_Target dc) /\ is_Some (versionDir (ca_Version c)) /\
    (exists t, Load d' = Ok (mkState (st_Current st) (st_Previous st) (st_Pending st) (st_Bad st) t)) /\ dk_versions d' = <[ca_Version c := true]> (dk_versions d).
Proof.
  intros HL. unfold Check_. destruct (ce_latest env) as [latest|]; [|done]. rewrite HL. cbn zeta. set (dc := Decide _ _ _ _ _). intros HC. exists latest. split; [done|]. fold dc.
  destruct (recordCheck_effect i d now st HL) as [Hv Ht]. destruct (dc_Upgrade dc); simpl in HC; [|done]. destruct (ce_downloads env); simpl in HC; [|done].
  unfold Install in HC. destruct (versionDir (version_String (dc_Target dc))) as [dir|] eqn:Ed; [|done]. destruct (negb (io_removes _ _)); [done|]. destruct (negb (ce_installs env)); [done|].
  destruct (ce_preflight env); [|done]. injection HC as <- <-. simpl. rewrite Ed. apply versionDir_Some in Ed as [-> _]. split_and!; try done. by rewrite Hv.
Qed.

(** The upgrade policy: an upgrade is decided exactly when the worker runs a
    release, the Server's version is known, and the lower of the newest release
    and the Server's version is above the running one, is not a pre-release on a
    stable install and is not marked as failed; that version is the target, so a
    worker never runs ahead of its Server and never goes back. *)
Theorem upgrade_policy current st now latest server target :
  Decide current st now latest server = mkDecision true target [] <->
  exists cur srv, Parse current = Some cur /\ Parse server = Some srv /\ target = Min latest srv /\
    Compare cur target = -1 /\ Compare target srv <= 0 /\ Compare target latest <= 0 /\ (IsPre target = true -> IsPre cur = true) /\ IsBad st (version_String target) now = false.
Proof.
  unfold Decide. split.
  - destruct (Parse current) as [cur|]; [|done]. destruct (Parse server) as [srv|]; [|done]. cbn zeta. destruct (Z.leb_spec (Compare (Min latest srv) cur) 0); [done|].
    destruct (IsPre _ && _) eqn:Epre; [done|]. destruct (IsBad _ _ _) eqn:Eb; [done|]. intros [= <-]. exists cur, srv. destruct (Min_below latest srv). split_and!; try done.
    + rewrite Compare_antisym. destruct (Compare_cases (Min latest srv) cur) as [[? _]|[[? _]|[-> _]]]; lia.
    + intros Hp. rewrite Hp in Epre. by apply negb_false_iff in Epre.
  - intros (cur & srv & -> & -> & -> & Hc & _ & _ & Hp & Hb). cbn zeta. rewrite Compare_antisym in Hc.
    destruct (Z.leb_spec (Compare (Min latest srv) cur) 0); [lia|]. destruct (IsPre (Min latest srv)) eqn:Ep; [rewrite Hp by done|]; simpl; by rewrite Hb.
Qed.

(** A version whose trial failed, by rollback or because the supervisor died
    during it, is not offered again before its mark expires, whatever calls
    follow and whatever the file system answers them. *)
Theorem failed_version_not_retried i T o d p calls i' now running env d' c :
  on_trial d p -> pe_Target p <> [] -> io_saves i = true -> 0 < up_BadVersionTTL u -> fails_trial o ->
  timed T calls -> Forall (fun x => x.1.1 <= now) calls -> T <= now < T + up_BadVersionTTL u ->
  Check_ u i' (apply_ops calls (apply_op i T o d)) now running env = (d', Ok (Some c)) -> ca_Version c <> pe_Target p.
Proof.
  intros Hp Hne Hs Httl Ho Ht Hb Hnow HC E. pose proof (failed_trial_banned i T o d p Hp Hne Hs Httl Ho) as HB.
  destruct (banned_ops (pe_Target p) (T + up_BadVersionTTL u) calls T (apply_op i T o d) Ht) as (st & m & HL & Hm & Hle); [lia|eapply Forall_impl; [exact Hb|]; simpl; lia|done|].
  destruct (Check_offers _ _ _ _ _ _ _ _ HL HC) as (latest & _ & Hu & Hv & _). apply Decide_target with (target := dc_Target (Decide (ri_Version running) st now latest (ri_ServerVersion running))) in Hu; [|done].
  rewrite <- Hv, E in Hu. unfold IsBad in Hu. rewrite Hm in Hu. apply Z.ltb_ge in Hu. lia.
Qed.

Lemma release_dirs_names d name : name ∈ (release_dirs d).*1 -> is_Some (dk_versions d !! name) /\ is_Some (versionDir name).
Proof.
  unfold release_dirs. rewrite sort_by_perm. intros ([n v] & -> & Hin)%list_elem_of_fmap. apply list_elem_of_omap in Hin as (k & Hk & Hv).
  unfold versionDir. destruct (Parse k) as [w|] eqn:Ew; [|done]. destruct (seq_eqb _ k) eqn:Es; [|done]. injection Hv as <- <-. simpl. rewrite Ew, Es.
  apply list_elem_of_fmap in Hk as ([k' b] & -> & Hk). apply elem_of_map_to_list in Hk. split; by eexists.
Qed.

(** Pruning removes only releases that are not in use. *)
Lemma Prune_keeps i d keep inUse v : v ∈ inUse \/ versionDir v = None -> dk_versions (Prune i d keep inUse).1 !! v = dk_versions d !! v.
Proof.
  intros Hv. apply remove_versions_other. unfold prunable. intros Hin. apply list_elem_of_In, filter_In in Hin as [Hin Hu]. apply negb_true_iff in Hu. destruct Hv as [Hv|Hv].
  - assert (existsb (seq_eqb v) inUse = true) as E by (apply existsb_exists; exists v; split; [by apply list_elem_of_In|apply seq_eqb_refl]). congruence.
  - apply list_elem_of_In in Hin. rewrite fmap_drop in Hin. destruct (release_dirs_names d v) as [_ [? ?]]; [|congruence]. rewrite <- (take_drop (Z.to_nat keep) (release_dirs d).*1). apply elem_of_app. by right.
Qed.

(** The recorded version and its binary decide what is launched. *)
Lemma Binary_same d d' st st' : Load d = Ok st -> Load d' = Ok st' -> st_Current st' = st_Current st -> dk_versions d' !! st_Current st = dk_versions d !! st_Current st ->
  (Binary u d').1 = (Binary u d).1.
Proof.
  intros HL HL' Ec Ed. unfold Binary. rewrite HL, HL', Ec. case_bool_decide; [done|]. destruct (versionDir (st_Current st)) as [dir|] eqn:Ev; [|done].
  apply versionDir_Some in Ev as [-> _]. rewrite Ed. destruct (installedIsNewer u _); [done|]. by destruct (negb _).
Qed.

Lemma Binary_no_trial d st : Load d = Ok st -> st_Pending st = None -> (Binary u d).2 = false.
Proof. intros HL Hp. unfold Binary. rewrite HL, Hp. repeat (case_match; try done). Qed.

Lemma Binary_newer d st : Load d = Ok st -> installedIsNewer u (st_Current st) = true \/ st_Current st = [] -> (Binary u d).1 = None.
Proof. intros HL Hn. unfold Binary. rewrite HL. case_bool_decide as E; [done|]. destruct Hn as [Hn|]; [|done]. destruct (versionDir _); [|done]. by rewrite Hn. Qed.

Lemma restored_by_resume d st d2 st2 p i now : Load d = Ok st -> Load d2 = Ok st2 -> st_Pending st2 = Some p -> pe_Target p <> st_Current st -> st_Previous st2 = st_Current st ->
  dk_versions d2 !! st_Current st = dk_versions d !! st_Current st -> io_saves i = true ->
  (Binary u (apply_op i now OpResume d2)).1 = (Binary u d).1 /\ (Binary u (apply_op i now OpResume d2)).2 = false.
Proof.
  intros HL HL2 Hp Hne Hprev Hd2 Hs. pose proof (Resume_effect i now d2 st2 HL2) as HE. rewrite Hs in HE. split; [|eapply Binary_no_trial; [exact HE|apply resumed_Pending]].
  assert (st_Current (rolled #"the supervisor stopped during the upgrade trial" now st2) = st_Current st) as Hc by (unfold rolled; by case_bool_decide).
  unfold resumed in HE. rewrite Hp, Hc in HE. destruct (installedIsNewer u (st_Current st)) eqn:En.
  - rewrite (Binary_newer d st HL) by auto. eapply Binary_newer; [exact HE|]. by right.
  - eapply Binary_same; [exact HL|exact HE|exact Hc|]. rewrite <- Hd2. unfold apply_op, Resume. rewrite HL2, Hp.
    destruct (rollbackInState_rolled i st2 d2 #"the supervisor stopped during the upgrade trial" now) as (E1 & _ & HV).
    destruct (rollbackInState _ _ _ _ _ _) as [s' d']. cbn [fst snd] in E1, HV. subst s'. rewrite Hc, En. unfold Save. rewrite Hs.
    rewrite Prune_keeps; [apply HV; [by rewrite Hp; intros ? [= <-]|by rewrite Hp]|]. left. cbn [Expire st_Current]. rewrite Hc. set_solver.
Qed.

End trials.

(** *** A deployment whose upgrade to [v1.3.0] fails *)

#[local] Instance sample_unicode : GoUnicode := ascii_unicode.
Definition sample_upgrader : Upgrader := mkUpgrader #"v1.0.0" (24 * 3600 * Second) 2 (6 * 3600 * Second) 0 0.
Definition sample_io : io := mkIO true (fun _ => true).
Definition sample_disk : disk := mkDisk (FileDocument 1 (mkState #"v1.2.0" [] None ∅ 0)) {[ #"v1.2.0" := true ]}.
Definition sample_running : ReadyInfo := mkReadyInfo #"v1.2.0" #"v1.3.0".
Definition sample_check : check_env := mkCheckEnv (Parse #"v1.4.0") true true true false.
Definition sample_checked : disk := (Check_ sample_upgrader sample_io sample_disk 10 sample_running sample_check).1.
Definition sample_activated : disk := (Activate sample_io sample_checked 20 (mkCandidate #"v1.3.0")).1.
Definition sample_pending : Pending := mkPending #"v1.3.0" #"v1.2.0" 20.

(** The Server runs [v1.3.0]: it caps the upgrade below the newest release. *)
Lemma upgrade_policy_sample : (Decide #"v1.2.0" empty_state 10 (mkVersion 1 4 0 []) #"v1.3.0") = mkDecision true (mkVersion 1 3 0 []) [].
Proof. vm_compute. reflexivity. Qed.


Lemma failed_version_not_retried_witness :
  (Check_ sample_upgrader sample_io (apply_ops sample_upgrader [(40, sample_io, OpCommit)] (apply_op sample_upgrader sample_io 30 (OpRollback #"not ready") sample_activated)) 50 sample_running
    (mkCheckEnv (Parse #"v1.2.5") true true true false)).2 = Ok (Some (mkCandidate #"v1.2.5")) /\ #"v1.2.5" <> #"v1.3.0".
Proof.
  split; [vm_compute; reflexivity|].
  refine (failed_version_not_retried sample_upgrader sample_io 30 (OpRollback #"not ready") sample_activated sample_pending [(40, sample_io, OpCommit)] sample_io 50 sample_running
    (mkCheckEnv (Parse #"v1.2.5") true true true false) _ (mkCandidate #"v1.2.5") _ _ eq_refl eq_refl I _ _ _ _).
  - eexists. split; vm_compute; reflexivity.
  - discriminate.
  - simpl. lia.
  - by repeat constructor.
  - vm_compute. split; [discriminate|reflexivity].
  - vm_compute. reflexivity.
Defined.
