(* ===== verification/ReleaseFetch.v ===== *)
(** * Downloading a release

    [internal/selfupdate]: the checksum file ([sums.go]), the size limit of a
    download ([LimitBody] of [source.go]), the extraction of one file from an
    archive ([extract.go]) and [FetchBinary] with its retries ([fetch.go]).

    The release source is an interface; what it answers to the attempts of a
    download is an argument.  So is what the archive readers of the Go library make
    of the bytes of an archive.  The staging directory maps file names to contents;
    removing a file from it succeeds. *)

From stdpp Require Import base list gmap sets strings sorting relations.
From Stdlib Require Import Ascii ZArith Lia.
From S2P Require Import Prelude GoStrings GoCrypto SelfUpdate.
Local Open Scope Z_scope.

Inductive fetch_err := ErrNotFound | ErrTooLarge | ErrTransport | ErrLocalIO | ErrMalformedSums | ErrNotListed | ErrChecksumMismatch | ErrBadArchive | ErrContext.

(** A reader: the bytes it delivers, then the end of the file or an error. *)
Record body := mkBody { bd_data : bytes; bd_err : option fetch_err }.

(** ** [path.Clean] and [path.Base] of the Go library *)

Definition dotdot : bytes := #"..".

(** The elements of a path; [stack] holds those kept so far, the last one first. *)
Fixpoint clean_elements (rooted : bool) (elements stack : list bytes) : list bytes :=
  match elements with
  | [] => reverse stack
  | e :: elements' =>
      if bool_decide (e = []) || seq_eqb e #"." then clean_elements rooted elements' stack
      else if seq_eqb e dotdot then
        match stack with
        | top :: stack' => if seq_eqb top dotdot then clean_elements rooted elements' (dotdot :: stack) else clean_elements rooted elements' stack'
        | [] => clean_elements rooted elements' (if rooted then [] else [dotdot])
        end
      else clean_elements rooted elements' (e :: stack)
  end.

Definition path_Clean (p : bytes) : bytes :=
  let rooted := HasPrefix p #"/" in
  match clean_elements rooted (Split p slash) [] with
  | [] => if rooted then #"/" else #"."
  | kept => (if rooted then #"/" else []) ++ Join kept slash
  end.

Fixpoint drop_leading (c : byte) (s : bytes) : bytes :=
  match s with
  | b :: s' => if beq b c then drop_leading c s' else s
  | [] => []
  end.

Definition path_Base (p : bytes) : bytes :=
  if bool_decide (p = []) then #"."
  else
    let p := reverse (drop_leading slash (reverse p)) in
    if bool_decide (p = []) then #"/" else default p (last (Split p slash)).

(** ** The checksum file *)

Definition isHex (s : bytes) : bool := forallb (fun c => is_digit c || ((97 <=? byte_val c) && (byte_val c <=? 102)) || ((65 <=? byte_val c) && (byte_val c <=? 70))) s.

Definition newline : byte := ascii_of_nat 10.
Definition carriage : byte := ascii_of_nat 13.

(** The lines of [bufio.Scanner]: a final line needs no newline, and one carriage
    return before a newline is dropped. *)
Definition scan_lines (s : bytes) : list bytes :=
  let parts := Split s newline in
  if bool_decide (last parts = Some []) then removelast parts else parts.

Definition drop_carriage (line : bytes) : bytes := TrimSuffix line [carriage].

(** The longest line that fits the scanner's buffer with its newline. *)
Definition max_line : Z := 65535.

Section fetch.
Context `{GoUnicode}.

Fixpoint parse_sums (lines : list bytes) (sums : gmap bytes bytes) : result (gmap bytes bytes) fetch_err :=
  match lines with
  | [] => Ok sums
  | raw :: lines' =>
      if max_line <? Z.of_nat (length raw) then Err ErrTransport
      else
        let line := TrimSpace (drop_carriage raw) in
        if bool_decide (line = []) || HasPrefix line #"#" then parse_sums lines' sums
        else
          let '(digest, rest, ok) := Cut line " "%char in
          let name := TrimPrefix (TrimPrefix (drop_leading " "%char rest) #"*") #"./" in
          if negb ok || negb (Z.of_nat (length digest) =? 64) || negb (isHex digest) || bool_decide (name = []) then Err ErrMalformedSums
          else if negb (seq_eqb (path_Base name) name) || seq_eqb name dotdot then Err ErrMalformedSums
          else
            let digest := ToLower digest in
            match sums !! name with
            | Some previous => if negb (seq_eqb previous digest) then Err ErrMalformedSums else parse_sums lines' (<[name := digest]> sums)
            | None => parse_sums lines' (<[name := digest]> sums)
            end
  end.

Definition ParseSHA256SUMS (r : body) : result (gmap bytes bytes) fetch_err :=
  match parse_sums (scan_lines (bd_data r)) ∅ with
  | Err e => Err e
  | Ok sums => match bd_err r with Some e => Err e | None => Ok sums end
  end.
End fetch.

(** ** The limit of a download *)

(** [limitedBody]: what may still be read, and the bytes left in the reader under
    it. *)
Record limited := mkLimited { lb_remaining : Z; lb_under : bytes }.

Definition LimitBody (data : bytes) (max : Z) : limited := mkLimited max data.

(** [Read] into a buffer of [room] bytes, of which the reader under it fills at
    most [fills]; [err] is what that reader reports with its bytes. *)
Definition limited_Read (b : limited) (room fills : Z) (err : option fetch_err) : limited * bytes * option fetch_err :=
  if lb_remaining b <? 0 then (b, [], Some ErrTooLarge)
  else
    let room := if lb_remaining b + 1 <? room then lb_remaining b + 1 else room in
    let got := take (Z.to_nat (Z.min room fills)) (lb_under b) in
    let n := Z.of_nat (length got) in
    let under := drop (length got) (lb_under b) in
    if lb_remaining b <? n then (mkLimited (-1) under, take (Z.to_nat (n - 1)) got, Some ErrTooLarge) else (mkLimited (lb_remaining b - n) under, got, err).

(** A caller that reads until the first error. *)
Fixpoint read_all (b : limited) (reads : list (Z * Z)) : limited * bytes * option fetch_err :=
  match reads with
  | [] => (b, [], None)
  | (room, fills) :: reads' =>
      match limited_Read b room fills None with
      | (b, got, Some e) => (b, got, Some e)
      | (b, got, None) => let '(b, more, err) := read_all b reads' in (b, got ++ more, err)
      end
  end.

(** ** Taking one file out of an archive *)

Inductive ArchiveKind := ArchiveTarGz | ArchiveZip.

(** A member as the reader reports it: its name, whether it is a regular file,
    whether it can be opened, and its contents.  A damaged archive reports an
    error where it is read. *)
Inductive member := Member (name : bytes) (regular opens : bool) (contents : body) | Damaged.

Definition cleanRootName (name : bytes) : option bytes :=
  let name := (fun c => if beq c "\"%char then slash else c) <$> name in
  if HasPrefix name #"/" then None
  else
    let cleaned := path_Clean name in
    if seq_eqb cleaned dotdot || HasPrefix cleaned #"../" then None else Some cleaned.

Notation staging := (gmap bytes bytes) (only parsing).

(** [writeLimited]; [writes] says whether the new file can be written. *)
Definition writeLimited (dir : staging) (dst : bytes) (src : body) (max : Z) (writes : bool) : staging * result unit fetch_err :=
  if bool_decide (is_Some (dir !! dst)) || negb writes then (dir, Err ErrLocalIO)
  else
    let n := Z.of_nat (length (bd_data src)) in
    if max <? n then (dir, Err ErrTooLarge)
    else match bd_err src with
    | Some e => (dir, Err e)
    | None => (<[dst := bd_data src]> dir, Ok tt)
    end.

(** The loops of [extractFromTarGz] and [extractFromZip]. *)
Fixpoint extract_members (members : list member) (wantBase dst : bytes) (max : Z) (writes : bool) (matches : nat) (dir : staging) : staging * result unit fetch_err :=
  match members with
  | [] => (dir, if bool_decide (matches = 0%nat) then Err ErrBadArchive else Ok tt)
  | Damaged :: _ => (dir, Err ErrBadArchive)
  | Member name regular opens contents :: members' =>
      if negb (bool_decide (cleanRootName name = Some wantBase)) then extract_members members' wantBase dst max writes matches dir
      else if (0 <? matches)%nat then (dir, Err ErrBadArchive)
      else if negb regular then (dir, Err ErrBadArchive)
      else if negb opens then (dir, Err ErrBadArchive)
      else match writeLimited dir dst contents max writes with
      | (dir, Err e) => (dir, Err e)
      | (dir, Ok _) => extract_members members' wantBase dst max writes (S matches) dir
      end
  end.

(** [read] gives the members of an archive, [None] when it is not one. *)
Definition ExtractOne (read : ArchiveKind -> bytes -> option (list member)) (kind : ArchiveKind) (archive wantBase dst : bytes) (max : Z) (writes : bool) (dir : staging) : staging * result unit fetch_err :=
  if bool_decide (is_Some (dir !! dst)) then (dir, Err ErrLocalIO)
  else match read kind archive with
  | None => (delete dst dir, Err ErrBadArchive)
  | Some members =>
      match extract_members members wantBase dst max writes 0 dir with
      | (dir, Err e) => (delete dst dir, Err e)
      | (dir, Ok _) => (dir, Ok tt)
      end
  end.

(** ** Fetching *)

(** An error, and whether a retry can fix it. *)
Inductive attempt_err := Transient (e : fetch_err) | Permanent (e : fetch_err).

Definition classify (e : fetch_err) : attempt_err := match e with ErrNotFound | ErrTooLarge => Permanent e | _ => Transient e end.

(** [retry]: [op k] is attempt number [k], [cancelled k] whether the context ended
    before it, [sleeps k] whether the wait after it was not cut short; [n] more
    attempts are allowed. *)
Fixpoint retry {A B} (n : nat) (k : nat) (cancelled sleeps : nat -> bool) (op : nat -> A -> A * result B attempt_err) (a : A) : A * result B fetch_err :=
  match n with
  | O => (a, Err ErrContext)
  | S n' =>
      if cancelled k then (a, Err ErrContext)
      else match op k a with
      | (a, Ok b) => (a, Ok b)
      | (a, Err (Permanent e)) => (a, Err e)
      | (a, Err (Transient e)) => if bool_decide (n' = 0%nat) then (a, Err e) else if sleeps k then retry n' (S k) cancelled sleeps op a else (a, Err ErrContext)
      end
  end.

Record Limits := mkLimits { lm_MaxArchive : Z; lm_MaxBinary : Z; lm_MaxSums : Z; lm_Retries : Z }.
Definition DefaultLimits : Limits := mkLimits (256 * 2 ^ 20) (200 * 2 ^ 20) (2 ^ 20) 3.

Definition attempts (l : Limits) : nat := Z.to_nat (Z.max 1 (lm_Retries l)).

(** The surroundings of one fetch: what the source answers to each attempt at the
    checksums and at the archive, whether files can be written, and the context. *)
Record fetch_env := mkFetchEnv { fe_sums : nat -> result body fetch_err; fe_archive : nat -> result body fetch_err; fe_writes : nat -> bool; fe_extracts : bool; fe_cancelled : nat -> bool; fe_sleeps : nat -> bool }.

Definition AssetName (v : Version) (goos goarch : bytes) : bytes :=
  #"tunnelmesh-" ++ version_String v ++ #"-" ++ goos ++ #"-" ++ goarch ++ (if seq_eqb goos #"windows" then #".zip" else #".tar.gz").

(** [download]: the digest of what was written to the file.  [writes] says whether
    the file can be created and closed; a failure in between is one of the body. *)
Definition download (source : result body fetch_err) (writes : bool) (asset : bytes) (dir : staging) : staging * result bytes attempt_err :=
  match source with
  | Err e => (dir, Err (classify e))
  | Ok r =>
      if bool_decide (is_Some (dir !! asset)) || negb writes then (dir, Err (Permanent ErrLocalIO))
      else match bd_err r with
      | Some e => (dir, Err (classify e))
      | None => (<[asset := bd_data r]> dir, Ok (hex_bytes (Sum256 (bd_data r))))
      end
  end.

Section binary.
Context `{GoUnicode}.
Variable read : ArchiveKind -> bytes -> option (list member).
Variable limits : Limits.

Definition fetchSums (source : result body fetch_err) : result (gmap bytes bytes) attempt_err :=
  match source with
  | Err e => Err (classify e)
  | Ok r => match ParseSHA256SUMS r with Ok sums => Ok sums | Err e => Err (Transient e) end
  end.

(** The first retried step: the digest the release publishes for the archive. *)
Definition want_attempt (env : fetch_env) (asset : bytes) (k : nat) (dir : staging) : staging * result bytes attempt_err :=
  (dir, match fetchSums (fe_sums env k) with
    | Err e => Err e
    | Ok sums => match sums !! asset with Some digest => Ok digest | None => Err (Permanent ErrNotListed) end
    end).

(** The second one: the archive, compared with the digest. *)
Definition archive_attempt (env : fetch_env) (asset want : bytes) (k : nat) (dir : staging) : staging * result unit attempt_err :=
  match download (fe_archive env k) (fe_writes env k) asset (delete asset dir) with
  | (dir, Err e) => (dir, Err e)
  | (dir, Ok got) => (dir, if seq_eqb got want then Ok tt else Err (Transient ErrChecksumMismatch))
  end.

Definition binary_name (role goos : bytes) : bytes := #"tunnelmesh-" ++ role ++ (if seq_eqb goos #"windows" then #".exe" else []).
Definition archive_kind (goos : bytes) : ArchiveKind := if seq_eqb goos #"windows" then ArchiveZip else ArchiveTarGz.

Definition FetchBinary (env : fetch_env) (v : Version) (role goos goarch : bytes) (dir : staging) : staging * result bytes fetch_err :=
  let asset := AssetName v goos goarch in
  let binaryName := binary_name role goos in
  let cleanup dir := delete binaryName (delete asset dir) in
  match retry (attempts limits) 0 (fe_cancelled env) (fe_sleeps env) (want_attempt env asset) dir with
  | (dir, Err e) => (dir, Err e)
  | (dir, Ok want) =>
      match retry (attempts limits) 0 (fe_cancelled env) (fe_sleeps env) (archive_attempt env asset want) dir with
      | (dir, Err e) => (cleanup dir, Err e)
      | (dir, Ok _) =>
          match ExtractOne read (archive_kind goos) (default [] (dir !! asset)) binaryName binaryName (lm_MaxBinary limits) (fe_extracts env) dir with
          | (dir, Err e) => (cleanup dir, Err e)
          | (dir, Ok _) => (delete asset dir, Ok binaryName)
          end
      end
  end.

(** ** What is installed was vouched for *)

(** A retried step keeps what every attempt keeps, and its success is one of an
    attempt. *)
Lemma retry_success {A B} (P : A -> Prop) cancelled sleeps (op : nat -> A -> A * result B attempt_err) n : (forall k a, P a -> P (op k a).1) -> forall k a a' b,
  P a -> retry n k cancelled sleeps op a = (a', Ok b) -> exists j a0, P a0 /\ op j a0 = (a', Ok b).
Proof.
  intros HP. induction n as [|n IH]; intros k a a' b Ha HR; simpl in HR; [done|]. destruct (cancelled k); [done|]. pose proof (HP k a Ha) as Hp. destruct (op k a) as [a1 [b1|[e|e]]] eqn:Eo; simpl in Hp.
  - injection HR as <- <-. by exists k, a.
  - case_bool_decide; [done|]. destruct (sleeps k); [|done]. by apply (IH (S k) a1).
  - done.
Qed.

Lemma retry_keeps {A B} (P : A -> Prop) cancelled sleeps (op : nat -> A -> A * result B attempt_err) n : (forall k a, P a -> P (op k a).1) -> forall k a, P a -> P (retry n k cancelled sleeps op a).1.
Proof.
  intros HP. induction n as [|n IH]; intros k a Ha; simpl; [done|]. destruct (cancelled k); [done|]. pose proof (HP k a Ha) as Hp. destruct (op k a) as [a1 [b1|[e|e]]]; simpl in Hp; try done.
  case_bool_decide; [done|]. destruct (sleeps k); [by apply IH|done].
Qed.

(** The members an archive has under a name at its root. *)
Definition named (wantBase : bytes) (x : member) : bool := match x with Member name _ _ _ => bool_decide (cleanRootName name = Some wantBase) | Damaged => false end.

(** The archive holds the file once, as a regular file with these contents. *)
Definition holds_once (members : list member) (wantBase contents : bytes) : Prop :=
  exists name, List.filter (named wantBase) members = [Member name true true (mkBody contents None)].

Lemma writeLimited_Ok dir dst src max writes dir' : writeLimited dir dst src max writes = (dir', Ok tt) ->
  src = mkBody (bd_data src) None /\ Z.of_nat (length (bd_data src)) <= max /\ dir' = <[dst := bd_data src]> dir.
Proof.
  unfold writeLimited. destruct (_ || _); [done|]. destruct (Z.ltb_spec max (Z.of_nat (length (bd_data src)))); [done|]. destruct src as [data [e|]]; simpl; [done|]. by intros [= <-].
Qed.

Lemma extract_after_match members wantBase dst max writes dir dir' : extract_members members wantBase dst max writes 1 dir = (dir', Ok tt) -> dir' = dir /\ List.filter (named wantBase) members = [].
Proof.
  induction members as [|[name regular opens contents|] members IH]; simpl; [by intros [= <-]| |done]. case_bool_decide; simpl; [done|]. auto.
Qed.

Lemma extract_members_Ok members wantBase dst max writes dir dir' : extract_members members wantBase dst max writes 0 dir = (dir', Ok tt) ->
  exists contents, holds_once members wantBase contents /\ Z.of_nat (length contents) <= max /\ dir' = <[dst := contents]> dir.
Proof.
  induction members as [|[name regular opens contents|] members IH]; simpl; [done| |done]. destruct (bool_decide (cleanRootName name = Some wantBase)) eqn:En; simpl.
  - destruct regular; [|done]. destruct opens; [|done]. simpl. destruct (writeLimited dir dst contents max writes) as [d1 [[]|e]] eqn:Ew; [|done]. intros [-> Hf]%extract_after_match.
    apply writeLimited_Ok in Ew as (Ec & Hl & ->). exists (bd_data contents). split; [|done]. exists name. simpl. rewrite En, Hf. by rewrite <- Ec.
  - intros HR. destruct (IH HR) as (c & [n Hn] & ? & ?). exists c. split; [|done]. exists n. simpl. by rewrite En.
Qed.

Lemma writeLimited_dir dir dst src max writes : delete dst (writeLimited dir dst src max writes).1 = delete dst dir.
Proof. unfold writeLimited. destruct (_ || _); [done|]. destruct (max <? _); [done|]. destruct (bd_err src); [done|]. cbn [fst]. by rewrite delete_insert_eq. Qed.

Lemma extract_members_dir members wantBase dst max writes : forall matches dir, delete dst (extract_members members wantBase dst max writes matches dir).1 = delete dst dir.
Proof.
  induction members as [|[name regular opens contents|] members IH]; intros matches dir; simpl; [done| |done]. destruct (negb (bool_decide _)); [done|]. destruct (0 <? matches)%nat; [done|]. destruct (negb regular); [done|]. destruct (negb opens); [done|].
  pose proof (writeLimited_dir dir dst contents max writes) as HW. destruct (writeLimited dir dst contents max writes) as [d1 [|]]; cbn [fst] in HW |- *; [by rewrite IH|done].
Qed.

Lemma ExtractOne_dir kind archive wantBase dst max writes dir : delete dst (ExtractOne read kind archive wantBase dst max writes dir).1 = delete dst dir.
Proof.
  unfold ExtractOne. destruct (bool_decide _); [done|]. destruct (read kind archive) as [members|]; [|cbn [fst]; by rewrite delete_delete_eq].
  pose proof (extract_members_dir members wantBase dst max writes 0 dir) as HM. destruct (extract_members _ _ _ _ _ _ _) as [d1 [|]]; cbn [fst] in HM |- *; [done|by rewrite delete_delete_eq].
Qed.

Lemma want_attempt_Ok env asset k dir dir' want : want_attempt env asset k dir = (dir', Ok want) -> exists r sums, fe_sums env k = Ok r /\ ParseSHA256SUMS r = Ok sums /\ sums !! asset = Some want.
Proof.
  unfold want_attempt, fetchSums. destruct (fe_sums env k) as [r|]; [|done]. destruct (ParseSHA256SUMS r) as [sums|] eqn:Ep; [|done]. destruct (sums !! asset) as [w|] eqn:Es; [|done]. intros [= _ <-]. by exists r, sums.
Qed.

Lemma archive_attempt_dir env asset want k dir : delete asset (archive_attempt env asset want k dir).1 = delete asset dir.
Proof.
  unfold archive_attempt, download. destruct (fe_archive env k) as [r|]; [|cbn [fst]; by rewrite delete_delete_eq]. rewrite lookup_delete_eq, bool_decide_eq_false_2 by (by intros []). cbn [orb].
  destruct (negb _); [cbn [fst]; by rewrite delete_delete_eq|]. destruct (bd_err r); cbn [fst]; [by rewrite delete_delete_eq|]. by rewrite delete_insert_eq, delete_delete_eq.
Qed.

Lemma archive_attempt_Ok env asset want k dir dir' : archive_attempt env asset want k dir = (dir', Ok tt) ->
  exists archive, fe_archive env k = Ok (mkBody archive None) /\ want = hex_bytes (Sum256 archive) /\ dir' = <[asset := archive]> (delete asset dir).
Proof.
  unfold archive_attempt, download. destruct (fe_archive env k) as [[data e]|]; [|done]. destruct (_ || _); [done|]. simpl. destruct e; [done|]. destruct (seq_eqb _ want) eqn:Es; [|done].
  apply seq_eqb_eq in Es. intros [= <-]. by exists data.
Qed.

Lemma ExtractOne_Ok kind archive wantBase max writes dir dir' : ExtractOne read kind archive wantBase wantBase max writes dir = (dir', Ok tt) ->
  dir !! wantBase = None /\ exists members contents, read kind archive = Some members /\ holds_once members wantBase contents /\ Z.of_nat (length contents) <= max /\ dir' = <[wantBase := contents]> dir.
Proof.
  unfold ExtractOne. case_bool_decide as Hd; [done|]. destruct (read kind archive) as [members|]; [|done]. destruct (extract_members members wantBase wantBase max writes 0 dir) as [d1 [[]|]] eqn:Em; [|done].
  intros [= <-]. apply extract_members_Ok in Em as (contents & ? & ? & ->). split; [by apply eq_None_not_Some|]. by exists members, contents.
Qed.

(** C22. What a download leaves in the staging directory was vouched for: when it
    succeeds, the directory gained exactly the role's binary, within the size
    limit; it is the contents of the one regular file of that name at the root of
    an archive the source served, and the SHA-256 of that archive is the digest
    which a checksum file of the source, well formed as a whole, lists for it.
    When it fails, the directory is as it was. *)
Theorem fetched_binary_verified env v role goos goarch dir dir' res :
  let asset := AssetName v goos goarch in
  let binaryName := binary_name role goos in
  dir !! asset = None -> dir !! binaryName = None -> FetchBinary env v role goos goarch dir = (dir', res) ->
  match res with
  | Err _ => dir' = dir
  | Ok path => exists i r sums j archive members contents,
      fe_sums env i = Ok r /\ ParseSHA256SUMS r = Ok sums /\ sums !! asset = Some (hex_bytes (Sum256 archive)) /\
      fe_archive env j = Ok (mkBody archive None) /\ read (archive_kind goos) archive = Some members /\ holds_once members binaryName contents /\
      Z.of_nat (length contents) <= lm_MaxBinary limits /\ path = binaryName /\ dir' = <[binaryName := contents]> dir
  end.
Proof.
  intros asset bn Ha Hb. unfold FetchBinary. fold asset bn. cbn zeta.
  assert (forall X, delete asset X = delete asset dir \/ delete bn (delete asset X) = delete bn (delete asset dir) -> delete bn (delete asset X) = dir) as Hclean.
  { intros X HX. replace (delete bn (delete asset X)) with (delete bn (delete asset dir)) by (destruct HX as [-> | ->]; done). by rewrite (delete_id dir asset), delete_id. }
  pose proof (retry_keeps (fun a => a = dir) (fe_cancelled env) (fe_sleeps env) (want_attempt env asset) (attempts limits) ltac:(by intros k a ->) 0 dir eq_refl) as K1.
  pose proof (retry_success (fun a => a = dir) (fe_cancelled env) (fe_sleeps env) (want_attempt env asset) (attempts limits) ltac:(by intros k a ->) 0 dir) as S1.
  destruct (retry _ _ _ _ _ dir) as [d1 [want|e]]; cbn [fst] in K1; subst d1; [|by intros [= <- <-]]. destruct (S1 dir want eq_refl eq_refl) as (i & ? & -> & Hw). apply want_attempt_Ok in Hw as (r & sums & Hr & Hp & Hs). clear S1.
  assert (forall k a, delete asset a = delete asset dir -> delete asset (archive_attempt env asset want k a).1 = delete asset dir) as HA by (intros k a <-; apply archive_attempt_dir).
  pose proof (retry_keeps (fun a => delete asset a = delete asset dir) (fe_cancelled env) (fe_sleeps env) (archive_attempt env asset want) (attempts limits) HA 0 dir eq_refl) as K2.
  pose proof (retry_success (fun a => delete asset a = delete asset dir) (fe_cancelled env) (fe_sleeps env) (archive_attempt env asset want) (attempts limits) HA 0 dir) as S2.
  destruct (retry _ _ _ _ (archive_attempt _ _ _) dir) as [d2 [[]|e]]; cbn [fst] in K2; [|intros [= <- <-]; apply Hclean; by left]. destruct (S2 d2 tt eq_refl eq_refl) as (j & a0 & Ha0 & Hj).
  apply archive_attempt_Ok in Hj as (archive & Har & Hwant & Hd2). rewrite Ha0, (delete_id dir asset) in Hd2 by done. clear S2 HA.
  pose proof (ExtractOne_dir (archive_kind goos) archive bn bn (lm_MaxBinary limits) (fe_extracts env) d2) as HE. subst d2. rewrite lookup_insert_eq. simpl default.
  destruct (ExtractOne _ _ _ _ _ _ _ _) as [d3 [[]|e]] eqn:Ex; cbn [fst] in HE.
  - intros [= <- <-]. apply ExtractOne_Ok in Ex as (Hfree & members & contents & Hm & Hh & Hl & ->). exists i, r, sums, j, archive, members, contents. rewrite <- Hwant. split_and!; try done.
    assert (asset <> bn) by (intros E; rewrite E, lookup_insert_eq in Hfree; done). rewrite delete_insert_ne, delete_insert_eq, delete_id by done. done.
  - intros [= <- <-]. apply Hclean. right. rewrite !(delete_delete _ bn asset), HE. by rewrite <- !(delete_delete _ bn asset), K2.
Qed.
End binary.

(** ** The limit is exact *)

Lemma take_drop_own {A} n (l : list A) : take n l ++ drop (length (take n l)) l = l.
Proof. rewrite length_take. destruct (Nat.le_gt_cases n (length l)); [rewrite Nat.min_l by done; apply take_drop|]. rewrite Nat.min_r, take_ge, drop_all by lia. apply app_nil_r. Qed.

Lemma read_all_spec reads : forall b b' got err, 0 <= lb_remaining b -> read_all b reads = (b', got, err) ->
  (exists rest, lb_under b = got ++ rest) /\ Z.of_nat (length got) <= lb_remaining b /\
  (err = None -> lb_under b = got ++ lb_under b') /\
  (is_Some err -> err = Some ErrTooLarge /\ lb_remaining b < Z.of_nat (length (lb_under b)) /\ Z.of_nat (length got) = lb_remaining b).
Proof.
  induction reads as [|[room fills] reads IH]; intros b b' got err Hr HR; simpl in HR.
  { injection HR as <- <- <-. split_and!; [by eexists|simpl; lia|done|by intros []]. }
  unfold limited_Read in HR. rewrite (proj2 (Z.ltb_ge _ _)) in HR by done. set (room' := if _ <? room then _ else _) in HR. set (g := take (Z.to_nat (Z.min room' fills)) (lb_under b)) in HR.
  assert (g ++ drop (length g) (lb_under b) = lb_under b) as Hg by apply take_drop_own.
  assert (Z.of_nat (length g) <= Z.max 0 (lb_remaining b + 1)) as Hlen by (subst g room'; rewrite length_take; destruct (Z.ltb_spec (lb_remaining b + 1) room); lia).
  destruct (Z.ltb_spec (lb_remaining b) (Z.of_nat (length g))) as [Hover|Hfit].
  - injection HR as _ <- <-. assert (length (take (Z.to_nat (Z.of_nat (length g) - 1)) g) = Z.to_nat (lb_remaining b)) as Hl by (rewrite length_take; lia). split_and!; [|lia|done|].
    + eexists. rewrite <- Hg at 1. rewrite <- (take_drop (Z.to_nat (Z.of_nat (length g) - 1)) g) at 1. by rewrite <- app_assoc.
    + intros _. split_and!; [done|rewrite <- Hg, length_app; lia|lia].
  - destruct (read_all _ reads) as [[b1 more] e1] eqn:HL. injection HR as <- <- <-. apply IH in HL as ([rest Hrest] & Hm & Hn & He); [|simpl; lia]. cbn [lb_remaining lb_under] in *. rewrite length_app. split_and!.
    + exists rest. by rewrite <- app_assoc, <- Hrest.
    + lia.
    + intros E. by rewrite <- app_assoc, <- (Hn E).
    + intros E. destruct (He E) as (-> & ? & ?). rewrite <- Hg, length_app. split_and!; [done|lia|lia].
Qed.

(** Whatever the sizes of the reads, a limited body delivers a prefix of its data
    of at most [max] bytes; it fails exactly when there is more, and then after
    delivering [max] bytes. *)
Theorem limit_exact data max reads b got err : 0 <= max -> read_all (LimitBody data max) reads = (b, got, err) ->
  (exists rest, data = got ++ rest) /\ Z.of_nat (length got) <= max /\
  (Z.of_nat (length data) <= max -> err = None) /\ (max < Z.of_nat (length data) -> lb_under b = [] -> err = Some ErrTooLarge).
Proof.
  intros Hm HR. destruct (read_all_spec reads (LimitBody data max) b got err Hm HR) as (Hp & Hl & Hn & He). cbn [LimitBody lb_remaining lb_under] in *. split_and!; [done|done| |].
  - intros Hd. destruct err as [e|]; [|done]. destruct (He ltac:(by eexists)) as (_ & ? & _). lia.
  - intros Hd Hu. destruct err as [e|]; [by destruct (He ltac:(by eexists)) as (-> & _)|]. rewrite (Hn eq_refl), Hu, app_nil_r in Hd. lia.
Qed.

(** *** A release with one archive *)

#[local] Existing Instance sample_unicode.

Definition sample_archive : bytes := #"archive bytes".
Definition sample_read (kind : ArchiveKind) (s : bytes) : option (list member) :=
  if seq_eqb s sample_archive then Some [Member #"README" true true (mkBody #"read me" None); Member #"./tunnelmesh-agent" true true (mkBody #"program" None)] else None.
Definition sample_sums : bytes := Eval vm_compute in hex_bytes (Sum256 sample_archive) ++ #"  tunnelmesh-v1.3.0-linux-amd64.tar.gz" ++ [newline].
Definition sample_fetch : fetch_env :=
  mkFetchEnv (fun _ => Ok (mkBody sample_sums None)) (fun k => if (k =? 0)%nat then Err ErrTransport else Ok (mkBody sample_archive None)) (fun _ => true) true (fun _ => false) (fun _ => true).

(** The first attempt at the archive fails and the second is verified. *)
Lemma fetched_binary_verified_witness :
  FetchBinary sample_read DefaultLimits sample_fetch (mkVersion 1 3 0 []) #"agent" #"linux" #"amd64" ∅ = ({[ #"tunnelmesh-agent" := #"program" ]}, Ok #"tunnelmesh-agent") /\
  exists (sums : gmap bytes bytes) (archive : bytes), sums !! AssetName (mkVersion 1 3 0 []) #"linux" #"amd64" = Some (hex_bytes (Sum256 archive)) /\ archive = sample_archive.
Proof.
  assert (FetchBinary sample_read DefaultLimits sample_fetch (mkVersion 1 3 0 []) #"agent" #"linux" #"amd64" ∅ = ({[ #"tunnelmesh-agent" := #"program" ]}, Ok #"tunnelmesh-agent")) as HF by (vm_compute; reflexivity).
  split; [exact HF|].
  destruct (fetched_binary_verified sample_read DefaultLimits sample_fetch (mkVersion 1 3 0 []) #"agent" #"linux" #"amd64" ∅ _ _ (lookup_empty _) (lookup_empty _) HF) as (i & r & sums & j & archive & members & contents & _ & _ & Hs & Ha & _).
  exists sums, archive. split; [exact Hs|]. destruct j; [discriminate Ha|]. injection Ha as <-. reflexivity.
Defined.

(** A member name that climbs and comes back still matches. *)
Lemma climbing_name_matches : cleanRootName #"bin/../tunnelmesh-agent" = Some #"tunnelmesh-agent" /\ cleanRootName #"../tunnelmesh-agent" = None /\ cleanRootName #"/tunnelmesh-agent" = None.
Proof. vm_compute. done. Qed.
