(* ===== verification/Supervisor.v ===== *)
(** * The supervisor

    [internal/supervisor/supervisor.go]: [runOnce], which watches one worker, and
    [Run], which restarts it, with the exit codes of [internal/workerproto] and the
    waits of [internal/reconnect].  The release side is the interface [Upgrades] of
    [upgrade.go], a class here, and [internal/selfupdate] an instance of it.

    What the world does is a script: for each launch whether the process starts and
    the sequence of ready channels the [select] loop takes, each with its clock
    reading.  A timer's channel can be taken from its deadline on; when several
    channels are ready the script chooses, as [select] does.  A check runs in a
    goroutine; its calls are applied when its answer is taken, or after the launch
    when the worker ended first, its context being cancelled then. *)

From stdpp Require Import base list gmap sets strings sorting relations.
From Stdlib Require Import Ascii ZArith Lia.
From S2P Require Import Prelude GoStrings SelfUpdate.
Local Open Scope Z_scope.

(** ** Exit codes and the wait between restarts *)

Definition ExitOK : Z := 0.
Definition ExitGeneric : Z := 1.
Definition ExitSupervisorGaveUp : Z := 70.
Definition ExitLockHeld : Z := 75.
Definition ExitAuthFatal : Z := 77.
Definition ExitConfig : Z := 78.

Record Backoff := mkBackoff { bo_base : Z; bo_max : Z; bo_attempt : Z; bo_rejected : Z }.

Definition StableAfter : Z := 60 * Second.
Definition rejectedThreshold : Z := 3.
Definition RejectedMaxBackoff : Z := 300 * Second.

(** [for i := 1; i < attempt && delay < max; i++ { delay *= 2 }], [n] times at
    most. *)
Fixpoint double (n : nat) (delay max : Z) : Z :=
  match n with
  | O => delay
  | S n' => if delay <? max then double n' (delay * 2) max else delay
  end.

(** [jitter span] is the product of the random fraction and [span]. *)
Definition Delay (base max attempt : Z) (jitter : Z -> Z) : Z :=
  let delay := Z.min (double (Z.to_nat (attempt - 1)) base max) max in
  let half := delay / 2 in
  half + jitter (delay - half).

Definition AfterSession (b : Backoff) (lived : Z) (jitter : Z -> Z) : Z * Backoff :=
  let attempt := (if StableAfter <=? lived then 0 else bo_attempt b) + 1 in
  (Delay (bo_base b) (bo_max b) attempt jitter, mkBackoff (bo_base b) (bo_max b) attempt 0).

Definition AfterDialFailure (b : Backoff) (is_rejected : bool) (jitter : Z -> Z) : Z * Backoff :=
  let attempt := bo_attempt b + 1 in
  let rejected := if is_rejected then bo_rejected b + 1 else 0 in
  let ceiling := if (rejectedThreshold <=? rejected) && (bo_max b <? RejectedMaxBackoff) then RejectedMaxBackoff else bo_max b in
  (Delay (bo_base b) ceiling attempt jitter, mkBackoff (bo_base b) (bo_max b) attempt rejected).

(** ** The release side *)

Class Upgrades (D E : Type) := {
  us_Resume : E -> Z -> D -> D;
  us_Binary : D -> option bytes * bool;
  us_NextCheck : bool -> Z -> Z;
  us_Check : E -> bool -> Z -> ReadyInfo -> D -> D * option Candidate;
  us_Activate : E -> Z -> Candidate -> D -> D;
  us_Commit : E -> Z -> D -> D;
  us_Rollback : E -> Z -> bytes -> D -> D }.

(** [cf_Upgrades] says whether the interface is present.  The fields that only
    reach the launcher, the clock and the log are left out. *)
Record Config := mkConfig { cf_BackoffBase : Z; cf_BackoffMax : Z; cf_ReadyPoll : Z; cf_GiveUpAfter : Z; cf_LockRetries : Z; cf_LockRetryDelay : Z;
  cf_Upgrades : bool; cf_HealthTimeout : Z; cf_StableWindow : Z }.

(** [New] *)
Definition New (c : Config) : Config :=
  let or_default v d := if v <=? 0 then d else v in
  mkConfig (or_default (cf_BackoffBase c) Second) (or_default (cf_BackoffMax c) (60 * Second)) (or_default (cf_ReadyPoll c) (500 * 1000000))
    (or_default (cf_GiveUpAfter c) 5) (or_default (cf_LockRetries c) 10) (or_default (cf_LockRetryDelay c) Second)
    (cf_Upgrades c) (or_default (cf_HealthTimeout c) (120 * Second)) (cf_StableWindow c).

Record runResult := mkRunResult { rr_code : Z; rr_ready : bool; rr_stopped : bool; rr_lived : Z; rr_launchErr : bool; rr_upgrade : option Candidate; rr_trialFailed : bytes }.

(** The locals of [runOnce]; a timer is its deadline. *)
Record watch := mkWatch { w_trial : bool; w_ready : bool; w_lastServer : bytes; w_running : ReadyInfo; w_health : option Z; w_stable : option Z; w_check : option Z;
  w_checking : option ReadyInfo; w_first : bool; w_poll : Z }.

(** The channel the loop takes.  [EvExit] and [EvPoll] come with what the ready
    file holds, [None] when it is missing, unreadable or not observed. *)
Inductive event := EvStop | EvExit (code : Z) (file : option ReadyInfo) | EvPoll (file : option ReadyInfo) | EvHealth | EvStable | EvCheckTimer | EvCheckDone.

(** What the loop does to its surroundings, for the statements. *)
Inductive act := AReady (info : ReadyInfo) | ACommit | ACheck | AStopChild.

Section supervisor.
Context {D E : Type} `{Upgrades D E}.
Variable cfg : Config.

Record moment := mkMoment { m_now : Z; m_draw : Z; m_env : E }.

(** ** Watching one worker: [runOnce] *)

Definition scheduleCheck (m : moment) (w : watch) : watch :=
  if negb (cf_Upgrades cfg) || w_trial w then w
  else
    let d := us_NextCheck (w_first w) (m_draw m) in
    mkWatch (w_trial w) (w_ready w) (w_lastServer w) (w_running w) (w_health w) (w_stable w) (if 0 <? d then Some (m_now m + d) else w_check w) (w_checking w) false (w_poll w).

Definition commit (m : moment) (w : watch) (s : D) : watch * D :=
  (scheduleCheck m (mkWatch false (w_ready w) (w_lastServer w) (w_running w) (w_health w) None (w_check w) (w_checking w) (w_first w) (w_poll w)), us_Commit (m_env m) (m_now m) s).

Definition onFirstReady (m : moment) (w : watch) (s : D) : list act * watch * D :=
  if w_trial w then
    let w := mkWatch (w_trial w) (w_ready w) (w_lastServer w) (w_running w) None (w_stable w) (w_check w) (w_checking w) (w_first w) (w_poll w) in
    if cf_StableWindow cfg <=? 0 then let '(w, s) := commit m w s in ([ACommit], w, s)
    else ([], mkWatch (w_trial w) (w_ready w) (w_lastServer w) (w_running w) (w_health w) (Some (m_now m + cf_StableWindow cfg)) (w_check w) (w_checking w) (w_first w) (w_poll w), s)
  else ([], scheduleCheck m w, s).

Definition checkReady (m : moment) (file : option ReadyInfo) (w : watch) (s : D) : list act * watch * D :=
  match file with
  | None => ([], w, s)
  | Some info =>
      if negb (w_ready w) || negb (seq_eqb (ri_ServerVersion info) (w_lastServer w)) then
        let first := negb (w_ready w) in
        let w := mkWatch (w_trial w) true (ri_ServerVersion info) info (w_health w) (w_stable w) (w_check w) (w_checking w) (w_first w) (w_poll w) in
        if first then let '(acts, w, s) := onFirstReady m w s in (AReady info :: acts, w, s) else ([AReady info], w, s)
      else ([], w, s)
  end.

(** A channel that is ready: a timer past its deadline, or the answer of a check
    that was started. *)
Definition due (timer : option Z) (now : Z) : bool := match timer with Some t => t <=? now | None => false end.

Definition enabled (w : watch) (now : Z) (e : event) : bool :=
  match e with
  | EvStop | EvExit _ _ => true
  | EvPoll _ => w_poll w <=? now
  | EvHealth => due (w_health w) now
  | EvStable => due (w_stable w) now
  | EvCheckTimer => due (w_check w) now
  | EvCheckDone => bool_decide (is_Some (w_checking w))
  end.

Definition no_result (lived : Z) : runResult := mkRunResult 0 false false lived false None [].
Definition exited_reason : bytes := #"the new version exited during its trial".
Definition unhealthy_reason : bytes := #"the new version was not ready in time".
Definition unstarted_reason : bytes := #"the new version could not be started".

(** One turn of the loop: what it did, and how the launch ended if it did. *)
Definition turn (started : Z) (m : moment) (e : event) (w : watch) (s : D) : list act * watch * D * option runResult :=
  let lived := m_now m - started in
  match e with
  | EvStop => ([AStopChild], w, s, Some (mkRunResult 0 false true lived false None []))
  | EvExit code file =>
      let '(acts, w, s) := checkReady m file w s in
      (acts, w, s, Some (mkRunResult code (w_ready w) false lived false None (if w_trial w && negb (code =? ExitLockHeld) then exited_reason else [])))
  | EvPoll file =>
      let w := mkWatch (w_trial w) (w_ready w) (w_lastServer w) (w_running w) (w_health w) (w_stable w) (w_check w) (w_checking w) (w_first w) (m_now m + cf_ReadyPoll cfg) in
      let '(acts, w, s) := checkReady m file w s in (acts, w, s, None)
  | EvHealth => ([AStopChild], w, s, Some (mkRunResult 0 false false lived false None unhealthy_reason))
  | EvStable => let '(w, s) := commit m w s in ([ACommit], w, s, None)
  | EvCheckTimer => ([ACheck], mkWatch (w_trial w) (w_ready w) (w_lastServer w) (w_running w) (w_health w) (w_stable w) None (Some (w_running w)) (w_first w) (w_poll w), s, None)
  | EvCheckDone =>
      let running := default (w_running w) (w_checking w) in
      let '(s, candidate) := us_Check (m_env m) false (m_now m) running s in
      let w := mkWatch (w_trial w) (w_ready w) (w_lastServer w) (w_running w) (w_health w) (w_stable w) (w_check w) None (w_first w) (w_poll w) in
      match candidate with
      | None => ([], scheduleCheck m w, s, None)
      | Some c => ([AStopChild], w, s, Some (mkRunResult 0 false false lived false (Some c) []))
      end
  end.

(** The loop on the events of a launch.  [None] for the result: the worker still
    runs after them.  Events after the end are not taken, nor are channels that
    are not ready. *)
Fixpoint watch_loop (started : Z) (events : list (moment * event)) (w : watch) (s : D) : list (Z * act) * watch * D * option runResult :=
  match events with
  | [] => ([], w, s, None)
  | (m, e) :: events' =>
      if negb (enabled w (m_now m) e) then watch_loop started events' w s
      else
        let '(acts, w, s, res) := turn started m e w s in
        let acts := (fun a => (m_now m, a)) <$> acts in
        match res with
        | Some r => (acts, w, s, Some r)
        | None => let '(acts', w, s, res) := watch_loop started events' w s in (acts ++ acts', w, s, res)
        end
  end.

Definition no_info : ReadyInfo := mkReadyInfo [] [].

Definition watch_start (started : Z) (trial : bool) : watch :=
  mkWatch trial false [] no_info (if trial then Some (started + cf_HealthTimeout cfg) else None) None None None true (started + cf_ReadyPoll cfg).

(** One launch as the world makes it: whether the supervisor was told to stop
    before it or in the wait after it, whether the process starts, the channels
    taken, and what an abandoned check still does. *)
Record launch := mkLaunch { ln_stopBefore : bool; ln_started : Z; ln_starts : bool; ln_events : list (moment * event); ln_late : option moment; ln_after : moment; ln_jitter : Z -> Z; ln_stopWait : bool }.

Definition runOnce (l : launch) (trial : bool) (s : D) : list (Z * act) * D * option runResult :=
  if ln_starts l then
    let '(acts, w, s, res) := watch_loop (ln_started l) (ln_events l) (watch_start (ln_started l) trial) s in
    let s := match res, w_checking w, ln_late l with
      | Some _, Some running, Some m => (us_Check (m_env m) true (m_now m) running s).1
      | _, _, _ => s
      end in
    (acts, s, res)
  else ([], s, Some (mkRunResult 0 false false 0 true None (if trial then unstarted_reason else []))).

(** ** Restarting it: [Run] *)

Definition binary (s : D) : option bytes * bool :=
  if cf_Upgrades cfg then match us_Binary s with (Some path, trial) => (Some path, trial) | (None, _) => (None, false) end else (None, false).

Record counters := mkCounters { ct_backoff : Backoff; ct_neverReady : Z; ct_lockRetries : Z }.

(** How the loop goes on: it returns an exit code, or launches again after a wait
    if there is one. *)
Inductive next := Leave (code : Z) | Again (ct : counters) (wait : option Z).

(** The body of the loop after [runOnce]. *)
Definition after_run (l : launch) (run : runResult) (ct : counters) (s : D) : D * next :=
  let m := ln_after l in
  if rr_stopped run then (s, Leave ExitOK)
  else match rr_upgrade run with
  | Some c => (us_Activate (m_env m) (m_now m) c s, Again (mkCounters (ct_backoff ct) 0 0) None)
  | None =>
      if negb (bool_decide (rr_trialFailed run = [])) then (us_Rollback (m_env m) (m_now m) (rr_trialFailed run) s, Again (mkCounters (ct_backoff ct) 0 0) None)
      else
        let crashed :=
          let neverReady := if rr_ready run then 0 else ct_neverReady ct + 1 in
          if cf_GiveUpAfter cfg <=? neverReady then (s, Leave ExitSupervisorGaveUp)
          else let '(delay, backoff) := AfterSession (ct_backoff ct) (rr_lived run) (ln_jitter l) in (s, Again (mkCounters backoff neverReady 0) (Some delay)) in
        if rr_launchErr run then crashed
        else if rr_code run =? ExitOK then (s, Leave ExitOK)
        else if (rr_code run =? ExitConfig) || (rr_code run =? ExitAuthFatal) then (s, Leave (rr_code run))
        else if rr_code run =? ExitLockHeld then
          let lockRetries := ct_lockRetries ct + 1 in
          if cf_LockRetries cfg <? lockRetries then (s, Leave ExitLockHeld) else (s, Again (mkCounters (ct_backoff ct) (ct_neverReady ct) lockRetries) (Some (cf_LockRetryDelay cfg)))
        else crashed
  end.

(** A launch that ended, for the statements. *)
Record entry := mkEntry { en_bin : option bytes; en_trial : bool; en_acts : list (Z * act); en_run : runResult }.

(** The loop on the launches the world makes; [None] while the supervisor still
    runs after them. *)
Fixpoint run_loop (ls : list launch) (ct : counters) (s : D) : list entry * D * option Z :=
  match ls with
  | [] => ([], s, None)
  | l :: ls' =>
      if ln_stopBefore l then ([], s, Some ExitOK)
      else
        let '(bin, trial) := binary s in
        let '(acts, s, res) := runOnce l trial s in
        match res with
        | None => ([], s, None)
        | Some run =>
            let e := mkEntry bin trial acts run in
            match after_run l run ct s with
            | (s, Leave code) => ([e], s, Some code)
            | (s, Again ct wait) =>
                if bool_decide (is_Some wait) && ln_stopWait l then ([e], s, Some ExitOK)
                else let '(es, s, code) := run_loop ls' ct s in (e :: es, s, code)
            end
        end
  end.

Definition start_counters : counters := mkCounters (mkBackoff (cf_BackoffBase cfg) (cf_BackoffMax cfg) 0 0) 0 0.

Definition Run (m : moment) (ls : list launch) (s : D) : list entry * D * option Z :=
  run_loop ls start_counters (if cf_Upgrades cfg then us_Resume (m_env m) (m_now m) s else s).

(** ** A version on trial *)

Definition commits (hist : list (Z * act)) : nat := length (List.filter (fun a => match a.2 with ACommit => true | _ => false end) hist).

Lemma commits_app h k : commits (h ++ k) = (commits h + commits k)%nat.
Proof. unfold commits. by rewrite List.filter_app, length_app. Qed.

(** The worker reported ready at least the stable window before [t]. *)
Definition was_stable (hist : list (Z * act)) (t : Z) : Prop := exists tr info, (tr, AReady info) ∈ hist /\ tr + cf_StableWindow cfg <= t.

Lemma was_stable_app h k t : was_stable h t -> was_stable (h ++ k) t.
Proof. intros (tr & info & Hin & ?). exists tr, info. split; [|done]. apply elem_of_app. by left. Qed.

(** What [runOnce] keeps, [hist] being what it did so far in a launch that began
    on trial or not. *)
Record watch_inv (trial : bool) (hist : list (Z * act)) (w : watch) : Prop := {
  wi_trial : w_trial w = true -> trial = true /\ commits hist = 0%nat /\ w_check w = None /\ w_checking w = None;
  wi_settled : w_trial w = false -> w_health w = None /\ w_stable w = None /\ commits hist = if trial then 1%nat else 0%nat;
  wi_ready : w_ready w = true -> w_health w = None;
  wi_unready : w_ready w = false -> w_stable w = None;
  wi_stable : forall t, w_stable w = Some t -> was_stable hist t;
  wi_commits : forall t, (t, ACommit) ∈ hist -> was_stable hist t }.

Lemma scheduleCheck_inv m trial hist w : watch_inv trial hist w -> watch_inv trial hist (scheduleCheck m w).
Proof. intros [H1 H2 H3 H4 H5 H6]. unfold scheduleCheck. destruct (negb _ || w_trial w) eqn:Eo; [done|]. apply orb_false_iff in Eo as [_ Eo]. split; simpl; rewrite ?Eo in *; done || auto. Qed.

Lemma commit_inv m trial hist w s : watch_inv trial hist w -> w_trial w = true -> w_health w = None -> was_stable hist (m_now m) ->
  watch_inv trial (hist ++ [(m_now m, ACommit)]) (commit m w s).1.
Proof.
  intros [H1 H2 H3 H4 H5 H6] Ht Hh Hs. destruct (H1 Ht) as (-> & Hc & _). unfold commit. cbn [fst]. apply scheduleCheck_inv. split; simpl; try done.
  - intros _. split_and!; try done. by rewrite commits_app, Hc.
  - intros t Hin. apply elem_of_app in Hin as [Hin|Hin%list_elem_of_singleton]; apply was_stable_app; [auto|]. by injection Hin as ->.
Qed.

Lemma watch_inv_quiet trial hist k w : commits k = 0%nat -> watch_inv trial hist w -> watch_inv trial (hist ++ k) w.
Proof.
  intros Hk [H1 H2 H3 H4 H5 H6]. split; try done.
  - rewrite commits_app, Hk, Nat.add_0_r. auto.
  - rewrite commits_app, Hk, Nat.add_0_r. auto.
  - intros t Ht. apply was_stable_app. auto.
  - intros t Hin. apply was_stable_app, H6. apply elem_of_app in Hin as [|Hin]; [done|]. exfalso. unfold commits in Hk. apply length_zero_iff_nil in Hk.
    assert ((t, ACommit) ∈ List.filter (fun a => match a.2 with ACommit => true | _ => false end) k) as X by (apply list_elem_of_In, filter_In; split; [by apply list_elem_of_In|done]). rewrite Hk in X. set_solver.
Qed.

Lemma checkReady_inv m file trial hist w s : watch_inv trial hist w ->
  let '(acts, w', _) := checkReady m file w s in watch_inv trial (hist ++ ((fun a => (m_now m, a)) <$> acts)) w'.
Proof.
  intros HI. unfold checkReady. destruct file as [info|]; [|by rewrite app_nil_r]. destruct (negb (w_ready w) || _) eqn:Eo; [|by rewrite app_nil_r].
  set (w1 := mkWatch (w_trial w) true _ _ _ _ _ _ _ _). destruct (w_ready w) eqn:Er.
  { simpl. apply (watch_inv_quiet trial hist [(m_now m, AReady info)]) in HI; [|done]. destruct HI as [H1 H2 H3 H4 H5 H6]. split; simpl; auto; done. }
  cbn [negb]. assert (was_stable (hist ++ [(m_now m, AReady info)]) (m_now m + cf_StableWindow cfg)) as Hnow by (exists (m_now m), info; split; [set_solver|done]).
  apply (watch_inv_quiet trial hist [(m_now m, AReady info)]) in HI; [|done]. destruct HI as [H1 H2 H3 H4 H5 H6]. specialize (H4 Er). unfold onFirstReady. simpl w_trial. destruct (w_trial w) eqn:Et.
  - destruct (H1 eq_refl) as (-> & Hc & Hk & Hk'). destruct (Z.leb_spec (cf_StableWindow cfg) 0).
    + set (w2 := mkWatch _ _ _ _ None _ _ _ _ _). pose proof (commit_inv m true (hist ++ [(m_now m, AReady info)]) w2 s) as HC.
      destruct (commit m w2 s) as [w3 s3] eqn:Ec. cbn [fst] in HC. simpl fmap. rewrite <- (app_assoc hist [_] [_]) in HC. apply HC; [|done|done|].
      * split; simpl; done || (by intros; rewrite H4 in *) || auto.
      * destruct Hnow as (tr & i' & ? & ?). exists tr, i'. split; [done|lia].
    + simpl. split; simpl; try done. intros t [= <-]. done.
  - simpl. apply scheduleCheck_inv. destruct (H2 eq_refl) as (? & ? & ?). split; simpl; try done; auto.
Qed.

(** How a launch can end: a failed trial was not committed, an upgrade is only
    tried from a settled version, and an unsettled trial ends as failed, by a stop
    or on the client lock. *)
Definition ends_well (trial : bool) (hist : list (Z * act)) (r : runResult) : Prop :=
  (rr_trialFailed r <> [] -> trial = true /\ commits hist = 0%nat /\ rr_upgrade r = None) /\
  (is_Some (rr_upgrade r) -> commits hist = if trial then 1%nat else 0%nat) /\
  (trial = true -> commits hist = 0%nat -> rr_trialFailed r <> [] \/ rr_stopped r = true \/ rr_code r = ExitLockHeld).

Lemma turn_inv started m e trial hist w s : watch_inv trial hist w -> enabled w (m_now m) e = true ->
  let '(acts, w', _, res) := turn started m e w s in
  let hist' := hist ++ ((fun a => (m_now m, a)) <$> acts) in
  watch_inv trial hist' w' /\ forall r, res = Some r -> ends_well trial hist' r.
Proof.
  intros HI He. destruct e as [|code file|file| | | |]; unfold turn; cbn zeta.
  - split; [by apply watch_inv_quiet|]. intros r [= <-]. by split_and!; [done|intros []|right; left].
  - pose proof (checkReady_inv m file trial hist w s HI) as HC. destruct (checkReady m file w s) as [[acts w'] s']. split; [done|]. intros r [= <-]. destruct HC as [H1 H2 _ _ _ _]. simpl.
    unfold ends_well. simpl. destruct (w_trial w') eqn:Et; simpl; [|destruct (H2 eq_refl) as (_ & _ & Hc); split_and!; [done|by intros []|intros ->; by rewrite Hc]].
    destruct (H1 eq_refl) as (-> & Hc & _). destruct (Z.eqb_spec code ExitLockHeld) as [->|]; simpl; split_and!; try done; try (by intros []); [by right; right|by left].
  - match goal with |- context [checkReady m file ?w1 s] => pose proof (checkReady_inv m file trial hist w1 s) as HC; destruct (checkReady m file w1 s) as [[acts w'] s'] end.
    split; [|done]. apply HC. by destruct HI.
  - split; [by apply watch_inv_quiet|]. intros r [= <-]. unfold enabled, due in He. destruct (w_health w) as [t|] eqn:Eh; [|done]. destruct HI as [H1 H2 H3 _ _ _].
    destruct (w_trial w) eqn:Et; [|destruct (H2 eq_refl) as [? _]; congruence]. destruct (H1 eq_refl) as (-> & Hc & _). unfold ends_well. simpl. rewrite commits_app, Hc. split_and!; [done|by intros []|by left].
  - unfold enabled, due in He. destruct (w_stable w) as [t|] eqn:Es; [|done]. apply Z.leb_le in He. pose proof (commit_inv m trial hist w s HI) as HC. destruct (commit m w s) as [w' s']. split; [|done].
    destruct HI as [H1 H2 H3 H4 H5 _]. destruct (w_trial w); [|destruct (H2 eq_refl) as (_ & ? & _); congruence]. apply HC; [done| |].
    + destruct (w_ready w); [auto|]. rewrite H4 in Es; done.
    + destruct (H5 t Es) as (tr & info & ? & ?). exists tr, info. split; [done|lia].
  - split; [|done]. apply (watch_inv_quiet trial hist [(m_now m, ACheck)]) in HI; [|done]. unfold enabled, due in He. destruct HI as [H1 H2 H3 H4 H5 H6].
    split; simpl; try done. intros Ht. destruct (H1 Ht) as (_ & _ & Hk & _). by rewrite Hk in He.
  - unfold enabled in He. apply bool_decide_eq_true in He as [info Hi]. destruct (us_Check _ _ _ _ s) as [s' [c|]].
    + assert (w_trial w = false) as Et by (destruct (w_trial w) eqn:Et; [|done]; destruct (wi_trial _ _ _ HI Et) as (_ & _ & _ & ?); congruence).
      destruct (wi_settled _ _ _ HI Et) as (_ & _ & Hc). split; [apply watch_inv_quiet; [done|]; by destruct HI as [H1 H2 H3 H4 H5 H6]; split; simpl; try done; rewrite Et in *|].
      intros r [= <-]. unfold ends_well. simpl. rewrite commits_app, Hc. simpl. split_and!; [done|by destruct trial|by intros ->].
    + split; [|done]. simpl. rewrite app_nil_r. apply scheduleCheck_inv. destruct HI as [H1 H2 H3 H4 H5 H6]. split; simpl; try done. intros Ht. by destruct (H1 Ht) as (? & ? & ? & _).
Qed.

Lemma watch_loop_inv started trial events : forall hist w s, watch_inv trial hist w ->
  let '(acts, w', _, res) := watch_loop started events w s in
  watch_inv trial (hist ++ acts) w' /\ forall r, res = Some r -> ends_well trial (hist ++ acts) r.
Proof.
  induction events as [|[m e] events IH]; intros hist w s HI; simpl; [by rewrite app_nil_r|]. destruct (enabled w (m_now m) e) eqn:He; simpl; [|by apply IH].
  pose proof (turn_inv started m e trial hist w s HI He) as HT. destruct (turn started m e w s) as [[[acts w1] s1] res]. destruct HT as [HI1 HR]. destruct res as [r|]; [done|].
  specialize (IH _ w1 s1 HI1). destruct (watch_loop started events w1 s1) as [[[acts' w2] s2] res2]. by rewrite app_assoc.
Qed.

Lemma watch_start_inv started trial : watch_inv trial [] (watch_start started trial).
Proof. split; simpl; intros; subst; try done; set_solver. Qed.

(** C20. A version on trial is confirmed only after the worker reported ready and
    then stayed up for the stable window, and at most once.  A launch that reports
    a failed trial confirmed nothing and asks for no upgrade; an upgrade is only
    tried from a version that is confirmed; and a trial that was not confirmed
    ends as failed unless the supervisor was stopped or the worker found the
    client lock held. *)
Theorem trial_settled l trial s acts s' r : runOnce l trial s = (acts, s', Some r) ->
  (forall t, (t, ACommit) ∈ acts -> trial = true /\ was_stable acts t) /\ (commits acts <= 1)%nat /\ ends_well trial acts r.
Proof.
  unfold runOnce. destruct (ln_starts l).
  - pose proof (watch_loop_inv (ln_started l) trial (ln_events l) [] _ s (watch_start_inv (ln_started l) trial)) as HW.
    destruct (watch_loop _ _ _ s) as [[[acts1 w] s1] res]. destruct HW as [HI HR]. intros [= <- _ ->]. simpl in HI, HR. split_and!; [|destruct HI as [H1 H2 _ _ _ _]|by apply HR].
    + intros t Hin. split; [|by apply (wi_commits _ _ _ HI)]. destruct trial; [done|]. exfalso. destruct HI as [H1 H2 _ _ _ _]. destruct (w_trial w); [by destruct (H1 eq_refl)|].
      destruct (H2 eq_refl) as (_ & _ & Hc). apply length_zero_iff_nil in Hc. assert ((t, ACommit) ∈ @nil (Z * act)) as X; [|set_solver]. rewrite <- Hc. apply list_elem_of_In, filter_In. split; [by apply list_elem_of_In|done].
    + destruct (w_trial w); [destruct (H1 eq_refl) as (_ & -> & _); lia|]. destruct (H2 eq_refl) as (_ & _ & ->). destruct trial; lia.
  - intros [= <- _ <-]. split_and!; [set_solver|unfold commits; simpl; lia|]. unfold ends_well. simpl. destruct trial; split_and!; try done; try (by intros []). by left.
Qed.

(** ** Giving up *)

(** The launches [Run] counts: one that crashed before readiness, and one that
    found the client lock held.  A failed trial counts against its version. *)
Definition goes_on (r : runResult) : bool := negb (rr_stopped r) && bool_decide (rr_upgrade r = None) && bool_decide (rr_trialFailed r = []).
Definition lock_held (r : runResult) : bool := goes_on r && negb (rr_launchErr r) && (rr_code r =? ExitLockHeld).
Definition crashed (r : runResult) : bool :=
  goes_on r && (rr_launchErr r || negb ((rr_code r =? ExitOK) || (rr_code r =? ExitConfig) || (rr_code r =? ExitAuthFatal) || (rr_code r =? ExitLockHeld))).
Definition crashed_unready (r : runResult) : bool := crashed r && negb (rr_ready r).

Definition count (f : runResult -> bool) (es : list entry) : nat := length (List.filter (fun e => f (en_run e)) es).

(** The loop's counters as functions of the launches. *)
Definition streak (n : Z) (es : list entry) : Z := fold_left (fun n e => if crashed_unready (en_run e) then n + 1 else if lock_held (en_run e) then n else 0) es n.
Definition lock_streak (n : Z) (es : list entry) : Z := fold_left (fun n e => if lock_held (en_run e) then n + 1 else 0) es n.

Lemma lock_not_crash r : lock_held r = true -> crashed r = false.
Proof. unfold lock_held, crashed. destruct (goes_on r), (rr_launchErr r), (rr_code r =? ExitLockHeld); simpl; try done. intros _. by rewrite orb_true_r. Qed.

Lemma after_run_counts l r ct s :
  match (after_run l r ct s).2 with
  | Again ct' _ => ct_neverReady ct' = (if crashed_unready r then ct_neverReady ct + 1 else if lock_held r then ct_neverReady ct else 0) /\
      ct_lockRetries ct' = (if lock_held r then ct_lockRetries ct + 1 else 0) /\
      (ct_neverReady ct < cf_GiveUpAfter cfg -> 0 < cf_GiveUpAfter cfg -> ct_neverReady ct' < cf_GiveUpAfter cfg) /\
      (0 <= cf_LockRetries cfg -> ct_lockRetries ct' <= cf_LockRetries cfg)
  | Leave code =>
      code = ExitOK /\ (rr_stopped r = true \/ rr_code r = ExitOK) /\ crashed r = false /\ lock_held r = false \/
      (code = ExitConfig \/ code = ExitAuthFatal) /\ rr_code r = code /\ crashed r = false /\ lock_held r = false \/
      code = ExitLockHeld /\ lock_held r = true /\ cf_LockRetries cfg < ct_lockRetries ct + 1 \/
      code = ExitSupervisorGaveUp /\ crashed r = true /\ cf_GiveUpAfter cfg <= (if rr_ready r then 0 else ct_neverReady ct + 1)
  end.
Proof.
  unfold after_run, crashed_unready, lock_held, crashed, goes_on. destruct (rr_stopped r) eqn:Es; [simpl; tauto|]. destruct (rr_upgrade r) as [c|]; [simpl; lia|]. rewrite (bool_decide_eq_true_2 (None = None)) by done.
  case_bool_decide as Et; [|simpl; lia]. cbn [negb andb]. destruct (rr_launchErr r) eqn:El; cbn [negb andb orb].
  - destruct (Z.leb_spec (cf_GiveUpAfter cfg) (if rr_ready r then 0 else ct_neverReady ct + 1)); [simpl; tauto|]. destruct (AfterSession _ _ _) as [dl bo]. simpl. destruct (rr_ready r); simpl; lia.
  - destruct (Z.eqb_spec (rr_code r) ExitOK) as [E0|E0]; [rewrite E0; simpl; tauto|]. destruct (Z.eqb_spec (rr_code r) ExitConfig) as [E1|E1]; [rewrite E1; simpl; tauto|].
    destruct (Z.eqb_spec (rr_code r) ExitAuthFatal) as [E2|E2]; [rewrite E2; simpl; tauto|].
    cbn [orb]. destruct (Z.eqb_spec (rr_code r) ExitLockHeld) as [E3|E3].
    + destruct (Z.ltb_spec (cf_LockRetries cfg) (ct_lockRetries ct + 1)); [simpl; tauto|]. simpl. lia.
    + destruct (Z.leb_spec (cf_GiveUpAfter cfg) (if rr_ready r then 0 else ct_neverReady ct + 1)); [simpl; tauto|]. destruct (AfterSession _ _ _) as [dl bo]. simpl. destruct (rr_ready r); simpl; lia.
Qed.

Lemma streak_snoc n es e : streak n (es ++ [e]) = if crashed_unready (en_run e) then streak n es + 1 else if lock_held (en_run e) then streak n es else 0.
Proof. unfold streak. by rewrite fold_left_app. Qed.

Lemma lock_streak_snoc n es e : lock_streak n (es ++ [e]) = if lock_held (en_run e) then lock_streak n es + 1 else 0.
Proof. unfold lock_streak. by rewrite fold_left_app. Qed.

Lemma count_app f es es' : count f (es ++ es') = (count f es + count f es')%nat.
Proof. unfold count. by rewrite List.filter_app, length_app. Qed.

Lemma count_one f e : count f [e] = if f (en_run e) then 1%nat else 0%nat.
Proof. unfold count. simpl. by destruct (f (en_run e)). Qed.

(** Launches none of which ends a series of crashes before readiness. *)
Definition in_series (es : list entry) : Prop := Forall (fun e => crashed_unready (en_run e) = true \/ lock_held (en_run e) = true) es.

Lemma streak_spec es :
  (exists pre tail, es = pre ++ tail /\ in_series tail /\ Z.of_nat (count crashed_unready tail) = streak 0 es) /\
  (forall pre tail, es = pre ++ tail -> in_series tail -> Z.of_nat (count crashed_unready tail) <= streak 0 es).
Proof.
  induction es as [|e es [(pre & tail & -> & Ht & Hc) IH]] using rev_ind.
  - split; [exists [], []; by repeat split; constructor|]. intros pre tail Eq _. symmetry in Eq. by apply app_nil in Eq as [-> ->].
  - rewrite streak_snoc. destruct (crashed_unready (en_run e) || lock_held (en_run e)) eqn:Eo.
    + split.
      * exists pre, (tail ++ [e]). rewrite app_assoc. split; [done|]. split; [apply Forall_app; split; [done|]; apply Forall_singleton; by apply orb_true_iff in Eo|].
        rewrite count_app, count_one. destruct (crashed_unready (en_run e)); [lia|]. simpl in Eo. rewrite Eo. lia.
      * intros pre' tail' Eq Hs. destruct tail' as [|e' tail' _] using rev_ind; [change (count crashed_unready []) with 0%nat; assert (0 <= streak 0 (pre ++ tail)) by lia; destruct (crashed_unready _), (lock_held _); lia|].
        rewrite app_assoc in Eq. apply app_inj_tail in Eq as [Eq ->]. apply Forall_app in Hs as [Hs _]. specialize (IH pre' tail' Eq Hs). rewrite count_app, count_one.
        destruct (crashed_unready (en_run e')); [lia|]. simpl in Eo. rewrite Eo. lia.
    + apply orb_false_iff in Eo as [E1 E2]. rewrite E1, E2. split; [exists ((pre ++ tail) ++ [e]), []; rewrite app_nil_r; by repeat split; constructor|].
      intros pre' tail' Eq Hs. destruct tail' as [|e' tail' _] using rev_ind; [done|]. rewrite app_assoc in Eq. apply app_inj_tail in Eq as [_ ->]. apply Forall_app in Hs as [_ Hs].
      apply Forall_singleton in Hs as [?|?]; congruence.
Qed.

Lemma lock_streak_spec es :
  (exists pre tail, es = pre ++ tail /\ Forall (fun e => lock_held (en_run e) = true) tail /\ Z.of_nat (length tail) = lock_streak 0 es) /\
  (forall pre tail, es = pre ++ tail -> Forall (fun e => lock_held (en_run e) = true) tail -> Z.of_nat (length tail) <= lock_streak 0 es).
Proof.
  induction es as [|e es [(pre & tail & -> & Ht & Hc) IH]] using rev_ind.
  - split; [exists [], []; by repeat split; constructor|]. intros pre tail Eq _. symmetry in Eq. by apply app_nil in Eq as [-> ->].
  - rewrite lock_streak_snoc. destruct (lock_held (en_run e)) eqn:El.
    + split.
      * exists pre, (tail ++ [e]). rewrite app_assoc. split; [done|]. split; [apply Forall_app; split; [done|]; by apply Forall_singleton|]. rewrite length_app. simpl. lia.
      * intros pre' tail' Eq Hs. destruct tail' as [|e' tail' _] using rev_ind; [simpl; lia|]. rewrite app_assoc in Eq. apply app_inj_tail in Eq as [Eq ->]. apply Forall_app in Hs as [Hs _].
        specialize (IH pre' tail' Eq Hs). rewrite length_app. simpl. lia.
    + split; [exists ((pre ++ tail) ++ [e]), []; rewrite app_nil_r; by repeat split; constructor|]. intros pre' tail' Eq Hs. destruct tail' as [|e' tail' _] using rev_ind; [done|].
      rewrite app_assoc in Eq. apply app_inj_tail in Eq as [_ ->]. apply Forall_app in Hs as [_ Hs]. apply Forall_cons in Hs as [Hs _]. congruence.
Qed.

Lemma run_loop_counts ls : forall h ct s es s' code, 0 < cf_GiveUpAfter cfg -> 0 <= cf_LockRetries cfg ->
  ct_neverReady ct = streak 0 h -> ct_lockRetries ct = lock_streak 0 h -> ct_neverReady ct < cf_GiveUpAfter cfg -> ct_lockRetries ct <= cf_LockRetries cfg ->
  run_loop ls ct s = (es, s', code) ->
  (code = Some ExitSupervisorGaveUp <-> cf_GiveUpAfter cfg <= streak 0 (h ++ es)) /\ (code = Some ExitLockHeld <-> cf_LockRetries cfg < lock_streak 0 (h ++ es)) /\
  (forall c, code = Some c -> c = ExitConfig \/ c = ExitAuthFatal -> exists es' e, es = es' ++ [e] /\ rr_code (en_run e) = c).
Proof.
  induction ls as [|l ls IH]; intros h ct s es s' code Hg Hl Hn Hk Hn' Hk' HR; simpl in HR.
  { injection HR as <- _ <-. rewrite app_nil_r. split_and!; [split; [done|lia]|split; [done|lia]|done]. }
  destruct (ln_stopBefore l). { injection HR as <- _ <-. rewrite app_nil_r. split_and!; [split; [done|lia]|split; [done|lia]|by intros c [= <-] [?|?]]. }
  destruct (binary s) as [bin trial]. destruct (runOnce l trial s) as [[acts s1] [r|]]; [|injection HR as <- _ <-; rewrite app_nil_r; split_and!; [split; [done|lia]|split; [done|lia]|done]].
  set (e := mkEntry bin trial acts r) in HR. pose proof (after_run_counts l r ct s1) as HA. pose proof (streak_snoc 0 h e) as S1. pose proof (lock_streak_snoc 0 h e) as S2. simpl en_run in S1, S2.
  rewrite <- Hn in S1. rewrite <- Hk in S2. destruct (after_run l r ct s1) as [s2 [c|ct' wait]]; simpl in HA.
  - injection HR as <- _ <-. unfold crashed_unready in S1. assert (forall c', Some c = Some c' -> c' = ExitConfig \/ c' = ExitAuthFatal -> rr_code r = c' -> exists es' e0, [e] = es' ++ [e0] /\ rr_code (en_run e0) = c') as HX by (intros c' [= <-] _ ?; by exists [], e).
    destruct HA as [(-> & _ & E1 & E2)|[(Hc & Hr & E1 & E2)|[(-> & E2 & Hlt)|(-> & E1 & Hle)]]].
    + rewrite E1, E2 in S1. rewrite E2 in S2. simpl in S1. split_and!; [split; [done|lia]|split; [done|lia]|by intros c [= <-] [?|?]].
    + rewrite E1, E2 in S1. rewrite E2 in S2. simpl in S1. split_and!; [split; [destruct Hc as [-> | ->]; done|lia]|split; [destruct Hc as [-> | ->]; done|lia]|]. intros c' Hc' Hcc. apply HX; [done|done|congruence].
    + rewrite (lock_not_crash r E2), E2 in S1. rewrite E2 in S2. simpl in S1. split_and!; [split; [done|lia]|split; [lia|done]|by intros c [= <-] [?|?]].
    + destruct (lock_held r) eqn:E2; [apply lock_not_crash in E2; congruence|]. rewrite E1 in S1. destruct (rr_ready r); simpl in S1; [lia|]. split_and!; [split; [lia|done]|split; [done|lia]|by intros c [= <-] [?|?]].
  - destruct HA as (A1 & A2 & A3 & A4). specialize (A3 Hn' Hg). specialize (A4 Hl). rewrite <- A1 in S1. rewrite <- A2 in S2. destruct (_ && ln_stopWait l).
    { injection HR as <- _ <-. split_and!; [split; [done|lia]|split; [done|lia]|by intros c [= <-] [?|?]]. }
    destruct (run_loop ls ct' s2) as [[es1 s3] c1] eqn:HL. injection HR as <- _ <-. destruct (IH (h ++ [e]) ct' s2 es1 s3 c1 Hg Hl (eq_sym S1) (eq_sym S2) A3 A4 HL) as (I1 & I2 & I3).
    rewrite <- app_assoc in I1, I2. split_and!; [done|done|]. intros c Hc Hcc. destruct (I3 c Hc Hcc) as (es' & e0 & -> & ?). by exists (e :: es'), e0.
Qed.

(** C40. The supervisor gives up with exit code 70 exactly when [GiveUpAfter]
    launches in a row crashed before readiness, held locks in between not
    counting and a failed trial, an upgrade or a crash after readiness starting
    the count anew; and with 75 exactly when the client lock was held in more than
    [LockRetries] launches in a row.  It passes on 77 and 78 only from a worker. *)
Theorem supervisor_gives_up m ls s es s' code : 0 < cf_GiveUpAfter cfg -> 0 <= cf_LockRetries cfg -> Run m ls s = (es, s', code) ->
  (code = Some ExitSupervisorGaveUp <-> exists pre tail, es = pre ++ tail /\ in_series tail /\ cf_GiveUpAfter cfg <= Z.of_nat (count crashed_unready tail)) /\
  (code = Some ExitLockHeld <-> exists pre tail, es = pre ++ tail /\ Forall (fun e => lock_held (en_run e) = true) tail /\ cf_LockRetries cfg < Z.of_nat (length tail)) /\
  (forall c, code = Some c -> c = ExitConfig \/ c = ExitAuthFatal -> exists es' e, es = es' ++ [e] /\ rr_code (en_run e) = c).
Proof.
  intros Hg Hl HR. unfold Run in HR. destruct (run_loop_counts ls [] start_counters (if cf_Upgrades cfg then us_Resume (m_env m) (m_now m) s else s) es s' code Hg Hl eq_refl eq_refl Hg Hl HR) as (H1 & H2 & H3).
  destruct (streak_spec es) as [(p1 & t1 & E1 & S1 & C1) M1]. destruct (lock_streak_spec es) as [(p2 & t2 & E2 & S2 & C2) M2]. split_and!; [rewrite H1|rewrite H2|done].
  - split; [intros Hx; exists p1, t1; split_and!; [done|done|by rewrite C1]|]. intros (p & t & Ep & Hs & Hc). specialize (M1 p t Ep Hs). simpl. lia.
  - split; [intros Hx; exists p2, t2; split_and!; [done|done|by rewrite C2]|]. intros (p & t & Ep & Hs & Hc). specialize (M2 p t Ep Hs). simpl. lia.
Qed.

(** ** What the release side keeps, the supervisor keeps *)

(** A property of the store every call keeps at the moments [W], when what is
    activated was offered by a check. *)
Record kept (W : moment -> Prop) (P : D -> Prop) (G : Candidate -> Prop) : Prop := {
  kp_Check : forall m cancelled running s, W m -> P s -> P (us_Check (m_env m) cancelled (m_now m) running s).1 /\ forall c, (us_Check (m_env m) cancelled (m_now m) running s).2 = Some c -> G c;
  kp_Activate : forall m c s, W m -> G c -> P s -> P (us_Activate (m_env m) (m_now m) c s);
  kp_Commit : forall m s, W m -> P s -> P (us_Commit (m_env m) (m_now m) s);
  kp_Rollback : forall m reason s, W m -> P s -> P (us_Rollback (m_env m) (m_now m) reason s) }.

(** The moments of a launch. *)
Definition launch_within (W : moment -> Prop) (l : launch) : Prop := Forall (fun x => W x.1) (ln_events l) /\ (forall m, ln_late l = Some m -> W m) /\ W (ln_after l).

Section keeping.
Variables (W : moment -> Prop) (P : D -> Prop) (G : Candidate -> Prop).
Hypothesis K : kept W P G.

Lemma checkReady_keeps m file w s : W m -> P s -> P (checkReady m file w s).2.
Proof.
  intros Hm Hs. unfold checkReady, onFirstReady, commit. destruct file as [info|]; [|done]. destruct (_ || _); [|done]. destruct (negb (w_ready w)); [|done]. simpl. destruct (w_trial w); [|done].
  destruct (_ <=? 0); [|done]. simpl. by apply (kp_Commit _ _ _ K).
Qed.

Lemma turn_keeps started m e w s : W m -> P s -> P (turn started m e w s).1.2 /\ forall r c, (turn started m e w s).2 = Some r -> rr_upgrade r = Some c -> G c.
Proof.
  intros Hm Hs. destruct e as [|code file|file| | | |]; unfold turn; cbn zeta; try (split; [done|by intros r c [= <-]]).
  - pose proof (checkReady_keeps m file w s Hm Hs) as HC. destruct (checkReady m file w s) as [[? ?] ?]. split; [done|by intros r c [= <-]].
  - match goal with |- context [checkReady m file ?w1 s] => pose proof (checkReady_keeps m file w1 s Hm Hs) as HC; destruct (checkReady m file w1 s) as [[? ?] ?] end. done.
  - split; [|done]. unfold commit. simpl. by apply (kp_Commit _ _ _ K).
  - destruct (kp_Check _ _ _ K m false (default (w_running w) (w_checking w)) s Hm Hs) as [HP HG]. destruct (us_Check _ _ _ _ s) as [s' [c|]]; simpl in HP, HG; (split; [done|]); [|done].
    intros r c' [= <-]. simpl. intros [= <-]. by apply HG.
Qed.

Lemma watch_loop_keeps started events : forall w s, Forall (fun x => W x.1) events -> P s ->
  P (watch_loop started events w s).1.2 /\ forall r c, (watch_loop started events w s).2 = Some r -> rr_upgrade r = Some c -> G c.
Proof.
  induction events as [|[m e] events IH]; intros w s HW Hs; simpl; [done|]. apply Forall_cons in HW as [Hm HW]. simpl in Hm. destruct (negb _); [by apply IH|].
  destruct (turn_keeps started m e w s Hm Hs) as [HP HG]. destruct (turn started m e w s) as [[[acts w1] s1] [r|]]; simpl in HP, HG; [done|].
  destruct (IH w1 s1 HW HP) as [HP1 HG1]. destruct (watch_loop started events w1 s1) as [[[? ?] ?] ?]. done.
Qed.

Lemma runOnce_keeps l trial s : launch_within W l -> P s -> P (runOnce l trial s).1.2 /\ forall r c, (runOnce l trial s).2 = Some r -> rr_upgrade r = Some c -> G c.
Proof.
  intros (He & Hl & _) Hs. unfold runOnce. destruct (ln_starts l); [|by split; [|intros r c [= <-]]].
  destruct (watch_loop_keeps (ln_started l) (ln_events l) (watch_start (ln_started l) trial) s He Hs) as [HP HG]. destruct (watch_loop _ _ _ s) as [[[acts w] s1] res]. simpl in HP, HG |- *.
  split; [|done]. destruct res; [|done]. destruct (w_checking w) as [running|]; [|done]. destruct (ln_late l) as [m|] eqn:El; [|done]. by apply (kp_Check _ _ _ K); [apply Hl|].
Qed.

Lemma after_run_keeps l r ct s : launch_within W l -> P s -> (forall c, rr_upgrade r = Some c -> G c) -> P (after_run l r ct s).1.
Proof.
  intros (_ & _ & Hm) Hs HG. unfold after_run. cbn zeta. destruct (AfterSession _ _ _). destruct (rr_stopped r); [done|]. destruct (rr_upgrade r) as [c|]; [by apply (kp_Activate _ _ _ K); auto|].
  destruct (negb (bool_decide (rr_trialFailed r = []))); [by apply (kp_Rollback _ _ _ K)|]. by repeat match goal with |- context [if ?b then _ else _] => destruct b end.
Qed.

(** Every launch finds the property. *)
Lemma run_loop_keeps (Q : option bytes -> Prop) ls : (forall s, P s -> Q (binary s).1) -> forall ct s es s' code, Forall (launch_within W) ls -> P s ->
  run_loop ls ct s = (es, s', code) -> P s' /\ Forall (fun e => Q (en_bin e)) es.
Proof.
  intros HQ. induction ls as [|l ls IH]; intros ct s es s' code HW Hs HR; simpl in HR; [by injection HR as <- <- _|]. apply Forall_cons in HW as [Hl HW].
  destruct (ln_stopBefore l); [by injection HR as <- <- _|]. pose proof (HQ s Hs) as Hq. destruct (binary s) as [bin trial]. simpl in Hq. destruct (runOnce_keeps l trial s Hl Hs) as [HP HG].
  destruct (runOnce l trial s) as [[acts s1] [r|]]; simpl in HP, HG; [|by injection HR as <- <- _]. pose proof (after_run_keeps l r ct s1 Hl HP (fun c Hc => HG r c eq_refl Hc)) as HA.
  destruct (after_run l r ct s1) as [s2 [c|ct' wait]]; simpl in HA; [injection HR as <- <- _; by repeat constructor|]. destruct (_ && _); [injection HR as <- <- _; by repeat constructor|].
  destruct (run_loop ls ct' s2) as [[es1 s3] c1] eqn:HL. injection HR as <- <- _. destruct (IH _ _ _ _ _ HW HA HL). split; [done|by constructor].
Qed.
End keeping.
End supervisor.

(** ** The supervisor over the upgrader *)

Section over_upgrader.
Context `{GoUnicode}.
Variable u : Upgrader.

(** [var _ supervisor.Upgrades = ( *Upgrader)(nil)]; the supervisor only logs
    the errors. *)
#[local] Instance upgrader_upgrades : Upgrades disk (io * check_env) := {|
  us_Resume e now d := (Resume u e.1 d now).1;
  us_Binary d := Binary u d;
  us_NextCheck first draw := NextCheck u first draw;
  us_Check e cancelled now running d :=
    let env := mkCheckEnv (ce_latest e.2) (ce_downloads e.2) (ce_installs e.2) (ce_preflight e.2) (ce_cancelled e.2 || cancelled) in
    let '(d, res) := Check_ u e.1 d now running env in (d, match res with Ok c => c | Err _ => None end);
  us_Activate e now c d := (Activate e.1 d now c).1;
  us_Commit e now d := (Commit u e.1 d now).1;
  us_Rollback e now reason d := (Rollback u e.1 d reason now).1 |}.

(** The version is marked until [until] and is neither current nor the way back. *)
Definition down (version : bytes) (until : Z) (d : disk) : Prop :=
  trial_recorded d /\ banned version until d /\ exists st, Load d = Ok st /\ st_Current st <> version /\ st_Previous st <> version.

Lemma down_op i now o v until d : v <> [] -> until <= now + up_BadVersionTTL u -> now < until -> (forall c, o = OpActivate c -> ca_Version c <> v) ->
  down v until d -> down v until (apply_op u i now o d).
Proof.
  intros Hv Hu Hn Ho (HT & HB & st & HL & Hc & Hp). split; [by apply trial_recorded_op|]. split; [by apply banned_op|]. destruct (op_effect u i now o d st HL) as (st' & HL' & Hs). exists st'. split; [done|].
  destruct Hs as [->|Hs]; [done|]. destruct o; simpl in Hs.
  - subst st'. unfold resumed. destruct (st_Pending st) eqn:Ep; (destruct (installedIsNewer u _); simpl; [done|]); [|done]. unfold rolled. rewrite Ep. by case_bool_decide.
  - by destruct Hs as (-> & -> & _).
  - subst st'. simpl. auto.
  - by subst st'.
  - subst st'. unfold rolled. destruct (st_Pending st); by case_bool_decide.
Qed.

Lemma Check_not_banned i now running env v until d d' c : now < until -> down v until d -> Check_ u i d now running env = (d', Ok (Some c)) -> ca_Version c <> v.
Proof.
  intros Hn (_ & (st & m & HL & Hm & Hle) & _) HC Ev. destruct (Check_offers u _ _ _ _ _ _ _ _ HL HC) as (latest & _ & Hu & Hc & _).
  apply Decide_target with (target := dc_Target (Decide (ri_Version running) st now latest (ri_ServerVersion running))) in Hu; [|done].
  rewrite <- Hc, Ev in Hu. unfold IsBad in Hu. rewrite Hm in Hu. apply Z.ltb_ge in Hu. lia.
Qed.

(** While the mark holds, no call brings the version back. *)
Lemma down_kept v T : v <> [] -> kept (fun m => T <= m_now m < T + up_BadVersionTTL u) (down v (T + up_BadVersionTTL u)) (fun c => ca_Version c <> v).
Proof.
  intros Hv. split.
  - intros m cancelled running d Hm Hd. simpl. set (env := mkCheckEnv _ _ _ _ _). pose proof (down_op (m_env m).1 (m_now m) (OpCheck running env) v (T + up_BadVersionTTL u) d Hv ltac:(lia) ltac:(lia) ltac:(done) Hd) as HO. simpl in HO.
    pose proof (Check_not_banned (m_env m).1 (m_now m) running env v (T + up_BadVersionTTL u) d) as HN. destruct (Check_ _ _ _ _ _ _) as [d' [c|e]]; simpl in HO |- *; (split; [done|]); [|done].
    intros c' ->. eapply HN; [|done|done]. lia.
  - intros m c d Hm Hc Hd. apply (down_op (m_env m).1 (m_now m) (OpActivate c)); [done|lia|lia|by intros ? [= <-]|done].
  - intros m d Hm Hd. apply (down_op (m_env m).1 (m_now m) OpCommit); [done|lia|lia|done|done].
  - intros m reason d Hm Hd. apply (down_op (m_env m).1 (m_now m) (OpRollback reason)); [done|lia|lia|done|done].
Qed.

Lemma down_not_launched cfg v until d : down v until d -> (binary cfg d).1 <> Some v.
Proof.
  intros (_ & _ & st & HL & Hc & _). unfold binary. destruct (cf_Upgrades cfg); [|done]. simpl. unfold Binary. rewrite HL. case_bool_decide; [done|].
  destruct (versionDir (st_Current st)) as [dir|] eqn:Ed; [|done]. apply versionDir_Some in Ed as [-> _]. destruct (installedIsNewer u _); [done|]. destruct (negb _); [done|]. simpl. congruence.
Qed.


(** The world in which the program of the new version cannot be started and the
    update directory cannot be written. *)
Definition stuck_launch (now : Z) (env : check_env) (jitter : Z -> Z) : launch :=
  mkLaunch false now false [] None (mkMoment now 0 (mkIO false (fun _ => false), env)) jitter false.

Lemma Rollback_stuck now reason d : (Rollback u (mkIO false (fun _ => false)) d reason now).1 = d.
Proof.
  unfold Rollback. destruct (Load d) as [st|]; [|done]. unfold rollbackInState. cbn zeta. destruct (bool_decide (_ = [])); [done|]. by case_bool_decide.
Qed.

(** A trial that fails while the update directory cannot be written is
    launched again at once, and again: there is no wait between the launches and
    the supervisor never gives up, however many there are. *)
Theorem unwritable_rollback_spins cfg d v now env jitter bo n : cf_Upgrades cfg = true -> Binary u d = (Some v, true) ->
  run_loop cfg (replicate n (stuck_launch now env jitter)) (mkCounters bo 0 0) d =
    (replicate n (mkEntry (Some v) true [] (mkRunResult 0 false false 0 true None unstarted_reason)), d, None).
Proof.
  intros Hu Hb. induction n as [|n IH]; [done|]. cbn [replicate run_loop]. cbn [stuck_launch ln_stopBefore]. unfold binary. rewrite Hu. simpl us_Binary. rewrite Hb. cbn [runOnce stuck_launch ln_starts].
  unfold after_run. cbn [rr_stopped rr_upgrade rr_trialFailed ln_after m_env m_now]. rewrite bool_decide_eq_false_2 by done. cbn [negb]. simpl us_Rollback. rewrite Rollback_stuck.
  rewrite bool_decide_eq_false_2 by (by intros []). cbn [andb ct_backoff]. by rewrite IH.
Qed.
End over_upgrader.

(** ** The wait between restarts *)

Lemma double_spec n : forall delay max, 0 < delay -> Z.min (double n delay max) max = Z.min (delay * 2 ^ Z.of_nat n) max.
Proof.
  induction n as [|n IH]; intros delay max Hd; simpl double; [by rewrite Z.mul_1_r|]. rewrite Nat2Z.inj_succ, Z.pow_succ_r by lia. pose proof (Z.pow_pos_nonneg 2 (Z.of_nat n) ltac:(lia) ltac:(lia)).
  destruct (Z.ltb_spec delay max); [rewrite IH by lia; f_equal; lia|]. rewrite !Z.min_r; nia.
Qed.

(** The wait is the base doubled at each attempt up to the ceiling, its upper half
    random. *)
Lemma Delay_bounds base max attempt jitter : 0 < base -> 0 < max -> 1 <= attempt -> (forall span, 0 <= span -> 0 <= jitter span <= span) ->
  let d := Z.min (base * 2 ^ (attempt - 1)) max in d / 2 <= Delay base max attempt jitter <= d.
Proof.
  intros Hb Hm Ha Hj. cbn zeta. unfold Delay. rewrite double_spec by done. rewrite Z2Nat.id by lia. set (d := Z.min _ max).
  assert (0 < d) by (subst d; pose proof (Z.pow_pos_nonneg 2 (attempt - 1) ltac:(lia) ltac:(lia)); nia).
  pose proof (Z.div_mod d 2 ltac:(lia)). pose proof (Z.mod_pos_bound d 2 ltac:(lia)). specialize (Hj (d - d / 2) ltac:(lia)). lia.
Qed.

(** A session that outlived [StableAfter] makes the next wait the first one. *)
Lemma AfterSession_resets b lived jitter : StableAfter <= lived -> AfterSession b lived jitter = (Delay (bo_base b) (bo_max b) 1 jitter, mkBackoff (bo_base b) (bo_max b) 1 0).
Proof. intros Hl. unfold AfterSession. by rewrite (proj2 (Z.leb_le _ _) Hl). Qed.

(** *** The deployment of [SelfUpdate] under a supervisor *)

#[local] Existing Instance sample_unicode.
#[local] Existing Instance upgrader_upgrades.

Definition sample_cfg : Config := New (mkConfig 0 0 0 2 1 0 true 0 (60 * Second)).
Definition sample_env : io * check_env := (sample_io, sample_check).
Definition at_ (now : Z) : moment := mkMoment (now * Second) 0 sample_env.
Definition crash_launch (now code : Z) : launch := mkLaunch false (now * Second) true [(at_ (now + 1), EvExit code None)] None (at_ (now + 2)) (fun _ => 0) false.
Definition trial_launch : launch :=
  mkLaunch false 0 true [(at_ 1, EvPoll (Some sample_running)); (at_ 30, EvStable); (at_ 61, EvStable); (at_ 70, EvExit 1 None)] None (at_ 71) (fun _ => 0) false.

(** The stable window is over at 61 seconds; the worker may crash then. *)
Lemma trial_settled_witness :
  (runOnce (H := upgrader_upgrades sample_upgrader) sample_cfg trial_launch true sample_activated).1.1 = [(1 * Second, AReady sample_running); (61 * Second, ACommit)] /\
  was_stable sample_cfg [(1 * Second, AReady sample_running); (61 * Second, ACommit)] (61 * Second).
Proof.
  split; [vm_compute; reflexivity|].
  apply (fun x => proj2 (proj1 (trial_settled (H := upgrader_upgrades sample_upgrader) sample_cfg trial_launch true sample_activated _
    (runOnce (H := upgrader_upgrades sample_upgrader) sample_cfg trial_launch true sample_activated).1.2 (mkRunResult 1 true false (70 * Second) false None []) x) (61 * Second) ltac:(right; left))).
  vm_compute. reflexivity.
Defined.

Lemma supervisor_gives_up_witness :
  exists es s', Run (H := upgrader_upgrades sample_upgrader) sample_cfg (at_ 0) [crash_launch 1 1; crash_launch 5 75; crash_launch 10 2] sample_disk = (es, s', Some 70) /\
    exists pre tail, es = pre ++ tail /\ in_series tail /\ 2 <= Z.of_nat (count crashed_unready tail).
Proof.
  destruct (Run (H := upgrader_upgrades sample_upgrader) sample_cfg (at_ 0) [crash_launch 1 1; crash_launch 5 75; crash_launch 10 2] sample_disk) as [[es s'] code] eqn:HR. exists es, s'.
  assert (code = Some 70) as -> by (apply (f_equal snd) in HR; vm_compute in HR; by rewrite <- HR). split; [reflexivity|].
  apply (proj1 (proj1 (supervisor_gives_up (H := upgrader_upgrades sample_upgrader) sample_cfg (at_ 0) [crash_launch 1 1; crash_launch 5 75; crash_launch 10 2] sample_disk es s' (Some 70) eq_refl ltac:(discriminate) HR))). reflexivity.
Defined.


Lemma unwritable_rollback_spins_witness :
  length (run_loop (H := upgrader_upgrades sample_upgrader) sample_cfg (replicate 100 (stuck_launch 5 sample_check (fun _ => 0))) (mkCounters (mkBackoff 1 1 0 0) 0 0) sample_activated).1.1 = 100%nat.
Proof.
  rewrite (unwritable_rollback_spins sample_upgrader sample_cfg sample_activated #"v1.3.0" 5 sample_check (fun _ => 0) (mkBackoff 1 1 0 0) 100 eq_refl ltac:(vm_compute; reflexivity)).
  cbn [fst]. apply length_replicate.
Defined.
